(** * A segregated-free-list allocator (malloclab.c), embedded and verified

    The allocator of [src/malloclab.c] manages one growable arena.  Block
    headers and footers are 32-bit words packing a size (a multiple of 8)
    with two status bits; free blocks are threaded on ten doubly linked
    lists whose links are 32-bit offsets from [heap_listp].

    The embedding is shallow: every C function becomes a Rocq function on an
    explicit [state] (the byte memory, the break of the arena and the C
    globals).  [size_t] is 64 bits wide, [unsigned int] 32 bits; their
    wrap-around is written out with [wrap64] and [wrap32]. *)

From Stdlib Require Import ZArith List Bool Lia.
Import ListNotations.
Open Scope Z_scope.

(** ** Machine integers *)

Definition wrap32 (x : Z) : Z := x mod 2 ^ 32.
Definition wrap64 (x : Z) : Z := x mod 2 ^ 64.

(** [(void * )-1] and [(long)-1] seen as a 64-bit pattern. *)
Definition MINUS1 : Z := 2 ^ 64 - 1.

(** A C condition: any nonzero value is true. *)
Definition nz (x : Z) : bool := negb (x =? 0).

(** ** Byte-addressed memory *)

Definition memory := Z -> Z.

Definition load8 (m : memory) (a : Z) : Z := m a mod 256.

Definition store8 (m : memory) (a v : Z) : memory :=
  fun x => if x =? a then v mod 256 else m x.

(** [GET(p)] and [PUT(p, val)]: a little-endian [unsigned int] access. *)
Definition GET (m : memory) (p : Z) : Z :=
  load8 m p + 2 ^ 8 * load8 m (p + 1) + 2 ^ 16 * load8 m (p + 2)
  + 2 ^ 24 * load8 m (p + 3).

Definition PUT (m : memory) (p val : Z) : memory :=
  store8 (store8 (store8 (store8 m p val) (p + 1) (val / 2 ^ 8))
                 (p + 2) (val / 2 ^ 16)) (p + 3) (val / 2 ^ 24).

(** The C library's [memcpy] and [memset] on non-overlapping regions. *)
Definition memcpy (m : memory) (dst src n : Z) : memory :=
  fun x => if (dst <=? x) && (x <? dst + n) then m (src + (x - dst)) else m x.

Definition memset (m : memory) (p c n : Z) : memory :=
  fun x => if (p <=? x) && (x <? p + n) then c mod 256 else m x.

(** ** Constants and macros *)

Definition ALIGNMENT : Z := 8.
Definition WSIZE : Z := 4.
Definition DSIZE : Z := 8.
Definition CHUNKSIZE : Z := Z.shiftl 1 12.

Definition MAX (x y : Z) : Z := if x >? y then x else y.

Definition PACK (size alloc : Z) : Z := Z.lor size alloc.

Definition GET_SIZE (m : memory) (p : Z) : Z := Z.land (GET m p) (Z.lnot 7).
Definition GET_ALLOC (m : memory) (p : Z) : Z := Z.land (GET m p) 1.
Definition GET_PREV_ALLOC (m : memory) (p : Z) : Z := Z.land (GET m p) 2.

Definition HDRP (bp : Z) : Z := bp - WSIZE.
Definition FTRP (m : memory) (bp : Z) : Z := bp + GET_SIZE m (HDRP bp) - DSIZE.

Definition NEXT_BLKP (m : memory) (bp : Z) : Z := bp + GET_SIZE m (bp - WSIZE).
Definition PREV_BLKP (m : memory) (bp : Z) : Z := bp - GET_SIZE m (bp - DSIZE).

(** Links are stored relative to [heap_listp] ([hp] below). *)
Definition ADDR2OF (hp address : Z) : Z := wrap64 (address - hp).
Definition OF2ADDR (hp offset : Z) : Z := wrap64 (offset + hp).

Definition GET_PREV (m : memory) (hp bp : Z) : Z := OF2ADDR hp (GET m bp).
Definition GET_NEXT (m : memory) (hp bp : Z) : Z := OF2ADDR hp (GET m (bp + WSIZE)).

(** [SET_PREV(bp, val)] expands to
    [*(unsigned int * )bp = (unsigned int)(size_t)(val) - (size_t)(heap_listp)]:
    the cast binds to [val] alone, the difference is taken on [size_t] and
    the store truncates it. *)
Definition link_word (hp val : Z) : Z := wrap32 (wrap64 (wrap32 val - hp)).

Definition SET_PREV (m : memory) (hp bp val : Z) : memory :=
  PUT m bp (link_word hp val).
Definition SET_NEXT (m : memory) (hp bp val : Z) : memory :=
  PUT m (bp + WSIZE) (link_word hp val).

(** ** Allocator state: the arena and the C globals *)

Record state : Type := mkState {
  mem : memory;
  mem_brk : Z;          (* first byte past the arena *)
  mem_max_addr : Z;     (* the arena may not grow past this address *)
  heap_listp : Z;
  root : Z;
  root1 : Z; root2 : Z; root3 : Z; root4 : Z; root5 : Z;
  root6 : Z; root7 : Z; root8 : Z; root9 : Z; root10 : Z
}.

Definition set_mem (s : state) (m : memory) : state :=
  mkState m (mem_brk s) (mem_max_addr s) (heap_listp s) (root s)
    (root1 s) (root2 s) (root3 s) (root4 s) (root5 s)
    (root6 s) (root7 s) (root8 s) (root9 s) (root10 s).

Definition set_brk (s : state) (b : Z) : state :=
  mkState (mem s) b (mem_max_addr s) (heap_listp s) (root s)
    (root1 s) (root2 s) (root3 s) (root4 s) (root5 s)
    (root6 s) (root7 s) (root8 s) (root9 s) (root10 s).

Definition set_heap_listp (s : state) (p : Z) : state :=
  mkState (mem s) (mem_brk s) (mem_max_addr s) p (root s)
    (root1 s) (root2 s) (root3 s) (root4 s) (root5 s)
    (root6 s) (root7 s) (root8 s) (root9 s) (root10 s).

Definition set_root (s : state) (r : Z) : state :=
  mkState (mem s) (mem_brk s) (mem_max_addr s) (heap_listp s) r
    (root1 s) (root2 s) (root3 s) (root4 s) (root5 s)
    (root6 s) (root7 s) (root8 s) (root9 s) (root10 s).

(** All ten list heads at once, as [mm_init] assigns them. *)
Definition set_all_roots (s : state) (r : Z) : state :=
  mkState (mem s) (mem_brk s) (mem_max_addr s) (heap_listp s) (root s)
    r r r r r r r r r r.

(** Head number [k] (0 for [root1] ... 9 for [root10]). *)
Definition nth_root (s : state) (k : nat) : Z :=
  match k with
  | 0%nat => root1 s | 1%nat => root2 s | 2%nat => root3 s | 3%nat => root4 s
  | 4%nat => root5 s | 5%nat => root6 s | 6%nat => root7 s | 7%nat => root8 s
  | 8%nat => root9 s | _ => root10 s
  end.

Definition set_nth_root (s : state) (k : nat) (r : Z) : state :=
  let f (i : nat) := if Nat.eqb i (Nat.min k 9) then r else nth_root s i in
  mkState (mem s) (mem_brk s) (mem_max_addr s) (heap_listp s) (root s)
    (f 0%nat) (f 1%nat) (f 2%nat) (f 3%nat) (f 4%nat)
    (f 5%nat) (f 6%nat) (f 7%nat) (f 8%nat) (f 9%nat).

Definition put (s : state) (p val : Z) : state := set_mem s (PUT (mem s) p val).

(** Modelled from the spec: the arena-growth primitive ([mem_sbrk] of the
    lab's memlib, which is not among the sources).  It extends the managed
    region by exactly [incr] bytes and returns the start of the new region,
    or signals failure with [(void * )-1] when the environment cannot
    provide the memory, leaving the arena as it was. *)
Definition mem_sbrk (s : state) (incr : Z) : Z * state :=
  if mem_brk s + incr >? mem_max_addr s then (MINUS1, s)
  else (mem_brk s, set_brk s (mem_brk s + incr)).

(** ** Free-list heads *)

Definition size2ptr (s : state) (size : Z) : Z :=
  if size <=? 16 then root1 s
  else if size <=? 32 then root2 s
  else if size <=? 64 then root3 s
  else if size <=? 128 then root4 s
  else if size <=? 256 then root5 s
  else if size <=? 512 then root6 s
  else if size <=? 1024 then root7 s
  else if size <=? 2048 then root8 s
  else if size <=? 4096 then root9 s
  else root10 s.

Definition update_root (s : state) (size : Z) : state :=
  if size <=? 16 then set_nth_root s 0 (root s)
  else if size <=? 32 then set_nth_root s 1 (root s)
  else if size <=? 64 then set_nth_root s 2 (root s)
  else if size <=? 128 then set_nth_root s 3 (root s)
  else if size <=? 256 then set_nth_root s 4 (root s)
  else if size <=? 512 then set_nth_root s 5 (root s)
  else if size <=? 1024 then set_nth_root s 6 (root s)
  else if size <=? 2048 then set_nth_root s 7 (root s)
  else if size <=? 4096 then set_nth_root s 8 (root s)
  else set_nth_root s 9 (root s).

(** ** Free-list insertion and removal *)

Definition insert_list (s : state) (bp size : Z) : state :=
  let s := set_root s (size2ptr s size) in
  let s := set_mem s (SET_PREV (mem s) (heap_listp s) bp (heap_listp s)) in
  let s := set_mem s (SET_NEXT (mem s) (heap_listp s) bp (root s)) in
  let s := if negb (root s =? heap_listp s)
           then set_mem s (SET_PREV (mem s) (heap_listp s) (root s) bp)
           else s in
  let s := set_root s bp in
  update_root s size.

Definition remove_list (s : state) (bp size : Z) : state :=
  let prev := GET_PREV (mem s) (heap_listp s) bp in
  let next := GET_NEXT (mem s) (heap_listp s) bp in
  let s := set_root s (size2ptr s size) in
  let s := if negb (prev =? heap_listp s)
           then set_mem s (SET_NEXT (mem s) (heap_listp s) prev next)
           else s in
  let s := if negb (next =? heap_listp s)
           then set_mem s (SET_PREV (mem s) (heap_listp s) next prev)
           else s in
  let s := if bp =? root s then set_root s next else s in
  update_root s size.

(** ** Boundary-tag coalescing *)

Definition coalesce (s : state) (bp : Z) : Z * state :=
  let prev_alloc := GET_PREV_ALLOC (mem s) (HDRP bp) in
  let next_alloc := GET_ALLOC (mem s) (HDRP (NEXT_BLKP (mem s) bp)) in
  let size := GET_SIZE (mem s) (HDRP bp) in
  let '(bp, size, s) :=
    if nz prev_alloc && nz next_alloc then            (* Case 1 *)
      (bp, size, s)
    else if nz prev_alloc && negb (nz next_alloc) then (* Case 2 *)
      let size := wrap64 (size + GET_SIZE (mem s) (HDRP (NEXT_BLKP (mem s) bp))) in
      let s := remove_list s (NEXT_BLKP (mem s) bp)
                 (GET_SIZE (mem s) (HDRP (NEXT_BLKP (mem s) bp))) in
      let s := put s (HDRP bp) (PACK size 2) in
      let s := put s (FTRP (mem s) bp) (PACK size 0) in
      (bp, size, s)
    else if negb (nz prev_alloc) && nz next_alloc then (* Case 3 *)
      let size := wrap64 (size + GET_SIZE (mem s) (HDRP (PREV_BLKP (mem s) bp))) in
      let s := remove_list s (PREV_BLKP (mem s) bp)
                 (GET_SIZE (mem s) (HDRP (PREV_BLKP (mem s) bp))) in
      let s := put s (FTRP (mem s) bp) (PACK size 0) in
      let s := put s (HDRP (PREV_BLKP (mem s) bp))
                 (PACK size (GET_PREV_ALLOC (mem s) (HDRP (PREV_BLKP (mem s) bp)))) in
      (PREV_BLKP (mem s) bp, size, s)
    else                                               (* Case 4 *)
      let size := wrap64 (size +
                    wrap32 (GET_SIZE (mem s) (HDRP (PREV_BLKP (mem s) bp)) +
                            GET_SIZE (mem s) (FTRP (mem s) (NEXT_BLKP (mem s) bp)))) in
      let s := remove_list s (NEXT_BLKP (mem s) bp)
                 (GET_SIZE (mem s) (HDRP (NEXT_BLKP (mem s) bp))) in
      let s := remove_list s (PREV_BLKP (mem s) bp)
                 (GET_SIZE (mem s) (HDRP (PREV_BLKP (mem s) bp))) in
      let s := put s (HDRP (PREV_BLKP (mem s) bp))
                 (PACK size (GET_PREV_ALLOC (mem s) (HDRP (PREV_BLKP (mem s) bp)))) in
      let s := put s (FTRP (mem s) (NEXT_BLKP (mem s) bp)) (PACK size 0) in
      (PREV_BLKP (mem s) bp, size, s)
  in
  let s := insert_list s bp size in
  let s := put s (HDRP (NEXT_BLKP (mem s) bp))
             (Z.land (GET (mem s) (HDRP (NEXT_BLKP (mem s) bp))) (Z.lnot 2)) in
  (bp, s).

(** ** Arena growth *)

Definition extend_heap (s : state) (words : Z) : Z * state :=
  let size := if nz (words mod 2) then wrap64 (wrap64 (words + 1) * WSIZE)
              else wrap64 (words * WSIZE) in
  let '(bp, s) := mem_sbrk s size in
  if bp =? MINUS1 then (0, s)
  else
    let s := put s (HDRP bp) (PACK size (GET_PREV_ALLOC (mem s) (HDRP bp))) in
    let s := put s (FTRP (mem s) bp) (PACK size 0) in
    let s := put s (HDRP (NEXT_BLKP (mem s) bp)) (PACK 0 1) in
    coalesce s bp.

(** ** Initialisation *)

Definition mm_init (s : state) : Z * state :=
  let '(p, s) := mem_sbrk s (4 * WSIZE) in
  let s := set_heap_listp s p in
  if p =? MINUS1 then (-1, s)
  else
    let s := put s (heap_listp s) 0 in
    let s := put s (heap_listp s + 1 * WSIZE) (PACK DSIZE 3) in
    let s := put s (heap_listp s + 2 * WSIZE) (PACK DSIZE 3) in
    let s := put s (heap_listp s + 3 * WSIZE) (PACK 0 3) in
    let s := set_heap_listp s (heap_listp s + 2 * WSIZE) in
    let s := set_root s (heap_listp s) in
    let s := set_all_roots s (root s) in
    let '(r, s) := extend_heap s (CHUNKSIZE / WSIZE) in
    if r =? 0 then (-1, s) else (0, s).

(** ** Placement *)

Definition place (s : state) (bp asize : Z) : state :=
  let csize := GET_SIZE (mem s) (HDRP bp) in
  let s := remove_list s bp csize in
  if wrap64 (csize - asize) >=? 2 * DSIZE then
    let s := put s (HDRP bp)
               (PACK asize (wrap32 (1 + GET_PREV_ALLOC (mem s) (HDRP bp)))) in
    let bp := NEXT_BLKP (mem s) bp in
    let s := insert_list s bp (wrap64 (csize - asize)) in
    let s := put s (HDRP bp) (PACK (wrap64 (csize - asize)) 2) in
    put s (FTRP (mem s) bp) (PACK (wrap64 (csize - asize)) 0)
  else
    let s := put s (HDRP bp)
               (PACK csize (wrap32 (1 + GET_PREV_ALLOC (mem s) (HDRP bp)))) in
    put s (HDRP (NEXT_BLKP (mem s) bp))
      (Z.lor (GET (mem s) (HDRP (NEXT_BLKP (mem s) bp))) 2).

(** ** Fit search

    The inner loop of [find_fit] follows [next] links until it meets
    [heap_listp]; on a damaged list it need not stop, so the walk takes
    fuel. *)

Inductive scan : Type :=
| Found (bp : Z)
| Exhausted
| OutOfFuel.

Fixpoint scan_list (fuel : nat) (s : state) (bp asize : Z) : scan :=
  match fuel with
  | O => OutOfFuel
  | S fuel' =>
      if bp =? heap_listp s then Exhausted
      else if asize <=? GET_SIZE (mem s) (HDRP bp) then Found bp
      else scan_list fuel' s (GET_NEXT (mem s) (heap_listp s) bp) asize
  end.

(** The outer loop: [size] runs over 16, 32, ..., 8192; [n] bounds the
    number of rounds (eleven are always enough). *)
Fixpoint find_fit_loop (n fuel : nat) (s : state) (size asize : Z) : option Z :=
  match n with
  | O => None
  | S n' =>
      let bp := size2ptr s size in
      if size <=? 8192 then
        let size := wrap64 (Z.shiftl size 1) in
        match scan_list fuel s bp asize with
        | Found b => Some b
        | Exhausted => find_fit_loop n' fuel s size asize
        | OutOfFuel => None
        end
      else Some 0
  end.

Definition find_fit (fuel : nat) (s : state) (asize : Z) : option Z :=
  find_fit_loop 11 fuel s 16 asize.

(** ** The public interface

    The four functions are defined under the names [malloc], [free],
    [realloc] and [calloc]; with [DRIVER] defined these are aliases of
    [mm_malloc], [mm_free], [mm_realloc] and [mm_calloc], the names under
    which [realloc] calls the first two.  [None] stands for a search that
    ran out of fuel. *)

Definition malloc (fuel : nat) (s : state) (size : Z) : option (Z * state) :=
  let s := if heap_listp s =? 0 then snd (mm_init s) else s in
  if size =? 0 then Some (0, s)
  else
    let asize := if size <=? WSIZE then 2 * DSIZE
                 else wrap64 (DSIZE * (wrap64 (wrap64 (size + WSIZE) + (DSIZE - 1)) / DSIZE)) in
    match find_fit fuel s asize with
    | None => None
    | Some bp =>
        if negb (bp =? 0) then Some (bp, place s bp asize)
        else
          let extendsize := MAX asize CHUNKSIZE in
          let '(bp, s) := extend_heap s (extendsize / WSIZE) in
          if bp =? 0 then Some (0, s)
          else Some (bp, place s bp asize)
    end.

Definition free (s : state) (bp : Z) : state :=
  if bp =? 0 then s
  else
    let size := GET_SIZE (mem s) (HDRP bp) in
    let s := if heap_listp s =? 0 then snd (mm_init s) else s in
    let s := put s (HDRP bp)
               (Z.lor (PACK size 0) (GET_PREV_ALLOC (mem s) (HDRP bp))) in
    let s := put s (FTRP (mem s) bp) (PACK size 0) in
    snd (coalesce s bp).

Definition realloc (fuel : nat) (s : state) (oldptr size : Z) : option (Z * state) :=
  if size =? 0 then Some (0, free s oldptr)
  else if oldptr =? 0 then malloc fuel s size
  else
    match malloc fuel s size with
    | None => None
    | Some (newptr, s) =>
        if newptr =? 0 then Some (0, s)
        else
          let oldsize := GET_SIZE (mem s) (HDRP oldptr) in
          let oldsize := if size <? oldsize then size else oldsize in
          let s := set_mem s (memcpy (mem s) newptr oldptr oldsize) in
          Some (newptr, free s oldptr)
    end.

Definition calloc (fuel : nat) (s : state) (nmemb size : Z) : option (Z * state) :=
  let bytes := wrap64 (nmemb * size) in
  match malloc fuel s bytes with
  | None => None
  | Some (newptr, s) =>
      Some (newptr, set_mem s (memset (mem s) newptr 0 bytes))
  end.

(** A fresh process: nothing initialised, an arena of [max - lo] bytes
    available from address [lo]. *)
Definition fresh (m : memory) (lo max : Z) : state :=
  mkState m lo max 0 0 0 0 0 0 0 0 0 0 0 0.

(** * Specification vocabulary *)

(** ** The arena read as a sequence of blocks

    A block is described by its size, its allocation bit and the
    predecessor-status bit stored in its header.  The word after the last
    real block is the epilogue header, a block of size 0 marked allocated. *)

Definition blk : Type := (Z * bool * bool)%type.

Definition bsize (b : blk) : Z := fst (fst b).
Definition balloc (b : blk) : bool := snd (fst b).
Definition bprev (b : blk) : bool := snd b.

Definition b2z (b : bool) : Z := if b then 1 else 0.

Definition hdr (sz : Z) (a pa : bool) : Z := sz + b2z a + 2 * b2z pa.

Definition epilogue (e : bool) : blk := (0, true, e).

(** [seg m bp bs]: memory [m] holds the blocks [bs] back to back, the first
    one with payload address [bp]; free blocks carry a footer. *)
Fixpoint seg (m : memory) (bp : Z) (bs : list blk) : Prop :=
  match bs with
  | [] => True
  | (sz, a, pa) :: bs' =>
      GET m (HDRP bp) = hdr sz a pa /\
      (a = false -> GET m (bp + sz - DSIZE) = sz) /\
      seg m (bp + sz) bs'
  end.

Fixpoint total (bs : list blk) : Z :=
  match bs with
  | [] => 0
  | b :: bs' => bsize b + total bs'
  end.

(** Payload address of every block. *)
Fixpoint layout (bp : Z) (bs : list blk) : list (Z * blk) :=
  match bs with
  | [] => []
  | b :: bs' => (bp, b) :: layout (bp + bsize b) bs'
  end.

Definition size_ok (b : blk) : Prop := 16 <= bsize b /\ bsize b mod 8 = 0.

(** The predecessor-status bit of every header tells the truth. *)
Fixpoint pa_ok (prev : bool) (bs : list blk) : Prop :=
  match bs with
  | [] => True
  | b :: bs' => bprev b = prev /\ pa_ok (balloc b) bs'
  end.

(** No two physically adjacent blocks are both free. *)
Fixpoint no_adjacent_free (prev_free : bool) (bs : list blk) : Prop :=
  match bs with
  | [] => True
  | b :: bs' =>
      (prev_free = true -> balloc b = true) /\
      no_adjacent_free (negb (balloc b)) bs'
  end.

(** ** Free lists *)

(** Size class of a block size: 0 for [root1] ... 9 for [root10]. *)
Definition class (size : Z) : nat :=
  if size <=? 16 then 0
  else if size <=? 32 then 1
  else if size <=? 64 then 2
  else if size <=? 128 then 3
  else if size <=? 256 then 4
  else if size <=? 512 then 5
  else if size <=? 1024 then 6
  else if size <=? 2048 then 7
  else if size <=? 4096 then 8
  else 9.

(** [lseg m hp prev cur l nxt]: starting at [cur], the nodes [l] are linked
    in this order; the first one points back to [prev], the last one
    forward to [nxt]. *)
Fixpoint lseg (m : memory) (hp prev cur : Z) (l : list Z) (nxt : Z) : Prop :=
  match l with
  | [] => cur = nxt
  | b :: l' =>
      cur = b /\ GET_PREV m hp b = prev /\
      lseg m hp b (GET_NEXT m hp b) l' nxt
  end.

(** A whole list: both ends point to [heap_listp]. *)
Definition flist (m : memory) (hp cur : Z) (l : list Z) : Prop :=
  lseg m hp hp cur l hp.

Definition lists_ok (s : state) (fl : nat -> list Z) : Prop :=
  forall k, (k < 10)%nat ->
    flist (mem s) (heap_listp s) (nth_root s k) (fl k).

Definition upd (fl : nat -> list Z) (k : nat) (l : list Z) : nat -> list Z :=
  fun i => if Nat.eqb i k then l else fl i.

(** A node can be stored as a 32-bit offset from [hp]. *)
Definition node_ok (hp b : Z) : Prop :=
  hp + 8 <= b /\ b - hp < 2 ^ 32 /\ b < 2 ^ 64.

(** Link fields of distinct nodes do not overlap. *)
Definition apart (a b : Z) : Prop := a + 8 <= b \/ b + 8 <= a.

Fixpoint sepl (l : list Z) : Prop :=
  match l with
  | [] => True
  | a :: l' => (forall n, In n l' -> apart a n) /\ sepl l'
  end.

Definition nodes_ok (hp : Z) (fl : nat -> list Z) : Prop :=
  forall k b, In b (fl k) -> node_ok hp b.

Definition nodes_sep (fl : nat -> list Z) : Prop :=
  (forall k, sepl (fl k)) /\
  (forall k1 k2 b1 b2, k1 <> k2 -> In b1 (fl k1) -> In b2 (fl k2) -> apart b1 b2).

(** Memory effect of [remove_list] and [insert_list]. *)
Definition rm_mem (m : memory) (hp bp : Z) : memory :=
  let prev := GET_PREV m hp bp in
  let next := GET_NEXT m hp bp in
  let m1 := if negb (prev =? hp) then SET_NEXT m hp prev next else m in
  if negb (next =? hp) then SET_PREV m1 hp next prev else m1.

Definition ins_mem (m : memory) (hp r bp : Z) : memory :=
  let m1 := SET_PREV m hp bp hp in
  let m2 := SET_NEXT m1 hp bp r in
  if negb (r =? hp) then SET_PREV m2 hp r bp else m2.

(** ** The arena invariant *)

(** A well-formed sequence of blocks: real blocks (at least 16 bytes, a
    multiple of 8) closed by the epilogue header. *)
Fixpoint wf_blocks (bs : list blk) : Prop :=
  match bs with
  | [] => False
  | b :: bs' =>
      match bs' with
      | [] => bsize b = 0 /\ balloc b = true
      | _ => size_ok b /\ wf_blocks bs'
      end
  end.

(** [b] is the payload address of a free block of class [k]. *)
Definition free_at (bp0 : Z) (bs : list blk) (b : Z) (k : nat) : Prop :=
  exists sz pa, In (b, (sz, false, pa)) (layout bp0 bs) /\ class sz = k.

(** The lists [fl] hold exactly the free blocks, each in the list of its
    class, the blocks at the addresses [skip] left out. *)
Definition indexes (bp0 : Z) (bs : list blk) (fl : nat -> list Z)
    (skip : list Z) : Prop :=
  forall k b, In b (fl k) <-> free_at bp0 bs b k /\ ~ In b skip.

Record arena (s : state) (bs : list blk) : Prop := {
  ar_hp : 0 < heap_listp s;
  ar_brk : mem_brk s = heap_listp s + 8 + total bs;
  ar_max : mem_brk s <= mem_max_addr s;
  ar_lim : mem_max_addr s - heap_listp s < 2 ^ 32;
  ar_top : mem_max_addr s < 2 ^ 64;
  ar_seg : seg (mem s) (heap_listp s + 8) bs;
  ar_wf : wf_blocks bs
}.

(** The invariant between two calls of the public interface. *)
Record heap_inv (s : state) (bs : list blk) (fl : nat -> list Z) : Prop := {
  hi_arena : arena s bs;
  hi_lists : lists_ok s fl;
  hi_sep : nodes_sep fl;
  hi_index : indexes (heap_listp s + 8) bs fl [];
  hi_pa : pa_ok true bs;
  hi_adj : no_adjacent_free false bs
}.

(** What [coalesce] may assume about the block [b] it is given: [b] is
    free, has its header and footer in place and is in no list yet; the
    predecessor-status bit of the block after it is not yet reliable. *)
Record pre_coal (s : state) (pre : list blk) (b : blk) (rest : list blk)
    (fl : nat -> list Z) : Prop := {
  pc_arena : arena s (pre ++ b :: rest);
  pc_free : balloc b = false;
  pc_rest : rest <> [];
  pc_lists : lists_ok s fl;
  pc_sep : nodes_sep fl;
  pc_index : indexes (heap_listp s + 8) (pre ++ b :: rest) fl
               [heap_listp s + 8 + total pre];
  pc_pa : pa_ok true (pre ++ [b]);
  pc_pa_rest : pa_ok (balloc (hd b rest)) (tl rest);
  pc_adj : no_adjacent_free false pre;
  pc_adj_rest : no_adjacent_free false rest
}.

(** The common tail of [coalesce], after the four cases. *)
Definition coalesce_finish (s : state) (bp size : Z) : Z * state :=
  let s := insert_list s bp size in
  let s := put s (HDRP (NEXT_BLKP (mem s) bp))
             (Z.land (GET (mem s) (HDRP (NEXT_BLKP (mem s) bp))) (Z.lnot 2)) in
  (bp, s).

(** Clearing or setting the predecessor-status bit of the first block. *)
Definition set_pa (v : bool) (bs : list blk) : list blk :=
  match bs with
  | [] => []
  | b :: bs' => (bsize b, balloc b, v) :: bs'
  end.

(** [y] is a payload byte of an allocated block: the allocator must never
    write there. *)
Definition protected (bp0 : Z) (bs : list blk) (y : Z) : Prop :=
  exists b k, In (b, k) (layout bp0 bs) /\ balloc k = true /\
              b <= y < b + bsize k - 4.

(** Allocation status of the block before position [length l], given the
    status [p] of what precedes [l]. *)
Definition last_alloc (p : bool) (l : list blk) : bool :=
  match rev l with
  | [] => p
  | b :: _ => balloc b
  end.

(** ** What [coalesce] computes, on the abstract reading

    [pre] are the blocks before the freed block [b], [rest] the blocks
    after it (the epilogue included). *)

Definition unlist (fl : nat -> list Z) (b sz : Z) : nat -> list Z :=
  upd fl (class sz) (remove Z.eq_dec b (fl (class sz))).

Definition enlist (fl : nat -> list Z) (b sz : Z) : nat -> list Z :=
  upd fl (class sz) (b :: fl (class sz)).

Definition pred_blk (pre : list blk) : blk := last pre (epilogue true).
Definition succ_blk (rest : list blk) : blk := hd (epilogue true) rest.

Definition coal_pre (pre : list blk) (b : blk) : list blk :=
  if bprev b then pre else removelast pre.

Definition coal_size (pre : list blk) (b : blk) (rest : list blk) : Z :=
  bsize b + (if bprev b then 0 else bsize (pred_blk pre))
          + (if balloc (succ_blk rest) then 0 else bsize (succ_blk rest)).

Definition coal_rest (rest : list blk) : list blk :=
  set_pa false (if balloc (succ_blk rest) then rest else tl rest).

Definition coal_lists (hp : Z) (pre : list blk) (b : blk) (rest : list blk)
    (fl : nat -> list Z) : nat -> list Z :=
  let bp := hp + 8 + total pre in
  let fl1 := if balloc (succ_blk rest) then fl
             else unlist fl (bp + bsize b) (bsize (succ_blk rest)) in
  let fl2 := if bprev b then fl1
             else unlist fl1 (bp - bsize (pred_blk pre)) (bsize (pred_blk pre)) in
  enlist fl2 (hp + 8 + total (coal_pre pre b)) (coal_size pre b rest).

(** Postcondition of [coalesce], for the freed block [b] between [pre] and
    [rest]. *)
Definition coalesce_post (s : state) (pre : list blk) (b : blk)
    (rest : list blk) (fl : nat -> list Z) : Prop :=
  let bp := heap_listp s + 8 + total pre in
  let r := coalesce s bp in
  fst r = heap_listp s + 8 + total (coal_pre pre b) /\
  heap_inv (snd r)
    (coal_pre pre b ++ (coal_size pre b rest, false, true) :: coal_rest rest)
    (coal_lists (heap_listp s) pre b rest fl) /\
  heap_listp (snd r) = heap_listp s /\ mem_brk (snd r) = mem_brk s /\
  mem_max_addr (snd r) = mem_max_addr s /\
  (forall y, protected (heap_listp s + 8) (pre ++ b :: rest) y ->
             mem (snd r) y = mem s y).

(** ** First fit, as the specification words it *)

Definition fits (m : memory) (asize b : Z) : bool :=
  asize <=? GET_SIZE m (HDRP b).

(** The first block of [ls] that is large enough, or null. *)
Definition first_fit (m : memory) (asize : Z) (ls : list Z) : Z :=
  match find (fits m asize) ls with
  | Some b => b
  | None => 0
  end.

(** The lists of the classes [k], [k+1], ..., 9, one after the other. *)
Definition lists_from (k : nat) (fl : nat -> list Z) : list Z :=
  concat (map fl (seq k (10 - k))).

(** The search as the specification describes it: start at the class of the
    requested size. *)
Definition spec_find_fit (s : state) (fl : nat -> list Z) (asize : Z) : Z :=
  first_fit (mem s) asize (lists_from (class asize) fl).

(** ** What [place] computes, on the abstract reading *)

Definition place_blocks (pre : list blk) (csize asize : Z) (rest : list blk)
    : list blk :=
  if csize - asize >=? 16
  then pre ++ (asize, true, true) :: (csize - asize, false, true) :: rest
  else pre ++ (csize, true, true) :: set_pa true rest.

Definition place_lists (hp : Z) (pre : list blk) (csize asize : Z)
    (fl : nat -> list Z) : nat -> list Z :=
  let bp := hp + 8 + total pre in
  if csize - asize >=? 16
  then enlist (unlist fl bp csize) (bp + asize) (csize - asize)
  else unlist fl bp csize.

(** ** Live allocations *)

(** [p] is the payload address of an allocated block of [sz] bytes (header
    included), the blocks [bs] starting at [bp0]. *)
Definition allocated (bp0 : Z) (bs : list blk) (p sz : Z) : Prop :=
  0 < sz /\ exists pa, In (p, (sz, true, pa)) (layout bp0 bs).

(** The adjusted block size [malloc] computes from a request. *)
Definition adjusted (size : Z) : Z :=
  if size <=? WSIZE then 2 * DSIZE
  else wrap64 (DSIZE * (wrap64 (wrap64 (size + WSIZE) + (DSIZE - 1)) / DSIZE)).

(** The byte count [extend_heap] derives from a word count. *)
Definition extend_size (words : Z) : Z :=
  if nz (words mod 2) then wrap64 (wrap64 (words + 1) * WSIZE)
  else wrap64 (words * WSIZE).

(** Every list is shorter than the fuel given to the search. *)
Definition fuel_ok (fuel : nat) (fl : nat -> list Z) : Prop :=
  forall k, (k < 10)%nat -> (length (fl k) < fuel)%nat.

(** ** Auxiliary notions *)

(** A size that [total] can add up: non-negative and a multiple of 8. *)
Definition sz8 (b : blk) : Prop := 0 <= bsize b /\ bsize b mod 8 = 0.

(** A value that a link field can hold: [hp] itself or a node. *)
Definition ptr_ok (hp v : Z) : Prop := v = hp \/ node_ok hp v.

(** The state of [mm_init] just before it grows the arena. *)
Definition init_state (s : state) : state :=
  let p := mem_brk s in
  let s := set_heap_listp (set_brk s (p + 16)) p in
  let s := put s p 0 in
  let s := put s (p + 4) 11 in
  let s := put s (p + 8) 11 in
  let s := put s (p + 12) 3 in
  let s := set_heap_listp s (p + 8) in
  let s := set_root s (p + 8) in
  set_all_roots s (p + 8).

(** ** The public interface: what the calls achieve *)

(** The tail of [free], once the arena is known to be initialised. *)
Definition free_initialised (s : state) (bp size : Z) : state :=
  let s := put s (HDRP bp)
             (Z.lor (PACK size 0) (GET_PREV_ALLOC (mem s) (HDRP bp))) in
  let s := put s (FTRP (mem s) bp) (PACK size 0) in
  snd (coalesce s bp).

(** Bytes a block offers to its owner: its size less the header word. *)
Definition payload_size (m : memory) (p : Z) : Z := GET_SIZE m (HDRP p) - WSIZE.

(** [realloc] as the specification describes it: the copy is bounded by the
    payload size of the old block. *)
Definition spec_realloc (fuel : nat) (s : state) (oldptr size : Z)
    : option (Z * state) :=
  if size =? 0 then Some (0, free s oldptr)
  else if oldptr =? 0 then malloc fuel s size
  else
    match malloc fuel s size with
    | None => None
    | Some (newptr, s) =>
        if newptr =? 0 then Some (0, s)
        else
          let count := Z.min size (payload_size (mem s) oldptr) in
          let s := set_mem s (memcpy (mem s) newptr oldptr count) in
          Some (newptr, free s oldptr)
    end.

(** What [realloc] achieves for a live block [p] of [szp] bytes and a
    request of [n] bytes. *)
Definition realloc_post (fuel : nat) (s : state) (bs : list blk)
    (p szp n : Z) : Prop :=
  let hp := heap_listp s in
  exists q s1, malloc fuel s n = Some (q, s1) /\
    ((q = 0 /\ s1 = s /\ realloc fuel s p n = Some (0, s)) \/
     (q <> 0 /\ q <> p /\
      let s' := free (set_mem s1 (memcpy (mem s1) q p (Z.min n szp))) p in
      realloc fuel s p n = Some (q, s') /\
      (exists bs' fl' szq,
         heap_inv s' bs' fl' /\ heap_listp s' = hp /\
         allocated (hp + 8) bs' q szq /\ n + 4 <= szq /\
         (forall sz, ~ allocated (hp + 8) bs' p sz) /\
         (forall r szr, allocated (hp + 8) bs r szr -> r <> p ->
                        allocated (hp + 8) bs' r szr)) /\
      (forall i, 0 <= i < Z.min n (szp - 4) -> mem s' (q + i) = mem s (p + i)))).

(** What [place] achieves for the free block after [pre]. *)
Definition place_post (s : state) (pre : list blk) (csize : Z) (pa : bool)
    (rest : list blk) (fl : nat -> list Z) (asize : Z) : Prop :=
  let hp := heap_listp s in
  let bp := hp + 8 + total pre in
  let s' := place s bp asize in
  let fl' := place_lists hp pre csize asize fl in
  heap_inv s' (place_blocks pre csize asize rest) fl' /\
  (forall k, ~ In bp (fl' k)) /\
  (16 <= csize - asize ->
   count_occ Z.eq_dec (fl' (class (csize - asize))) (bp + asize) = 1%nat /\
   GET (mem s') (HDRP bp) = hdr asize true true /\
   GET (mem s') (HDRP (bp + asize)) = hdr (csize - asize) false true) /\
  (csize - asize < 16 ->
   GET (mem s') (HDRP bp) = hdr csize true true /\
   GET_PREV_ALLOC (mem s') (HDRP (bp + csize)) = 2) /\
  heap_listp s' = hp /\ mem_brk s' = mem_brk s /\
  mem_max_addr s' = mem_max_addr s /\
  (forall y, protected (hp + 8) (pre ++ (csize, false, pa) :: rest) y ->
             mem s' y = mem s y).

(** What [coalesce] achieves for the freed block [b] between [pre] and
    [rest]. *)
Definition coalesce_merged (s : state) (pre : list blk) (b : blk)
    (rest : list blk) (fl : nat -> list Z) : Prop :=
  let hp := heap_listp s in
  let bp := hp + 8 + total pre in
  let r := coalesce s bp in
  let S := coal_size pre b rest in
  let fl' := coal_lists hp pre b rest fl in
  fst r = (if bprev b then bp else bp - bsize (pred_blk pre)) /\
  heap_inv (snd r)
    (coal_pre pre b ++ (S, false, true) :: coal_rest rest) fl' /\
  GET_SIZE (mem (snd r)) (HDRP (fst r)) = S /\
  count_occ Z.eq_dec (fl' (class S)) (fst r) = 1%nat /\
  (forall k, k <> class S -> ~ In (fst r) (fl' k)) /\
  (bprev b = false -> forall k, ~ In bp (fl' k)) /\
  (balloc (succ_blk rest) = false -> forall k, ~ In (bp + bsize b) (fl' k)) /\
  heap_listp (snd r) = hp /\ mem_brk (snd r) = mem_brk s /\
  mem_max_addr (snd r) = mem_max_addr s /\
  (forall y, protected (hp + 8) (pre ++ b :: rest) y -> mem (snd r) y = mem s y).

(** What the first call of the public interface does to an arena that was
    never initialised. *)
Definition lazy_init_post (s : state) : Prop :=
  let s1 := snd (mm_init s) in
  let hp := mem_brk s + 8 in
  heap_listp s1 = hp /\
  GET (mem s1) (hp - 4) = PACK 8 3 /\ GET (mem s1) hp = PACK 8 3 /\
  heap_inv s1 [(4096, false, true); epilogue false]
           (enlist (fun _ => []) (hp + 8) 4096) /\
  mem_brk s1 = mem_brk s + 16 + 4096 /\
  (forall fuel size, malloc fuel s size = malloc fuel s1 size) /\
  (forall bp, bp <> 0 ->
     free s bp = free_initialised s1 bp (GET_SIZE (mem s) (HDRP bp))) /\
  free s 0 = s.

(** ** Concrete scenarios *)

(** A fresh process with one megabyte of arena available at address 4096. *)
Definition arena0 : state := fresh (fun _ => 0) 4096 (4096 + 1048576).

(** The same after initialisation, and after one 16-byte block was placed. *)
Definition s_init : state := snd (mm_init arena0).
Definition bs_init : list blk := [(4096, false, true); (0, true, false)].
Definition fl_init : nat -> list Z := enlist (fun _ => []) 4112 4096.

Definition s_one : state := place s_init 4112 16.
Definition bs_one : list blk :=
  [(16, true, true); (4080, false, true); (0, true, false)].
Definition fl_one : nat -> list Z := place_lists 4104 [] 4096 16 fl_init.

(** [s_one] at the point where [free] hands the block over to [coalesce]. *)
Definition s_freed : state :=
  put (put s_one (HDRP 4112) (hdr 16 false true)) (4112 + 16 - 8) 16.



(** An arena that has room for the initial chunk and nothing more; every
    byte of memory holds 255. *)
Definition arena_small : state := fresh (fun _ => 255) 65536 (65536 + 16 + 4096).

(** The nodes of a free list, read from memory by following the forward
    links, and the ten lists of a state. *)
Fixpoint walk (fuel : nat) (s : state) (bp : Z) : list Z :=
  match fuel with
  | O => []
  | S fuel' =>
      if bp =? heap_listp s then []
      else bp :: walk fuel' s (GET_NEXT (mem s) (heap_listp s) bp)
  end.

Definition all_lists (fuel : nat) (s : state) : list (list Z) :=
  map (fun k => walk fuel s (nth_root s k)) (seq 0 10).

(** ** States the public interface can reach *)




(** [reachable s live]: the state [s] is reached from a fresh process by
    calls of the public interface and by stores of the client into the
    blocks it holds; [live] are the pointers handed out and not yet taken
    back.  A run starts with the initialisation (the call of [mm_init], also
    the one the first [malloc] makes), in an arena below the limit of
    [2 ^ 32] bytes that the header of the source documents, and with room
    for the 16 + 4096 bytes the initialisation takes.  Then come, in any
    order and number:
    - [malloc] and [realloc] for fewer than [2 ^ 64 - 11] bytes, zero
      included: the adjusted size of such a request does not wrap around;
    - [free] and [realloc] of the null pointer or of a live block;
    - [calloc] for a byte count below [2 ^ 64 - 11], unless its allocation
      fails for a count that is not zero (it then fills memory from the
      null pointer on);
    - a store of the client into a block it holds: into any byte between
      the pointer and the header of the next block. *)
Inductive reachable : state -> list Z -> Prop :=
| reach_init s :
    heap_listp s = 0 -> 0 < mem_brk s ->
    mem_brk s + 16 + 4096 <= mem_max_addr s ->
    mem_max_addr s - mem_brk s < 2 ^ 32 -> mem_max_addr s < 2 ^ 64 ->
    reachable (snd (mm_init s)) []
| reach_malloc s live fuel size q s' :
    reachable s live -> 0 <= size < 2 ^ 64 - 11 ->
    malloc fuel s size = Some (q, s') ->
    reachable s' (if q =? 0 then live else q :: live)
| reach_free s live p :
    reachable s live -> p = 0 \/ In p live ->
    reachable (free s p) (remove Z.eq_dec p live)
| reach_realloc s live fuel p n q s' :
    reachable s live -> p = 0 \/ In p live -> 0 <= n < 2 ^ 64 - 11 ->
    realloc fuel s p n = Some (q, s') ->
    reachable s' (if n =? 0 then remove Z.eq_dec p live
                  else if q =? 0 then live
                  else q :: remove Z.eq_dec p live)
| reach_calloc s live fuel nmemb size q s' :
    reachable s live -> wrap64 (nmemb * size) < 2 ^ 64 - 11 ->
    calloc fuel s nmemb size = Some (q, s') ->
    q <> 0 \/ wrap64 (nmemb * size) = 0 ->
    reachable s' (if q =? 0 then live else q :: live)
| reach_store s live p y v :
    reachable s live -> In p live ->
    p <= y < p + payload_size (mem s) p ->
    reachable (set_mem s (store8 (mem s) y v)) live.

(** The state after initialisation and one request of 12 bytes. *)
Definition s_live : state :=
  match malloc 3 s_init 12 with
  | Some (_, t) => t
  | None => s_init
  end.

(** The state a request leaves, whatever it returns. *)
Definition then_malloc (fuel : nat) (size : Z) (s : state) : state :=
  match malloc fuel s size with
  | Some (_, t) => t
  | None => s
  end.

(** A busier run: six requests (of 1, 1, 20, 1, 100 and 1 bytes), a store
    of the client into the second block, and the release of the first,
    third and fifth block.  Four lists then hold one free block each. *)
Definition s_six : state :=
  then_malloc 3 1 (then_malloc 3 100 (then_malloc 3 1 (then_malloc 3 20
    (then_malloc 3 1 (then_malloc 3 1 s_init))))).

Definition s_mix : state :=
  let s := set_mem s_six (store8 (mem s_six) 4130 255) in
  free (free (free s 4112) 4144) 4184.

Definition fl_mix : nat -> list Z :=
  fun k =>
    match k with
    | 0%nat => [4112]
    | 1%nat => [4144]
    | 3%nat => [4184]
    | 8%nat => [4304]
    | _ => []
    end.

(** [s_mix] after a store past the end of the block at 4128, into the
    header of the free block at 4144, which now claims 104 bytes. *)
Definition s_smashed : state := put s_mix (HDRP 4144) (hdr 104 false true).

(** ** Alignment

    [ALIGN(p)] rounds up to the next multiple of 8 in [size_t];
    [aligned(p)] compares the result with [p]. *)

Definition ALIGN (p : Z) : Z :=
  Z.land (wrap64 (wrap64 p + (ALIGNMENT - 1))) (Z.lnot 7).

Definition aligned (p : Z) : bool := wrap64 (ALIGN p) =? wrap64 p.

(** ** The index on its own

    The ten lists seen without the arena around them: [fl k] are the nodes
    of list [k] in order, every node can be stored as an offset, and the
    link words of distinct nodes do not overlap. *)
Definition index_ok (s : state) (fl : nat -> list Z) : Prop :=
  0 <= heap_listp s < 2 ^ 64 /\ lists_ok s fl /\
  nodes_ok (heap_listp s) fl /\ nodes_sep fl.

(** An address that can become a node: its two link words lie apart from
    those of every node of the index. *)
Definition fresh_node (s : state) (fl : nat -> list Z) (b : Z) : Prop :=
  node_ok (heap_listp s) b /\ forall i n, In n (fl i) -> apart b n.

(** ** A scenario with two live blocks *)

(** [s_live] after a second request, of 24 bytes. *)
Definition s_two : state :=
  match malloc 3 s_live 24 with
  | Some (_, t) => t
  | None => s_live
  end.

(** ** The heap checker

    [mm_checkheap] reports through [printf] and then ends the process with
    [exit(0)]; here it returns what it reported.  [in_heap] compares a
    pointer with the bounds of the arena kept by the memory library: [lo]
    and [hi] stand for what [mem_heap_lo()] and [mem_heap_hi()] return.
    Both loops of the checker follow words read from memory, hence the
    fuel. *)

Definition in_heap (lo hi p : Z) : bool := (p <=? hi) && (p >=? lo).

(** The five messages the checker can print before it exits. *)
Inductive report : Type :=
| Alignment_Error
| Block_not_in_heap
| Heap_Exceed_Boundaries
| Next_Previous_pointer_error
| Exceed_Bucket_Range.

Inductive outcome : Type :=
| Exited (r : report)          (* a message, then [exit(0)] *)
| Returned (cnt : option Z).   (* the count of the lists, printed if [verbose] *)

(** The first loop, from [ptr] on: the pointer it ends with, or a report. *)
Fixpoint heap_walk (fuel : nat) (lo hi : Z) (s : state) (ptr : Z)
    : option (report + Z) :=
  match fuel with
  | O => None
  | S fuel =>
      if GET_SIZE (mem s) ptr >? 0 then
        if negb (aligned ptr) then Some (inl Alignment_Error)
        else if negb (in_heap lo hi ptr) then Some (inl Block_not_in_heap)
        else heap_walk fuel lo hi s (GET_NEXT (mem s) (heap_listp s) ptr)
      else Some (inr ptr)
  end.

(** The inner loop of the list check, along one list: the count so far. *)
Fixpoint list_walk (fuel : nat) (s : state) (size ptr cnt : Z)
    : option (report + Z) :=
  match fuel with
  | O => None
  | S fuel =>
      let next := GET_NEXT (mem s) (heap_listp s) ptr in
      if negb (next =? heap_listp s) then
        let cnt := wrap64 (cnt + 1) in
        if negb (GET_PREV (mem s) (heap_listp s) next =? ptr)
        then Some (inl Next_Previous_pointer_error)
        else if (GET_SIZE (mem s) (HDRP ptr) >? size)
                || (GET_SIZE (mem s) (HDRP next) >? size)
        then Some (inl Exceed_Bucket_Range)
        else list_walk fuel s size next cnt
      else Some (inr cnt)
  end.

(** The outer loop: one list for each [size] from 16 to 8192, doubling. *)
Fixpoint lists_walk (fuel inner : nat) (s : state) (size ptr cnt : Z)
    : option (report + Z) :=
  match fuel with
  | O => None
  | S fuel =>
      if size <=? 8192 then
        match list_walk inner s size ptr cnt with
        | None => None
        | Some (inl r) => Some (inl r)
        | Some (inr cnt) =>
            let cnt := wrap64 (cnt + 1) in
            let size := wrap64 (Z.shiftl size 1) in
            lists_walk fuel inner s size (size2ptr s size) cnt
        end
      else Some (inr cnt)
  end.

Definition mm_checkheap (fuel : nat) (lo hi : Z) (s : state) (verbose : Z)
    : option outcome :=
  match heap_walk fuel lo hi s (heap_listp s) with
  | None => None
  | Some (inl r) => Some (Exited r)
  | Some (inr ptr) =>
      if wrap64 (ptr - heap_listp s) >? Z.shiftl 1 32
      then Some (Exited Heap_Exceed_Boundaries)
      else
        match lists_walk fuel fuel s 16 (size2ptr s 16) 0 with
        | None => None
        | Some (inl r) => Some (Exited r)
        | Some (inr cnt) => Some (Returned (if nz verbose then Some cnt else None))
        end
  end.

(** * Proofs *)

(** * Machine arithmetic *)

Lemma wrap64_small x : 0 <= x < 2 ^ 64 -> wrap64 x = x.
Proof. intros; unfold wrap64; apply Z.mod_small; lia. Qed.

Lemma wrap32_small x : 0 <= x < 2 ^ 32 -> wrap32 x = x.
Proof. intros; unfold wrap32; apply Z.mod_small; lia. Qed.

Lemma wrap32_wrap64 x : wrap32 (wrap64 x) = wrap32 x.
Proof.
  unfold wrap32, wrap64.
  rewrite (Z.div_mod x (2 ^ 64)) at 2 by lia.
  replace (2 ^ 64 * (x / 2 ^ 64) + x mod 2 ^ 64)
    with (x mod 2 ^ 64 + (2 ^ 32 * (x / 2 ^ 64)) * 2 ^ 32) by lia.
  now rewrite Z.mod_add by lia.
Qed.

Lemma link_word_eq hp val : link_word hp val = wrap32 (val - hp).
Proof.
  unfold link_word. rewrite wrap32_wrap64. unfold wrap32.
  rewrite Zminus_mod_idemp_l. reflexivity.
Qed.

Lemma link_round_trip hp val :
  0 <= hp -> hp <= val -> val - hp < 2 ^ 32 -> val < 2 ^ 64 ->
  OF2ADDR hp (link_word hp val) = val.
Proof.
  intros. rewrite link_word_eq, wrap32_small by lia.
  unfold OF2ADDR. rewrite wrap64_small by lia. lia.
Qed.

(** * Bytes and words *)

Lemma load8_range m a : 0 <= load8 m a < 256.
Proof. unfold load8. apply Z.mod_pos_bound. lia. Qed.

Lemma GET_range m p : 0 <= GET m p < 2 ^ 32.
Proof.
  unfold GET.
  pose proof (load8_range m p). pose proof (load8_range m (p + 1)).
  pose proof (load8_range m (p + 2)). pose proof (load8_range m (p + 3)).
  lia.
Qed.

Lemma PUT_outside m p v x : x < p \/ p + 4 <= x -> PUT m p v x = m x.
Proof.
  intros H. unfold PUT, store8.
  repeat match goal with |- context [?a =? ?b] =>
    destruct (Z.eqb_spec a b); [lia|] end.
  reflexivity.
Qed.

Lemma GET_agree m m' p :
  (forall x, p <= x < p + 4 -> m' x = m x) -> GET m' p = GET m p.
Proof.
  intros H. unfold GET, load8.
  rewrite !H by lia. reflexivity.
Qed.

Lemma GET_PUT_other m p v q :
  q + 4 <= p \/ p + 4 <= q -> GET (PUT m p v) q = GET m q.
Proof.
  intros H. apply GET_agree. intros x Hx. apply PUT_outside. lia.
Qed.

Lemma GET_PUT_same m p v : GET (PUT m p v) p = wrap32 v.
Proof.
  unfold GET, PUT, load8, store8.
  repeat match goal with |- context [?a =? ?b] =>
    destruct (Z.eqb_spec a b); try lia end.
  rewrite !Z.mod_mod by lia. unfold wrap32.
  change (2 ^ 32) with (256 * (256 * (256 * 256))).
  change (2 ^ 8) with 256. change (2 ^ 16) with (256 * 256).
  change (2 ^ 24) with (256 * 256 * 256).
  rewrite <- !Z.div_div by lia.
  set (a := v). set (b := a / 256). set (c := b / 256). set (d := c / 256).
  rewrite (Z.rem_mul_r a 256 (256 * (256 * 256))) by lia. fold b.
  rewrite (Z.rem_mul_r b 256 (256 * 256)) by lia. fold c.
  rewrite (Z.rem_mul_r c 256 256) by lia. fold d.
  lia.
Qed.

(** * Header words *)

Lemma land_low3 q c : 0 <= c < 8 -> Z.land (8 * q) c = 0.
Proof.
  intros Hc.
  assert (Hc7 : Z.land c 7 = c).
  { change 7 with (Z.ones 3). rewrite Z.land_ones by lia. apply Z.mod_small. lia. }
  rewrite <- Hc7, (Z.land_comm c 7), Z.land_assoc.
  change 7 with (Z.ones 3) at 1. rewrite Z.land_ones by lia.
  change (2 ^ 3) with 8. rewrite Z.mul_comm, Z.mod_mul by lia. reflexivity.
Qed.

Lemma lor_low3 q c : 0 <= c < 8 -> Z.lor (8 * q) c = 8 * q + c.
Proof.
  intros Hc. pose proof (land_low3 q c Hc) as H0.
  rewrite <- Z.lxor_lor by exact H0. symmetry. now apply Z.add_nocarry_lxor.
Qed.

Lemma land_not7 q c : 0 <= c < 8 -> Z.land (8 * q + c) (Z.lnot 7) = 8 * q.
Proof.
  intros Hc. rewrite <- Z.ldiff_land. change 7 with (Z.ones 3).
  rewrite Z.ldiff_ones_r by lia.
  rewrite Z.shiftr_div_pow2, Z.shiftl_mul_pow2 by lia. change (2 ^ 3) with 8.
  replace ((8 * q + c) / 8) with q; [lia|].
  apply Z.div_unique with c; lia.
Qed.

Lemma land_low q c k : 0 <= c < 8 -> 0 <= k < 8 -> Z.land (8 * q + c) k = Z.land c k.
Proof.
  intros Hc Hk. rewrite <- lor_low3 by lia.
  rewrite Z.land_lor_distr_l, land_low3 by lia. reflexivity.
Qed.

Lemma lor_low q c k : 0 <= c < 8 -> 0 <= k < 8 -> 0 <= Z.lor c k < 8 ->
  Z.lor (8 * q + c) k = 8 * q + Z.lor c k.
Proof.
  intros Hc Hk Hck. rewrite <- lor_low3 by lia.
  rewrite <- Z.lor_assoc. now rewrite lor_low3.
Qed.

Lemma land_not2 q c : 0 <= c < 8 ->
  Z.land (8 * q + c) (Z.lnot 2) = 8 * q + Z.land c (Z.lnot 2).
Proof.
  intros Hc. rewrite <- lor_low3 by lia.
  rewrite Z.land_lor_distr_l.
  assert (H8 : Z.land (8 * q) (Z.lnot 2) = 8 * q).
  { rewrite <- Z.ldiff_land.
    rewrite <- (Z.lor_ldiff_and (8 * q) 2) at 2.
    rewrite (land_low3 q 2) by lia. now rewrite Z.lor_0_r. }
  rewrite H8. apply lor_low3.
  assert (c = 0 \/ c = 1 \/ c = 2 \/ c = 3 \/ c = 4 \/ c = 5 \/ c = 6 \/ c = 7) by lia.
  intuition subst; cbn; lia.
Qed.

(** * Doubly linked lists in memory *)

Lemma apart_sym a b : apart a b -> apart b a.
Proof. unfold apart; lia. Qed.

Lemma sepl_app_iff l1 l2 :
  sepl (l1 ++ l2) <->
  sepl l1 /\ sepl l2 /\ (forall a b, In a l1 -> In b l2 -> apart a b).
Proof.
  induction l1 as [|x l1 IH]; simpl.
  - intuition.
  - rewrite IH. split.
    + intros [Hx (H1 & H2 & H12)]. repeat split; auto.
      * intros n Hn. apply Hx, in_or_app; auto.
      * intros a b [<-|Ha] Hb; [apply Hx, in_or_app|]; auto.
    + intros [[Hx H1] [H2 H12]]. repeat split; auto.
      intros n Hn. apply in_app_or in Hn as [Hn|Hn]; auto.
Qed.

Lemma sepl_In l a b : sepl l -> In a l -> In b l -> a = b \/ apart a b.
Proof.
  induction l as [|x l IH]; simpl; [tauto|].
  intros [Hx Hl] [<-|Ha] [<-|Hb]; auto.
  right. apply apart_sym. auto.
Qed.

Lemma sepl_NoDup l : sepl l -> NoDup l.
Proof.
  induction l as [|x l IH]; simpl; intros H; constructor.
  - intros Hin. destruct H as [H _]. specialize (H _ Hin). unfold apart in H. lia.
  - apply IH, H.
Qed.

Lemma last_cons (l : list Z) a p : last (a :: l) p = last l a.
Proof.
  revert a p. induction l as [|x l IH]; intros a p; [reflexivity|].
  change (last (a :: x :: l) p) with (last (x :: l) p).
  rewrite !IH. reflexivity.
Qed.

Lemma last_In (l : list Z) p : last l p = p \/ In (last l p) l.
Proof.
  induction l as [|a l IH]; simpl; auto.
  destruct l; simpl in *; intuition.
Qed.

Lemma last_In_cons (l : list Z) a d : In (last (a :: l) d) (a :: l).
Proof.
  revert a. induction l as [|x l IH]; intros a; [simpl; auto|].
  change (last (a :: x :: l) d) with (last (x :: l) d). right. apply IH.
Qed.

Lemma hd_In (l : list Z) d : hd d l = d /\ l = [] \/ In (hd d l) l.
Proof. destruct l; simpl; auto. Qed.

Section Links.

Variable hp : Z.
Hypothesis Hhp : 0 <= hp < 2 ^ 64.

Lemma link_back v : ptr_ok hp v -> OF2ADDR hp (link_word hp v) = v.
Proof.
  intros [->|(H1 & H2 & H3)]; apply link_round_trip; lia.
Qed.

Lemma GET_PREV_SET_PREV m b v : ptr_ok hp v -> GET_PREV (SET_PREV m hp b v) hp b = v.
Proof.
  intros Hv. unfold GET_PREV, SET_PREV. rewrite GET_PUT_same.
  unfold link_word at 1. fold (link_word hp v).
  rewrite link_word_eq. unfold wrap32. rewrite Z.mod_mod by lia.
  fold (wrap32 (v - hp)). rewrite <- link_word_eq. now apply link_back.
Qed.

Lemma GET_NEXT_SET_NEXT m b v : ptr_ok hp v -> GET_NEXT (SET_NEXT m hp b v) hp b = v.
Proof.
  intros Hv. unfold GET_NEXT, SET_NEXT. rewrite GET_PUT_same.
  rewrite link_word_eq. unfold wrap32. rewrite Z.mod_mod by lia.
  fold (wrap32 (v - hp)). rewrite <- link_word_eq. now apply link_back.
Qed.

Lemma GET_PREV_agree m m' x :
  (forall y, x <= y < x + 4 -> m' y = m y) -> GET_PREV m' hp x = GET_PREV m hp x.
Proof. intros H. unfold GET_PREV. f_equal. now apply GET_agree. Qed.

Lemma GET_NEXT_agree m m' x :
  (forall y, x + 4 <= y < x + 8 -> m' y = m y) -> GET_NEXT m' hp x = GET_NEXT m hp x.
Proof.
  intros H. unfold GET_NEXT, WSIZE. f_equal. apply GET_agree.
  intros y Hy. apply H. lia.
Qed.

Lemma lseg_frame m m' l : forall p c nxt,
  (forall x, In x l ->
     GET_PREV m' hp x = GET_PREV m hp x /\ GET_NEXT m' hp x = GET_NEXT m hp x) ->
  lseg m hp p c l nxt -> lseg m' hp p c l nxt.
Proof.
  induction l as [|a l IH]; simpl; intros p c nxt H; [auto|].
  intros (Hc & Hp & Hl). destruct (H a (or_introl eq_refl)) as [E1 E2].
  rewrite E1, E2. repeat split; auto.
Qed.

Lemma lseg_hd m l : forall p c nxt, lseg m hp p c l nxt -> c = hd nxt l.
Proof. destruct l; simpl; intuition. Qed.

Lemma lseg_mid m b l2 nxt : forall l1 p c,
  lseg m hp p c (l1 ++ b :: l2) nxt ->
  GET_PREV m hp b = last l1 p /\ GET_NEXT m hp b = hd nxt l2.
Proof.
  induction l1 as [|a l1 IH]; intros p c H; simpl in H.
  - destruct H as (_ & Hp & Hl). split; auto. eapply lseg_hd; eauto.
  - destruct H as (_ & _ & Hl). apply IH in Hl.
    rewrite last_cons. exact Hl.
Qed.

(** Bytes that [rm_mem] leaves alone. *)
Lemma rm_mem_outside m b y :
  (GET_PREV m hp b = hp \/ y < GET_PREV m hp b + 4 \/ GET_PREV m hp b + 8 <= y) ->
  (GET_NEXT m hp b = hp \/ y < GET_NEXT m hp b \/ GET_NEXT m hp b + 4 <= y) ->
  rm_mem m hp b y = m y.
Proof.
  intros H1 H2. unfold rm_mem, SET_PREV, SET_NEXT, WSIZE.
  destruct (Z.eqb_spec (GET_NEXT m hp b) hp); simpl;
  destruct (Z.eqb_spec (GET_PREV m hp b) hp); simpl;
    rewrite ?PUT_outside by lia; auto.
Qed.

Lemma rm_prev_other m b x :
  (GET_PREV m hp b = hp \/ x = GET_PREV m hp b \/ apart x (GET_PREV m hp b)) ->
  (GET_NEXT m hp b = hp \/ apart x (GET_NEXT m hp b)) ->
  GET_PREV (rm_mem m hp b) hp x = GET_PREV m hp x.
Proof.
  intros H1 H2. unfold GET_PREV. f_equal. apply GET_agree.
  intros y Hy. apply rm_mem_outside; unfold apart in *; lia.
Qed.

Lemma rm_next_other m b x :
  (GET_PREV m hp b = hp \/ apart x (GET_PREV m hp b)) ->
  (GET_NEXT m hp b = hp \/ x = GET_NEXT m hp b \/ apart x (GET_NEXT m hp b)) ->
  GET_NEXT (rm_mem m hp b) hp x = GET_NEXT m hp x.
Proof.
  intros H1 H2. unfold GET_NEXT, WSIZE. f_equal. apply GET_agree.
  intros y Hy. apply rm_mem_outside; unfold apart in *; lia.
Qed.

Lemma rm_prev_next m b :
  GET_NEXT m hp b <> hp -> ptr_ok hp (GET_PREV m hp b) ->
  GET_PREV (rm_mem m hp b) hp (GET_NEXT m hp b) = GET_PREV m hp b.
Proof.
  intros Hn Hp. unfold rm_mem.
  destruct (Z.eqb_spec (GET_NEXT m hp b) hp); [tauto|]. simpl.
  now apply GET_PREV_SET_PREV.
Qed.

Lemma rm_next_prev m b :
  GET_PREV m hp b <> hp -> ptr_ok hp (GET_NEXT m hp b) ->
  (GET_NEXT m hp b = hp \/ GET_NEXT m hp b = GET_PREV m hp b \/
   apart (GET_PREV m hp b) (GET_NEXT m hp b)) ->
  GET_NEXT (rm_mem m hp b) hp (GET_PREV m hp b) = GET_NEXT m hp b.
Proof.
  intros Hp Hn Hd. unfold rm_mem.
  destruct (Z.eqb_spec (GET_PREV m hp b) hp); [tauto|]. simpl.
  destruct (Z.eqb_spec (GET_NEXT m hp b) hp); simpl.
  - now apply GET_NEXT_SET_NEXT.
  - etransitivity; [|apply (GET_NEXT_SET_NEXT m (GET_PREV m hp b)); exact Hn].
    apply GET_NEXT_agree. intros y Hy. unfold SET_PREV. apply PUT_outside.
    unfold apart in *. lia.
Qed.

(** Unlinking [b] from the middle of a list. *)
Lemma rm_lseg m b l2 : forall l1 p c,
  lseg m hp p c (l1 ++ b :: l2) hp ->
  sepl (l1 ++ b :: l2) ->
  Forall (node_ok hp) (l1 ++ b :: l2) ->
  (p = hp \/ node_ok hp p /\ forall n, In n (l1 ++ b :: l2) -> apart p n) ->
  lseg (rm_mem m hp b) hp p
       (match l1 with [] => GET_NEXT m hp b | _ => c end) (l1 ++ l2) hp.
Proof.
  induction l1 as [|a l1 IH]; intros p c H Hsep Hok Hpp.
  - (* [b] is the first node of the segment *)
    simpl in *. destruct H as (_ & Hp & Hl). destruct Hsep as [Hb Hs2].
    apply Forall_cons_iff in Hok as [Hbok Hok2].
    assert (Hptrp : ptr_ok hp p) by (unfold ptr_ok; tauto).
    destruct l2 as [|n l2]; simpl in *; [exact Hl|].
    destruct Hl as (Hn & Hpn & Hl).
    apply Forall_cons_iff in Hok2 as [Hnok Hok2]. destruct Hs2 as [Hns Hs2].
    assert (Hnhp : n <> hp) by (unfold node_ok in Hnok; lia).
    split; [auto|]. split.
    + rewrite <- Hn, <- Hp. apply rm_prev_next; [rewrite Hn; auto|rewrite Hp; auto].
    + assert (E : GET_NEXT (rm_mem m hp b) hp n = GET_NEXT m hp n).
      { apply rm_next_other.
        - rewrite Hp. destruct Hpp as [->|[_ Hpp]]; auto.
          right. apply apart_sym, Hpp; auto.
        - rewrite Hn. auto. }
      rewrite E. eapply lseg_frame; [|exact Hl].
      intros x Hx. split.
      * apply rm_prev_other.
        -- rewrite Hp. destruct Hpp as [->|[_ Hpp]]; auto.
           right; right. apply apart_sym, Hpp; auto.
        -- rewrite Hn. right. apply apart_sym; auto.
      * apply rm_next_other.
        -- rewrite Hp. destruct Hpp as [->|[_ Hpp]]; auto.
           right. apply apart_sym, Hpp; auto.
        -- rewrite Hn. right; right. apply apart_sym; auto.
  - (* [b] lies further down *)
    rewrite <- app_comm_cons in *. simpl in H. destruct H as (Hc & Hp & Hl).
    pose proof (lseg_mid _ _ _ _ _ _ _ Hl) as [Eprev Enext].
    simpl in Hsep. destruct Hsep as [Ha Hsep].
    pose proof Hok as Hok'. apply Forall_cons_iff in Hok as [Haok Hok].
    assert (Hbok : node_ok hp b).
    { rewrite Forall_forall in Hok. apply Hok, in_or_app; simpl; auto. }
    specialize (IH a (GET_NEXT m hp a) Hl Hsep Hok (or_intror (conj Haok Ha))).
    assert (Hnx : GET_NEXT m hp b = hp \/ In (GET_NEXT m hp b) l2).
    { rewrite Enext. destruct (hd_In l2 hp) as [[? ?]|?]; auto. }
    assert (Hpv : GET_PREV m hp b = a \/ In (GET_PREV m hp b) l1).
    { rewrite Eprev. apply last_In. }
    assert (Hnxa : GET_NEXT m hp b = hp \/ apart a (GET_NEXT m hp b)).
    { destruct Hnx as [?|Hin]; auto. right. apply Ha, in_or_app; simpl; auto. }
    simpl. split; [auto|]. split.
    + rewrite rm_prev_other; auto.
      destruct Hpv as [->|Hin]; auto.
      right; right. apply Ha, in_or_app; auto.
    + destruct l1 as [|a' l1].
      * simpl in Eprev.
        assert (E : GET_NEXT (rm_mem m hp b) hp a = GET_NEXT m hp b).
        { rewrite <- Eprev. apply rm_next_prev.
          - rewrite Eprev. unfold node_ok in Haok. lia.
          - destruct Hnx as [->|Hin]; [left; auto|right].
            rewrite Forall_forall in Hok. apply Hok. simpl; auto.
          - rewrite Eprev. intuition. }
        rewrite E. exact IH.
      * assert (E : GET_NEXT (rm_mem m hp b) hp a = GET_NEXT m hp a).
        { apply rm_next_other.
          - right. apply Ha, in_or_app. left. rewrite Eprev.
            apply last_In_cons.
          - tauto. }
        rewrite E. exact IH.
Qed.

(** Bytes that [ins_mem] leaves alone. *)
Lemma ins_mem_outside m r b y :
  (y < b \/ b + 8 <= y) -> (r = hp \/ y < r \/ r + 4 <= y) ->
  ins_mem m hp r b y = m y.
Proof.
  intros H1 H2. unfold ins_mem, SET_PREV, SET_NEXT, WSIZE.
  destruct (Z.eqb_spec r hp); simpl; rewrite ?PUT_outside by lia; auto.
Qed.

(** Pushing [b] in front of a list. *)
Lemma ins_flist m r b l :
  flist m hp r l -> sepl (b :: l) -> Forall (node_ok hp) (b :: l) ->
  flist (ins_mem m hp r b) hp b (b :: l).
Proof.
  unfold flist. intros Hl [Hb Hs] Hok.
  apply Forall_cons_iff in Hok as [Hbok Hok].
  assert (Hr : ptr_ok hp r).
  { destruct l; simpl in Hl; [left; auto|right].
    destruct Hl as [-> _]. now apply Forall_cons_iff in Hok as [? _]. }
  assert (Ehp : ptr_ok hp hp) by (left; auto).
  assert (Enext : GET_NEXT (ins_mem m hp r b) hp b = r).
  { unfold ins_mem. destruct (Z.eqb_spec r hp); simpl.
    - now apply GET_NEXT_SET_NEXT.
    - etransitivity; [|apply (GET_NEXT_SET_NEXT (SET_PREV m hp b hp) b r); exact Hr].
      apply GET_NEXT_agree. intros y Hy. unfold SET_PREV at 1. apply PUT_outside.
      destruct l; simpl in Hl; [lia|]. destruct Hl as [-> _].
      specialize (Hb z (or_introl eq_refl)). unfold apart in *. lia. }
  assert (Eprev : GET_PREV (ins_mem m hp r b) hp b = hp).
  { etransitivity; [|apply (GET_PREV_SET_PREV m b hp); exact Ehp].
    apply GET_PREV_agree. intros y Hy. unfold ins_mem.
    destruct (Z.eqb_spec r hp); simpl.
    - unfold SET_NEXT. apply PUT_outside. unfold WSIZE; lia.
    - unfold SET_PREV at 1. rewrite PUT_outside.
      + unfold SET_NEXT. apply PUT_outside. unfold WSIZE; lia.
      + destruct l; simpl in Hl; [lia|]. destruct Hl as [-> _].
        specialize (Hb z (or_introl eq_refl)). unfold apart in *. lia. }
  simpl. rewrite Eprev, Enext. repeat split; auto.
  destruct l as [|n l]; simpl in *; [auto|].
  destruct Hl as (-> & Hp & Hl). destruct Hs as [Hn Hs].
  apply Forall_cons_iff in Hok as [Hnok Hok].
  assert (Hnhp : n <> hp) by (unfold node_ok in Hnok; lia).
  split; [auto|]. split.
  - unfold ins_mem. destruct (Z.eqb_spec n hp); [tauto|]. simpl.
    apply GET_PREV_SET_PREV. right; auto.
  - assert (E : GET_NEXT (ins_mem m hp n b) hp n = GET_NEXT m hp n).
    { unfold GET_NEXT, WSIZE. f_equal. apply GET_agree. intros y Hy.
      apply ins_mem_outside; [|lia].
      specialize (Hb n (or_introl eq_refl)). unfold apart in Hb. lia. }
    rewrite E. eapply lseg_frame; [|exact Hl].
    intros x Hx.
    assert (A1 : apart b x) by (apply Hb; auto).
    assert (A2 : apart n x) by (apply Hn; auto).
    unfold GET_PREV, GET_NEXT, WSIZE.
    split; f_equal; apply GET_agree; intros y Hy;
      apply ins_mem_outside; unfold apart in *; lia.
Qed.

End Links.

(** * The ten list heads *)

Lemma class_lt size : (class size < 10)%nat.
Proof.
  unfold class.
  repeat match goal with |- context [?a <=? ?b] => destruct (a <=? b) end; lia.
Qed.

Lemma size2ptr_class s size : size2ptr s size = nth_root s (class size).
Proof.
  unfold size2ptr, class.
  repeat match goal with |- context [?a <=? ?b] => destruct (a <=? b) end;
    reflexivity.
Qed.

Lemma update_root_class s size :
  update_root s size = set_nth_root s (class size) (root s).
Proof.
  unfold update_root, class.
  repeat match goal with |- context [?a <=? ?b] => destruct (a <=? b) end;
    reflexivity.
Qed.

Lemma nth_root_set s k r i :
  (k < 10)%nat -> (i < 10)%nat ->
  nth_root (set_nth_root s k r) i = if Nat.eqb i k then r else nth_root s i.
Proof.
  intros Hk Hi.
  do 10 (destruct k as [|k];
         [do 10 (destruct i as [|i]; [reflexivity|]); lia|]).
  lia.
Qed.

Lemma remove_list_eq s b size :
  remove_list s b size =
  let r := if b =? nth_root s (class size)
           then GET_NEXT (mem s) (heap_listp s) b else nth_root s (class size) in
  set_nth_root
    (set_root (set_mem s (rm_mem (mem s) (heap_listp s) b)) r) (class size) r.
Proof.
  unfold remove_list, rm_mem. rewrite update_root_class, size2ptr_class.
  cbn zeta. cbn [mem heap_listp root set_mem set_root].
  destruct (negb (GET_PREV (mem s) (heap_listp s) b =? heap_listp s));
  cbn [mem heap_listp root set_mem set_root];
  destruct (negb (GET_NEXT (mem s) (heap_listp s) b =? heap_listp s));
  cbn [mem heap_listp root set_mem set_root];
  destruct (b =? nth_root s (class size)); reflexivity.
Qed.

Lemma insert_list_eq s b size :
  insert_list s b size =
  set_nth_root
    (set_root (set_mem s (ins_mem (mem s) (heap_listp s) (nth_root s (class size)) b)) b)
    (class size) b.
Proof.
  unfold insert_list, ins_mem. rewrite update_root_class, size2ptr_class.
  cbn zeta. cbn [mem heap_listp root set_mem set_root].
  destruct (negb (nth_root s (class size) =? heap_listp s)); reflexivity.
Qed.

(** * Node sets under removal and insertion *)

Lemma upd_same fl k l : upd fl k l k = l.
Proof. unfold upd. now rewrite Nat.eqb_refl. Qed.

Lemma upd_other fl k l i : i <> k -> upd fl k l i = fl i.
Proof. unfold upd. intros H. apply Nat.eqb_neq in H. now rewrite H. Qed.

Lemma sepl_remove l b : sepl l -> sepl (remove Z.eq_dec b l).
Proof.
  induction l as [|a l IH]; simpl; [auto|]. intros [Ha Hl].
  destruct (Z.eq_dec b a); [auto|]. simpl. split; [|auto].
  intros x Hx. apply in_remove in Hx. apply Ha, Hx.
Qed.

Lemma nodes_ok_remove hp fl k b :
  nodes_ok hp fl -> nodes_ok hp (upd fl k (remove Z.eq_dec b (fl k))).
Proof.
  intros H i x. unfold upd. destruct (Nat.eqb_spec i k) as [->|]; [|apply H].
  intros Hx. apply in_remove in Hx. apply (H k), Hx.
Qed.

Lemma nodes_sep_remove fl k b :
  nodes_sep fl -> nodes_sep (upd fl k (remove Z.eq_dec b (fl k))).
Proof.
  intros [H1 H2]. split.
  - intros i. unfold upd. destruct (Nat.eqb_spec i k) as [->|]; [|apply H1].
    apply sepl_remove, H1.
  - intros k1 k2 b1 b2 Hk Hb1 Hb2. apply (H2 k1 k2); auto.
    + revert Hb1. unfold upd. destruct (Nat.eqb_spec k1 k) as [->|]; auto.
      intros Hx. apply in_remove in Hx. tauto.
    + revert Hb2. unfold upd. destruct (Nat.eqb_spec k2 k) as [->|]; auto.
      intros Hx. apply in_remove in Hx. tauto.
Qed.

Lemma nodes_ok_insert hp fl k b :
  nodes_ok hp fl -> node_ok hp b -> nodes_ok hp (upd fl k (b :: fl k)).
Proof.
  intros H Hb i x. unfold upd. destruct (Nat.eqb_spec i k) as [->|]; [|apply H].
  intros [<-|Hx]; [auto|apply (H k), Hx].
Qed.

Lemma nodes_sep_insert fl k b :
  nodes_sep fl -> (forall i n, In n (fl i) -> apart b n) ->
  nodes_sep (upd fl k (b :: fl k)).
Proof.
  intros [H1 H2] Hb. split.
  - intros i. unfold upd. destruct (Nat.eqb_spec i k) as [->|]; [|apply H1].
    simpl. split; [intros n Hn; eapply Hb; eauto|apply H1].
  - intros k1 k2 b1 b2 Hk. unfold upd.
    destruct (Nat.eqb_spec k1 k) as [->|]; destruct (Nat.eqb_spec k2 k) as [->|].
    + congruence.
    + intros [<-|Hb1] Hb2; [apply (Hb k2)|apply (H2 k k2)]; auto.
    + intros Hb1 [<-|Hb2]; [apply apart_sym, (Hb k1)|apply (H2 k1 k)]; auto.
    + apply H2; auto.
Qed.

(** * [remove_list] and [insert_list] on the whole index *)

Lemma remove_list_spec s fl b size :
  0 <= heap_listp s < 2 ^ 64 ->
  lists_ok s fl -> nodes_ok (heap_listp s) fl -> nodes_sep fl ->
  In b (fl (class size)) ->
  let s' := remove_list s b size in
  lists_ok s' (upd fl (class size) (remove Z.eq_dec b (fl (class size)))) /\
  heap_listp s' = heap_listp s /\ mem_brk s' = mem_brk s /\
  mem_max_addr s' = mem_max_addr s /\
  (forall y, (forall n, In n (fl (class size)) -> n <> b -> y < n \/ n + 8 <= y) ->
             mem s' y = mem s y).
Proof.
  intros Hhp Hl Hok [Hs1 Hs2] Hin s'. subst s'. rewrite remove_list_eq. cbn zeta.
  set (k := class size) in *. set (hp := heap_listp s) in *.
  pose proof (class_lt size) as Hk. fold k in Hk.
  destruct (in_split _ _ Hin) as (l1 & l2 & El).
  pose proof (Hl k Hk) as Hfk. unfold flist in Hfk. fold hp in Hfk. rewrite El in Hfk.
  pose proof (Hs1 k) as Hsk. rewrite El in Hsk.
  assert (Hokk : Forall (node_ok hp) (l1 ++ b :: l2)).
  { rewrite <- El. apply Forall_forall. intros x Hx. eapply Hok; eauto. }
  pose proof (lseg_mid hp Hhp _ _ _ _ _ _ _ Hfk) as [Eprev Enext].
  assert (Erm : remove Z.eq_dec b (fl k) = l1 ++ l2).
  { rewrite El, remove_app, remove_cons.
    apply sepl_NoDup, NoDup_remove in Hsk as [_ Hni].
    rewrite !notin_remove; auto; intros ?; apply Hni, in_or_app; auto. }
  assert (Hout : forall y,
    (forall n, In n (fl k) -> n <> b -> y < n \/ n + 8 <= y) ->
    rm_mem (mem s) hp b y = mem s y).
  { intros y Hy. apply sepl_NoDup, NoDup_remove in Hsk as [_ Hni].
    apply rm_mem_outside.
    - rewrite Eprev. destruct (last_In l1 hp) as [->|Hl1]; auto.
      right. assert (In (last l1 hp) (fl k)) by (rewrite El; apply in_or_app; auto).
      assert (last l1 hp <> b) by (intros E; apply Hni, in_or_app; left; now rewrite <- E).
      specialize (Hy _ H H0). lia.
    - rewrite Enext. destruct (hd_In l2 hp) as [[-> _]|Hl2]; auto.
      right. assert (In (hd hp l2) (fl k)) by (rewrite El; apply in_or_app; simpl; auto).
      assert (hd hp l2 <> b) by (intros E; apply Hni, in_or_app; right; now rewrite <- E).
      specialize (Hy _ H H0). lia. }
  split; [|repeat split; auto].
  intros i Hi. unfold flist. rewrite nth_root_set by auto.
  cbn [mem heap_listp set_nth_root set_root set_mem]. fold hp. unfold upd.
  destruct (Nat.eqb_spec i k) as [->|Hik].
  - rewrite Erm.
    pose proof (rm_lseg hp Hhp (mem s) b l2 l1 hp (nth_root s k) Hfk Hsk Hokk
                  (or_introl eq_refl)) as H.
    destruct l1 as [|a l1].
    + simpl in Hfk. destruct Hfk as [-> _]. rewrite Z.eqb_refl. exact H.
    + simpl in Hfk. destruct Hfk as [E _].
      destruct (Z.eqb_spec b (nth_root s k)) as [Eb|]; [|exact H].
      exfalso. simpl in Hsk. destruct Hsk as [Ha _].
      assert (apart a b) by (apply Ha, in_or_app; simpl; auto).
      unfold apart in *. lia.
  - eapply lseg_frame; [|apply Hl; auto].
    intros x Hx. split; [apply GET_PREV_agree|apply GET_NEXT_agree];
      intros y Hy; apply Hout; intros n Hn _;
      assert (apart x n) by (eapply Hs2; eauto); unfold apart in *; lia.
Qed.

Lemma insert_list_spec s fl b size :
  0 <= heap_listp s < 2 ^ 64 ->
  lists_ok s fl -> nodes_ok (heap_listp s) fl -> nodes_sep fl ->
  node_ok (heap_listp s) b -> (forall i n, In n (fl i) -> apart b n) ->
  let s' := insert_list s b size in
  lists_ok s' (upd fl (class size) (b :: fl (class size))) /\
  heap_listp s' = heap_listp s /\ mem_brk s' = mem_brk s /\
  mem_max_addr s' = mem_max_addr s /\
  (forall y, (y < b \/ b + 8 <= y) ->
             (forall n, In n (fl (class size)) -> y < n \/ n + 4 <= y) ->
             mem s' y = mem s y).
Proof.
  intros Hhp Hl Hok [Hs1 Hs2] Hb Hbn s'. subst s'. rewrite insert_list_eq.
  set (k := class size) in *. set (hp := heap_listp s) in *.
  pose proof (class_lt size) as Hk. fold k in Hk.
  assert (Hout : forall y, (y < b \/ b + 8 <= y) ->
             (forall n, In n (fl k) -> y < n \/ n + 4 <= y) ->
             ins_mem (mem s) hp (nth_root s k) b y = mem s y).
  { intros y Hy1 Hy2. apply ins_mem_outside; auto.
    pose proof (Hl k Hk) as Hfk. unfold flist in Hfk.
    destruct (fl k) as [|a l]; simpl in Hfk; [left; auto|].
    destruct Hfk as [-> _]. right. apply Hy2. simpl; auto. }
  split; [|repeat split; auto].
  intros i Hi. unfold flist. rewrite nth_root_set by auto.
  cbn [mem heap_listp set_nth_root set_root set_mem]. fold hp. unfold upd.
  destruct (Nat.eqb_spec i k) as [->|Hik].
  - apply (ins_flist hp Hhp).
    + apply Hl; auto.
    + simpl. split; [intros n Hn; eapply Hbn; eauto|apply Hs1].
    + constructor; auto. apply Forall_forall. intros x Hx. eapply Hok; eauto.
  - eapply lseg_frame; [|apply Hl; auto].
    intros x Hx. assert (apart b x) by (eapply Hbn; eauto).
    split; [apply GET_PREV_agree|apply GET_NEXT_agree];
      intros y Hy; apply Hout; try (unfold apart in *; lia);
      intros n Hn; assert (apart x n) by (eapply Hs2; eauto); unfold apart in *; lia.
Qed.

(** * Block sequences *)

(** Sizes of a sequence are non-negative multiples of 8. *)
Lemma total_app l1 l2 : total (l1 ++ l2) = total l1 + total l2.
Proof. induction l1 as [|b l1 IH]; simpl; lia. Qed.

Lemma layout_app l1 : forall bp l2,
  layout bp (l1 ++ l2) = layout bp l1 ++ layout (bp + total l1) l2.
Proof.
  induction l1 as [|b l1 IH]; intros bp l2; simpl.
  - now rewrite Z.add_0_r.
  - rewrite IH. do 3 f_equal. lia.
Qed.

Lemma total_nonneg bs : Forall sz8 bs -> 0 <= total bs.
Proof.
  induction 1 as [|b bs [Hb _] _ IH]; simpl; lia.
Qed.

Lemma size_ok_sz8 b : size_ok b -> sz8 b.
Proof. unfold size_ok, sz8. lia. Qed.

Lemma wf_blocks_cons b rest :
  rest <> [] -> (wf_blocks (b :: rest) <-> size_ok b /\ wf_blocks rest).
Proof. destruct rest; [congruence|]. simpl. tauto. Qed.

Lemma wf_blocks_app pre rest :
  rest <> [] -> (wf_blocks (pre ++ rest) <-> Forall size_ok pre /\ wf_blocks rest).
Proof.
  intros Hr. induction pre as [|a pre IH].
  - simpl. split; [auto|tauto].
  - change ((a :: pre) ++ rest) with (a :: (pre ++ rest)).
    rewrite wf_blocks_cons, IH, Forall_cons_iff; [tauto|].
    destruct pre; simpl; congruence.
Qed.

Lemma wf_blocks_sz8 bs : wf_blocks bs -> Forall sz8 bs.
Proof.
  induction bs as [|b bs IH]; [constructor|].
  destruct bs as [|c bs].
  - simpl. intros [H1 H2]. constructor; [|constructor].
    unfold sz8. rewrite H1. split; [lia|reflexivity].
  - intros H. apply wf_blocks_cons in H as [H1 H2]; [|congruence].
    constructor; [now apply size_ok_sz8|auto].
Qed.

Lemma wf_blocks_nonempty bs : wf_blocks bs -> bs <> [].
Proof. destruct bs; simpl; [tauto|congruence]. Qed.

Lemma wf_blocks_set_pa v bs : wf_blocks bs -> wf_blocks (set_pa v bs).
Proof. destruct bs as [|[[sz a] pa] bs]; simpl; auto. Qed.

Lemma total_set_pa v bs : total (set_pa v bs) = total bs.
Proof. destruct bs as [|[[sz a] pa] bs]; reflexivity. Qed.

Lemma layout_In_app bp l1 x l2 b k :
  In (b, k) (layout bp (l1 ++ x :: l2)) <->
  In (b, k) (layout bp l1) \/ (b = bp + total l1 /\ k = x) \/
  In (b, k) (layout (bp + total l1 + bsize x) l2).
Proof.
  rewrite layout_app, in_app_iff. simpl.
  split; intros [H|[H|H]]; auto.
  - inversion H; subst; auto.
  - destruct H as [-> ->]; auto.
Qed.

Lemma layout_bounds bs : forall bp b k,
  Forall sz8 bs -> In (b, k) (layout bp bs) ->
  bp <= b /\ b + bsize k <= bp + total bs.
Proof.
  induction bs as [|x bs IH]; simpl; intros bp b k Hs; [tauto|].
  apply Forall_cons_iff in Hs as [[Hx _] Hs].
  pose proof (total_nonneg _ Hs).
  intros [E|Hin].
  - inversion E; subst. lia.
  - apply IH in Hin; auto. lia.
Qed.

Lemma layout_In_Forall (P : blk -> Prop) bs : forall bp b k,
  Forall P bs -> In (b, k) (layout bp bs) -> P k.
Proof.
  induction bs as [|x bs IH]; simpl; intros bp b k Hs; [tauto|].
  apply Forall_cons_iff in Hs as [Hx Hs].
  intros [E|Hin]; [inversion E; subst; auto|eauto].
Qed.

(** Distinct blocks of a layout do not overlap. *)
Lemma layout_disjoint bs : forall bp b1 k1 b2 k2,
  Forall sz8 bs ->
  In (b1, k1) (layout bp bs) -> In (b2, k2) (layout bp bs) ->
  (b1 = b2 /\ k1 = k2) \/ b1 + bsize k1 <= b2 \/ b2 + bsize k2 <= b1.
Proof.
  induction bs as [|x bs IH]; simpl; intros bp b1 k1 b2 k2 Hs; [tauto|].
  apply Forall_cons_iff in Hs as [[Hx _] Hs].
  intros [E1|H1] [E2|H2].
  - inversion E1; inversion E2; subst; auto.
  - inversion E1; subst. apply layout_bounds in H2; auto. lia.
  - inversion E2; subst. apply layout_bounds in H1; auto. lia.
  - eapply IH; eauto.
Qed.

(** * Segments of memory *)

Lemma seg_app m l1 : forall bp l2,
  seg m bp (l1 ++ l2) <-> seg m bp l1 /\ seg m (bp + total l1) l2.
Proof.
  induction l1 as [|[[sz a] pa] l1 IH]; intros bp l2; simpl.
  - rewrite Z.add_0_r. tauto.
  - rewrite IH. unfold bsize; simpl. rewrite Z.add_assoc. tauto.
Qed.

(** A segment only depends on the header of every block and on the footer
    of every free block. *)
Lemma seg_frame m m' bs : forall bp,
  (forall b k, In (b, k) (layout bp bs) ->
     (forall y, b - 4 <= y < b -> m' y = m y) /\
     (balloc k = false ->
      forall y, b + bsize k - 8 <= y < b + bsize k - 4 -> m' y = m y)) ->
  seg m bp bs -> seg m' bp bs.
Proof.
  induction bs as [|[[sz a] pa] bs IH]; intros bp H; simpl; [auto|].
  intros (Hh & Hf & Hs).
  destruct (H bp (sz, a, pa)) as [F1 F2]; [simpl; auto|].
  split; [|split].
  - etransitivity; [|exact Hh]. apply GET_agree. intros y Hy. apply F1.
    unfold HDRP, WSIZE in *. lia.
  - intros Ha. etransitivity; [|exact (Hf Ha)]. apply GET_agree. intros y Hy.
    apply F2; auto. unfold bsize, DSIZE in *; simpl. lia.
  - apply IH; auto. intros b k Hin. apply H. simpl. auto.
Qed.

(** * Decoding and encoding headers *)

Lemma hdr_form sz a pa :
  sz mod 8 = 0 ->
  hdr sz a pa = 8 * (sz / 8) + (b2z a + 2 * b2z pa) /\
  0 <= b2z a + 2 * b2z pa < 4.
Proof.
  intros H. unfold hdr. split.
  - pose proof (Z.div_mod sz 8). lia.
  - destruct a, pa; simpl; lia.
Qed.

Lemma size_of_hdr sz a pa : sz mod 8 = 0 -> Z.land (hdr sz a pa) (Z.lnot 7) = sz.
Proof.
  intros H. destruct (hdr_form sz a pa H) as [-> Hc].
  rewrite land_not7 by lia. pose proof (Z.div_mod sz 8). lia.
Qed.

Lemma alloc_of_hdr sz a pa : sz mod 8 = 0 -> Z.land (hdr sz a pa) 1 = b2z a.
Proof.
  intros H. destruct (hdr_form sz a pa H) as [-> Hc].
  rewrite land_low by lia. destruct a, pa; reflexivity.
Qed.

Lemma prev_of_hdr sz a pa : sz mod 8 = 0 -> Z.land (hdr sz a pa) 2 = 2 * b2z pa.
Proof.
  intros H. destruct (hdr_form sz a pa H) as [-> Hc].
  rewrite land_low by lia. destruct a, pa; reflexivity.
Qed.

Lemma clear_prev_of_hdr sz a pa :
  sz mod 8 = 0 -> Z.land (hdr sz a pa) (Z.lnot 2) = hdr sz a false.
Proof.
  intros H. destruct (hdr_form sz a pa H) as [-> Hc].
  rewrite land_not2 by lia. unfold hdr. pose proof (Z.div_mod sz 8).
  destruct a, pa; unfold b2z; simpl (Z.land _ (Z.lnot 2)); lia.
Qed.

Lemma set_prev_of_hdr sz a pa :
  sz mod 8 = 0 -> Z.lor (hdr sz a pa) 2 = hdr sz a true.
Proof.
  intros H. destruct (hdr_form sz a pa H) as [-> Hc].
  rewrite lor_low; [|lia|lia|destruct a, pa; unfold b2z; simpl (Z.lor _ 2); lia].
  unfold hdr. pose proof (Z.div_mod sz 8).
  destruct a, pa; unfold b2z; simpl (Z.lor _ 2); lia.
Qed.

Lemma PACK_hdr sz c :
  sz mod 8 = 0 -> 0 <= c < 8 -> PACK sz c = sz + c.
Proof.
  intros H Hc. unfold PACK.
  replace sz with (8 * (sz / 8)) at 1 by (pose proof (Z.div_mod sz 8); lia).
  rewrite lor_low3 by lia. pose proof (Z.div_mod sz 8). lia.
Qed.

Section Decode.

Variables (m : memory) (p sz : Z) (a pa : bool).
Hypothesis Hget : GET m p = hdr sz a pa.
Hypothesis Hsz : sz mod 8 = 0.

Lemma GET_SIZE_hdr : GET_SIZE m p = sz.
Proof. unfold GET_SIZE. rewrite Hget. now apply size_of_hdr. Qed.

Lemma GET_ALLOC_hdr : GET_ALLOC m p = b2z a.
Proof. unfold GET_ALLOC. rewrite Hget. now apply alloc_of_hdr. Qed.

Lemma GET_PREV_ALLOC_hdr : GET_PREV_ALLOC m p = 2 * b2z pa.
Proof. unfold GET_PREV_ALLOC. rewrite Hget. now apply prev_of_hdr. Qed.

End Decode.

(** A footer is a header with both bits clear. *)
Lemma GET_SIZE_ftr m p sz : GET m p = sz -> sz mod 8 = 0 -> GET_SIZE m p = sz.
Proof.
  intros H Hs. apply (GET_SIZE_hdr m p sz false false); auto.
  unfold hdr; simpl. lia.
Qed.

(** * Blocks of a well-formed arena *)

Lemma wf_blocks_In bs : forall bp0 b k,
  wf_blocks bs -> In (b, k) (layout bp0 bs) ->
  sz8 k /\ (balloc k = false -> size_ok k).
Proof.
  induction bs as [|x bs IH]; intros bp0 b k Hwf; [simpl; tauto|].
  destruct bs as [|c bs].
  - simpl in *. intros [E|[]]. inversion E; subst.
    destruct Hwf as [H1 H2]. split; [|congruence].
    unfold sz8. rewrite H1. split; [lia|reflexivity].
  - apply wf_blocks_cons in Hwf as [H1 H2]; [|congruence].
    intros [E|Hin].
    + inversion E; subst. split; [now apply size_ok_sz8|auto].
    + eapply IH; eauto.
Qed.

Lemma nodes_in_layout bp0 bs fl skip k n :
  indexes bp0 bs fl skip -> In n (fl k) ->
  exists sz pa, In (n, (sz, false, pa)) (layout bp0 bs) /\ class sz = k /\
                ~ In n skip.
Proof.
  intros H Hin. apply H in Hin as [(sz & pa & H1 & H2) H3]. eauto.
Qed.

(** The link fields of a real block touch no header and no footer. *)
Lemma link_clear bp0 bs n kn b k y :
  wf_blocks bs ->
  In (n, kn) (layout bp0 bs) -> 16 <= bsize kn ->
  In (b, k) (layout bp0 bs) ->
  (b - 4 <= y < b \/ (balloc k = false /\ b + bsize k - 8 <= y < b + bsize k - 4)) ->
  y < n \/ n + 8 <= y.
Proof.
  intros Hwf Hn Hsz Hb Hy.
  pose proof (wf_blocks_sz8 _ Hwf) as H8.
  destruct (wf_blocks_In _ _ _ _ Hwf Hb) as [[Hk0 _] Hkf].
  destruct (layout_disjoint _ _ _ _ _ _ H8 Hn Hb) as [[-> ->]|[H|H]].
  - destruct Hy as [Hy|[Ha Hy]]; lia.
  - destruct Hy as [Hy|[Ha Hy]]; [lia|].
    specialize (Hkf Ha). unfold size_ok in Hkf. lia.
  - destruct Hy as [Hy|[Ha Hy]]; lia.
Qed.

(** Writing into link fields of real blocks keeps the segment. *)
Lemma seg_frame_links m m' bp0 bs :
  wf_blocks bs ->
  (forall y, (forall n kn, In (n, kn) (layout bp0 bs) -> 16 <= bsize kn ->
                           y < n \/ n + 8 <= y) -> m' y = m y) ->
  seg m bp0 bs -> seg m' bp0 bs.
Proof.
  intros Hwf H. apply seg_frame. intros b k Hb. split.
  - intros y Hy. apply H. intros n kn Hn Hsz.
    apply (link_clear bp0 bs n kn b k y); auto.
  - intros Ha y Hy. apply H. intros n kn Hn Hsz.
    apply (link_clear bp0 bs n kn b k y); auto.
Qed.

(** Lists only depend on the link fields of their nodes. *)
Lemma lists_frame s s' fl :
  lists_ok s fl ->
  heap_listp s' = heap_listp s ->
  (forall k, (k < 10)%nat -> nth_root s' k = nth_root s k) ->
  (forall k n, In n (fl k) -> forall y, n <= y < n + 8 -> mem s' y = mem s y) ->
  lists_ok s' fl.
Proof.
  intros Hl Hhp Hr Hm k Hk. unfold flist. rewrite Hhp, Hr by auto.
  eapply lseg_frame; [|apply Hl; auto].
  intros x Hx. split; [apply GET_PREV_agree|apply GET_NEXT_agree];
    intros y Hy; eapply Hm; eauto; lia.
Qed.

Lemma node_ok_block s bs b k :
  arena s bs -> In (b, k) (layout (heap_listp s + 8) bs) ->
  node_ok (heap_listp s) b /\ b + bsize k <= mem_brk s.
Proof.
  intros A Hin. destruct A as [H1 H2 H3 H4 H5 H6 H7].
  pose proof (wf_blocks_sz8 _ H7) as H8.
  destruct (wf_blocks_In _ _ _ _ H7 Hin) as [[Hk0 _] _].
  apply layout_bounds in Hin; auto. unfold node_ok. lia.
Qed.

Lemma nodes_ok_arena s bs fl skip :
  arena s bs -> indexes (heap_listp s + 8) bs fl skip ->
  nodes_ok (heap_listp s) fl.
Proof.
  intros A Hi k b Hb.
  destruct (nodes_in_layout _ _ _ _ _ _ Hi Hb) as (sz & pa & Hin & _).
  eapply node_ok_block; eauto.
Qed.

Lemma arena_hp s bs : arena s bs -> 0 <= heap_listp s < 2 ^ 64.
Proof.
  intros A. destruct A as [H1 H2 H3 H4 H5 H6 H7].
  pose proof (wf_blocks_sz8 _ H7) as H8.
  apply total_nonneg in H8. lia.
Qed.

(** * Status bits along a sequence *)

Lemma last_alloc_nil p : last_alloc p [] = p.
Proof. reflexivity. Qed.

Lemma last_alloc_snoc p l b : last_alloc p (l ++ [b]) = balloc b.
Proof. unfold last_alloc. now rewrite rev_app_distr. Qed.

Lemma last_alloc_cons p b l : last_alloc p (b :: l) = last_alloc (balloc b) l.
Proof.
  unfold last_alloc. simpl. destruct (rev l) as [|c r] eqn:E; simpl; auto.
Qed.

Lemma pa_ok_app l1 : forall p l2,
  pa_ok p (l1 ++ l2) <-> pa_ok p l1 /\ pa_ok (last_alloc p l1) l2.
Proof.
  induction l1 as [|b l1 IH]; intros p l2; simpl.
  - rewrite last_alloc_nil. tauto.
  - rewrite IH, last_alloc_cons. tauto.
Qed.

Lemma naf_app l1 : forall f l2,
  no_adjacent_free f (l1 ++ l2) <->
  no_adjacent_free f l1 /\
  no_adjacent_free (match rev l1 with [] => f | b :: _ => negb (balloc b) end) l2.
Proof.
  induction l1 as [|b l1 IH]; intros f l2; simpl.
  - tauto.
  - rewrite IH. destruct (rev l1) as [|c r] eqn:E; simpl; tauto.
Qed.

Lemma naf_weaken f bs : no_adjacent_free f bs -> no_adjacent_free false bs.
Proof. destruct bs; simpl; intuition congruence. Qed.

Lemma naf_set_pa v f bs : no_adjacent_free f (set_pa v bs) <-> no_adjacent_free f bs.
Proof. destruct bs as [|[[sz a] pa] bs]; simpl; tauto. Qed.

(** * Protected bytes *)

Lemma protected_not_free bp0 bs y n kn :
  wf_blocks bs -> protected bp0 bs y ->
  In (n, kn) (layout bp0 bs) -> balloc kn = false ->
  y < n - 4 \/ n + bsize kn - 4 <= y.
Proof.
  intros Hwf (b & k & Hb & Ha & Hy) Hn Hf.
  pose proof (wf_blocks_sz8 _ Hwf) as H8.
  destruct (layout_disjoint _ _ _ _ _ _ H8 Hn Hb) as [[-> ->]|[H|H]];
    [congruence|lia|lia].
Qed.

Lemma protected_not_header bp0 bs y b k :
  wf_blocks bs -> protected bp0 bs y ->
  In (b, k) (layout bp0 bs) -> y < b - 4 \/ b <= y.
Proof.
  intros Hwf (b' & k' & Hb' & Ha & Hy) Hb.
  pose proof (wf_blocks_sz8 _ Hwf) as H8.
  destruct (wf_blocks_In _ _ _ _ Hwf Hb) as [[Hk0 _] _].
  destruct (layout_disjoint _ _ _ _ _ _ H8 Hb Hb') as [[-> ->]|[H|H]]; lia.
Qed.

(** * Free blocks and the index *)

Lemma free_blocks_apart bp0 bs n kn b k :
  wf_blocks bs ->
  In (n, kn) (layout bp0 bs) -> balloc kn = false ->
  In (b, k) (layout bp0 bs) -> balloc k = false ->
  n <> b -> apart n b.
Proof.
  intros Hwf Hn Hfn Hb Hfb Hne.
  pose proof (wf_blocks_sz8 _ Hwf) as H8.
  destruct (wf_blocks_In _ _ _ _ Hwf Hn) as [_ Sn]. specialize (Sn Hfn).
  destruct (wf_blocks_In _ _ _ _ Hwf Hb) as [_ Sb]. specialize (Sb Hfb).
  unfold size_ok in *. unfold apart.
  destruct (layout_disjoint _ _ _ _ _ _ H8 Hn Hb) as [[-> ->]|[H|H]]; [congruence|lia|lia].
Qed.

Lemma free_at_unique bp0 bs b sz pa c :
  wf_blocks bs -> In (b, (sz, false, pa)) (layout bp0 bs) ->
  (free_at bp0 bs b c <-> c = class sz).
Proof.
  intros Hwf Hb. pose proof (wf_blocks_sz8 _ Hwf) as H8.
  destruct (wf_blocks_In _ _ _ _ Hwf Hb) as [_ Sb]. specialize (Sb eq_refl).
  unfold size_ok, bsize in Sb; simpl in Sb.
  split.
  - intros (sz' & pa' & Hin & Hc).
    destruct (layout_disjoint _ _ _ _ _ _ H8 Hb Hin) as [[_ E]|[H|H]].
    + inversion E; subst; auto.
    + unfold bsize in H; simpl in H. lia.
    + destruct (wf_blocks_In _ _ _ _ Hwf Hin) as [_ Sb']. specialize (Sb' eq_refl).
      unfold size_ok, bsize in *; simpl in *. lia.
  - intros ->. exists sz, pa. auto.
Qed.

Lemma layout_set_pa v bs : forall bp0 b sz a pa,
  In (b, (sz, a, pa)) (layout bp0 (set_pa v bs)) ->
  exists pa', In (b, (sz, a, pa')) (layout bp0 bs).
Proof.
  destruct bs as [|[[sz0 a0] pa0] bs]; simpl; intros bp0 b sz a pa; [tauto|].
  unfold bsize; simpl. intros [E|H]; [inversion E; subst|]; eauto.
Qed.

Lemma layout_unset_pa v bs : forall bp0 b sz a pa,
  In (b, (sz, a, pa)) (layout bp0 bs) ->
  exists pa', In (b, (sz, a, pa')) (layout bp0 (set_pa v bs)).
Proof.
  destruct bs as [|[[sz0 a0] pa0] bs]; simpl; intros bp0 b sz a pa; [tauto|].
  unfold bsize; simpl. intros [E|H]; [inversion E; subst|]; eauto.
Qed.

Lemma free_at_set_pa v bp0 l1 l2 b c :
  free_at bp0 (l1 ++ set_pa v l2) b c <-> free_at bp0 (l1 ++ l2) b c.
Proof.
  unfold free_at. split; intros (sz & pa & Hin & Hc);
    rewrite layout_app, in_app_iff in Hin; destruct Hin as [Hin|Hin].
  - exists sz, pa. rewrite layout_app, in_app_iff. auto.
  - apply layout_set_pa in Hin as [pa' Hin].
    exists sz, pa'. rewrite layout_app, in_app_iff. auto.
  - exists sz, pa. rewrite layout_app, in_app_iff. auto.
  - apply (layout_unset_pa v) in Hin as [pa' Hin].
    exists sz, pa'. rewrite layout_app, in_app_iff. auto.
Qed.

Lemma protected_set_pa v bp0 l1 l2 y :
  protected bp0 (l1 ++ set_pa v l2) y <-> protected bp0 (l1 ++ l2) y.
Proof.
  unfold protected. split; intros (b & [[sz a] pa] & Hin & Ha & Hy);
    rewrite layout_app, in_app_iff in Hin; destruct Hin as [Hin|Hin].
  - exists b, (sz, a, pa). rewrite layout_app, in_app_iff. auto.
  - apply layout_set_pa in Hin as [pa' Hin].
    exists b, (sz, a, pa'). rewrite layout_app, in_app_iff. auto.
  - exists b, (sz, a, pa). rewrite layout_app, in_app_iff. auto.
  - apply (layout_unset_pa v) in Hin as [pa' Hin].
    exists b, (sz, a, pa'). rewrite layout_app, in_app_iff. auto.
Qed.

(** Memory of a state after a [put]. *)
Lemma put_fields s p v :
  mem (put s p v) = PUT (mem s) p v /\
  heap_listp (put s p v) = heap_listp s /\ mem_brk (put s p v) = mem_brk s /\
  mem_max_addr (put s p v) = mem_max_addr s /\
  (forall k, nth_root (put s p v) k = nth_root s k).
Proof. repeat split. Qed.

(** Nodes of an index sit in free blocks of the layout: a write to the
    header of a block does not disturb them. *)
Lemma lists_put_header s bs fl skip b k v :
  arena s bs -> indexes (heap_listp s + 8) bs fl skip ->
  lists_ok s fl -> In (b, k) (layout (heap_listp s + 8) bs) ->
  lists_ok (put s (HDRP b) v) fl.
Proof.
  intros A Hi Hl Hb.
  apply (lists_frame s _ fl Hl).
  - reflexivity.
  - intros i _. apply put_fields.
  - intros i n Hn y Hy. change (mem (put s (HDRP b) v)) with (PUT (mem s) (HDRP b) v).
    apply PUT_outside.
    destruct (nodes_in_layout _ _ _ _ _ _ Hi Hn) as (sz & pa & Hin & _ & _).
    destruct A as [_ _ _ _ _ _ Hwf].
    destruct (wf_blocks_In _ _ _ _ Hwf Hin) as [_ Sn]. specialize (Sn eq_refl).
    unfold size_ok, bsize in Sn; simpl in Sn. unfold HDRP, WSIZE.
    destruct (Z_lt_ge_dec y (b - 4)) as [|H1]; [auto|].
    destruct (Z_lt_ge_dec y b) as [H2|]; [|lia].
    exfalso.
    assert (y < n \/ n + 8 <= y).
    { apply (link_clear (heap_listp s + 8) bs n (sz, false, pa) b k y); auto.
      - unfold bsize; simpl; lia.
      - left; lia. }
    lia.
Qed.

(** * Taking an arena apart at a block *)

Lemma hdr_blk (b : blk) : b = (bsize b, balloc b, bprev b).
Proof. destruct b as [[sz a] pa]. reflexivity. Qed.

Lemma seg_cons m bp b rest :
  seg m bp (b :: rest) <->
  GET m (HDRP bp) = hdr (bsize b) (balloc b) (bprev b) /\
  (balloc b = false -> GET m (bp + bsize b - DSIZE) = bsize b) /\
  seg m (bp + bsize b) rest.
Proof. destruct b as [[sz a] pa]. reflexivity. Qed.

Lemma arena_split s pre b rest :
  arena s (pre ++ b :: rest) -> rest <> [] ->
  let bp := heap_listp s + 8 + total pre in
  Forall size_ok pre /\ size_ok b /\ wf_blocks rest /\
  seg (mem s) (heap_listp s + 8) pre /\
  GET (mem s) (HDRP bp) = hdr (bsize b) (balloc b) (bprev b) /\
  (balloc b = false -> GET (mem s) (bp + bsize b - DSIZE) = bsize b) /\
  seg (mem s) (bp + bsize b) rest /\
  In (bp, b) (layout (heap_listp s + 8) (pre ++ b :: rest)) /\
  0 <= total pre /\ 0 <= total rest /\
  bp + bsize b + total rest = mem_brk s.
Proof.
  intros [H1 H2 H3 H4 H5 H6 H7] Hr bp.
  apply wf_blocks_app in H7 as [W1 W2]; [|congruence].
  apply wf_blocks_cons in W2 as [W2 W3]; [|auto].
  apply seg_app in H6 as [S1 S2]. apply seg_cons in S2 as (S2 & S3 & S4).
  rewrite total_app in H2. simpl in H2.
  assert (0 <= total pre).
  { apply total_nonneg. eapply Forall_impl; [|exact W1]. apply size_ok_sz8. }
  assert (0 <= total rest) by (apply total_nonneg, wf_blocks_sz8; auto).
  repeat split; auto; try apply W2; try (subst bp; lia).
  apply layout_In_app. right. left. auto.
Qed.

(** * The common tail of [coalesce] *)

Lemma coalesce_finish_ok s pre sz szn pan tl fl :
  pre_coal s pre (sz, false, true) ((szn, true, pan) :: tl) fl ->
  let bp := heap_listp s + 8 + total pre in
  let r := coalesce_finish s bp sz in
  fst r = bp /\
  heap_inv (snd r) (pre ++ (sz, false, true) :: (szn, true, false) :: tl)
           (upd fl (class sz) (bp :: fl (class sz))) /\
  heap_listp (snd r) = heap_listp s /\ mem_brk (snd r) = mem_brk s /\
  mem_max_addr (snd r) = mem_max_addr s /\
  (forall y, protected (heap_listp s + 8)
               (pre ++ (sz, false, true) :: (szn, true, pan) :: tl) y ->
             mem (snd r) y = mem s y).
Proof.
  intros [A Hfree Hrest Hl Hsep Hidx Hpa Hpar Hadj Hadjr] bp r.
  set (hp := heap_listp s) in *.
  set (blk := (sz, false, true)) in *. set (nxt := (szn, true, pan)) in *.
  set (L := pre ++ blk :: nxt :: tl) in *.
  assert (Hbp : bp = hp + 8 + total pre) by reflexivity.
  pose proof (arena_hp _ _ A) as Hhp. fold hp in Hhp.
  pose proof (nodes_ok_arena _ _ _ _ A Hidx) as Hnok. fold hp in Hnok.
  destruct (arena_split _ _ _ _ A Hrest) as
    (W1 & W2 & W3 & _ & _ & _ & _ & Hin & T1 & T2 & Ebrk).
  fold hp in Hin, Ebrk. fold bp in Hin, Ebrk. fold L in Hin.
  pose proof A as [A1 A2 A3 A4 A5 A6 A7]. fold hp in A1, A2, A4, A6.
  pose proof (wf_blocks_sz8 _ A7) as H8.
  unfold size_ok, bsize in W2; simpl in W2.
  change (bsize blk) with sz in Ebrk. simpl in Ebrk, T2.
  change (bsize nxt) with szn in Ebrk, T2.
  destruct (node_ok_block _ _ _ _ A Hin) as [Hbok _]. fold hp in Hbok.
  assert (Hnin : In (bp + sz, nxt) (layout (hp + 8) L)).
  { unfold L. apply layout_In_app. right. right. simpl. left. reflexivity. }
  destruct (wf_blocks_In _ _ _ _ A7 Hnin) as [[N0 N8] _].
  change (bsize nxt) with szn in N0, N8.
  assert (T3 : 0 <= total tl).
  { apply total_nonneg. apply wf_blocks_sz8 in W3.
    now apply Forall_cons_iff in W3 as [_ ?]. }
  (* nodes already listed lie apart from [bp] *)
  assert (Hap : forall i n, In n (fl i) -> apart bp n).
  { intros i n Hn.
    destruct (nodes_in_layout _ _ _ _ _ _ Hidx Hn) as (sn & pn & Hn' & _ & Hns).
    fold hp in Hn'. fold bp in Hns.
    apply (free_blocks_apart (hp + 8) L bp blk n (sn, false, pn)); auto.
    intros E. apply Hns. simpl; auto. }
  destruct (insert_list_spec s fl bp sz Hhp Hl Hnok Hsep Hbok Hap)
    as (Hl1 & Ehp1 & Ebrk1 & Emax1 & F1).
  set (s1 := insert_list s bp sz) in *.
  (* the arena is untouched by the insertion *)
  assert (Hs1 : seg (mem s1) (hp + 8) L).
  { apply (seg_frame_links (mem s)); auto.
    intros y Hy. apply F1.
    - apply (Hy bp blk); auto. unfold blk, bsize; simpl; lia.
    - intros n Hn.
      destruct (nodes_in_layout _ _ _ _ _ _ Hidx Hn) as (sn & pn & Hn' & _ & _).
      fold hp in Hn'.
      destruct (wf_blocks_In _ _ _ _ A7 Hn') as [_ Sn]. specialize (Sn eq_refl).
      unfold size_ok, bsize in Sn; simpl in Sn.
      destruct (Hy n (sn, false, pn)); auto; [unfold bsize; simpl; lia|lia]. }
  assert (Hs1' := Hs1). unfold L in Hs1'.
  apply seg_app in Hs1' as [S1 S2]. fold bp in S2.
  simpl in S2. destruct S2 as (S2 & S3 & S5 & _ & S7). specialize (S3 eq_refl).
  (* the final store *)
  assert (Enext : NEXT_BLKP (mem s1) bp = bp + sz).
  { unfold NEXT_BLKP. fold (HDRP bp). rewrite (GET_SIZE_hdr _ _ _ _ _ S2); tauto. }
  assert (Eval : Z.land (GET (mem s1) (HDRP (bp + sz))) (Z.lnot 2) = hdr szn true false).
  { rewrite S5. now apply clear_prev_of_hdr. }
  assert (Er : r = (bp, put s1 (HDRP (bp + sz)) (hdr szn true false))).
  { unfold r, coalesce_finish. fold s1. cbn zeta. now rewrite Enext, Eval. }
  rewrite Er. cbn [fst snd].
  set (s2 := put s1 (HDRP (bp + sz)) (hdr szn true false)).
  assert (Em2 : mem s2 = PUT (mem s1) (HDRP (bp + sz)) (hdr szn true false)) by reflexivity.
  assert (Hw : wrap32 (hdr szn true false) = hdr szn true false).
  { apply wrap32_small. unfold hdr; simpl. lia. }
  assert (Ehp2 : heap_listp s2 = hp) by exact Ehp1.
  assert (Ebrk2 : mem_brk s2 = mem_brk s) by exact Ebrk1.
  assert (Emax2 : mem_max_addr s2 = mem_max_addr s) by exact Emax1.
  assert (EL' : pre ++ blk :: (szn, true, false) :: tl =
                (pre ++ [blk]) ++ set_pa false (nxt :: tl)).
  { rewrite <- app_assoc. reflexivity. }
  assert (EL : L = (pre ++ [blk]) ++ nxt :: tl).
  { unfold L. rewrite <- app_assoc. reflexivity. }
  assert (A1s : arena s1 L).
  { constructor; rewrite ?Ehp1, ?Ebrk1, ?Emax1; auto. }
  (* the index, on the old reading of the arena *)
  assert (Hidx1 : indexes (hp + 8) L (upd fl (class sz) (bp :: fl (class sz))) []).
  { intros k b. unfold upd. destruct (Nat.eqb_spec k (class sz)) as [->|Hk].
    - simpl. rewrite (Hidx (class sz) b). simpl. split.
      + intros [<-|[H _]]; split; auto.
        apply (free_at_unique _ _ _ _ _ _ A7 Hin). reflexivity.
      + intros [H _]. destruct (Z.eq_dec bp b); [auto|right]. split; auto.
        intros [?|[]]; auto.
    - rewrite (Hidx k b). simpl. split; [tauto|]. intros [H _]. split; auto.
      intros [<-|[]]. apply (free_at_unique _ _ _ _ _ _ A7 Hin) in H. auto. }
  split; [reflexivity|].
  split; [|split; [exact Ehp2|split; [exact Ebrk2|split; [exact Emax2|]]]].
  - constructor.
    + (* arena *)
      constructor; rewrite ?Ehp2, ?Ebrk2, ?Emax2; auto.
      * rewrite A2. unfold L. rewrite !total_app. reflexivity.
      * apply seg_app. fold bp. split.
        -- apply (seg_frame (mem s1)); auto. intros b k Hb.
           assert (W1' : Forall sz8 pre)
             by (eapply Forall_impl; [|exact W1]; apply size_ok_sz8).
           destruct (layout_In_Forall _ _ _ _ _ W1' Hb) as [K0 _].
           apply layout_bounds in Hb; auto.
           rewrite Em2. unfold HDRP, WSIZE.
           split; [|intros _]; intros y Hy; apply PUT_outside; lia.
        -- rewrite Em2. unfold blk. cbn [seg]. unfold HDRP, WSIZE, DSIZE in *.
           rewrite !GET_PUT_other by lia. rewrite GET_PUT_same.
           repeat split; auto; [congruence|].
           apply (seg_frame (mem s1)); auto. intros b k Hb.
           assert (Htl : tl <> []) by (intros ->; simpl in Hb; tauto).
           apply wf_blocks_cons in W3 as [[W4 _] W5]; auto.
           change (bsize nxt) with szn in W4.
           destruct (wf_blocks_In _ _ _ _ W5 Hb) as [[K0 _] _].
           apply layout_bounds in Hb; [|now apply wf_blocks_sz8].
           split; [|intros _]; intros y Hy; apply PUT_outside; lia.
      * rewrite EL'. assert (A7' : wf_blocks L) by exact A7. rewrite EL in A7'.
        assert (N1 : nxt :: tl <> []) by congruence.
        assert (N2 : set_pa false (nxt :: tl) <> []) by (simpl; congruence).
        apply (wf_blocks_app _ _ N1) in A7' as [B1 B2].
        apply (wf_blocks_app _ _ N2). split; auto.
    + apply (lists_put_header s1 L _ [] (bp + sz) nxt); rewrite ?Ehp1; auto.
    + apply nodes_sep_insert; auto.
    + rewrite Ehp2, EL'. intros k b. rewrite free_at_set_pa, <- EL. apply Hidx1.
    + rewrite EL'. apply pa_ok_app. split; auto.
      rewrite last_alloc_snoc. simpl. split; auto.
    + rewrite EL'. apply naf_app. rewrite rev_app_distr. simpl.
      split; [|repeat split; auto; apply Hadjr].
      apply naf_app. split; auto.
      apply pa_ok_app in Hpa as [_ Hpb]. simpl in Hpb. destruct Hpb as [Hpb _].
      unfold last_alloc in Hpb. simpl in Hpb.
      destruct (rev pre) as [|c rp]; simpl; split; auto; try congruence.
      intros E. rewrite <- Hpb in E. discriminate.
  - intros y Hy. rewrite Em2.
    pose proof (protected_not_header _ _ _ _ _ A7 Hy Hnin).
    pose proof (protected_not_free _ _ _ _ _ A7 Hy Hin eq_refl) as Hyb.
    unfold blk, bsize in Hyb; simpl in Hyb.
    rewrite PUT_outside by (unfold HDRP, WSIZE; lia).
    apply F1; [lia|]. intros n Hn.
    destruct (nodes_in_layout _ _ _ _ _ _ Hidx Hn) as (sn & pn & Hn' & _ & _).
    fold hp in Hn'.
    destruct (wf_blocks_In _ _ _ _ A7 Hn') as [_ Sn]. specialize (Sn eq_refl).
    pose proof (protected_not_free _ _ _ _ _ A7 Hy Hn' eq_refl) as Hyn.
    unfold size_ok, bsize in *; simpl in *. lia.
Qed.

(** * Removing a free block from the index of an arena *)

Lemma remove_list_heap s L fl skip bn szn pan :
  arena s L -> lists_ok s fl -> nodes_sep fl ->
  indexes (heap_listp s + 8) L fl skip ->
  In (bn, (szn, false, pan)) (layout (heap_listp s + 8) L) -> ~ In bn skip ->
  let s' := remove_list s bn szn in
  let fl' := upd fl (class szn) (remove Z.eq_dec bn (fl (class szn))) in
  arena s' L /\ lists_ok s' fl' /\ nodes_sep fl' /\
  indexes (heap_listp s + 8) L fl' (bn :: skip) /\
  heap_listp s' = heap_listp s /\ mem_brk s' = mem_brk s /\
  mem_max_addr s' = mem_max_addr s /\
  (forall y, protected (heap_listp s + 8) L y -> mem s' y = mem s y).
Proof.
  intros A Hl Hsep Hidx Hin Hns s' fl'.
  pose proof (arena_hp _ _ A) as Hhp.
  pose proof (nodes_ok_arena _ _ _ _ A Hidx) as Hnok.
  pose proof A as [A1 A2 A3 A4 A5 A6 A7].
  assert (Hmem : In bn (fl (class szn))).
  { apply Hidx. split; auto. exists szn, pan. auto. }
  destruct (remove_list_spec s fl bn szn Hhp Hl Hnok Hsep Hmem)
    as (Hl' & Ehp & Ebrk & Emax & F).
  fold s' in Hl', Ehp, Ebrk, Emax, F. fold fl' in Hl'.
  assert (Hreal : forall n, In n (fl (class szn)) ->
            exists sn pn, In (n, (sn, false, pn)) (layout (heap_listp s + 8) L) /\ 16 <= sn).
  { intros n Hn.
    destruct (nodes_in_layout _ _ _ _ _ _ Hidx Hn) as (sn & pn & Hn' & _ & _).
    destruct (wf_blocks_In _ _ _ _ A7 Hn') as [_ Sn]. specialize (Sn eq_refl).
    unfold size_ok, bsize in Sn; simpl in Sn. exists sn, pn. split; [auto|lia]. }
  split; [|split; [exact Hl'|split; [now apply nodes_sep_remove|split;
    [|split; [exact Ehp|split; [exact Ebrk|split; [exact Emax|]]]]]]].
  - constructor; rewrite ?Ehp, ?Ebrk, ?Emax; auto.
    apply (seg_frame_links (mem s)); auto.
    intros y Hy. apply F. intros n Hn _.
    destruct (Hreal n Hn) as (sn & pn & Hn' & Sn).
    apply (Hy n (sn, false, pn)); auto.
  - intros k b. unfold fl', upd. simpl.
    destruct (Nat.eqb_spec k (class szn)) as [->|Hk].
    + split.
      * intros Hb. apply in_remove in Hb as [Hb Hne]. apply Hidx in Hb.
        split; [tauto|]. intros [E|E]; [congruence|tauto].
      * intros [Hb Hs]. apply in_in_remove; [intros E; apply Hs; auto|].
        apply Hidx. tauto.
    + rewrite (Hidx k b). split; [|tauto].
      intros [Hb Hs]. split; auto. intros [E|E]; [|tauto]. subst b.
      apply (free_at_unique _ _ _ _ _ _ A7 Hin) in Hb. auto.
  - intros y Hy. apply F. intros n Hn _.
    destruct (Hreal n Hn) as (sn & pn & Hn' & Sn).
    pose proof (protected_not_free _ _ _ _ _ A7 Hy Hn' eq_refl) as Hyn.
    unfold bsize in Hyn; simpl in Hyn. lia.
Qed.

(** * Merging a run of free blocks into one *)

Lemma free_at_app bp0 l1 l2 b c :
  free_at bp0 (l1 ++ l2) b c <->
  free_at bp0 l1 b c \/ free_at (bp0 + total l1) l2 b c.
Proof.
  unfold free_at. split.
  - intros (sz & pa & Hin & Hc). rewrite layout_app, in_app_iff in Hin.
    destruct Hin; [left|right]; eauto.
  - intros [(sz & pa & Hin & Hc)|(sz & pa & Hin & Hc)]; exists sz, pa;
      rewrite layout_app, in_app_iff; auto.
Qed.

Lemma protected_app bp0 l1 l2 y :
  protected bp0 (l1 ++ l2) y <->
  protected bp0 l1 y \/ protected (bp0 + total l1) l2 y.
Proof.
  unfold protected. split.
  - intros (b & k & Hin & H). rewrite layout_app, in_app_iff in Hin.
    destruct Hin; [left|right]; eauto.
  - intros [(b & k & Hin & H)|(b & k & Hin & H)]; exists b, k;
      rewrite layout_app, in_app_iff; auto.
Qed.

Lemma layout_addr_bounds bs bp0 b :
  Forall size_ok bs -> In b (map fst (layout bp0 bs)) ->
  bp0 <= b /\ b + 16 <= bp0 + total bs.
Proof.
  intros Hs Hb. apply in_map_iff in Hb as ([b' k] & E & Hin). simpl in E. subst b'.
  pose proof (layout_In_Forall _ _ _ _ _ Hs Hin) as [K _].
  apply layout_bounds in Hin; [lia|].
  eapply Forall_impl; [|exact Hs]. apply size_ok_sz8.
Qed.

Lemma free_at_lower bs bp0 b c :
  Forall sz8 bs -> free_at bp0 bs b c -> bp0 <= b.
Proof.
  intros Hs (sz & pa & Hin & _).
  pose proof (layout_bounds _ _ _ _ Hs Hin) as H. lia.
Qed.

Lemma free_at_upper bs bp0 b c :
  Forall size_ok bs -> free_at bp0 bs b c -> b + 16 <= bp0 + total bs.
Proof.
  intros Hs (sz & pa & Hin & _).
  apply (layout_addr_bounds bs bp0 b Hs).
  apply in_map_iff. exists (b, (sz, false, pa)). auto.
Qed.

Lemma protected_lower bs bp0 y :
  Forall sz8 bs -> protected bp0 bs y -> bp0 <= y.
Proof.
  intros Hs (b & k & Hin & _ & Hy).
  pose proof (layout_bounds _ _ _ _ Hs Hin) as H. lia.
Qed.

Lemma protected_upper bs bp0 y :
  Forall sz8 bs -> protected bp0 bs y -> y < bp0 + total bs - 4.
Proof.
  intros Hs (b & k & Hin & _ & Hy).
  pose proof (layout_bounds _ _ _ _ Hs Hin) as H. lia.
Qed.

(** A run of free blocks holds no protected byte. *)
Lemma protected_free_run bs bp0 y :
  Forall (fun b => balloc b = false) bs -> ~ protected bp0 bs y.
Proof.
  intros Hs (b & k & Hin & Ha & _).
  pose proof (layout_In_Forall _ _ _ _ _ Hs Hin) as H. simpl in H. congruence.
Qed.

Lemma free_at_run bs bp0 b c :
  free_at bp0 bs b c -> In b (map fst (layout bp0 bs)).
Proof.
  intros (sz & pa & Hin & _). apply in_map_iff.
  exists (b, (sz, false, pa)). auto.
Qed.

Lemma run_total run : Forall size_ok run -> run <> [] -> 16 <= total run.
Proof.
  intros Wr Hne. destruct run as [|x run]; [congruence|]. simpl.
  apply Forall_cons_iff in Wr as [[Hx _] Wr].
  assert (0 <= total run); [|lia].
  apply total_nonneg. eapply Forall_impl; [|exact Wr]. apply size_ok_sz8.
Qed.

(** The index after a run of free blocks, all left out of the lists, has
    been rewritten as one block. *)
Lemma index_merge bp0 pre0 run rest2 fl pa0 :
  Forall size_ok pre0 -> Forall size_ok run -> run <> [] -> Forall sz8 rest2 ->
  indexes bp0 (pre0 ++ run ++ rest2) fl (map fst (layout (bp0 + total pre0) run)) ->
  indexes bp0 (pre0 ++ (total run, false, pa0) :: rest2) fl [bp0 + total pre0].
Proof.
  intros W0 Wr Hne W2 Hidx k b. rewrite (Hidx k b).
  pose proof (run_total _ Wr Hne) as Hrun.
  rewrite !free_at_app.
  change ((total run, false, pa0) :: rest2) with ([(total run, false, pa0)] ++ rest2).
  rewrite free_at_app. simpl total. rewrite Z.add_0_r.
  split.
  - intros [[H|[H|H]] Hs].
    + split; auto. pose proof (free_at_upper _ _ _ _ W0 H). simpl. lia.
    + exfalso. apply Hs. now apply free_at_run in H.
    + pose proof (free_at_lower _ _ _ _ W2 H). split; [right; right|simpl; lia].
      match goal with H : free_at ?x _ _ _ |- free_at ?a _ _ _ =>
        replace a with x by (unfold bsize; simpl; lia) end. exact H.
  - intros [[H|[H|H]] Hs].
    + split; auto. intros Hin. apply layout_addr_bounds in Hin; auto.
      pose proof (free_at_upper _ _ _ _ W0 H). lia.
    + exfalso. apply Hs. destruct H as (sz & pa & [E|[]] & _).
      inversion E. simpl; auto.
    + pose proof (free_at_lower _ _ _ _ W2 H) as Hlo. split; [right; right|].
      * match goal with H : free_at ?x _ _ _ |- free_at ?a _ _ _ =>
          replace a with x by (unfold bsize; simpl; lia) end. exact H.
      * intros Hin. apply layout_addr_bounds in Hin; auto.
        unfold bsize in Hlo; simpl in Hlo. lia.
Qed.

(** The arena after the header of the first block of the run and the footer
    of its last block have been rewritten with the total size. *)
Lemma seg_merge m m' bp0 pre0 run rest2 pa0 :
  Forall size_ok pre0 -> Forall size_ok run -> run <> [] -> wf_blocks rest2 ->
  seg m bp0 (pre0 ++ run ++ rest2) ->
  let bpv := bp0 + total pre0 in
  let S := total run in
  GET m' (bpv - 4) = hdr S false pa0 ->
  GET m' (bpv + S - 8) = S ->
  (forall y, (y < bpv - 4 \/ bpv <= y) -> (y < bpv + S - 8 \/ bpv + S - 4 <= y) ->
             m' y = m y) ->
  seg m' bp0 (pre0 ++ (S, false, pa0) :: rest2).
Proof.
  intros W0 Wr Hne W2 Hs bpv S G1 G2 F.
  assert (W08 : Forall sz8 pre0) by (eapply Forall_impl; [|exact W0]; apply size_ok_sz8).
  pose proof (wf_blocks_sz8 _ W2) as W28.
  pose proof (run_total _ Wr Hne) as Hrun.
  apply seg_app in Hs as [S0 S1]. apply seg_app in S1 as [_ S2].
  assert (Ebpv : bpv = bp0 + total pre0) by reflexivity.
  assert (ES : S = total run) by reflexivity.
  rewrite <- Ebpv, <- ES in *. clearbody bpv S.
  apply seg_app. rewrite <- Ebpv. split; [|cbn [seg]; repeat split; auto].
  - apply (seg_frame m); auto. intros b k Hb.
    pose proof (layout_In_Forall _ _ _ _ _ W0 Hb) as [K _].
    apply layout_bounds in Hb; auto.
    split; [|intros _]; intros y Hy; apply F; lia.
  - apply (seg_frame m); auto. intros b k Hb.
    destruct (wf_blocks_In _ _ _ _ W2 Hb) as [[K _] Kf].
    apply layout_bounds in Hb; auto.
    split; [|intros Hk; specialize (Kf Hk); destruct Kf as [Kf _]];
      intros y Hy; apply F; lia.
Qed.

Lemma total_mod8 bs : Forall sz8 bs -> total bs mod 8 = 0.
Proof.
  induction 1 as [|b bs [_ Hb] _ IH]; simpl; [reflexivity|].
  rewrite Z.add_mod, Hb, IH by lia. reflexivity.
Qed.

Lemma Forall_size_ok_sz8 bs : Forall size_ok bs -> Forall sz8 bs.
Proof. intros H. eapply Forall_impl; [|exact H]. apply size_ok_sz8. Qed.

(** From a run of free blocks to the state [coalesce] hands to its common
    tail: the run, rewritten as one block, is free and in no list. *)
Lemma merge_ok s s' pre0 run rest2 fl :
  arena s (pre0 ++ run ++ rest2) ->
  lists_ok s fl -> nodes_sep fl ->
  indexes (heap_listp s + 8) (pre0 ++ run ++ rest2) fl
          (map fst (layout (heap_listp s + 8 + total pre0) run)) ->
  run <> [] -> Forall (fun b => balloc b = false) run -> rest2 <> [] ->
  pa_ok true pre0 -> last_alloc true pre0 = true ->
  pa_ok (balloc (hd (epilogue true) rest2)) (tl rest2) ->
  no_adjacent_free false pre0 -> no_adjacent_free false rest2 ->
  let bpv := heap_listp s + 8 + total pre0 in
  let S := total run in
  heap_listp s' = heap_listp s -> mem_brk s' = mem_brk s ->
  mem_max_addr s' = mem_max_addr s ->
  (forall k, (k < 10)%nat -> nth_root s' k = nth_root s k) ->
  GET (mem s') (bpv - 4) = hdr S false true ->
  GET (mem s') (bpv + S - 8) = S ->
  (forall y, (y < bpv - 4 \/ bpv <= y) -> (y < bpv + S - 8 \/ bpv + S - 4 <= y) ->
             mem s' y = mem s y) ->
  pre_coal s' pre0 (S, false, true) rest2 fl /\
  (forall y, protected (heap_listp s + 8) (pre0 ++ run ++ rest2) y ->
             mem s' y = mem s y /\
             protected (heap_listp s + 8) (pre0 ++ (S, false, true) :: rest2) y).
Proof.
  intros A Hl Hsep Hidx Hne Hfree Hr2 Hpa Hla Hpar Hadj Hadjr bpv S
         Ehp Ebrk Emax Eroot G1 G2 F.
  pose proof A as [A1 A2 A3 A4 A5 A6 A7].
  assert (Hrr : run ++ rest2 <> []) by (destruct run; simpl; congruence).
  apply (wf_blocks_app _ _ Hrr) in A7 as [W0 W12].
  apply (wf_blocks_app _ _ Hr2) in W12 as [W1 W2].
  pose proof (Forall_size_ok_sz8 _ W0) as W08.
  pose proof (Forall_size_ok_sz8 _ W1) as W18.
  pose proof (wf_blocks_sz8 _ W2) as W28.
  pose proof (run_total _ W1 Hne) as Hrun. fold S in Hrun.
  pose proof (total_nonneg _ W08) as T0. pose proof (total_nonneg _ W28) as T2.
  assert (Ebpv : bpv = heap_listp s + 8 + total pre0) by reflexivity.
  assert (ES : S = total run) by reflexivity.
  rewrite !total_app in A2. rewrite <- ES in A2.
  assert (Hidx' : indexes (heap_listp s + 8) (pre0 ++ (S, false, true) :: rest2) fl [bpv]).
  { apply index_merge; auto. }
  split.
  - constructor; rewrite ?Ehp; auto.
    + constructor; rewrite ?Ehp, ?Ebrk, ?Emax; auto.
      * rewrite A2, total_app. simpl. unfold bsize; simpl. lia.
      * apply (seg_merge (mem s)); auto.
      * apply wf_blocks_app; [congruence|]. split; auto.
        apply wf_blocks_cons; auto. split; auto.
        split; unfold bsize; simpl; [lia|]. now apply total_mod8.
    + apply (lists_frame s); auto.
      intros k n Hn y Hy. apply F.
      * destruct (proj1 (Hidx' k n) Hn) as [Hf Hs].
        change ((S, false, true) :: rest2) with ([(S, false, true)] ++ rest2) in Hf.
        rewrite !free_at_app in Hf. destruct Hf as [Hf|[Hf|Hf]].
        -- pose proof (free_at_upper _ _ _ _ W0 Hf). lia.
        -- exfalso. apply Hs. destruct Hf as (sz & pa & [E|[]] & _).
           inversion E. simpl; auto.
        -- pose proof (free_at_lower _ _ _ _ W28 Hf) as Hlo.
           simpl in Hlo. unfold bsize in Hlo; simpl in Hlo. lia.
      * destruct (proj1 (Hidx' k n) Hn) as [Hf Hs].
        change ((S, false, true) :: rest2) with ([(S, false, true)] ++ rest2) in Hf.
        rewrite !free_at_app in Hf. destruct Hf as [Hf|[Hf|Hf]].
        -- pose proof (free_at_upper _ _ _ _ W0 Hf). lia.
        -- exfalso. apply Hs. destruct Hf as (sz & pa & [E|[]] & _).
           inversion E. simpl; auto.
        -- pose proof (free_at_lower _ _ _ _ W28 Hf) as Hlo.
           simpl in Hlo. unfold bsize in Hlo; simpl in Hlo. lia.
    + apply pa_ok_app. split; auto. rewrite Hla. simpl. auto.
    + destruct rest2 as [|x rest2]; [congruence|]. exact Hpar.
  - intros y Hy.
    rewrite !protected_app in Hy.
    change ((S, false, true) :: rest2) with ([(S, false, true)] ++ rest2).
    rewrite !protected_app.
    destruct Hy as [Hy|[Hy|Hy]].
    + split; [|auto]. pose proof (protected_upper _ _ _ W08 Hy). apply F; lia.
    + exfalso. eapply protected_free_run; eauto.
    + split.
      * pose proof (protected_lower _ _ _ W28 Hy). apply F; lia.
      * right. right.
        match goal with H : protected ?x _ _ |- protected ?a _ _ =>
          replace a with x by (simpl; unfold bsize; simpl; lia) end. exact Hy.
Qed.

(** * Reading a block of the arena *)

Lemma block_reads s pre b rest :
  arena s (pre ++ b :: rest) ->
  let bp := heap_listp s + 8 + total pre in
  GET (mem s) (HDRP bp) = hdr (bsize b) (balloc b) (bprev b) /\
  GET_SIZE (mem s) (HDRP bp) = bsize b /\
  GET_ALLOC (mem s) (HDRP bp) = b2z (balloc b) /\
  GET_PREV_ALLOC (mem s) (HDRP bp) = 2 * b2z (bprev b) /\
  NEXT_BLKP (mem s) bp = bp + bsize b /\
  FTRP (mem s) bp = bp + bsize b - 8 /\
  (balloc b = false ->
   GET (mem s) (bp + bsize b - 8) = bsize b /\
   PREV_BLKP (mem s) (bp + bsize b) = bp).
Proof.
  intros [A1 A2 A3 A4 A5 A6 A7] bp.
  assert (Hin : In (bp, b) (layout (heap_listp s + 8) (pre ++ b :: rest))).
  { apply layout_In_app. right. left. auto. }
  destruct (wf_blocks_In _ _ _ _ A7 Hin) as [[K0 K8] _].
  apply seg_app in A6 as [_ S]. apply seg_cons in S as (S1 & S2 & _).
  fold bp in S1, S2.
  pose proof (GET_SIZE_hdr _ _ _ _ _ S1 K8) as E1.
  split; [auto|]. split; [auto|].
  split; [apply (GET_ALLOC_hdr _ _ _ _ _ S1 K8)|].
  split; [apply (GET_PREV_ALLOC_hdr _ _ _ _ _ S1 K8)|].
  split; [unfold NEXT_BLKP; fold (HDRP bp); now rewrite E1|].
  split; [unfold FTRP, DSIZE; now rewrite E1|].
  intros Hf. specialize (S2 Hf). unfold DSIZE in S2. split; [auto|].
  unfold PREV_BLKP, DSIZE.
  replace (bp + bsize b - 8) with (bp + bsize b - 8) by lia.
  rewrite (GET_SIZE_ftr _ _ _ S2 K8). lia.
Qed.

Lemma indexes_ext bp0 bs fl skip skip' :
  (forall b, In b skip <-> In b skip') ->
  indexes bp0 bs fl skip -> indexes bp0 bs fl skip'.
Proof. intros H Hi k b. rewrite (Hi k b), (H b). tauto. Qed.

Lemma pre_coal_bits s pre b rest fl :
  pre_coal s pre b rest fl ->
  bprev b = last_alloc true pre /\
  (bprev b = false ->
   exists pre0 szp, pre = pre0 ++ [(szp, false, true)] /\
                    pa_ok true pre0 /\ last_alloc true pre0 = true /\
                    no_adjacent_free false pre0) /\
  (bprev b = true -> pa_ok true pre) /\
  (balloc (succ_blk rest) = false ->
   exists szn pan sz2 pa2 tl2,
     rest = (szn, false, pan) :: (sz2, true, pa2) :: tl2 /\ pa_ok true tl2 /\
     no_adjacent_free false tl2) /\
  (balloc (succ_blk rest) = true ->
   exists szn pan tl, rest = (szn, true, pan) :: tl /\ pa_ok true tl /\
                      no_adjacent_free false tl).
Proof.
  intros [A Hfree Hrest Hl Hsep Hidx Hpa Hpar Hadj Hadjr].
  apply pa_ok_app in Hpa as [Hpa Hpb]. simpl in Hpb. destruct Hpb as [Hpb _].
  split; [auto|]. split; [|split; [auto|split]].
  - intros Hb. rewrite Hb in Hpb.
    destruct (rev pre) as [|c rp] eqn:Er.
    + unfold last_alloc in Hpb. rewrite Er in Hpb. discriminate.
    + assert (Ep : pre = rev rp ++ [c]).
      { rewrite <- (rev_involutive pre), Er. reflexivity. }
      subst pre. rewrite last_alloc_snoc in Hpb.
      apply pa_ok_app in Hpa as [Hp0 Hpc]. simpl in Hpc. destruct Hpc as [Hpc _].
      apply naf_app in Hadj as [Ha0 Hac]. simpl in Hac. destruct Hac as [Hac _].
      destruct c as [[szp ac] pc]. unfold balloc, bprev in Hpb, Hpc, Hac.
      simpl in Hpb, Hpc, Hac. subst ac.
      assert (Hl0 : last_alloc true (rev rp) = true).
      { revert Hac. unfold last_alloc. destruct (rev (rev rp)) as [|d q]; simpl; auto.
        unfold balloc. destruct (snd (fst d)); simpl; auto. }
      exists (rev rp), szp. rewrite Hpc, Hl0. auto.
  - intros Hn. destruct rest as [|[[szn an] pan] rest2]; [congruence|].
    unfold succ_blk, balloc in Hn. simpl in Hn. subst an.
    simpl in Hpar, Hadjr. destruct Hadjr as [_ Hadj2].
    destruct A as [_ _ _ _ _ _ A7].
    assert (Hne : (szn, false, pan) :: rest2 <> []) by congruence.
    assert (A7' : wf_blocks ((pre ++ [b]) ++ (szn, false, pan) :: rest2))
      by (rewrite <- app_assoc; exact A7).
    apply (wf_blocks_app _ _ Hne) in A7' as [_ W].
    destruct rest2 as [|[[sz2 a2] pa2] tl2].
    + simpl in W. destruct W as [_ W]. discriminate.
    + simpl in Hpar, Hadj2. destruct Hpar as [_ Hpar].
      destruct Hadj2 as [Ha2 Hadj2]. unfold balloc in Ha2. simpl in Ha2.
      specialize (Ha2 eq_refl). subst a2.
      exists szn, pan, sz2, pa2, tl2. auto.
  - intros Hn. destruct rest as [|[[szn an] pan] tl]; [congruence|].
    unfold succ_blk, balloc in Hn. simpl in Hn. subst an.
    simpl in Hpar, Hadjr. destruct Hadjr as [_ Hadj2].
    exists szn, pan, tl. auto.
Qed.

(** * The four cases of [coalesce] *)

Lemma coalesce_eq1 s bp :
  nz (GET_PREV_ALLOC (mem s) (HDRP bp)) = true ->
  nz (GET_ALLOC (mem s) (HDRP (NEXT_BLKP (mem s) bp))) = true ->
  coalesce s bp = coalesce_finish s bp (GET_SIZE (mem s) (HDRP bp)).
Proof.
  intros H1 H2. unfold coalesce, coalesce_finish. rewrite H1, H2. reflexivity.
Qed.

Lemma coalesce_eq2 s bp :
  nz (GET_PREV_ALLOC (mem s) (HDRP bp)) = true ->
  nz (GET_ALLOC (mem s) (HDRP (NEXT_BLKP (mem s) bp))) = false ->
  coalesce s bp =
  let size := wrap64 (GET_SIZE (mem s) (HDRP bp) +
                      GET_SIZE (mem s) (HDRP (NEXT_BLKP (mem s) bp))) in
  let s1 := remove_list s (NEXT_BLKP (mem s) bp)
              (GET_SIZE (mem s) (HDRP (NEXT_BLKP (mem s) bp))) in
  let s2 := put s1 (HDRP bp) (PACK size 2) in
  let s3 := put s2 (FTRP (mem s2) bp) (PACK size 0) in
  coalesce_finish s3 bp size.
Proof.
  intros H1 H2. unfold coalesce, coalesce_finish. rewrite H1, H2. reflexivity.
Qed.

Lemma coalesce_eq3 s bp :
  nz (GET_PREV_ALLOC (mem s) (HDRP bp)) = false ->
  nz (GET_ALLOC (mem s) (HDRP (NEXT_BLKP (mem s) bp))) = true ->
  coalesce s bp =
  let size := wrap64 (GET_SIZE (mem s) (HDRP bp) +
                      GET_SIZE (mem s) (HDRP (PREV_BLKP (mem s) bp))) in
  let s1 := remove_list s (PREV_BLKP (mem s) bp)
              (GET_SIZE (mem s) (HDRP (PREV_BLKP (mem s) bp))) in
  let s2 := put s1 (FTRP (mem s1) bp) (PACK size 0) in
  let s3 := put s2 (HDRP (PREV_BLKP (mem s2) bp))
              (PACK size (GET_PREV_ALLOC (mem s2) (HDRP (PREV_BLKP (mem s2) bp)))) in
  coalesce_finish s3 (PREV_BLKP (mem s3) bp) size.
Proof.
  intros H1 H2. unfold coalesce, coalesce_finish. rewrite H1, H2. reflexivity.
Qed.

Lemma coalesce_eq4 s bp :
  nz (GET_PREV_ALLOC (mem s) (HDRP bp)) = false ->
  nz (GET_ALLOC (mem s) (HDRP (NEXT_BLKP (mem s) bp))) = false ->
  coalesce s bp =
  let size := wrap64 (GET_SIZE (mem s) (HDRP bp) +
                wrap32 (GET_SIZE (mem s) (HDRP (PREV_BLKP (mem s) bp)) +
                        GET_SIZE (mem s) (FTRP (mem s) (NEXT_BLKP (mem s) bp)))) in
  let s1 := remove_list s (NEXT_BLKP (mem s) bp)
              (GET_SIZE (mem s) (HDRP (NEXT_BLKP (mem s) bp))) in
  let s2 := remove_list s1 (PREV_BLKP (mem s1) bp)
              (GET_SIZE (mem s1) (HDRP (PREV_BLKP (mem s1) bp))) in
  let s3 := put s2 (HDRP (PREV_BLKP (mem s2) bp))
              (PACK size (GET_PREV_ALLOC (mem s2) (HDRP (PREV_BLKP (mem s2) bp)))) in
  let s4 := put s3 (FTRP (mem s3) (NEXT_BLKP (mem s3) bp)) (PACK size 0) in
  coalesce_finish s4 (PREV_BLKP (mem s4) bp) size.
Proof.
  intros H1 H2. unfold coalesce, coalesce_finish. rewrite H1, H2. reflexivity.
Qed.

(** Case 1: both neighbours allocated. *)
Lemma coalesce_case1 s pre sz szn pan tl fl :
  pre_coal s pre (sz, false, true) ((szn, true, pan) :: tl) fl ->
  coalesce_post s pre (sz, false, true) ((szn, true, pan) :: tl) fl.
Proof.
  intros PC. pose proof PC as [A _ _ _ _ _ _ _ _ _].
  destruct (block_reads _ _ _ _ A) as (R1 & R2 & R3 & R4 & R5 & R6 & R7).
  assert (A' : arena s ((pre ++ [(sz, false, true)]) ++ (szn, true, pan) :: tl))
    by (rewrite <- app_assoc; exact A).
  destruct (block_reads _ _ _ _ A') as (N1 & N2 & N3 & _).
  rewrite total_app in N3. simpl in N3. rewrite Z.add_0_r, Z.add_assoc in N3.
  simpl in R2, R4, R5.
  unfold coalesce_post. cbn zeta.
  rewrite coalesce_eq1; [|rewrite R4; reflexivity|rewrite R5, N3; reflexivity].
  rewrite R2.
  pose proof (coalesce_finish_ok s pre sz szn pan tl fl PC) as F. cbn zeta in F.
  set (r := coalesce_finish s (heap_listp s + 8 + total pre) sz) in *.
  assert (E2 : coal_size pre (sz, false, true) ((szn, true, pan) :: tl) = sz).
  { unfold coal_size, succ_blk, bsize, bprev, balloc. simpl. lia. }
  unfold coal_lists, enlist. rewrite E2.
  exact F.
Qed.

Lemma arena_total_bound s bs : arena s bs -> 0 <= total bs < 2 ^ 32 - 8.
Proof.
  intros [A1 A2 A3 A4 A5 A6 A7]. pose proof (wf_blocks_sz8 _ A7) as H8.
  apply total_nonneg in H8. lia.
Qed.

Lemma PUT_hdr m p sz a pa :
  sz mod 8 = 0 -> 0 <= sz < 2 ^ 32 - 8 ->
  GET (PUT m p (PACK sz (b2z a + 2 * b2z pa))) p = hdr sz a pa.
Proof.
  intros H8 Hs. rewrite GET_PUT_same, PACK_hdr; auto.
  - unfold hdr. rewrite Z.add_assoc. apply wrap32_small.
    destruct a, pa; unfold b2z; lia.
  - destruct a, pa; unfold b2z; lia.
Qed.

(** Case 2: only the successor is free. *)
Lemma coalesce_case2 s pre sz szn pan sz2 pa2 tl2 fl :
  pre_coal s pre (sz, false, true) ((szn, false, pan) :: (sz2, true, pa2) :: tl2) fl ->
  coalesce_post s pre (sz, false, true) ((szn, false, pan) :: (sz2, true, pa2) :: tl2) fl.
Proof.
  intros PC. pose proof PC as [A Hfree Hrest Hl Hsep Hidx Hpa Hpar Hadj Hadjr].
  set (hp := heap_listp s) in *. set (bp := hp + 8 + total pre) in *.
  set (b := (sz, false, true)) in *. set (nxt := (szn, false, pan)) in *.
  set (rest2 := (sz2, true, pa2) :: tl2) in *.
  set (L := pre ++ b :: nxt :: rest2) in *.
  assert (Ebp : bp = hp + 8 + total pre) by reflexivity.
  destruct (block_reads _ _ _ _ A) as (R1 & R2 & R3 & R4 & R5 & R6 & R7).
  assert (A' : arena s ((pre ++ [b]) ++ nxt :: rest2))
    by (rewrite <- app_assoc; exact A).
  destruct (block_reads _ _ _ _ A') as (N1 & N2 & N3 & N4 & N5 & N6 & N7).
  assert (Ebn : heap_listp s + 8 + total (pre ++ [b]) = bp + sz).
  { rewrite total_app. simpl. unfold bsize; simpl. fold hp. lia. }
  rewrite Ebn in N1, N2, N3, N4, N5, N6, N7. fold hp bp in R1, R2, R3, R4, R5, R6, R7.
  change (bsize b) with sz in *. change (bsize nxt) with szn in *.
  change (balloc b) with false in *. change (bprev b) with true in *.
  change (balloc nxt) with false in *.
  pose proof (arena_total_bound _ _ A) as Htot. rewrite total_app in Htot.
  change (total (b :: nxt :: rest2)) with (sz + (szn + total rest2)) in Htot.
  pose proof A as [A1 A2 A3 A4 A5 A6 A7]. fold hp in A1, A2, A4, A6.
  assert (Hb : In (bp, b) (layout (hp + 8) L)).
  { apply layout_In_app. right. left. auto. }
  assert (Hbn : In (bp + sz, nxt) (layout (hp + 8) L)).
  { unfold L. apply layout_In_app. right. right. simpl. left. reflexivity. }
  destruct (wf_blocks_In _ _ _ _ A7 Hb) as [_ Wb]. specialize (Wb eq_refl).
  destruct (wf_blocks_In _ _ _ _ A7 Hbn) as [_ Wn]. specialize (Wn eq_refl).
  unfold size_ok in Wb, Wn. change (bsize b) with sz in Wb. change (bsize nxt) with szn in Wn.
  assert (T0 : 0 <= total pre).
  { apply (wf_blocks_app pre (b :: nxt :: rest2)) in A7 as [W0 _]; [|congruence].
    apply total_nonneg. now apply Forall_size_ok_sz8. }
  assert (T2 : 0 <= total rest2).
  { assert (A7' : wf_blocks ((pre ++ [b; nxt]) ++ rest2)).
    { rewrite <- app_assoc. exact A7. }
    apply wf_blocks_app in A7' as [_ W2]; [|unfold rest2; congruence].
    apply total_nonneg. now apply wf_blocks_sz8. }
  (* unlinking the successor *)
  assert (Hns : ~ In (bp + sz) [bp]) by (simpl; lia).
  destruct (remove_list_heap s L fl [bp] (bp + sz) szn pan A Hl Hsep Hidx Hbn Hns)
    as (Aa & La & Sa & Ia & Ehpa & Ebrka & Emaxa & Fa).
  set (sa := remove_list s (bp + sz) szn) in *.
  set (fla := upd fl (class szn) (remove Z.eq_dec (bp + sz) (fl (class szn)))) in *.
  (* the code of case 2 *)
  unfold coalesce_post. cbn zeta. fold hp bp.
  rewrite coalesce_eq2; [|rewrite R4; reflexivity|rewrite R5, N3; reflexivity].
  cbn zeta. rewrite R2, R5, N2. fold sa.
  assert (P64 : 2 ^ 32 < 2 ^ 64) by reflexivity.
  rewrite (wrap64_small (sz + szn)) by lia.
  set (S := total [b; nxt]).
  assert (ES : sz + szn = S) by (unfold S; simpl; unfold bsize; simpl; lia).
  rewrite ES.
  assert (S8 : S mod 8 = 0).
  { rewrite <- ES. rewrite Z.add_mod by lia.
    destruct Wb as [_ ->]. destruct Wn as [_ ->]. reflexivity. }
  set (sb := put sa (HDRP bp) (PACK S 2)).
  assert (Gb : GET (mem sb) (HDRP bp) = hdr S false true).
  { apply (PUT_hdr _ _ S false true); auto. lia. }
  assert (EF : FTRP (mem sb) bp = bp + S - 8).
  { unfold FTRP, DSIZE. now rewrite (GET_SIZE_hdr _ _ _ _ _ Gb S8). }
  rewrite EF. set (sc := put sb (bp + S - 8) (PACK S 0)).
  assert (Emc : mem sc = PUT (PUT (mem sa) (HDRP bp) (PACK S 2)) (bp + S - 8) (PACK S 0))
    by reflexivity.
  (* the merged block *)
  assert (PC' : pre_coal sc pre (S, false, true) rest2 fla /\
    (forall y, protected (hp + 8) L y ->
               mem sc y = mem sa y /\
               protected (hp + 8) (pre ++ (S, false, true) :: rest2) y)).
  { pose proof (merge_ok sa sc pre [b; nxt] rest2 fla) as M. cbn zeta in M.
    rewrite Ehpa in M. fold hp bp S in M.
    apply M; auto; clear M.
    - eapply indexes_ext; [|exact Ia]. intros x.
      cbn [map fst layout In]. change (bsize b) with sz. tauto.
    - congruence.
    - unfold rest2; congruence.
    - apply pa_ok_app in Hpa as [Hp0 _]. exact Hp0.
    - apply pa_ok_app in Hpa as [_ [Hp _]]. symmetry. exact Hp.
    - destruct Hpar as [_ Hpar]. exact Hpar.
    - destruct Hadjr as [_ Hadjr]. apply (naf_weaken true). exact Hadjr.
    - rewrite Emc. unfold HDRP, WSIZE in *. rewrite GET_PUT_other by lia. exact Gb.
    - rewrite Emc, GET_PUT_same.
      rewrite (PACK_hdr S 0) by (auto; lia). rewrite Z.add_0_r.
      apply wrap32_small. lia.
    - intros y H1 H2. rewrite Emc. unfold HDRP, WSIZE.
      rewrite !PUT_outside by lia. reflexivity. }
  destruct PC' as [PC' Fm].
  pose proof (coalesce_finish_ok sc pre S sz2 pa2 tl2 fla PC') as F. cbn zeta in F.
  assert (Ehpc : heap_listp sc = hp) by exact Ehpa.
  rewrite Ehpc in F. fold bp in F.
  set (r := coalesce_finish sc bp S) in *.
  destruct F as (F1 & F2 & F3 & F4 & F5 & F6).
  assert (E2 : coal_size pre b (nxt :: rest2) = S).
  { unfold coal_size, succ_blk, bsize, bprev, balloc. simpl. lia. }
  unfold coal_lists, enlist, unlist. rewrite E2.
  unfold coal_pre, coal_rest, succ_blk, pred_blk.
  cbn [bprev balloc bsize snd fst hd tl b nxt rest2 set_pa].
  fold hp bp.
  split; [exact F1|]. split; [exact F2|].
  split; [rewrite F3; reflexivity|]. split; [rewrite F4; exact Ebrka|].
  split; [rewrite F5; exact Emaxa|].
  intros y Hy. destruct (Fm y Hy) as [E1 P1].
  rewrite (F6 y P1), E1. apply Fa. exact Hy.
Qed.

Lemma pred_blk_snoc pre0 prv : pred_blk (pre0 ++ [prv]) = prv.
Proof. unfold pred_blk. apply last_last. Qed.

(** Case 3: only the predecessor is free. *)
Lemma coalesce_case3 s pre0 szp sz szn pan tl fl :
  pre_coal s (pre0 ++ [(szp, false, true)]) (sz, false, false)
           ((szn, true, pan) :: tl) fl ->
  coalesce_post s (pre0 ++ [(szp, false, true)]) (sz, false, false)
                ((szn, true, pan) :: tl) fl.
Proof.
  intros PC. pose proof PC as [A Hfree Hrest Hl Hsep Hidx Hpa Hpar Hadj Hadjr].
  set (hp := heap_listp s) in *.
  set (prv := (szp, false, true)) in *. set (b := (sz, false, false)) in *.
  set (nxt := (szn, true, pan)) in *. set (rest := nxt :: tl) in *.
  set (bpv := hp + 8 + total pre0).
  assert (Ebp : hp + 8 + total (pre0 ++ [prv]) = bpv + szp).
  { rewrite total_app. simpl. unfold bsize; simpl. unfold bpv. lia. }
  rewrite Ebp in Hidx.
  (* the arena, read at the three blocks *)
  assert (Ap : arena s (pre0 ++ prv :: b :: rest)).
  { rewrite <- app_assoc in A. exact A. }
  assert (An : arena s (((pre0 ++ [prv]) ++ [b]) ++ nxt :: tl)).
  { rewrite <- app_assoc. exact A. }
  assert (Ebn : heap_listp s + 8 + total ((pre0 ++ [prv]) ++ [b]) = bpv + szp + sz).
  { rewrite !total_app. simpl. unfold bsize; simpl. unfold bpv. fold hp. lia. }
  destruct (block_reads _ _ _ _ A) as (R1 & R2 & R3 & R4 & R5 & R6 & R7).
  destruct (block_reads _ _ _ _ Ap) as (P1 & P2 & P3 & P4 & P5 & P6 & P7).
  destruct (block_reads _ _ _ _ An) as (N1 & N2 & N3 & _).
  fold hp in R1, R2, R3, R4, R5, R6, R7, P1, P2, P3, P4, P5, P6, P7.
  rewrite Ebp in R1, R2, R3, R4, R5, R6, R7. rewrite Ebn in N1, N2, N3.
  fold bpv in P1, P2, P3, P4, P5, P6, P7.
  change (bsize b) with sz in *. change (bsize prv) with szp in *.
  change (bsize nxt) with szn in *.
  change (balloc b) with false in *. change (bprev b) with false in *.
  change (balloc prv) with false in *. change (bprev prv) with true in *.
  change (balloc nxt) with true in *.
  specialize (P7 eq_refl). destruct P7 as [P7 P8].
  pose proof (arena_total_bound _ _ Ap) as Htot. rewrite total_app in Htot.
  change (total (prv :: b :: rest)) with (szp + (sz + total rest)) in Htot.
  pose proof Ap as [A1 A2 A3 A4 A5 A6 A7]. fold hp in A1, A2, A4, A6.
  set (L := pre0 ++ prv :: b :: rest) in *.
  assert (Hidx0 : indexes (hp + 8) L fl [bpv + szp]).
  { unfold L. rewrite <- app_assoc in Hidx. exact Hidx. }
  assert (Hb : In (bpv + szp, b) (layout (hp + 8) L)).
  { unfold L. apply layout_In_app. right. right. simpl. left. reflexivity. }
  assert (Hbp : In (bpv, prv) (layout (hp + 8) L)).
  { apply layout_In_app. right. left. auto. }
  destruct (wf_blocks_In _ _ _ _ A7 Hb) as [_ Wb]. specialize (Wb eq_refl).
  destruct (wf_blocks_In _ _ _ _ A7 Hbp) as [_ Wp]. specialize (Wp eq_refl).
  unfold size_ok in Wb, Wp. change (bsize b) with sz in Wb.
  change (bsize prv) with szp in Wp.
  assert (T0 : 0 <= total pre0).
  { apply (wf_blocks_app pre0 (prv :: b :: rest)) in A7 as [W0 _]; [|congruence].
    apply total_nonneg. now apply Forall_size_ok_sz8. }
  assert (T2 : 0 <= total rest).
  { assert (A7' : wf_blocks ((pre0 ++ [prv; b]) ++ rest)).
    { rewrite <- app_assoc. exact A7. }
    apply wf_blocks_app in A7' as [_ W2]; [|unfold rest; congruence].
    apply total_nonneg. now apply wf_blocks_sz8. }
  assert (P64 : 2 ^ 32 < 2 ^ 64) by reflexivity.
  (* unlinking the predecessor *)
  assert (Hns : ~ In bpv [bpv + szp]) by (simpl; lia).
  destruct (remove_list_heap s L fl [bpv + szp] bpv szp true Ap Hl Hsep Hidx0 Hbp Hns)
    as (Aa & La & Sa & Ia & Ehpa & Ebrka & Emaxa & Fa).
  set (sa := remove_list s bpv szp) in *.
  set (fla := upd fl (class szp) (remove Z.eq_dec bpv (fl (class szp)))) in *.
  assert (Aa' : arena sa ((pre0 ++ [prv]) ++ b :: rest)).
  { rewrite <- app_assoc. exact Aa. }
  destruct (block_reads _ _ _ _ Aa') as (Ra1 & _ & _ & _ & _ & Ra6 & _).
  destruct (block_reads _ _ _ _ Aa) as (Pa1 & _ & _ & _ & _ & _ & Pa7).
  rewrite Ehpa in Ra1, Ra6, Pa1, Pa7. fold hp in Ra1, Ra6, Pa1, Pa7.
  rewrite Ebp in Ra1, Ra6. fold bpv in Pa1, Pa7.
  change (bsize b) with sz in *. change (bsize prv) with szp in *.
  change (balloc prv) with false in *. change (bprev prv) with true in *.
  specialize (Pa7 eq_refl). destruct Pa7 as [Pa7 _].
  (* the code of case 3 *)
  unfold coalesce_post. cbn zeta. fold hp. rewrite Ebp.
  rewrite coalesce_eq3; [|rewrite R4; reflexivity|rewrite R5, N3; reflexivity].
  cbn zeta. rewrite R2, P8, P2. fold sa.
  rewrite (wrap64_small (sz + szp)) by lia.
  set (S := total [prv; b]).
  assert (ES : sz + szp = S) by (unfold S; simpl; unfold bsize; simpl; lia).
  rewrite ES.
  assert (S8 : S mod 8 = 0).
  { rewrite <- ES. rewrite Z.add_mod by lia.
    destruct Wb as [_ ->]. destruct Wp as [_ ->]. reflexivity. }
  rewrite Ra6.
  set (sb := put sa (bpv + szp + sz - 8) (PACK S 0)).
  assert (Emb : mem sb = PUT (mem sa) (bpv + szp + sz - 8) (PACK S 0)) by reflexivity.
  assert (Gf : GET (mem sb) (bpv + szp - 8) = szp).
  { rewrite Emb, GET_PUT_other by lia. exact Pa7. }
  assert (Epv : PREV_BLKP (mem sb) (bpv + szp) = bpv).
  { unfold PREV_BLKP, DSIZE. rewrite (GET_SIZE_ftr _ _ _ Gf); [lia|tauto]. }
  rewrite Epv.
  assert (Gh : GET (mem sb) (HDRP bpv) = hdr szp false true).
  { rewrite Emb, GET_PUT_other by (unfold HDRP, WSIZE; lia). exact Pa1. }
  rewrite (GET_PREV_ALLOC_hdr _ _ _ _ _ Gh) by tauto.
  change (2 * b2z true) with (b2z false + 2 * b2z true).
  set (sc := put sb (HDRP bpv) (PACK S (b2z false + 2 * b2z true))).
  assert (Emc : mem sc = PUT (mem sb) (HDRP bpv) (PACK S (b2z false + 2 * b2z true)))
    by reflexivity.
  assert (Gc : GET (mem sc) (HDRP bpv) = hdr S false true).
  { rewrite Emc. apply PUT_hdr; auto. lia. }
  assert (Gfc : GET (mem sc) (bpv + szp - 8) = szp).
  { rewrite Emc, GET_PUT_other by (unfold HDRP, WSIZE; lia). exact Gf. }
  assert (Epc : PREV_BLKP (mem sc) (bpv + szp) = bpv).
  { unfold PREV_BLKP, DSIZE. rewrite (GET_SIZE_ftr _ _ _ Gfc); [lia|tauto]. }
  rewrite Epc.
  (* the merged block *)
  assert (PC' : pre_coal sc pre0 (S, false, true) rest fla /\
    (forall y, protected (hp + 8) L y ->
               mem sc y = mem sa y /\
               protected (hp + 8) (pre0 ++ (S, false, true) :: rest) y)).
  { pose proof (merge_ok sa sc pre0 [prv; b] rest fla) as M. cbn zeta in M.
    rewrite Ehpa in M. fold hp bpv S in M.
    apply M; auto; clear M.
    - intros X; discriminate X.
    - apply pa_ok_app in Hpa as [Hp0 _]. apply pa_ok_app in Hp0 as [Hp0 _]. exact Hp0.
    - apply pa_ok_app in Hpa as [Hp0 _]. apply pa_ok_app in Hp0 as [_ [Hp _]].
      symmetry. exact Hp.
    - apply naf_app in Hadj as [Hadj _]. exact Hadj.
    - rewrite Emc, GET_PUT_other by (unfold HDRP, WSIZE; lia).
      replace (bpv + S - 8) with (bpv + szp + sz - 8) by lia.
      rewrite Emb, GET_PUT_same.
      rewrite (PACK_hdr S 0) by (auto; lia). rewrite Z.add_0_r.
      apply wrap32_small. lia.
    - intros y H1 H2. rewrite Emc, Emb. unfold HDRP, WSIZE.
      rewrite !PUT_outside by lia. reflexivity. }
  destruct PC' as [PC' Fm].
  pose proof (coalesce_finish_ok sc pre0 S szn pan tl fla PC') as F. cbn zeta in F.
  assert (Ehpc : heap_listp sc = hp) by exact Ehpa.
  rewrite Ehpc in F. fold bpv in F.
  set (r := coalesce_finish sc bpv S) in *.
  destruct F as (F1 & F2 & F3 & F4 & F5 & F6).
  assert (E2 : coal_size (pre0 ++ [prv]) b rest = S).
  { unfold coal_size. rewrite pred_blk_snoc.
    unfold succ_blk, bsize, bprev, balloc. simpl. lia. }
  assert (E3 : coal_pre (pre0 ++ [prv]) b = pre0).
  { unfold coal_pre. simpl. apply removelast_last. }
  unfold coal_lists, enlist, unlist. rewrite E2, E3, pred_blk_snoc.
  rewrite Ebp.
  unfold coal_rest, succ_blk.
  cbn [bprev balloc bsize snd fst hd List.tl b nxt prv rest set_pa].
  replace (bpv + szp - szp) with bpv by lia. fold bpv.
  split; [exact F1|]. split; [exact F2|].
  split; [rewrite F3; reflexivity|]. split; [rewrite F4; exact Ebrka|].
  split; [rewrite F5; exact Emaxa|].
  intros y Hy.
  assert (Hy' : protected (hp + 8) L y).
  { unfold L. rewrite <- app_assoc in Hy. exact Hy. }
  destruct (Fm y Hy') as [E1 P1'].
  rewrite (F6 y P1'), E1. apply Fa. exact Hy'.
Qed.

(** Case 4: both neighbours are free. *)
Lemma coalesce_case4 s pre0 szp sz szn pan sz2 pa2 tl2 fl :
  pre_coal s (pre0 ++ [(szp, false, true)]) (sz, false, false)
           ((szn, false, pan) :: (sz2, true, pa2) :: tl2) fl ->
  coalesce_post s (pre0 ++ [(szp, false, true)]) (sz, false, false)
                ((szn, false, pan) :: (sz2, true, pa2) :: tl2) fl.
Proof.
  intros PC. pose proof PC as [A Hfree Hrest Hl Hsep Hidx Hpa Hpar Hadj Hadjr].
  set (hp := heap_listp s) in *.
  set (prv := (szp, false, true)) in *. set (b := (sz, false, false)) in *.
  set (nxt := (szn, false, pan)) in *. set (rest2 := (sz2, true, pa2) :: tl2) in *.
  set (bpv := hp + 8 + total pre0).
  assert (Ebp : hp + 8 + total (pre0 ++ [prv]) = bpv + szp).
  { rewrite total_app. simpl. unfold bsize; simpl. unfold bpv. lia. }
  rewrite Ebp in Hidx.
  (* the arena, read at the three blocks *)
  assert (Ap : arena s (pre0 ++ prv :: b :: nxt :: rest2)).
  { rewrite <- app_assoc in A. exact A. }
  assert (An : arena s (((pre0 ++ [prv]) ++ [b]) ++ nxt :: rest2)).
  { rewrite <- app_assoc. exact A. }
  assert (Ebn : heap_listp s + 8 + total ((pre0 ++ [prv]) ++ [b]) = bpv + szp + sz).
  { rewrite !total_app. simpl. unfold bsize; simpl. unfold bpv. fold hp. lia. }
  destruct (block_reads _ _ _ _ A) as (R1 & R2 & R3 & R4 & R5 & R6 & R7).
  destruct (block_reads _ _ _ _ Ap) as (P1 & P2 & P3 & P4 & P5 & P6 & P7).
  destruct (block_reads _ _ _ _ An) as (N1 & N2 & N3 & N4 & N5 & N6 & N7).
  fold hp in R1, R2, R3, R4, R5, R6, R7, P1, P2, P3, P4, P5, P6, P7.
  rewrite Ebp in R1, R2, R3, R4, R5, R6, R7.
  rewrite Ebn in N1, N2, N3, N4, N5, N6, N7.
  fold bpv in P1, P2, P3, P4, P5, P6, P7.
  change (bsize b) with sz in *. change (bsize prv) with szp in *.
  change (bsize nxt) with szn in *.
  change (balloc b) with false in *. change (bprev b) with false in *.
  change (balloc prv) with false in *. change (bprev prv) with true in *.
  change (balloc nxt) with false in *.
  specialize (P7 eq_refl). destruct P7 as [P7 P8].
  specialize (N7 eq_refl). destruct N7 as [N7 _].
  pose proof (arena_total_bound _ _ Ap) as Htot. rewrite total_app in Htot.
  change (total (prv :: b :: nxt :: rest2))
    with (szp + (sz + (szn + total rest2))) in Htot.
  pose proof Ap as [A1 A2 A3 A4 A5 A6 A7]. fold hp in A1, A2, A4, A6.
  set (L := pre0 ++ prv :: b :: nxt :: rest2) in *.
  assert (Hidx0 : indexes (hp + 8) L fl [bpv + szp]).
  { unfold L. rewrite <- app_assoc in Hidx. exact Hidx. }
  assert (Hb : In (bpv + szp, b) (layout (hp + 8) L)).
  { unfold L. apply layout_In_app. right. right. simpl. left. reflexivity. }
  assert (Hbp : In (bpv, prv) (layout (hp + 8) L)).
  { apply layout_In_app. right. left. auto. }
  assert (Hbn : In (bpv + szp + sz, nxt) (layout (hp + 8) L)).
  { unfold L. apply layout_In_app. right. right. simpl. right. left. reflexivity. }
  destruct (wf_blocks_In _ _ _ _ A7 Hb) as [_ Wb]. specialize (Wb eq_refl).
  destruct (wf_blocks_In _ _ _ _ A7 Hbp) as [_ Wp]. specialize (Wp eq_refl).
  destruct (wf_blocks_In _ _ _ _ A7 Hbn) as [_ Wn]. specialize (Wn eq_refl).
  unfold size_ok in Wb, Wp, Wn. change (bsize b) with sz in Wb.
  change (bsize prv) with szp in Wp. change (bsize nxt) with szn in Wn.
  assert (T0 : 0 <= total pre0).
  { apply (wf_blocks_app pre0 (prv :: b :: nxt :: rest2)) in A7 as [W0 _]; [|congruence].
    apply total_nonneg. now apply Forall_size_ok_sz8. }
  assert (T2 : 0 <= total rest2).
  { assert (A7' : wf_blocks ((pre0 ++ [prv; b; nxt]) ++ rest2)).
    { rewrite <- app_assoc. exact A7. }
    apply wf_blocks_app in A7' as [_ W2]; [|unfold rest2; congruence].
    apply total_nonneg. now apply wf_blocks_sz8. }
  assert (P64 : 2 ^ 32 < 2 ^ 64) by reflexivity.
  (* unlinking the successor, then the predecessor *)
  assert (Hns : ~ In (bpv + szp + sz) [bpv + szp]) by (simpl; lia).
  destruct (remove_list_heap s L fl [bpv + szp] (bpv + szp + sz) szn pan
              Ap Hl Hsep Hidx0 Hbn Hns)
    as (Aa & La & Sa & Ia & Ehpa & Ebrka & Emaxa & Fa).
  set (sa := remove_list s (bpv + szp + sz) szn) in *.
  set (fla := upd fl (class szn) (remove Z.eq_dec (bpv + szp + sz) (fl (class szn)))) in *.
  destruct (block_reads _ _ _ _ Aa) as (_ & Pa2 & _ & _ & _ & _ & Pa7).
  rewrite Ehpa in Pa2, Pa7. fold hp bpv in Pa2, Pa7.
  change (bsize prv) with szp in *. change (balloc prv) with false in *.
  specialize (Pa7 eq_refl). destruct Pa7 as [_ Pa8].
  assert (Hns2 : ~ In bpv [bpv + szp + sz; bpv + szp]) by (simpl; lia).
  pose proof (remove_list_heap sa L fla [bpv + szp + sz; bpv + szp] bpv szp true
              Aa La Sa) as M.
  cbn zeta in M. rewrite Ehpa in M. fold hp in M.
  destruct (M Ia Hbp Hns2) as (Ab & Lb & Sb & Ib & Ehpb & Ebrkb & Emaxb & Fb).
  clear M.
  set (sb := remove_list sa bpv szp) in *.
  set (flb := upd fla (class szp) (remove Z.eq_dec bpv (fla (class szp)))) in *.
  assert (Ab' : arena sb ((pre0 ++ [prv]) ++ b :: nxt :: rest2)).
  { rewrite <- app_assoc. exact Ab. }
  assert (Abn : arena sb (((pre0 ++ [prv]) ++ [b]) ++ nxt :: rest2)).
  { rewrite <- !app_assoc. exact Ab. }
  destruct (block_reads _ _ _ _ Ab') as (Rb1 & _).
  destruct (block_reads _ _ _ _ Ab) as (Pb1 & _ & _ & _ & _ & _ & Pb7).
  destruct (block_reads _ _ _ _ Abn) as (Nb1 & _).
  rewrite Ehpb in Rb1, Pb1, Pb7, Nb1.
  rewrite Ebp in Rb1. fold bpv in Pb1, Pb7. fold hp in Ebn. rewrite Ebn in Nb1.
  change (bsize b) with sz in *. change (bsize prv) with szp in *.
  change (bsize nxt) with szn in *.
  change (balloc b) with false in *. change (bprev b) with false in *.
  change (balloc prv) with false in *. change (bprev prv) with true in *.
  change (balloc nxt) with false in *.
  specialize (Pb7 eq_refl). destruct Pb7 as [Pb7 Pb8].
  (* the code of case 4 *)
  unfold coalesce_post. cbn zeta. fold hp. rewrite Ebp.
  rewrite coalesce_eq4; [|rewrite R4; reflexivity|rewrite R5, N3; reflexivity].
  cbn zeta. rewrite R2, R5, P8, P2, N2, N6.
  rewrite (GET_SIZE_ftr _ _ _ N7) by tauto. fold sa.
  rewrite Pa8, Pa2. fold sb.
  rewrite (wrap32_small (szp + szn)) by lia.
  rewrite (wrap64_small (sz + (szp + szn))) by lia.
  set (S := total [prv; b; nxt]).
  assert (ES : sz + (szp + szn) = S) by (unfold S; simpl; unfold bsize; simpl; lia).
  rewrite ES.
  assert (S8 : S mod 8 = 0).
  { rewrite <- ES. rewrite Z.add_mod, (Z.add_mod szp) by lia.
    destruct Wb as [_ ->]. destruct Wp as [_ ->]. destruct Wn as [_ ->]. reflexivity. }
  rewrite Pb8. rewrite (GET_PREV_ALLOC_hdr _ _ _ _ _ Pb1) by tauto.
  change (2 * b2z true) with (b2z false + 2 * b2z true).
  set (sc := put sb (HDRP bpv) (PACK S (b2z false + 2 * b2z true))).
  assert (Emc : mem sc = PUT (mem sb) (HDRP bpv) (PACK S (b2z false + 2 * b2z true)))
    by reflexivity.
  assert (Gc : GET (mem sc) (HDRP bpv) = hdr S false true).
  { rewrite Emc. apply PUT_hdr; auto. lia. }
  assert (Gch : GET (mem sc) (HDRP (bpv + szp)) = hdr sz false false).
  { rewrite Emc, GET_PUT_other by (unfold HDRP, WSIZE; lia). exact Rb1. }
  assert (Gcn : GET (mem sc) (HDRP (bpv + szp + sz)) = hdr szn false (bprev nxt)).
  { rewrite Emc, GET_PUT_other by (unfold HDRP, WSIZE; lia). exact Nb1. }
  assert (Enx : NEXT_BLKP (mem sc) (bpv + szp) = bpv + szp + sz).
  { unfold NEXT_BLKP. fold (HDRP (bpv + szp)).
    rewrite (GET_SIZE_hdr _ _ _ _ _ Gch); tauto. }
  rewrite Enx.
  assert (Eft : FTRP (mem sc) (bpv + szp + sz) = bpv + szp + sz + szn - 8).
  { unfold FTRP, DSIZE. rewrite (GET_SIZE_hdr _ _ _ _ _ Gcn); tauto. }
  rewrite Eft.
  set (sd := put sc (bpv + szp + sz + szn - 8) (PACK S 0)).
  assert (Emd : mem sd = PUT (mem sc) (bpv + szp + sz + szn - 8) (PACK S 0)) by reflexivity.
  assert (Gfd : GET (mem sd) (bpv + szp - 8) = szp).
  { rewrite Emd, GET_PUT_other by lia.
    rewrite Emc, GET_PUT_other by (unfold HDRP, WSIZE; lia). exact Pb7. }
  assert (Epd : PREV_BLKP (mem sd) (bpv + szp) = bpv).
  { unfold PREV_BLKP, DSIZE. rewrite (GET_SIZE_ftr _ _ _ Gfd); [lia|tauto]. }
  rewrite Epd.
  (* the merged block *)
  assert (PC' : pre_coal sd pre0 (S, false, true) rest2 flb /\
    (forall y, protected (hp + 8) L y ->
               mem sd y = mem sb y /\
               protected (hp + 8) (pre0 ++ (S, false, true) :: rest2) y)).
  { pose proof (merge_ok sb sd pre0 [prv; b; nxt] rest2 flb) as M. cbn zeta in M.
    rewrite Ehpb in M. fold hp bpv S in M.
    apply M; auto; clear M.
    - eapply indexes_ext; [|exact Ib]. intros x.
      cbn [map fst layout In]. change (bsize prv) with szp. change (bsize b) with sz.
      tauto.
    - intros X; discriminate X.
    - unfold rest2. intros X; discriminate X.
    - apply pa_ok_app in Hpa as [Hp0 _]. apply pa_ok_app in Hp0 as [Hp0 _]. exact Hp0.
    - apply pa_ok_app in Hpa as [Hp0 _]. apply pa_ok_app in Hp0 as [_ [Hp _]].
      symmetry. exact Hp.
    - destruct Hpar as [_ Hpar]. exact Hpar.
    - apply naf_app in Hadj as [Hadj _]. exact Hadj.
    - destruct Hadjr as [_ Hadjr]. apply (naf_weaken true). exact Hadjr.
    - rewrite Emd. unfold HDRP, WSIZE in *. rewrite GET_PUT_other by lia. exact Gc.
    - replace (bpv + S - 8) with (bpv + szp + sz + szn - 8) by lia.
      rewrite Emd, GET_PUT_same.
      rewrite (PACK_hdr S 0) by (auto; lia). rewrite Z.add_0_r.
      apply wrap32_small. lia.
    - intros y H1 H2. rewrite Emd, Emc. unfold HDRP, WSIZE.
      rewrite !PUT_outside by lia. reflexivity. }
  destruct PC' as [PC' Fm].
  pose proof (coalesce_finish_ok sd pre0 S sz2 pa2 tl2 flb PC') as F. cbn zeta in F.
  assert (Ehpd : heap_listp sd = hp) by exact Ehpb.
  rewrite Ehpd in F. fold bpv in F.
  set (r := coalesce_finish sd bpv S) in *.
  destruct F as (F1 & F2 & F3 & F4 & F5 & F6).
  assert (E2 : coal_size (pre0 ++ [prv]) b (nxt :: rest2) = S).
  { unfold coal_size. rewrite pred_blk_snoc.
    unfold succ_blk, bsize, bprev, balloc. simpl. lia. }
  assert (E3 : coal_pre (pre0 ++ [prv]) b = pre0).
  { unfold coal_pre. simpl. apply removelast_last. }
  unfold coal_lists, enlist, unlist. rewrite E2, E3, pred_blk_snoc.
  rewrite Ebp.
  unfold coal_rest, succ_blk.
  cbn [bprev balloc bsize snd fst hd tl b nxt prv rest2 set_pa].
  replace (bpv + szp - szp) with bpv by lia. fold bpv. fold fla. fold flb.
  split; [exact F1|]. split; [exact F2|].
  split; [rewrite F3; reflexivity|].
  split; [rewrite F4; etransitivity; [exact Ebrkb|exact Ebrka]|].
  split; [rewrite F5; etransitivity; [exact Emaxb|exact Emaxa]|].
  intros y Hy.
  assert (Hy' : protected (hp + 8) L y).
  { unfold L. rewrite <- app_assoc in Hy. exact Hy. }
  destruct (Fm y Hy') as [E1 P1'].
  rewrite (F6 y P1'), E1, (Fb y Hy'). apply Fa. exact Hy'.
Qed.

(** * [coalesce] keeps the invariant *)

Theorem coalesce_ok s pre b rest fl :
  pre_coal s pre b rest fl -> coalesce_post s pre b rest fl.
Proof.
  intros PC.
  destruct (pre_coal_bits _ _ _ _ _ PC) as (_ & Hp0 & _ & Hn0 & Hn1).
  pose proof PC as [_ Hfree _ _ _ _ _ _ _ _].
  destruct b as [[sz a] pa]. unfold balloc in Hfree; simpl in Hfree. subst a.
  destruct pa; destruct (balloc (succ_blk rest)) eqn:En.
  - destruct (Hn1 eq_refl) as (szn & pan & tl & -> & _).
    now apply coalesce_case1.
  - destruct (Hn0 eq_refl) as (szn & pan & sz2 & pa2 & tl2 & -> & _).
    now apply coalesce_case2.
  - destruct (Hn1 eq_refl) as (szn & pan & tl & -> & _).
    destruct (Hp0 eq_refl) as (pre0 & szp & -> & _).
    now apply coalesce_case3.
  - destruct (Hn0 eq_refl) as (szn & pan & sz2 & pa2 & tl2 & -> & _).
    destruct (Hp0 eq_refl) as (pre0 & szp & -> & _).
    now apply coalesce_case4.
Qed.

(** * [free] keeps the invariant *)

Lemma free_eq s bp :
  bp <> 0 -> heap_listp s <> 0 ->
  free s bp =
  let size := GET_SIZE (mem s) (HDRP bp) in
  let s1 := put s (HDRP bp)
              (Z.lor (PACK size 0) (GET_PREV_ALLOC (mem s) (HDRP bp))) in
  let s2 := put s1 (FTRP (mem s1) bp) (PACK size 0) in
  snd (coalesce s2 bp).
Proof.
  intros H1 H2. unfold free.
  destruct (Z.eqb_spec bp 0); [contradiction|].
  destruct (Z.eqb_spec (heap_listp s) 0); [contradiction|]. reflexivity.
Qed.

(** The state in which [free] calls [coalesce]. *)
Lemma free_pre_coal s pre sz pa rest fl :
  heap_inv s (pre ++ (sz, true, pa) :: rest) fl -> rest <> [] ->
  let bp := heap_listp s + 8 + total pre in
  let s1 := put s (HDRP bp) (hdr sz false pa) in
  let s2 := put s1 (bp + sz - 8) sz in
  pre_coal s2 pre (sz, false, pa) rest fl /\
  (forall y, y < bp - 4 \/ bp + sz - 4 <= y -> mem s2 y = mem s y).
Proof.
  intros [A Hl Hsep Hidx Hpa Hadj] Hrest bp s1 s2.
  set (hp := heap_listp s) in *.
  set (L := pre ++ (sz, true, pa) :: rest) in *.
  pose proof A as [A1 A2 A3 A4 A5 A6 A7]. fold hp in A1, A2, A4, A6.
  destruct (arena_split _ _ _ _ A Hrest) as
    (W0 & Wb & W2 & _ & _ & _ & _ & Hin & T0 & T2 & Ebrk).
  fold hp bp in Hin, Ebrk. change (bsize (sz, true, pa)) with sz in Ebrk.
  unfold size_ok in Wb. change (bsize (sz, true, pa)) with sz in Wb.
  assert (Em2 : mem s2 = PUT (PUT (mem s) (HDRP bp) (hdr sz false pa)) (bp + sz - 8) sz)
    by reflexivity.
  assert (Hw1 : wrap32 (hdr sz false pa) = hdr sz false pa).
  { apply wrap32_small. unfold hdr. destruct pa; unfold b2z; lia. }
  assert (Hw2 : wrap32 sz = sz) by (apply wrap32_small; lia).
  assert (Fr : forall y, y < bp - 4 \/ bp <= y -> y < bp + sz - 8 \/ bp + sz - 4 <= y ->
                         mem s2 y = mem s y).
  { intros y H1 H2. rewrite Em2. unfold HDRP, WSIZE. rewrite !PUT_outside by lia.
    reflexivity. }
  assert (Hfa : forall b k, free_at (hp + 8) L b k -> b + 16 <= bp \/ bp + sz <= b).
  { intros b k Hf. unfold L in Hf.
    change ((sz, true, pa) :: rest) with ([(sz, true, pa)] ++ rest) in Hf.
    rewrite !free_at_app in Hf. destruct Hf as [Hf|[Hf|Hf]].
    - left. apply (free_at_upper _ _ _ _ W0 Hf).
    - destruct Hf as (sz' & pa' & [E|[]] & _). inversion E.
    - right. pose proof (free_at_lower _ _ _ _ (wf_blocks_sz8 _ W2) Hf) as Hlo.
      simpl in Hlo. unfold bsize in Hlo; simpl in Hlo. fold bp in Hlo. lia. }
  split; [|intros y Hy; apply Fr; lia].
  constructor; auto.
  - (* arena *)
    constructor; try assumption.
    + change (mem_brk s2) with (mem_brk s). change (heap_listp s2) with hp.
      rewrite A2. unfold L. rewrite !total_app. reflexivity.
    + pose proof (seg_merge (mem s) (mem s2) (hp + 8) pre [(sz, true, pa)] rest pa) as M.
      cbn zeta in M. fold bp in M.
      change (total [(sz, true, pa)]) with (sz + 0) in M. rewrite Z.add_0_r in M.
      apply M; auto.
      * intros X; discriminate X.
      * rewrite Em2. unfold HDRP, WSIZE. rewrite GET_PUT_other by lia.
        now rewrite GET_PUT_same.
      * rewrite Em2. now rewrite GET_PUT_same.
    + apply wf_blocks_app; [congruence|]. split; auto.
      apply wf_blocks_cons; auto.
  - (* lists *)
    apply (lists_frame s); auto.
    intros k n Hn y Hy. apply Hidx in Hn as [Hn _].
    destruct (Hfa _ _ Hn); apply Fr; lia.
  - (* index *)
    fold hp bp.
    pose proof (index_merge (hp + 8) pre [(sz, true, pa)] rest fl pa) as M.
    fold bp in M.
    change (total [(sz, true, pa)]) with (sz + 0) in M. rewrite Z.add_0_r in M.
    apply M; auto.
    + intros X; discriminate X.
    + now apply wf_blocks_sz8.
    + intros k b. rewrite (Hidx k b). simpl. split; [|tauto].
      intros [Hf _]. split; auto. intros [E|[]]. subst b.
      destruct (Hfa _ _ Hf); lia.
  - (* status bits *)
    unfold L in Hpa. apply pa_ok_app in Hpa as [Hp0 [Hp1 _]].
    apply pa_ok_app. split; auto. simpl. auto.
  - unfold L in Hpa. apply pa_ok_app in Hpa as [_ [_ Hp2]].
    destruct rest as [|x rest]; [congruence|]. simpl in Hp2. simpl. tauto.
  - unfold L in Hadj. apply naf_app in Hadj. tauto.
  - unfold L in Hadj. apply naf_app in Hadj as [_ [_ Hr]].
    eapply naf_weaken. exact Hr.
Qed.

Theorem free_ok s pre sz pa rest fl :
  heap_inv s (pre ++ (sz, true, pa) :: rest) fl -> rest <> [] ->
  let bp := heap_listp s + 8 + total pre in
  let b := (sz, false, pa) in
  let s' := free s bp in
  heap_inv s' (coal_pre pre b ++ (coal_size pre b rest, false, true) :: coal_rest rest)
           (coal_lists (heap_listp s) pre b rest fl) /\
  heap_listp s' = heap_listp s /\ mem_brk s' = mem_brk s /\
  mem_max_addr s' = mem_max_addr s /\
  (forall y, protected (heap_listp s + 8) (pre ++ b :: rest) y -> mem s' y = mem s y).
Proof.
  intros HI Hrest bp b s'.
  pose proof HI as [A _ _ _ _ _].
  pose proof A as [A1 A2 A3 A4 A5 A6 A7].
  destruct (arena_split _ _ _ _ A Hrest) as
    (W0 & Wb & W2 & _ & _ & _ & _ & Hin & T0 & T2 & Ebrk).
  fold bp in Hin, Ebrk.
  unfold size_ok in Wb. change (bsize (sz, true, pa)) with sz in Wb, Ebrk.
  destruct (block_reads _ _ _ _ A) as (R1 & R2 & R3 & R4 & R5 & R6 & R7).
  fold bp in R1, R2, R4. change (bsize (sz, true, pa)) with sz in R2.
  change (bprev (sz, true, pa)) with pa in R4.
  destruct (free_pre_coal s pre sz pa rest fl HI Hrest) as [PC Fr].
  fold bp in PC, Fr.
  pose proof (coalesce_ok _ _ _ _ _ PC) as CP. unfold coalesce_post in CP.
  change (heap_listp (put (put s (HDRP bp) (hdr sz false pa)) (bp + sz - 8) sz))
    with (heap_listp s) in CP.
  change (mem_brk (put (put s (HDRP bp) (hdr sz false pa)) (bp + sz - 8) sz))
    with (mem_brk s) in CP.
  change (mem_max_addr (put (put s (HDRP bp) (hdr sz false pa)) (bp + sz - 8) sz))
    with (mem_max_addr s) in CP.
  cbn zeta in CP. fold bp in CP.
  assert (Efree : s' = snd (coalesce (put (put s (HDRP bp) (hdr sz false pa))
                                          (bp + sz - 8) sz) bp)).
  { unfold s'. rewrite free_eq by lia. cbn zeta. rewrite R2, R4.
    assert (E1 : Z.lor (PACK sz 0) (2 * b2z pa) = hdr sz false pa).
    { rewrite (PACK_hdr sz 0) by (try tauto; lia). rewrite Z.add_0_r.
      fold (PACK sz (2 * b2z pa)). rewrite PACK_hdr; [|tauto|destruct pa; unfold b2z; lia].
      unfold hdr, b2z. lia. }
    rewrite E1.
    assert (E2 : FTRP (mem (put s (HDRP bp) (hdr sz false pa))) bp = bp + sz - 8).
    { unfold FTRP, DSIZE.
      rewrite (GET_SIZE_hdr _ _ sz false pa); [reflexivity| |tauto].
      change (mem (put s (HDRP bp) (hdr sz false pa)))
        with (PUT (mem s) (HDRP bp) (hdr sz false pa)).
      rewrite GET_PUT_same. apply wrap32_small.
      pose proof (arena_total_bound _ _ A) as Htot. rewrite total_app in Htot.
      simpl in Htot. unfold bsize in Htot; simpl in Htot.
      unfold hdr. destruct pa; unfold b2z; lia. }
    rewrite E2. rewrite (PACK_hdr sz 0) by (try tauto; lia). rewrite Z.add_0_r.
    reflexivity. }
  rewrite Efree.
  destruct CP as (C1 & C2 & C3 & C4 & C5 & C6).
  split; [exact C2|]. split; [exact C3|]. split; [exact C4|]. split; [exact C5|].
  intros y Hy. rewrite (C6 y Hy). apply Fr.
  assert (Hin' : In (bp, b) (layout (heap_listp s + 8) (pre ++ b :: rest))).
  { apply layout_In_app. right. left. auto. }
  destruct PC as [[_ _ _ _ _ _ W] _ _ _ _ _ _ _ _ _].
  pose proof (protected_not_free _ _ _ _ _ W Hy Hin' eq_refl) as H.
  unfold b, bsize in H; simpl in H. exact H.
Qed.

(** * Reading any block of the arena *)

Lemma seg_In m bs : forall bp b k,
  seg m bp bs -> In (b, k) (layout bp bs) ->
  GET m (HDRP b) = hdr (bsize k) (balloc k) (bprev k) /\
  (balloc k = false -> GET m (b + bsize k - DSIZE) = bsize k).
Proof.
  induction bs as [|x bs IH]; intros bp b k Hs; [simpl; tauto|].
  apply seg_cons in Hs as (H1 & H2 & H3).
  intros [E|Hin]; [inversion E; subst; auto|eauto].
Qed.

Lemma arena_size s bs b k :
  arena s bs -> In (b, k) (layout (heap_listp s + 8) bs) ->
  GET_SIZE (mem s) (HDRP b) = bsize k.
Proof.
  intros [A1 A2 A3 A4 A5 A6 A7] Hin.
  destruct (wf_blocks_In _ _ _ _ A7 Hin) as [[_ K8] _].
  destruct (seg_In _ _ _ _ _ A6 Hin) as [H _].
  apply (GET_SIZE_hdr _ _ _ _ _ H K8).
Qed.

(** * The inner loop of [find_fit] *)

Lemma scan_list_spec s asize l : forall prev bp fuel,
  lseg (mem s) (heap_listp s) prev bp l (heap_listp s) ->
  Forall (fun b => b <> heap_listp s) l ->
  (length l < fuel)%nat ->
  scan_list fuel s bp asize =
  match find (fits (mem s) asize) l with
  | Some b => Found b
  | None => Exhausted
  end.
Proof.
  induction l as [|a l IH]; intros prev bp fuel Hl Hne Hf;
    (destruct fuel as [|fuel]; [simpl in Hf; lia|]); simpl in Hl |- *.
  - subst bp. now rewrite Z.eqb_refl.
  - destruct Hl as (-> & _ & Hl). apply Forall_cons_iff in Hne as [Ha Hne].
    destruct (Z.eqb_spec a (heap_listp s)); [contradiction|].
    unfold fits at 1. destruct (asize <=? GET_SIZE (mem s) (HDRP a)); [reflexivity|].
    apply (IH a); auto. simpl in Hf. lia.
Qed.

Lemma find_app_none {A} (f : A -> bool) l1 l2 :
  find f l1 = None -> find f (l1 ++ l2) = find f l2.
Proof.
  induction l1 as [|a l1 IH]; simpl; [auto|].
  destruct (f a); [discriminate|auto].
Qed.

Lemma find_app_some {A} (f : A -> bool) l1 l2 x :
  find f l1 = Some x -> find f (l1 ++ l2) = Some x.
Proof.
  induction l1 as [|a l1 IH]; simpl; [discriminate|].
  destruct (f a); auto.
Qed.

(** * The outer loop *)

Lemma find_fit_all s fl asize fuel :
  lists_ok s fl -> nodes_ok (heap_listp s) fl ->
  (forall k, (k < 10)%nat -> (length (fl k) < fuel)%nat) ->
  find_fit fuel s asize = Some (first_fit (mem s) asize (lists_from 0 fl)).
Proof.
  intros Hl Hok Hf.
  assert (Hscan : forall k, (k < 10)%nat ->
    scan_list fuel s (nth_root s k) asize =
    match find (fits (mem s) asize) (fl k) with
    | Some b => Found b | None => Exhausted end).
  { intros k Hk. apply (scan_list_spec s asize (fl k) (heap_listp s)); auto.
    - apply Hl; auto.
    - apply Forall_forall. intros b Hb. apply Hok in Hb. unfold node_ok in Hb. lia. }
  unfold find_fit, first_fit, lists_from.
  cbn [seq Nat.sub map concat].
  cbn [find_fit_loop].
  repeat match goal with
  | |- context [size2ptr s ?z] =>
      let k := eval vm_compute in (class z) in
      change (size2ptr s z) with (nth_root s k)
  end.
  change (wrap64 (Z.shiftl 16 1)) with 32.
  change (wrap64 (Z.shiftl 32 1)) with 64.
  change (wrap64 (Z.shiftl 64 1)) with 128.
  change (wrap64 (Z.shiftl 128 1)) with 256.
  change (wrap64 (Z.shiftl 256 1)) with 512.
  change (wrap64 (Z.shiftl 512 1)) with 1024.
  change (wrap64 (Z.shiftl 1024 1)) with 2048.
  change (wrap64 (Z.shiftl 2048 1)) with 4096.
  change (wrap64 (Z.shiftl 4096 1)) with 8192.
  change (wrap64 (Z.shiftl 8192 1)) with 16384.
  cbn [Z.leb Z.compare Pos.compare Pos.compare_cont].
  repeat match goal with
  | |- context [size2ptr s ?z] =>
      let k := eval vm_compute in (class z) in
      change (size2ptr s z) with (nth_root s k)
  end.
  rewrite !Hscan by lia.
  repeat match goal with
  | |- context [find ?f (?l1 ++ ?l2)] =>
      destruct (find f l1) eqn:?;
      [erewrite find_app_some by eassumption; reflexivity
      |rewrite find_app_none by assumption]
  end.
  reflexivity.
Qed.

(** * The search of [find_fit], as the specification words it *)

Lemma class_mono a b : a <= b -> (class a <= class b)%nat.
Proof.
  intros H. unfold class.
  repeat match goal with |- context [?x <=? ?y] =>
    destruct (Z.leb_spec x y) end; lia.
Qed.

Lemma lists_from_step k fl :
  (k < 10)%nat -> lists_from k fl = fl k ++ lists_from (S k) fl.
Proof.
  intros Hk. unfold lists_from.
  replace (10 - k)%nat with (S (10 - S k)) by lia. reflexivity.
Qed.

Lemma find_lists_from f fl c :
  (c <= 10)%nat -> (forall k, (k < c)%nat -> find f (fl k) = None) ->
  find f (lists_from 0 fl) = find f (lists_from c fl).
Proof.
  induction c as [|c IH]; intros Hc Hn; [reflexivity|].
  rewrite IH by (auto; lia). rewrite lists_from_step by lia.
  apply find_app_none. apply Hn. lia.
Qed.

Theorem find_fit_spec s bs fl asize fuel :
  heap_inv s bs fl ->
  (forall k, (k < 10)%nat -> (length (fl k) < fuel)%nat) ->
  find_fit fuel s asize = Some (spec_find_fit s fl asize).
Proof.
  intros [A Hl Hsep Hidx Hpa Hadj] Hf.
  rewrite (find_fit_all s fl asize fuel Hl (nodes_ok_arena _ _ _ _ A Hidx) Hf).
  unfold spec_find_fit, first_fit. f_equal.
  rewrite (find_lists_from _ fl (class asize)); [reflexivity| |].
  - pose proof (class_lt asize). lia.
  - intros k Hk. destruct (find (fits (mem s) asize) (fl k)) as [b|] eqn:E; [|reflexivity].
    exfalso. apply find_some in E as [Hb Hfit].
    apply Hidx in Hb as [(sz & pa & Hin & Hc) _].
    unfold fits in Hfit. rewrite (arena_size _ _ _ _ A Hin) in Hfit.
    unfold bsize in Hfit; simpl in Hfit. apply Z.leb_le in Hfit.
    apply class_mono in Hfit. lia.
Qed.

(** What the search returns is null or a listed free block that fits. *)
Lemma first_fit_cases m asize ls :
  first_fit m asize ls = 0 /\ find (fits m asize) ls = None \/
  In (first_fit m asize ls) ls /\ fits m asize (first_fit m asize ls) = true.
Proof.
  unfold first_fit. destruct (find (fits m asize) ls) as [b|] eqn:E; [right|left; auto].
  now apply find_some in E.
Qed.

Lemma In_lists_from k fl b :
  In b (lists_from k fl) -> exists i, (i < 10)%nat /\ In b (fl i).
Proof.
  unfold lists_from. intros H. apply in_concat in H as (l & Hl & Hb).
  apply in_map_iff in Hl as (i & <- & Hi). apply in_seq in Hi.
  exists i. split; [lia|auto].
Qed.

(** * A free block of a heap in its invariant *)

Lemma naf_pred_alloc pre b rest :
  no_adjacent_free false (pre ++ b :: rest) -> balloc b = false ->
  last_alloc true pre = true.
Proof.
  intros H Hb. apply naf_app in H as [_ H]. destruct H as [H _].
  unfold last_alloc. destruct (rev pre) as [|c rp]; [reflexivity|].
  destruct (balloc c); [reflexivity|]. simpl in H. specialize (H eq_refl). congruence.
Qed.

Lemma heap_inv_free_block s pre csize pa rest fl :
  heap_inv s (pre ++ (csize, false, pa) :: rest) fl ->
  pa = true /\
  exists szn tl, rest = (szn, true, false) :: tl /\
    last_alloc true pre = true /\ pa_ok true pre /\ pa_ok true tl /\
    no_adjacent_free false pre /\ no_adjacent_free false tl.
Proof.
  intros [A Hl Hsep Hidx Hpa Hadj].
  pose proof (naf_pred_alloc _ _ _ Hadj eq_refl) as Hla.
  apply pa_ok_app in Hpa as [Hp0 Hp1]. simpl in Hp1. destruct Hp1 as [Hp1 Hp2].
  apply naf_app in Hadj as [Ha0 Ha1]. simpl in Ha1. destruct Ha1 as [Ha1 Ha2].
  unfold bprev, balloc in *. simpl in *.
  split; [congruence|].
  destruct A as [_ _ _ _ _ _ A7].
  destruct rest as [|[[szn an] pan] tl].
  - exfalso. apply wf_blocks_app in A7 as [_ W]; [|congruence].
    simpl in W. destruct W as [_ W]. discriminate.
  - simpl in Hp2, Ha2. unfold bprev, balloc in *. simpl in *.
    destruct Hp2 as [Hp2 Hp3]. destruct Ha2 as [Ha2 Ha3].
    specialize (Ha2 eq_refl). subst an pan.
    exists szn, tl. repeat split; auto.
Qed.

Lemma lists_put_hdr s bp0 bs fl skip b k v :
  wf_blocks bs -> indexes bp0 bs fl skip ->
  lists_ok s fl -> In (b, k) (layout bp0 bs) ->
  lists_ok (put s (HDRP b) v) fl.
Proof.
  intros Hwf Hi Hl Hb.
  apply (lists_frame s _ fl Hl).
  - reflexivity.
  - intros i _. apply put_fields.
  - intros i n Hn y Hy. change (mem (put s (HDRP b) v)) with (PUT (mem s) (HDRP b) v).
    apply PUT_outside.
    destruct (nodes_in_layout _ _ _ _ _ _ Hi Hn) as (sz & pa & Hin & _ & _).
    destruct (wf_blocks_In _ _ _ _ Hwf Hin) as [_ Sn]. specialize (Sn eq_refl).
    unfold size_ok, bsize in Sn; simpl in Sn. unfold HDRP, WSIZE.
    destruct (Z_lt_ge_dec y (b - 4)) as [|H1]; [auto|].
    destruct (Z_lt_ge_dec y b) as [H2|]; [|lia].
    exfalso.
    assert (y < n \/ n + 8 <= y).
    { apply (link_clear bp0 bs n (sz, false, pa) b k y); auto.
      - unfold bsize; simpl; lia.
      - left; lia. }
    lia.
Qed.

(** * Rewriting a stretch of the arena *)

(** The blocks [mid] are rewritten as [mid'], of the same total size; outside
    of the stretch only link fields of real blocks may change. *)
Lemma seg_replace m m' bp0 pre mid mid' post :
  wf_blocks (pre ++ mid ++ post) -> Forall size_ok pre ->
  seg m bp0 (pre ++ mid ++ post) ->
  total mid' = total mid ->
  let bpv := bp0 + total pre in
  seg m' bpv mid' ->
  (forall y, y < bpv - 4 \/ (post <> [] /\ bpv + total mid - 4 <= y) ->
     (forall n kn, In (n, kn) (layout bp0 (pre ++ mid ++ post)) -> 16 <= bsize kn ->
                   y < n \/ n + 8 <= y) ->
     m' y = m y) ->
  seg m' bp0 (pre ++ mid' ++ post).
Proof.
  intros Hwf W0 Hs Ht bpv Hmid F.
  pose proof (wf_blocks_sz8 _ Hwf) as H8.
  apply Forall_app in H8 as [H8p H8r]. apply Forall_app in H8r as [H8m H8t].
  pose proof (total_nonneg _ H8p) as T0. pose proof (total_nonneg _ H8m) as T1.
  pose proof Hs as Hs'.
  apply seg_app in Hs' as [S0 S1]. apply seg_app in S1 as [_ S2].
  fold bpv in S2.
  apply seg_app. fold bpv. split; [|apply seg_app; split; [exact Hmid|]].
  - apply (seg_frame m); auto. intros b k Hb.
    assert (Hin : In (b, k) (layout bp0 (pre ++ mid ++ post))).
    { rewrite layout_app, in_app_iff. auto. }
    destruct (wf_blocks_In _ _ _ _ Hwf Hin) as [_ Kf].
    pose proof (layout_In_Forall _ _ _ _ _ W0 Hb) as [K0 _].
    pose proof (layout_bounds _ _ _ _ H8p Hb) as Hbd. fold bpv in Hbd.
    split; [|intros Hk; specialize (Kf Hk); destruct Kf as [Kf _]];
      intros y Hy; apply F; try lia;
      intros n kn Hn Hsz; apply (link_clear bp0 _ n kn b k y Hwf Hn Hsz Hin); auto.
  - rewrite Ht. apply (seg_frame m); auto. intros b k Hb.
    assert (Hin : In (b, k) (layout bp0 (pre ++ mid ++ post))).
    { rewrite layout_app, in_app_iff. right.
      rewrite layout_app, in_app_iff. right. exact Hb. }
    destruct (wf_blocks_In _ _ _ _ Hwf Hin) as [[K0 _] Kf].
    pose proof (layout_bounds _ _ _ _ H8t Hb) as Hbd.
    assert (Hpne : post <> []) by (intros ->; simpl in Hb; tauto).
    split; [|intros Hk; specialize (Kf Hk); destruct Kf as [Kf _]];
      intros y Hy; apply F; try (right; split; [exact Hpne|lia]);
      intros n kn Hn Hsz; apply (link_clear bp0 _ n kn b k y Hwf Hn Hsz Hin); auto.
Qed.

(** Well-formedness looks at sizes and at the last block only. *)
Lemma wf_blocks_replace pre mid mid' post :
  wf_blocks (pre ++ mid ++ post) -> post <> [] -> Forall size_ok mid' ->
  wf_blocks (pre ++ mid' ++ post).
Proof.
  intros H Hp Hm.
  assert (N1 : mid ++ post <> []) by (destruct mid; simpl; congruence).
  assert (N2 : mid' ++ post <> []) by (destruct mid'; simpl; congruence).
  apply (wf_blocks_app _ _ N1) in H as [W0 W1].
  apply (wf_blocks_app _ _ Hp) in W1 as [_ W2].
  apply (wf_blocks_app _ _ N2). split; auto.
  apply (wf_blocks_app _ _ Hp). auto.
Qed.

(** The index when the free block left out of the lists changes status or
    is cut in two with a free remainder that is left out as well. *)
Lemma index_replace bp0 pre b mid' post fl skip' :
  Forall size_ok pre -> size_ok b -> Forall sz8 post ->
  total mid' = bsize b ->
  indexes bp0 (pre ++ b :: post) fl [bp0 + total pre] ->
  (forall x c, free_at (bp0 + total pre) mid' x c -> In x skip') ->
  (forall x, In x skip' -> bp0 + total pre <= x < bp0 + total pre + bsize b) ->
  indexes bp0 (pre ++ mid' ++ post) fl skip'.
Proof.
  intros W0 Wb W2 Ht Hidx Hsk1 Hsk2 k x. rewrite (Hidx k x).
  change (b :: post) with ([b] ++ post).
  rewrite !free_at_app. simpl total. rewrite Z.add_0_r, Ht.
  destruct Wb as [Wb _].
  split.
  - intros [[H|[H|H]] Hs].
    + split; auto. pose proof (free_at_upper _ _ _ _ W0 H). intros Hx.
      apply Hsk2 in Hx. lia.
    + exfalso. apply Hs. destruct H as (sz & pa & [E|[]] & _).
      inversion E. simpl; auto.
    + split; auto. pose proof (free_at_lower _ _ _ _ W2 H). intros Hx.
      apply Hsk2 in Hx. lia.
  - intros [[H|[H|H]] Hs].
    + split; auto. pose proof (free_at_upper _ _ _ _ W0 H). simpl. lia.
    + exfalso. apply Hs. eapply Hsk1; eauto.
    + split; auto. pose proof (free_at_lower _ _ _ _ W2 H). simpl. lia.
Qed.

Lemma indexes_enlist bp0 bs fl skip x sz pa :
  wf_blocks bs -> In (x, (sz, false, pa)) (layout bp0 bs) ->
  (forall y, In y skip <-> y = x) ->
  indexes bp0 bs fl skip -> indexes bp0 bs (enlist fl x sz) [].
Proof.
  intros Hwf Hin Hsk Hidx k b. unfold enlist, upd.
  destruct (Nat.eqb_spec k (class sz)) as [->|Hk].
  - simpl. rewrite (Hidx (class sz) b), Hsk. split.
    + intros [<-|[H _]]; split; auto.
      apply (free_at_unique _ _ _ _ _ _ Hwf Hin). reflexivity.
    + intros [H _]. destruct (Z.eq_dec x b); [auto|right]. split; auto.
  - rewrite (Hidx k b), Hsk. split; [tauto|]. intros [H _]. split; auto.
    intros ->. apply (free_at_unique _ _ _ _ _ _ Hwf Hin) in H. auto.
Qed.

Lemma free_other_side bp0 pre b post x c :
  Forall size_ok pre -> Forall sz8 post ->
  free_at bp0 (pre ++ b :: post) x c -> x <> bp0 + total pre ->
  x + 16 <= bp0 + total pre \/ bp0 + total pre + bsize b <= x.
Proof.
  intros W0 W2 Hf Hx.
  change (b :: post) with ([b] ++ post) in Hf.
  rewrite !free_at_app in Hf. destruct Hf as [Hf|[Hf|Hf]].
  - left. apply (free_at_upper _ _ _ _ W0 Hf).
  - destruct Hf as (sz' & pa' & [E|[]] & _). inversion E. congruence.
  - right. pose proof (free_at_lower _ _ _ _ W2 Hf) as Hlo. simpl in Hlo. lia.
Qed.

(** * [place] keeps the invariant *)

Section Place.

Variables (s : state) (pre : list blk) (csize asize szn : Z) (tl : list blk)
          (fl : nat -> list Z).

Let hp := heap_listp s.
Let bp := hp + 8 + total pre.
Let b : blk := (csize, false, true).
Let nxt : blk := (szn, true, false).
Let L := pre ++ b :: nxt :: tl.

Hypothesis HI : heap_inv s L fl.
Hypothesis Has : 16 <= asize <= csize.
Hypothesis Ha8 : asize mod 8 = 0.

Let sa := remove_list s bp csize.
Let fla := unlist fl bp csize.

Lemma place_facts :
  arena s L /\ In (bp, b) (layout (hp + 8) L) /\
  In (bp + csize, nxt) (layout (hp + 8) L) /\
  Forall size_ok pre /\ (16 <= csize /\ csize mod 8 = 0) /\ wf_blocks (nxt :: tl) /\
  0 <= total pre /\ 0 <= szn /\ szn mod 8 = 0 /\ 0 <= total tl /\
  total pre + (csize + (szn + total tl)) < 2 ^ 32 - 8 /\
  mem_brk s = hp + 8 + (total pre + (csize + (szn + total tl))) /\
  GET_SIZE (mem s) (HDRP bp) = csize.
Proof.
  destruct HI as [A _ _ _ _ _].
  assert (Hr : nxt :: tl <> []) by congruence.
  destruct (arena_split _ _ _ _ A Hr) as
    (W0 & Wb & W2 & _ & _ & _ & _ & Hin & T0 & T2 & Ebrk).
  assert (Hnin : In (bp + csize, nxt) (layout (hp + 8) L)).
  { unfold L. apply layout_In_app. right. right. simpl. left. reflexivity. }
  pose proof A as [_ _ _ _ _ _ A7].
  destruct (wf_blocks_In _ _ _ _ A7 Hnin) as [[N0 N8] _].
  pose proof (arena_total_bound _ _ A) as Htot. unfold L in Htot.
  rewrite total_app in Htot.
  change (total (b :: nxt :: tl)) with (csize + (szn + total tl)) in Htot.
  change (total (nxt :: tl)) with (szn + total tl) in T2.
  assert (T3 : 0 <= total tl).
  { apply total_nonneg. apply wf_blocks_sz8 in W2.
    now apply Forall_cons_iff in W2 as [_ ?]. }
  destruct (block_reads _ _ _ _ A) as (_ & R2 & _).
  change (bsize nxt) with szn in N0, N8.
  split; [exact A|]. split; [exact Hin|]. split; [exact Hnin|].
  split; [exact W0|]. split; [exact Wb|]. split; [exact W2|].
  split; [exact T0|]. split; [exact N0|]. split; [exact N8|].
  split; [exact T3|]. split; [lia|]. split; [|exact R2].
  destruct A as [_ A2 _ _ _ _ _]. rewrite A2. unfold L. rewrite total_app. reflexivity.
Qed.

Lemma place_removed :
  arena sa L /\ lists_ok sa fla /\ nodes_sep fla /\
  indexes (hp + 8) L fla [bp] /\
  heap_listp sa = hp /\ mem_brk sa = mem_brk s /\
  mem_max_addr sa = mem_max_addr s /\
  (forall y, protected (hp + 8) L y -> mem sa y = mem s y) /\
  GET (mem sa) (HDRP bp) = hdr csize false true /\
  GET (mem sa) (HDRP (bp + csize)) = hdr szn true false /\
  (forall k n, In n (fla k) -> n + 16 <= bp \/ bp + csize <= n).
Proof.
  destruct place_facts as (A & Hb & Hbn & W0 & Wb & W2 & T0 & N0 & N8 & T3 & Htot & Ebrk & R2).
  destruct HI as [_ Hl Hsep Hidx _ _].
  destruct (remove_list_heap s L fl [] bp csize true A Hl Hsep Hidx Hb (fun x => x))
    as (Aa & La & Sa & Ia & Ehpa & Ebrka & Emaxa & Fa).
  fold sa in Aa, La, Sa, Ehpa, Ebrka, Emaxa, Fa. fold hp in Ia, Fa, Ehpa.
  change (upd fl (class csize) (remove Z.eq_dec bp (fl (class csize)))) with fla in *.
  destruct (block_reads _ _ _ _ Aa) as (R1 & _).
  assert (An : arena sa ((pre ++ [b]) ++ nxt :: tl))
    by (rewrite <- app_assoc; exact Aa).
  destruct (block_reads _ _ _ _ An) as (N1 & _).
  rewrite Ehpa in R1, N1. fold bp in R1.
  assert (Ebn : hp + 8 + total (pre ++ [b]) = bp + csize).
  { rewrite total_app. simpl. unfold bsize; simpl. unfold bp. lia. }
  rewrite Ebn in N1.
  split; [exact Aa|]. split; [exact La|]. split; [exact Sa|]. split; [exact Ia|].
  split; [exact Ehpa|]. split; [exact Ebrka|]. split; [exact Emaxa|].
  split; [exact Fa|]. split; [exact R1|]. split; [exact N1|].
  intros k n Hn. apply Ia in Hn as [Hf Hs].
  apply (free_other_side (hp + 8) pre b (nxt :: tl) n k); auto.
  - now apply wf_blocks_sz8.
  - intros E. apply Hs. simpl. left. symmetry. exact E.
Qed.

(** The whole block is handed out. *)
Lemma place_nosplit :
  csize - asize < 16 ->
  let s' := place s bp asize in
  heap_inv s' (pre ++ (csize, true, true) :: (szn, true, true) :: tl) fla /\
  heap_listp s' = hp /\ mem_brk s' = mem_brk s /\ mem_max_addr s' = mem_max_addr s /\
  (forall y, protected (hp + 8) L y -> mem s' y = mem s y).
Proof.
  intros Hsmall s'.
  destruct place_facts as (A & Hb & Hbn & W0 & Wb & W2 & T0 & N0 & N8 & T3 & Htot & Ebrk & R2).
  destruct place_removed as (Aa & La & Sa & Ia & Ehpa & Ebrka & Emaxa & Fa & G1 & G2 & Hside).
  destruct HI as [_ _ _ _ Hpa Hadj].
  pose proof A as [A1 A2 A3 A4 A5 A6 A7]. fold hp in A1, A2, A4, A6.
  assert (P64 : 2 ^ 32 < 2 ^ 64) by reflexivity.
  set (s2 := put sa (HDRP bp) (PACK csize (b2z true + 2 * b2z true))).
  set (s3 := put s2 (HDRP (bp + csize)) (hdr szn true true)).
  assert (G3 : GET (mem s2) (HDRP bp) = hdr csize true true).
  { apply PUT_hdr; [tauto|lia]. }
  assert (Es' : s' = s3).
  { unfold s', place. rewrite R2. fold sa. cbn zeta.
    rewrite (wrap64_small (csize - asize)) by lia.
    destruct (Z.geb_spec (csize - asize) (2 * DSIZE)) as [H|_]; [unfold DSIZE in H; lia|].
    rewrite (GET_PREV_ALLOC_hdr _ _ _ _ _ G1) by tauto.
    change (wrap32 (1 + 2 * b2z true)) with (b2z true + 2 * b2z true). fold s2.
    assert (En : NEXT_BLKP (mem s2) bp = bp + csize).
    { unfold NEXT_BLKP. fold (HDRP bp). rewrite (GET_SIZE_hdr _ _ _ _ _ G3); tauto. }
    rewrite En.
    assert (Gn : GET (mem s2) (HDRP (bp + csize)) = hdr szn true false).
    { change (mem s2) with (PUT (mem sa) (HDRP bp) (PACK csize (b2z true + 2 * b2z true))).
      rewrite GET_PUT_other by (unfold HDRP, WSIZE; lia). exact G2. }
    rewrite Gn, set_prev_of_hdr by auto. reflexivity. }
  rewrite Es'.
  assert (Em3 : mem s3 = PUT (PUT (mem sa) (HDRP bp) (PACK csize (b2z true + 2 * b2z true)))
                             (HDRP (bp + csize)) (hdr szn true true)) by reflexivity.
  assert (Hw : wrap32 (hdr szn true true) = hdr szn true true).
  { apply wrap32_small. unfold hdr, b2z. lia. }
  split; [|split; [exact Ehpa|split; [exact Ebrka|split; [exact Emaxa|]]]].
  - constructor.
    + (* arena *)
      destruct Aa as [B1 B2 B3 B4 B5 B6 B7].
      constructor; try assumption.
      * change (mem_brk s3) with (mem_brk sa). change (heap_listp s3) with (heap_listp sa).
        rewrite B2. unfold L. rewrite !total_app. reflexivity.
      * change (heap_listp s3) with (heap_listp sa). rewrite Ehpa.
        pose proof (seg_replace (mem sa) (mem s3) (hp + 8) pre [b; nxt]
                      [(csize, true, true); (szn, true, true)] tl) as M.
        cbn zeta in M. fold bp in M. rewrite Ehpa in B6.
        apply M; auto; clear M.
        -- assert (Q1 : GET (mem s3) (HDRP bp) = hdr csize true true).
           { rewrite Em3, GET_PUT_other by (unfold HDRP, WSIZE; lia). exact G3. }
           assert (Q2 : GET (mem s3) (HDRP (bp + csize)) = hdr szn true true).
           { rewrite Em3, GET_PUT_same. exact Hw. }
           cbn [seg]. repeat split; auto; congruence.
        -- intros y Hy _. rewrite Em3. unfold HDRP, WSIZE.
           change (total [b; nxt]) with (csize + (szn + 0)) in Hy.
           assert (Hy' : y < bp - 4 \/ bp + csize <= y).
           { destruct Hy as [Hy|[Htl Hy]]; [lia|].
             apply wf_blocks_cons in W2 as [[W2 _] _]; auto.
             change (bsize nxt) with szn in W2. lia. }
           rewrite !PUT_outside by lia. reflexivity.
      * change (pre ++ (csize, true, true) :: (szn, true, true) :: tl)
          with (pre ++ (csize, true, true) :: set_pa true (nxt :: tl)).
        apply wf_blocks_app; [congruence|]. split; auto.
        apply wf_blocks_cons; [simpl; congruence|]. split; [exact Wb|].
        now apply wf_blocks_set_pa.
    + apply (lists_put_hdr s2 (hp + 8) L fla [bp] (bp + csize) nxt); auto.
      apply (lists_put_hdr sa (hp + 8) L fla [bp] bp b); auto.
    + exact Sa.
    + change (heap_listp s3) with (heap_listp sa). rewrite Ehpa.
      pose proof (index_replace (hp + 8) pre b [(csize, true, true)] (nxt :: tl) fla [])
        as M. fold bp in M.
      assert (Hi : indexes (hp + 8) (pre ++ [(csize, true, true)] ++ nxt :: tl) fla []).
      { apply M; [exact W0|exact Wb|now apply wf_blocks_sz8
                  |simpl; unfold bsize; simpl; lia|exact Ia| |].
        - intros x c (sz' & pa' & [E|[]] & _). inversion E.
        - intros x []. }
      intros k x.
      change (pre ++ (csize, true, true) :: (szn, true, true) :: tl)
        with (pre ++ (csize, true, true) :: set_pa true (nxt :: tl)).
      replace (pre ++ (csize, true, true) :: set_pa true (nxt :: tl))
        with ((pre ++ [(csize, true, true)]) ++ set_pa true (nxt :: tl))
        by (rewrite <- app_assoc; reflexivity).
      rewrite free_at_set_pa, <- app_assoc. apply Hi.
    + unfold L in Hpa. apply pa_ok_app in Hpa as [Hp0 [Hp1 [_ Hp2]]].
      apply pa_ok_app. split; auto. simpl. auto.
    + unfold L in Hadj. apply naf_app in Hadj as [Ha0 [_ [_ Ha2]]].
      apply naf_app. split; auto. simpl. repeat split; auto; congruence.
  - intros y Hy. rewrite Em3.
    pose proof (protected_not_header _ _ _ _ _ A7 Hy Hb).
    pose proof (protected_not_header _ _ _ _ _ A7 Hy Hbn).
    unfold HDRP, WSIZE. rewrite !PUT_outside by lia. apply Fa. exact Hy.
Qed.

(** The block is cut: the front is handed out, the remainder stays free. *)
Lemma place_split :
  16 <= csize - asize ->
  let s' := place s bp asize in
  heap_inv s' (pre ++ (asize, true, true) :: (csize - asize, false, true) :: nxt :: tl)
           (enlist fla (bp + asize) (csize - asize)) /\
  heap_listp s' = hp /\ mem_brk s' = mem_brk s /\ mem_max_addr s' = mem_max_addr s /\
  (forall y, protected (hp + 8) L y -> mem s' y = mem s y).
Proof.
  intros Hbig s'.
  destruct place_facts as (A & Hb & Hbn & W0 & Wb & W2 & T0 & N0 & N8 & T3 & Htot & Ebrk & R2).
  destruct place_removed as (Aa & La & Sa & Ia & Ehpa & Ebrka & Emaxa & Fa & G1 & G2 & Hside).
  destruct HI as [_ _ _ _ Hpa Hadj].
  pose proof A as [A1 A2 A3 A4 A5 A6 A7]. fold hp in A1, A2, A4, A6.
  assert (P64 : 2 ^ 32 < 2 ^ 64) by reflexivity.
  set (rem := csize - asize) in *.
  assert (R8 : rem mod 8 = 0).
  { unfold rem. rewrite Zminus_mod, Ha8. destruct Wb as [_ ->]. reflexivity. }
  set (bq := bp + asize).
  set (s2 := put sa (HDRP bp) (PACK asize (b2z true + 2 * b2z true))).
  assert (G3 : GET (mem s2) (HDRP bp) = hdr asize true true).
  { apply PUT_hdr; [tauto|lia]. }
  assert (Ehp2 : heap_listp s2 = hp) by exact Ehpa.
  (* the insertion of the remainder *)
  assert (Hhp : 0 <= heap_listp s2 < 2 ^ 64) by (rewrite Ehp2; lia).
  assert (Hl2 : lists_ok s2 fla).
  { apply (lists_put_hdr sa (hp + 8) L fla [bp] bp b); auto. }
  assert (Hok2 : nodes_ok (heap_listp s2) fla).
  { rewrite Ehp2, <- Ehpa. apply (nodes_ok_arena sa L fla [bp]); auto.
    rewrite Ehpa. exact Ia. }
  assert (Hbq : node_ok (heap_listp s2) bq).
  { rewrite Ehp2. unfold node_ok, bq, bp. lia. }
  assert (Hapq : forall i n, In n (fla i) -> apart bq n).
  { intros i n Hn. destruct (Hside i n Hn); unfold apart, bq; lia. }
  destruct (insert_list_spec s2 fla bq rem Hhp Hl2 Hok2 Sa Hbq Hapq)
    as (Hl3 & Ehp3 & Ebrk3 & Emax3 & F3).
  set (s3 := insert_list s2 bq rem) in *.
  set (s4 := put s3 (HDRP bq) (PACK rem (b2z false + 2 * b2z true))).
  set (s5 := put s4 (bq + rem - 8) (PACK rem 0)).
  assert (G4 : GET (mem s4) (HDRP bq) = hdr rem false true).
  { apply PUT_hdr; [auto|lia]. }
  assert (Es' : s' = s5).
  { unfold s', place. rewrite R2. fold sa. cbn zeta.
    rewrite (wrap64_small (csize - asize)) by lia. fold rem.
    destruct (Z.geb_spec rem (2 * DSIZE)) as [_|H]; [|unfold DSIZE in H; lia].
    rewrite (GET_PREV_ALLOC_hdr _ _ _ _ _ G1) by tauto.
    change (wrap32 (1 + 2 * b2z true)) with (b2z true + 2 * b2z true). fold s2.
    assert (En : NEXT_BLKP (mem s2) bp = bq).
    { unfold NEXT_BLKP. fold (HDRP bp). rewrite (GET_SIZE_hdr _ _ _ _ _ G3); auto. }
    rewrite En. fold s3.
    change (PACK rem 2) with (PACK rem (b2z false + 2 * b2z true)). fold s4.
    assert (Ef : FTRP (mem s4) bq = bq + rem - 8).
    { unfold FTRP, DSIZE. rewrite (GET_SIZE_hdr _ _ _ _ _ G4); auto. }
    rewrite Ef. reflexivity. }
  rewrite Es'.
  assert (Em5 : mem s5 = PUT (PUT (mem s3) (HDRP bq) (PACK rem (b2z false + 2 * b2z true)))
                             (bq + rem - 8) (PACK rem 0)) by reflexivity.
  assert (Em2 : mem s2 = PUT (mem sa) (HDRP bp) (PACK asize (b2z true + 2 * b2z true)))
    by reflexivity.
  assert (Hw : wrap32 (PACK rem 0) = rem).
  { rewrite (PACK_hdr rem 0) by (auto; lia). rewrite Z.add_0_r.
    apply wrap32_small. lia. }
  (* bytes away from the block and from the link fields of listed nodes *)
  assert (F5 : forall y, y < bp - 4 \/ bp + csize - 4 <= y ->
                (forall n, In n (fla (class rem)) -> y < n \/ n + 4 <= y) ->
                mem s5 y = mem sa y).
  { intros y Hy Hn. rewrite Em5. unfold HDRP, WSIZE, bq, rem in *.
    rewrite !PUT_outside by lia.
    rewrite F3 by (auto; unfold bq; lia). rewrite Em2.
    unfold HDRP, WSIZE. rewrite PUT_outside by lia. reflexivity. }
  assert (Hreal : forall n, In n (fla (class rem)) ->
            exists sn pn, In (n, (sn, false, pn)) (layout (hp + 8) L) /\ 16 <= sn).
  { intros n Hn.
    destruct (nodes_in_layout _ _ _ _ _ _ Ia Hn) as (sn & pn & Hn' & _ & _).
    destruct (wf_blocks_In _ _ _ _ A7 Hn') as [_ Sn]. specialize (Sn eq_refl).
    unfold size_ok, bsize in Sn; simpl in Sn. exists sn, pn. split; [auto|lia]. }
  assert (Q1 : GET (mem s5) (HDRP bp) = hdr asize true true).
  { rewrite <- G3. apply GET_agree. intros y Hy. unfold HDRP, WSIZE in Hy.
    rewrite Em5. unfold HDRP, WSIZE, bq, rem in *.
    rewrite !PUT_outside by lia. apply F3; [unfold bq; lia|].
    intros n Hn. destruct (Hside _ _ Hn); lia. }
  assert (Q2 : GET (mem s5) (HDRP bq) = hdr rem false true).
  { rewrite Em5, GET_PUT_other by (unfold HDRP, WSIZE; lia). exact G4. }
  assert (Q3 : GET (mem s5) (bq + rem - 8) = rem).
  { rewrite Em5, GET_PUT_same. exact Hw. }
  set (L5 := pre ++ [(asize, true, true); (rem, false, true)] ++ nxt :: tl).
  assert (W5 : wf_blocks L5).
  { apply (wf_blocks_replace pre [b] _ (nxt :: tl)); [exact A7|congruence|].
    repeat constructor; unfold bsize; simpl; auto; lia. }
  assert (Hq : In (bq, (rem, false, true)) (layout (hp + 8) L5)).
  { unfold L5. rewrite layout_app, in_app_iff. right. simpl. right. left. reflexivity. }
  assert (E5hp : heap_listp s5 = hp).
  { change (heap_listp s5) with (heap_listp s3). rewrite Ehp3. exact Ehp2. }
  assert (E5brk : mem_brk s5 = mem_brk s).
  { change (mem_brk s5) with (mem_brk s3). rewrite Ebrk3. exact Ebrka. }
  assert (E5max : mem_max_addr s5 = mem_max_addr s).
  { change (mem_max_addr s5) with (mem_max_addr s3). rewrite Emax3. exact Emaxa. }
  split; [|split; [exact E5hp|split; [exact E5brk|split; [exact E5max|]]]].
  - constructor.
    + (* arena *)
      destruct Aa as [B1 B2 B3 B4 B5 B6 B7].
      constructor; rewrite ?E5hp, ?E5brk, ?E5max; try assumption.
      * rewrite Ebrk. unfold L5. rewrite !total_app. simpl. unfold bsize; simpl.
        unfold rem. lia.
      * pose proof (seg_replace (mem sa) (mem s5) (hp + 8) pre [b]
                      [(asize, true, true); (rem, false, true)] (nxt :: tl)) as M.
        cbn zeta in M. fold bp in M. rewrite Ehpa in B6.
        apply M; auto; clear M.
        -- simpl. unfold bsize; simpl. unfold rem. lia.
        -- cbn [seg]. fold bq. unfold DSIZE.
           repeat split; auto; congruence.
        -- intros y Hy Hlk. change (total [b]) with (csize + 0) in Hy.
           apply F5; [lia|]. intros n Hn.
           destruct (Hreal n Hn) as (sn & pn & Hn' & Sn).
           destruct (Hlk n (sn, false, pn)); auto. lia.
    + (* lists *)
      apply (lists_frame s3); auto.
      intros k n Hn y Hy. rewrite Em5. unfold HDRP, WSIZE.
      unfold enlist, upd in Hn.
      assert (Hn' : n = bq \/ In n (fla k)).
      { destruct (Nat.eqb_spec k (class rem)) as [->|];
          [destruct Hn as [<-|Hn]; auto|auto]. }
      destruct Hn' as [->|Hn'].
      * rewrite !PUT_outside by lia. reflexivity.
      * destruct (Hside _ _ Hn'); unfold bq, rem in *; rewrite !PUT_outside by lia;
          reflexivity.
    + apply nodes_sep_insert; auto.
    + rewrite E5hp.
      apply (indexes_enlist (hp + 8) L5 fla [bq] bq rem true W5 Hq).
      * intros y. simpl. intuition.
      * pose proof (index_replace (hp + 8) pre b
                      [(asize, true, true); (rem, false, true)] (nxt :: tl) fla [bq]) as M.
        fold bp in M. apply M; auto; clear M.
        -- now apply wf_blocks_sz8.
        -- simpl. unfold bsize; simpl. unfold rem. lia.
        -- intros x c (sz' & pa' & Hx & _). simpl in Hx.
           destruct Hx as [E|[E|[]]]; inversion E. left. reflexivity.
        -- intros x [<-|[]]. unfold bq, bsize; simpl. lia.
    + unfold L in Hpa. apply pa_ok_app in Hpa as [Hp0 [Hp1 [_ Hp2]]].
      apply pa_ok_app. split; auto. simpl. auto.
    + unfold L in Hadj. apply naf_app in Hadj as [Ha0 [_ [_ Ha2]]].
      apply naf_app. split; auto. simpl. repeat split; auto; congruence.
  - intros y Hy.
    pose proof (protected_not_free _ _ _ _ _ A7 Hy Hb eq_refl) as Hyb.
    change (bsize b) with csize in Hyb.
    rewrite F5; [apply Fa; exact Hy|lia|].
    intros n Hn. destruct (Hreal n Hn) as (sn & pn & Hn' & Sn).
    pose proof (protected_not_free _ _ _ _ _ A7 Hy Hn' eq_refl) as Hyn.
    unfold bsize in Hyn; simpl in Hyn. lia.
Qed.

End Place.

Theorem place_ok s pre csize pa rest fl asize :
  heap_inv s (pre ++ (csize, false, pa) :: rest) fl ->
  16 <= asize <= csize -> asize mod 8 = 0 ->
  let hp := heap_listp s in
  let bp := hp + 8 + total pre in
  let s' := place s bp asize in
  heap_inv s' (place_blocks pre csize asize rest) (place_lists hp pre csize asize fl) /\
  heap_listp s' = hp /\ mem_brk s' = mem_brk s /\ mem_max_addr s' = mem_max_addr s /\
  (forall y, protected (hp + 8) (pre ++ (csize, false, pa) :: rest) y ->
             mem s' y = mem s y).
Proof.
  intros HI Has Ha8 hp bp s'.
  destruct (heap_inv_free_block _ _ _ _ _ _ HI) as (-> & szn & tl & -> & _).
  unfold place_blocks, place_lists. fold bp.
  destruct (Z.geb_spec (csize - asize) 16) as [Hbig|Hsmall].
  - apply (place_split s pre csize asize szn tl fl HI Has Ha8 Hbig).
  - apply (place_nosplit s pre csize asize szn tl fl HI Has). lia.
Qed.

(** * [extend_heap] keeps the invariant *)

Lemma protected_epilogue bp0 pre e y :
  Forall sz8 pre ->
  protected bp0 (pre ++ [(0, true, e)]) y ->
  protected bp0 pre y /\ y < bp0 + total pre - 4.
Proof.
  intros W H. apply protected_app in H. destruct H as [H|H].
  - split; [exact H|]. now apply protected_upper.
  - destruct H as (b & k & [E|[]] & _ & Hy). inversion E; subst.
    unfold bsize in Hy; simpl in Hy. lia.
Qed.

(** The state in which [extend_heap] calls [coalesce]. *)
Lemma extend_pre_coal s pre e fl size :
  heap_inv s (pre ++ [(0, true, e)]) fl ->
  16 <= size -> size mod 8 = 0 -> mem_brk s + size <= mem_max_addr s ->
  let bp := mem_brk s in
  let s0 := set_brk s (bp + size) in
  let s1 := put s0 (HDRP bp) (hdr size false e) in
  let s2 := put s1 (bp + size - 8) size in
  let s3 := put s2 (bp + size - 4) 1 in
  pre_coal s3 pre (size, false, e) [(0, true, false)] fl /\
  (forall y, y < bp - 4 -> mem s3 y = mem s y).
Proof.
  intros [A Hl Hsep Hidx Hpa Hadj] Hsz H8 Hroom bp s0 s1 s2 s3.
  set (hp := heap_listp s) in *.
  pose proof A as [A1 A2 A3 A4 A5 A6 A7]. fold hp in A1, A2, A4, A6.
  assert (P64 : 2 ^ 32 < 2 ^ 64) by reflexivity.
  assert (Hw : wf_blocks [(0, true, e)]) by (simpl; auto).
  apply wf_blocks_app in A7 as [W0 _]; [|congruence].
  pose proof (Forall_size_ok_sz8 _ W0) as W0'.
  pose proof (total_nonneg _ W0') as T0.
  assert (Ebp : bp = hp + 8 + total pre).
  { unfold bp. rewrite A2, total_app. simpl. unfold bsize; simpl. lia. }
  assert (Em3 : mem s3 = PUT (PUT (PUT (mem s) (HDRP bp) (hdr size false e))
                                  (bp + size - 8) size) (bp + size - 4) 1)
    by reflexivity.
  assert (Hh : 0 <= hdr size false e < 2 ^ 32).
  { unfold hdr. destruct e; unfold b2z; lia. }
  assert (Fr : forall y, y < bp - 4 -> mem s3 y = mem s y).
  { intros y Hy. rewrite Em3. unfold HDRP, WSIZE. rewrite !PUT_outside by lia.
    reflexivity. }
  assert (Hfa : forall b k, free_at (hp + 8) (pre ++ [(0, true, e)]) b k ->
                  free_at (hp + 8) pre b k /\ b + 16 <= bp).
  { intros b k Hf. rewrite free_at_app in Hf. destruct Hf as [Hf|Hf].
    - split; [exact Hf|]. rewrite Ebp. apply (free_at_upper _ _ _ _ W0 Hf).
    - destruct Hf as (sz' & pa' & [E|[]] & _). inversion E. }
  apply seg_app in A6 as [S0 _].
  apply pa_ok_app in Hpa as [Hp0 [He _]]. unfold bprev in He; simpl in He.
  apply naf_app in Hadj as [Ha0 _].
  split; [|exact Fr].
  constructor.
  - (* arena *)
    constructor; try assumption.
    + change (mem_brk s3) with (bp + size). change (heap_listp s3) with hp.
      rewrite total_app. simpl. unfold bsize; simpl. lia.
    + change (heap_listp s3) with hp. apply seg_app. split.
      * apply (seg_frame (mem s)); [|exact S0].
        intros b k Hin.
        pose proof (layout_bounds _ _ _ _ W0' Hin) as [Hlo Hhi].
        pose proof (layout_In_Forall _ _ _ _ _ W0 Hin) as [Hk _].
        split; [|intros _]; intros y Hy; apply Fr; lia.
      * rewrite <- Ebp. cbn [seg]. unfold DSIZE.
        rewrite Em3. unfold HDRP, WSIZE.
        split; [|split; [intros _|split; [|split; [intros X; discriminate X|exact I]]]].
        -- rewrite !GET_PUT_other by lia. rewrite GET_PUT_same.
           apply wrap32_small. exact Hh.
        -- rewrite GET_PUT_other by lia. rewrite GET_PUT_same.
           apply wrap32_small. lia.
        -- replace (bp + size - 4) with (bp + size - 4) by lia.
           rewrite GET_PUT_same. reflexivity.
    + apply wf_blocks_app; [congruence|]. split; [exact W0|].
      simpl. unfold size_ok, bsize; simpl. auto.
  - reflexivity.
  - congruence.
  - (* lists *)
    apply (lists_frame s); auto.
    intros k n Hn y Hy. apply Hidx in Hn as [Hn _].
    destruct (Hfa _ _ Hn) as [_ Hb]. apply Fr. lia.
  - exact Hsep.
  - (* index *)
    change (heap_listp s3) with hp. rewrite <- Ebp.
    intros k b. rewrite (Hidx k b). rewrite free_at_app. split.
    + intros [Hf _]. destruct (Hfa _ _ Hf) as [Hf' Hb].
      split; [left; exact Hf'|]. simpl. lia.
    + intros [[Hf|Hf] Hn].
      * split; [|tauto]. apply free_at_app. left. exact Hf.
      * exfalso. destruct Hf as (sz' & pa' & [E|[E|[]]] & _); inversion E.
        apply Hn. left. lia.
  - apply pa_ok_app. split; [exact Hp0|]. simpl. auto.
  - exact I.
  - exact Ha0.
  - simpl. split; [congruence|exact I].
Qed.

Lemma extend_heap_fail s words :
  (let size := if nz (words mod 2) then wrap64 (wrap64 (words + 1) * WSIZE)
               else wrap64 (words * WSIZE) in
   mem_brk s + size > mem_max_addr s) ->
  extend_heap s words = (0, s).
Proof.
  cbn zeta. intros H. unfold extend_heap, mem_sbrk.
  destruct (Z.gtb_spec
    (mem_brk s + (if nz (words mod 2) then wrap64 (wrap64 (words + 1) * WSIZE)
                  else wrap64 (words * WSIZE))) (mem_max_addr s)) as [_|H'];
    [|lia].
  reflexivity.
Qed.

Lemma extend_heap_eq s pre e fl size :
  heap_inv s (pre ++ [(0, true, e)]) fl ->
  16 <= size -> size mod 8 = 0 -> mem_brk s + size <= mem_max_addr s ->
  let bp := mem_brk s in
  extend_heap s (size / 4) =
  coalesce (put (put (put (set_brk s (bp + size)) (HDRP bp) (hdr size false e))
                     (bp + size - 8) size) (bp + size - 4) 1) bp.
Proof.
  intros HI Hsz H8 Hroom bp.
  pose proof HI as [A _ _ _ _ _].
  pose proof A as [A1 A2 A3 A4 A5 A6 A7].
  assert (P64 : 2 ^ 32 < 2 ^ 64) by reflexivity.
  apply wf_blocks_app in A7 as [W0 _]; [|congruence].
  pose proof (total_nonneg _ (Forall_size_ok_sz8 _ W0)) as T0.
  assert (Ebp : bp = heap_listp s + 8 + total pre).
  { unfold bp. rewrite A2, total_app. simpl. unfold bsize; simpl. lia. }
  destruct (block_reads _ _ _ _ A) as (_ & _ & _ & R4 & _).
  rewrite <- Ebp in R4. change (bprev (0, true, e)) with e in R4.
  assert (Hh : 0 <= hdr size false e < 2 ^ 32).
  { unfold hdr. destruct e; unfold b2z; lia. }
  assert (E4 : size = 4 * (size / 4)).
  { apply Z.div_exact; [lia|]. rewrite (Z.div_mod size 8) by lia. rewrite H8.
    rewrite Z.add_0_r. replace (8 * (size / 8)) with (size / 8 * 2 * 4) by lia.
    apply Z.mod_mul. lia. }
  assert (E2 : (size / 4) mod 2 = 0).
  { rewrite (Z.div_mod size 8) by lia. rewrite H8, Z.add_0_r.
    replace (8 * (size / 8)) with (size / 8 * 2 * 4) by lia.
    rewrite Z.div_mul by lia. apply Z.mod_mul. lia. }
  unfold extend_heap. rewrite E2. cbn [nz Z.eqb negb].
  assert (Ew : wrap64 (size / 4 * WSIZE) = size).
  { unfold WSIZE. rewrite Z.mul_comm, <- E4. apply wrap64_small. lia. }
  rewrite Ew. unfold mem_sbrk. fold bp.
  destruct (Z.gtb_spec (bp + size) (mem_max_addr s)) as [H|_]; [unfold bp in H; lia|].
  destruct (Z.eqb_spec bp MINUS1) as [H|_]; [unfold MINUS1, bp in *; lia|].
  change (mem (set_brk s (bp + size))) with (mem s). rewrite R4.
  rewrite (PACK_hdr size (2 * b2z e)) by (destruct e; unfold b2z; auto; lia).
  assert (Eh : size + 2 * b2z e = hdr size false e) by (unfold hdr, b2z; lia).
  rewrite Eh.
  set (s1 := put (set_brk s (bp + size)) (HDRP bp) (hdr size false e)).
  assert (G1 : GET (mem s1) (HDRP bp) = hdr size false e).
  { change (mem s1) with (PUT (mem s) (HDRP bp) (hdr size false e)).
    rewrite GET_PUT_same. apply wrap32_small. exact Hh. }
  assert (Ef : FTRP (mem s1) bp = bp + size - 8).
  { unfold FTRP, DSIZE. rewrite (GET_SIZE_hdr _ _ _ _ _ G1); auto. }
  rewrite Ef. rewrite (PACK_hdr size 0) by (auto; lia). rewrite Z.add_0_r.
  set (s2 := put s1 (bp + size - 8) size).
  assert (G2 : GET (mem s2) (HDRP bp) = hdr size false e).
  { change (mem s2) with (PUT (mem s1) (bp + size - 8) size).
    unfold HDRP, WSIZE in *. rewrite GET_PUT_other by lia. exact G1. }
  assert (En : NEXT_BLKP (mem s2) bp = bp + size).
  { unfold NEXT_BLKP. fold (HDRP bp). rewrite (GET_SIZE_hdr _ _ _ _ _ G2); auto. }
  rewrite En. reflexivity.
Qed.

Theorem extend_heap_ok s pre e fl size :
  heap_inv s (pre ++ [(0, true, e)]) fl ->
  16 <= size -> size mod 8 = 0 -> mem_brk s + size <= mem_max_addr s ->
  let hp := heap_listp s in
  let b := (size, false, e) in
  let rest := [(0, true, false)] in
  let r := extend_heap s (size / 4) in
  fst r = hp + 8 + total (coal_pre pre b) /\
  heap_inv (snd r)
    (coal_pre pre b ++ (coal_size pre b rest, false, true) :: coal_rest rest)
    (coal_lists hp pre b rest fl) /\
  heap_listp (snd r) = hp /\ mem_brk (snd r) = mem_brk s + size /\
  mem_max_addr (snd r) = mem_max_addr s /\
  (forall y, protected (hp + 8) (pre ++ [(0, true, e)]) y ->
             mem (snd r) y = mem s y).
Proof.
  intros HI Hsz H8 Hroom hp b rest r.
  pose proof HI as [A _ _ _ _ _].
  pose proof A as [A1 A2 A3 A4 A5 A6 A7].
  apply wf_blocks_app in A7 as [W0 _]; [|congruence].
  pose proof (Forall_size_ok_sz8 _ W0) as W0'.
  assert (Ebp : mem_brk s = hp + 8 + total pre).
  { rewrite A2, total_app. simpl. unfold bsize; simpl. fold hp. lia. }
  destruct (extend_pre_coal s pre e fl size HI Hsz H8 Hroom) as [PC Fr].
  pose proof (coalesce_ok _ _ _ _ _ PC) as CP. unfold coalesce_post in CP.
  cbn zeta in CP.
  unfold r. rewrite (extend_heap_eq s pre e fl size HI Hsz H8 Hroom). cbn zeta.
  set (s3 := put (put (put (set_brk s (mem_brk s + size)) (HDRP (mem_brk s))
                           (hdr size false e)) (mem_brk s + size - 8) size)
                 (mem_brk s + size - 4) 1) in *.
  change (heap_listp s3) with hp in CP. change (mem_brk s3) with (mem_brk s + size) in CP.
  change (mem_max_addr s3) with (mem_max_addr s) in CP.
  rewrite <- Ebp in CP.
  destruct CP as (C1 & C2 & C3 & C4 & C5 & C6).
  split; [exact C1|]. split; [exact C2|]. split; [exact C3|]. split; [exact C4|].
  split; [exact C5|].
  intros y Hy. destruct (protected_epilogue _ _ _ _ W0' Hy) as [Hp Hlt].
  rewrite C6; [apply Fr; lia|]. apply protected_app. left. exact Hp.
Qed.

(** * [mm_init] establishes the invariant *)

Lemma GET_SIZE_nonneg m p : 0 <= GET_SIZE m p.
Proof.
  unfold GET_SIZE. apply Z.land_nonneg. left. apply GET_range.
Qed.

(** Below the block it is given, [coalesce_finish] writes nothing when the
    list it inserts into is empty. *)
Lemma coalesce_finish_low s bp size y :
  nth_root s (class size) = heap_listp s -> y < bp - 4 ->
  mem (snd (coalesce_finish s bp size)) y = mem s y.
Proof.
  intros Hr Hy. unfold coalesce_finish. cbn [snd].
  set (s1 := insert_list s bp size).
  change (mem (put s1 (HDRP (NEXT_BLKP (mem s1) bp))
                 (Z.land (GET (mem s1) (HDRP (NEXT_BLKP (mem s1) bp))) (Z.lnot 2))))
    with (PUT (mem s1) (HDRP (NEXT_BLKP (mem s1) bp))
            (Z.land (GET (mem s1) (HDRP (NEXT_BLKP (mem s1) bp))) (Z.lnot 2))).
  pose proof (GET_SIZE_nonneg (mem s1) (bp - WSIZE)) as Hn.
  rewrite PUT_outside by (unfold HDRP, NEXT_BLKP, WSIZE in *; lia).
  unfold s1. rewrite insert_list_eq, Hr.
  pose proof (class_lt size) as Hc.
  assert (E : forall t k r, mem (set_nth_root t k r) = mem t) by reflexivity.
  rewrite E. cbn [mem set_root set_mem].
  apply ins_mem_outside; [lia|left; reflexivity].
Qed.

Lemma mm_init_eq s :
  0 <= mem_brk s -> mem_brk s + 16 <= mem_max_addr s -> mem_max_addr s < 2 ^ 64 ->
  mm_init s =
  let r := extend_heap (init_state s) (4096 / 4) in
  if fst r =? 0 then ((-1), snd r) else (0, snd r).
Proof.
  intros H0 H1 H2. unfold mm_init, mem_sbrk, WSIZE.
  destruct (Z.gtb_spec (mem_brk s + 4 * 4) (mem_max_addr s)) as [H|_]; [lia|].
  cbn [heap_listp set_heap_listp].
  destruct (Z.eqb_spec (mem_brk s) MINUS1) as [H|_]; [unfold MINUS1 in H; lia|].
  cbn zeta.
  change (extend_heap _ (CHUNKSIZE / 4))
    with (extend_heap (init_state s) (4096 / 4)).
  destruct (extend_heap (init_state s) (4096 / 4)) as [r t]. reflexivity.
Qed.

Lemma init_state_inv s :
  0 < mem_brk s -> mem_brk s + 16 <= mem_max_addr s ->
  mem_max_addr s - mem_brk s < 2 ^ 32 -> mem_max_addr s < 2 ^ 64 ->
  heap_inv (init_state s) [(0, true, true)] (fun _ => []).
Proof.
  intros H0 H1 H2 H3.
  assert (Ehp : heap_listp (init_state s) = mem_brk s + 8) by reflexivity.
  constructor.
  - constructor; rewrite ?Ehp.
    + lia.
    + change (mem_brk (init_state s)) with (mem_brk s + 16). simpl.
      unfold bsize; simpl. lia.
    + exact H1.
    + change (mem_max_addr (init_state s)) with (mem_max_addr s). lia.
    + exact H3.
    + cbn [seg]. split; [|split; [intros X; discriminate X|exact I]].
      unfold HDRP, WSIZE.
      replace (mem_brk s + 8 + 8 - 4) with (mem_brk s + 12) by lia.
      change (mem (init_state s))
        with (PUT (PUT (PUT (PUT (mem s) (mem_brk s) 0) (mem_brk s + 4) 11)
                       (mem_brk s + 8) 11) (mem_brk s + 12) 3).
      rewrite GET_PUT_same. reflexivity.
    + simpl. auto.
  - intros k Hk. unfold flist. cbn [lseg]. rewrite Ehp.
    do 10 (destruct k as [|k]; [reflexivity|]). reflexivity.
  - split; [intros k; exact I|]. intros k1 k2 b1 b2 _ [].
  - intros k b. split; [intros []|].
    intros [(sz & pa & [E|[]] & _) _]. inversion E.
  - simpl. auto.
  - simpl. split; [congruence|exact I].
Qed.

Theorem mm_init_ok s :
  0 < mem_brk s -> mem_brk s + 16 + 4096 <= mem_max_addr s ->
  mem_max_addr s - mem_brk s < 2 ^ 32 -> mem_max_addr s < 2 ^ 64 ->
  let hp := mem_brk s + 8 in
  let r := mm_init s in
  fst r = 0 /\
  heap_inv (snd r) [(4096, false, true); (0, true, false)]
           (enlist (fun _ => []) (hp + 8) 4096) /\
  heap_listp (snd r) = hp /\ mem_brk (snd r) = mem_brk s + 16 + 4096 /\
  mem_max_addr (snd r) = mem_max_addr s /\
  GET (mem (snd r)) (hp - 4) = PACK 8 3 /\ GET (mem (snd r)) hp = PACK 8 3 /\
  (forall y, y < mem_brk s -> mem (snd r) y = mem s y).
Proof.
  intros H0 H1 H2 H3 hp r.
  assert (H16 : mem_brk s + 16 <= mem_max_addr s) by lia.
  assert (H4096 : 16 <= 4096) by lia.
  pose proof (init_state_inv s H0 H16 H2 H3) as HI.
  set (s0 := init_state s) in *.
  assert (Ehp : heap_listp s0 = hp) by reflexivity.
  assert (Ebrk : mem_brk s0 = mem_brk s + 16) by reflexivity.
  assert (Emax : mem_max_addr s0 = mem_max_addr s) by reflexivity.
  assert (Hroom : mem_brk s0 + 4096 <= mem_max_addr s0) by (rewrite Ebrk, Emax; lia).
  change [(0, true, true)] with ([] ++ [(0, true, true)]) in HI.
  pose proof (extend_heap_ok s0 [] true (fun _ => []) 4096 HI H4096 eq_refl Hroom)
    as X.
  cbn zeta in X. rewrite Ehp, Ebrk, Emax in X.
  destruct X as (X1 & X2 & X3 & X4 & X5 & _).
  (* the bytes below the first block *)
  assert (Low : forall y, y < hp + 4 ->
                  mem (snd (extend_heap s0 (4096 / 4))) y = mem s0 y).
  { intros y Hy.
    rewrite (extend_heap_eq s0 [] true (fun _ => []) 4096 HI H4096 eq_refl Hroom).
    cbn zeta. rewrite Ebrk.
    destruct (extend_pre_coal s0 [] true (fun _ => []) 4096 HI H4096 eq_refl Hroom)
      as [PC Fr].
    cbn zeta in PC, Fr. rewrite Ebrk in PC, Fr.
    set (s3 := put _ _ _) in *.
    pose proof PC as [A _ _ _ _ _ _ _ _ _].
    destruct (block_reads _ _ _ _ A) as (_ & R2 & _ & R4 & R5 & _).
    change (heap_listp s3) with hp in R2, R4, R5.
    cbn [total app bsize bprev fst snd] in R2, R4, R5.
    replace (hp + 8 + 0) with (mem_brk s + 16) in R2, R4, R5 by (unfold hp; lia).
    change ([] ++ (4096, false, true) :: [(0, true, false)])
      with ([(4096, false, true)] ++ (0, true, false) :: []) in A.
    destruct (block_reads _ _ _ _ A) as (_ & _ & R3 & _).
    change (heap_listp s3) with hp in R3.
    cbn [total app bsize balloc fst snd] in R3.
    replace (hp + 8 + (4096 + 0)) with (mem_brk s + 16 + 4096) in R3
      by (unfold hp; lia).
    rewrite coalesce_eq1.
    - rewrite R2. rewrite coalesce_finish_low.
      + apply Fr. unfold hp in Hy. lia.
      + reflexivity.
      + unfold hp in Hy. lia.
    - rewrite R4. reflexivity.
    - rewrite R5, R3. reflexivity. }
  unfold r. rewrite mm_init_eq by lia. cbn zeta. fold s0.
  assert (E0 : (fst (extend_heap s0 (4096 / 4)) =? 0) = false).
  { apply Z.eqb_neq. rewrite X1. simpl. unfold hp. lia. }
  rewrite E0. cbn [fst snd].
  unfold coal_pre, coal_size, coal_rest, coal_lists, succ_blk, pred_blk in X2.
  cbn [bprev balloc bsize hd fst snd set_pa app total] in X2.
  rewrite !Z.add_0_r in X2.
  split; [reflexivity|]. split; [exact X2|]. split; [exact X3|].
  split; [rewrite X4; lia|]. split; [exact X5|].
  assert (Em0 : mem s0 = PUT (PUT (PUT (PUT (mem s) (mem_brk s) 0) (mem_brk s + 4) 11)
                                  (mem_brk s + 8) 11) (mem_brk s + 12) 3)
    by reflexivity.
  split; [|split].
  - rewrite (GET_agree (mem s0)) by (intros; apply Low; lia).
    rewrite Em0. unfold hp. replace (mem_brk s + 8 - 4) with (mem_brk s + 4) by lia.
    rewrite !GET_PUT_other by lia. rewrite GET_PUT_same. reflexivity.
  - rewrite (GET_agree (mem s0)) by (intros; apply Low; lia).
    rewrite Em0. unfold hp.
    rewrite !GET_PUT_other by lia. rewrite GET_PUT_same. reflexivity.
  - intros y Hy. rewrite Low by (unfold hp; lia). rewrite Em0.
    rewrite !PUT_outside by lia. reflexivity.
Qed.

(** * Live allocations across the internal operations *)

Lemma layout_In_split bs : forall bp0 b k,
  In (b, k) (layout bp0 bs) ->
  exists pre rest, bs = pre ++ k :: rest /\ b = bp0 + total pre.
Proof.
  induction bs as [|x bs IH]; intros bp0 b k H; [destruct H|].
  simpl in H. destruct H as [E|H].
  - inversion E; subst. exists [], bs. simpl. split; [reflexivity|lia].
  - destruct (IH _ _ _ H) as (pre & rest & -> & ->).
    exists (x :: pre), rest. simpl. split; [reflexivity|lia].
Qed.

Lemma wf_blocks_last bs :
  wf_blocks bs -> exists pre e, bs = pre ++ [(0, true, e)].
Proof.
  induction bs as [|x bs IH]; intros H; [destruct H|].
  destruct bs as [|y bs].
  - destruct x as [[sz a] e]. simpl in H. unfold bsize, balloc in H; simpl in H.
    destruct H as [-> ->]. exists [], e. reflexivity.
  - destruct H as [_ H]. destruct (IH H) as (pre & e & E).
    exists (x :: pre), e. rewrite E. reflexivity.
Qed.

Lemma layout_same_addr bs bp0 b k1 k2 :
  Forall sz8 bs -> In (b, k1) (layout bp0 bs) -> In (b, k2) (layout bp0 bs) ->
  0 < bsize k1 -> 0 < bsize k2 -> k1 = k2.
Proof.
  intros W H1 H2 S1 S2.
  destruct (layout_disjoint _ _ _ _ _ _ W H1 H2) as [[_ E]|[H|H]]; [exact E|lia|lia].
Qed.

Lemma allocated_not_free bs bp0 b sz pa sz' :
  Forall sz8 bs -> In (b, (sz, false, pa)) (layout bp0 bs) -> 0 < sz ->
  ~ allocated bp0 bs b sz'.
Proof.
  intros W H S [S' (pa' & H')].
  pose proof (layout_same_addr _ _ _ _ _ W H H' S S') as E. inversion E.
Qed.

Lemma allocated_protected bp0 bs p sz y :
  allocated bp0 bs p sz -> p <= y < p + sz - 4 -> protected bp0 bs y.
Proof.
  intros [_ (pa & H)] Hy. exists p, (sz, true, pa). auto.
Qed.

Lemma allocated_app bp0 l1 l2 p sz :
  allocated bp0 (l1 ++ l2) p sz <->
  allocated bp0 l1 p sz \/ allocated (bp0 + total l1) l2 p sz.
Proof.
  unfold allocated. rewrite layout_app. split.
  - intros [S (pa & H)]. apply in_app_iff in H. destruct H; [left|right]; eauto.
  - intros [[S (pa & H)]|[S (pa & H)]]; (split; [exact S|]); exists pa;
      apply in_app_iff; auto.
Qed.

Lemma allocated_set_pa v bp0 bs p sz :
  allocated bp0 (set_pa v bs) p sz <-> allocated bp0 bs p sz.
Proof.
  unfold allocated. split; intros [S (pa & H)]; (split; [exact S|]).
  - apply layout_set_pa in H. exact H.
  - apply (layout_unset_pa v) in H. exact H.
Qed.

(** Replacing the blocks [mid] in the middle of the arena keeps every
    allocation outside of them. *)
Lemma allocated_replace bp0 pre mid mid' post post' v p sz :
  post' = post \/ post' = set_pa v post ->
  total mid' = total mid \/ post = [] ->
  allocated bp0 (pre ++ mid ++ post) p sz ->
  allocated (bp0 + total pre) mid p sz \/
  allocated bp0 (pre ++ mid' ++ post') p sz.
Proof.
  intros Hp Ht H. rewrite !allocated_app in H. rewrite !allocated_app.
  destruct H as [H|[H|H]]; [right; left; exact H|left; exact H|].
  right. right. right.
  destruct Ht as [Ht| ->].
  - rewrite Ht. destruct Hp as [->| ->]; [exact H|]. now apply allocated_set_pa.
  - destruct H as [_ (pa & [])].
Qed.

Lemma adjusted_ok size :
  0 < size < 2 ^ 64 - 11 ->
  16 <= adjusted size /\ adjusted size mod 8 = 0 /\
  size + 4 <= adjusted size <= size + 15 /\ adjusted size < 2 ^ 64.
Proof.
  intros H. unfold adjusted, WSIZE, DSIZE.
  destruct (Z.leb_spec size 4); [split; [lia|split; [reflexivity|lia]]|].
  rewrite (wrap64_small (size + 4)) by lia.
  rewrite (wrap64_small (size + 4 + (8 - 1))) by lia.
  pose proof (Z.div_mod (size + 4 + (8 - 1)) 8) as E.
  pose proof (Z.mod_pos_bound (size + 4 + (8 - 1)) 8).
  rewrite wrap64_small by lia.
  split; [lia|]. split; [|lia].
  rewrite Z.mul_comm. apply Z.mod_mul. lia.
Qed.

Lemma extend_size_ok size :
  0 <= size < 2 ^ 64 -> size mod 8 = 0 -> extend_size (size / WSIZE) = size.
Proof.
  intros H H8. unfold extend_size, WSIZE.
  assert (E : size = 8 * (size / 8)).
  { pose proof (Z.div_mod size 8). lia. }
  assert (E4 : size / 4 = 2 * (size / 8)).
  { set (q := size / 8) in *. rewrite E.
    replace (8 * q) with (2 * q * 4) by lia. apply Z.div_mul. lia. }
  rewrite E4. replace (2 * (size / 8)) with (size / 8 * 2) by lia.
  rewrite Z.mod_mul by lia. cbn [nz Z.eqb negb].
  replace (size / 8 * 2 * 4) with size by lia.
  apply wrap64_small. lia.
Qed.

Lemma malloc_eq fuel s size :
  heap_listp s <> 0 -> size <> 0 ->
  malloc fuel s size =
  match find_fit fuel s (adjusted size) with
  | None => None
  | Some bp =>
      if negb (bp =? 0) then Some (bp, place s bp (adjusted size))
      else
        let r := extend_heap s (MAX (adjusted size) CHUNKSIZE / WSIZE) in
        if fst r =? 0 then Some (0, snd r)
        else Some (fst r, place (snd r) (fst r) (adjusted size))
  end.
Proof.
  intros H1 H2. unfold malloc.
  destruct (Z.eqb_spec (heap_listp s) 0); [contradiction|].
  destruct (Z.eqb_spec size 0); [contradiction|].
  fold (adjusted size).
  destruct (find_fit fuel s (adjusted size)) as [bp|]; [|reflexivity].
  destruct (negb (bp =? 0)); [reflexivity|].
  destruct (extend_heap s (MAX (adjusted size) CHUNKSIZE / WSIZE)) as [r t].
  reflexivity.
Qed.

Lemma protected_allocated bp0 bs y :
  protected bp0 bs y <->
  exists p sz, allocated bp0 bs p sz /\ p <= y < p + sz - 4.
Proof.
  split.
  - intros (b & [[sz a] pa] & H & Ha & Hy). unfold balloc in Ha; simpl in Ha.
    subst a. unfold bsize in Hy; simpl in Hy.
    exists b, sz. split; [|exact Hy]. split; [lia|]. exists pa. exact H.
  - intros (p & sz & H & Hy). now apply (allocated_protected _ _ p sz).
Qed.

Lemma heap_inv_sz8 s bs fl : heap_inv s bs fl -> Forall sz8 bs.
Proof.
  intros [[_ _ _ _ _ _ W] _ _ _ _ _]. now apply wf_blocks_sz8.
Qed.

(** * [place] hands out the block it is given *)

Lemma place_alloc s pre csize pa rest fl asize :
  heap_inv s (pre ++ (csize, false, pa) :: rest) fl ->
  16 <= asize <= csize -> asize mod 8 = 0 ->
  let hp := heap_listp s in
  let bs := pre ++ (csize, false, pa) :: rest in
  let bp := hp + 8 + total pre in
  let s' := place s bp asize in
  exists bs' fl' szq,
    heap_inv s' bs' fl' /\ allocated (hp + 8) bs' bp szq /\ asize <= szq /\
    (forall p sz, allocated (hp + 8) bs p sz -> allocated (hp + 8) bs' p sz) /\
    (forall sz, ~ allocated (hp + 8) bs bp sz) /\
    heap_listp s' = hp /\ mem_brk s' = mem_brk s /\
    mem_max_addr s' = mem_max_addr s /\
    (forall y, protected (hp + 8) bs y -> mem s' y = mem s y).
Proof.
  intros HI Has Ha8 hp bs bp s'.
  destruct (place_ok s pre csize pa rest fl asize HI Has Ha8)
    as (P1 & P2 & P3 & P4 & P5).
  fold hp bp s' in P1, P2, P3, P4, P5.
  pose proof (heap_inv_sz8 _ _ _ HI) as W.
  assert (Hin : In (bp, (csize, false, pa)) (layout (hp + 8) bs)).
  { unfold bs. apply layout_In_app. right. left. auto. }
  assert (Hfresh : forall sz, ~ allocated (hp + 8) bs bp sz).
  { intros sz. apply (allocated_not_free _ _ _ _ _ _ W Hin). lia. }
  exists (place_blocks pre csize asize rest), (place_lists hp pre csize asize fl).
  unfold place_blocks in *.
  destruct (Z.geb_spec (csize - asize) 16) as [Hbig|Hsmall].
  - exists asize. split; [exact P1|]. split; [|split; [lia|split]].
    + split; [lia|]. exists true. apply layout_In_app. right. left. auto.
    + intros p sz H.
      destruct (allocated_replace (hp + 8) pre [(csize, false, pa)]
                  [(asize, true, true); (csize - asize, false, true)] rest rest true
                  p sz) as [X|X]; auto.
      * left. simpl. unfold bsize; simpl. lia.
      * destruct X as [_ (pa' & [E|[]])]. inversion E.
    + auto.
  - exists csize. split; [exact P1|]. split; [|split; [lia|split]].
    + split; [lia|]. exists true. apply layout_In_app. right. left. auto.
    + intros p sz H.
      destruct (allocated_replace (hp + 8) pre [(csize, false, pa)]
                  [(csize, true, true)] rest (set_pa true rest) true
                  p sz) as [X|X]; auto.
      destruct X as [_ (pa' & [E|[]])]. inversion E.
    + auto.
Qed.

(** * [extend_heap] yields a free block of at least the size asked for *)

Lemma last_alloc_false pre :
  last_alloc true pre = false ->
  exists pre0 k, pre = pre0 ++ [k] /\ balloc k = false.
Proof.
  intros H. destruct (@exists_last _ pre) as (pre0 & k & ->).
  - intros ->. discriminate H.
  - rewrite last_alloc_snoc in H. eauto.
Qed.

Lemma extend_alloc s bs fl size :
  heap_inv s bs fl ->
  16 <= size -> size mod 8 = 0 -> mem_brk s + size <= mem_max_addr s ->
  let hp := heap_listp s in
  let r := extend_heap s (size / 4) in
  exists pre1 csize rest1 fl1,
    heap_inv (snd r) (pre1 ++ (csize, false, true) :: rest1) fl1 /\
    fst r = hp + 8 + total pre1 /\ size <= csize /\
    (forall p sz, allocated (hp + 8) bs p sz ->
                  allocated (hp + 8) (pre1 ++ (csize, false, true) :: rest1) p sz) /\
    heap_listp (snd r) = hp /\
    mem_max_addr (snd r) = mem_max_addr s /\
    (forall y, protected (hp + 8) bs y -> mem (snd r) y = mem s y).
Proof.
  intros HI Hsz H8 Hroom hp r.
  pose proof HI as [A _ _ _ Hpa _]. pose proof A as [_ _ _ _ _ _ W].
  destruct (wf_blocks_last _ W) as (pre & e & ->).
  destruct (extend_heap_ok s pre e fl size HI Hsz H8 Hroom)
    as (X1 & X2 & X3 & X4 & X5 & X6).
  fold hp r in X1, X2, X3, X4, X5, X6.
  apply wf_blocks_app in W as [W0 _]; [|congruence].
  apply pa_ok_app in Hpa as [_ [He _]]. unfold bprev in He; simpl in He.
  set (b := (size, false, e)) in *. set (rest := [(0, true, false)]) in *.
  exists (coal_pre pre b), (coal_size pre b rest), (coal_rest rest),
         (coal_lists hp pre b rest fl).
  split; [exact X2|]. split; [exact X1|].
  unfold coal_pre, coal_size, coal_rest, rest, succ_blk.
  cbn [hd balloc bprev bsize fst snd b set_pa].
  destruct e.
  - split; [lia|]. split; [|split; [exact X3|split; [exact X5|exact X6]]].
    intros p sz H. apply allocated_app in H. apply allocated_app.
    destruct H as [H|H]; [left; exact H|].
    destruct H as [S (pa' & [E|[]])]. inversion E. lia.
  - symmetry in He. destruct (last_alloc_false _ He) as (pre0 & k & -> & Hk).
    rewrite removelast_last. unfold pred_blk. rewrite last_last.
    apply Forall_app in W0 as [_ Wk]. inversion Wk as [|? ? [Hk16 _] _]; subst.
    split; [lia|]. split; [|split; [exact X3|split; [exact X5|exact X6]]].
    intros p sz H. rewrite <- app_assoc in H. apply allocated_app in H.
    apply allocated_app.
    destruct H as [H|H]; [left; exact H|].
    destruct H as [S (pa' & [E|[E|[]]])]; inversion E; subst.
    + unfold balloc in Hk; simpl in Hk. discriminate Hk.
    + lia.
Qed.

(** * [malloc] keeps the invariant *)

Lemma MAX_ok a : 16 <= a -> a mod 8 = 0 ->
  16 <= MAX a CHUNKSIZE /\ MAX a CHUNKSIZE mod 8 = 0 /\ a <= MAX a CHUNKSIZE.
Proof.
  intros H H8. unfold MAX. change CHUNKSIZE with 4096.
  destruct (Z.gtb_spec a 4096); [lia|]. split; [lia|]. split; [reflexivity|lia].
Qed.

Theorem malloc_ok fuel s bs fl size :
  heap_inv s bs fl -> fuel_ok fuel fl -> 0 < size < 2 ^ 64 - 11 ->
  let hp := heap_listp s in
  exists q s', malloc fuel s size = Some (q, s') /\
    ((q = 0 /\ s' = s /\
      mem_max_addr s < mem_brk s + MAX (adjusted size) CHUNKSIZE) \/
     (q <> 0 /\ exists bs' fl' szq,
        heap_inv s' bs' fl' /\ allocated (hp + 8) bs' q szq /\ size + 4 <= szq /\
        (forall p sz, allocated (hp + 8) bs p sz -> allocated (hp + 8) bs' p sz) /\
        (forall sz, ~ allocated (hp + 8) bs q sz) /\
        heap_listp s' = hp /\ mem_max_addr s' = mem_max_addr s /\
        (forall y, protected (hp + 8) bs y -> mem s' y = mem s y))).
Proof.
  intros HI Hfuel Hsize hp.
  pose proof HI as [A _ _ Hidx _ _]. pose proof A as [A1 A2 A3 A4 A5 A6 A7].
  fold hp in A1, A2, A4, A6, Hidx.
  destruct (adjusted_ok size Hsize) as (Ha16 & Ha8 & Hasz & Ha64).
  set (asize := adjusted size) in *.
  assert (Hhp0 : heap_listp s <> 0) by (fold hp; lia).
  assert (Hs0 : size <> 0) by lia.
  rewrite (malloc_eq fuel s size Hhp0 Hs0). fold asize.
  rewrite (find_fit_spec s bs fl asize fuel HI Hfuel).
  unfold spec_find_fit.
  destruct (first_fit_cases (mem s) asize (lists_from (class asize) fl))
    as [[E0 _]|[Hin Hfit]].
  - (* no fit: grow the arena *)
    rewrite E0. cbn [Z.eqb negb]. cbn zeta.
    destruct (MAX_ok asize Ha16 Ha8) as (He16 & He8 & Hea).
    set (ext := MAX asize CHUNKSIZE) in *.
    destruct (Z_le_gt_dec (mem_brk s + ext) (mem_max_addr s)) as [Hroom|Hfull].
    + change (ext / WSIZE) with (ext / 4).
      destruct (extend_alloc s bs fl ext HI He16 He8 Hroom)
        as (pre1 & csize & rest1 & fl1 & Y1 & Y2 & Y3 & Y4 & Y5 & Y6 & Y7).
      fold hp in Y2, Y4, Y5, Y7.
      set (r := extend_heap s (ext / 4)) in *.
      pose proof (total_nonneg _ (heap_inv_sz8 _ _ _ Y1)) as T1.
      rewrite total_app in T1.
      pose proof (heap_inv_sz8 _ _ _ Y1) as W1.
      apply Forall_app in W1 as [W1 _]. pose proof (total_nonneg _ W1) as T2.
      destruct (Z.eqb_spec (fst r) 0) as [H|Hq]; [lia|].
      assert (Has : 16 <= asize <= csize) by lia.
      destruct (place_alloc (snd r) pre1 csize true rest1 fl1 asize Y1 Has Ha8)
        as (bs' & fl' & szq & Z1 & Z2 & Z3 & Z4 & Z5 & Z6 & Z7 & Z8 & Z9).
      rewrite Y5 in Z1, Z2, Z4, Z5, Z6, Z7, Z8, Z9.
      rewrite <- Y2 in Z1, Z2, Z5, Z6, Z7, Z8, Z9.
      exists (fst r), (place (snd r) (fst r) asize). split; [reflexivity|].
      right. split; [exact Hq|]. exists bs', fl', szq.
      split; [exact Z1|]. split; [exact Z2|]. split; [lia|].
      split; [intros p sz H; apply Z4, Y4, H|].
      split; [intros sz H; apply (Z5 sz), Y4, H|].
      split; [exact Z6|]. split; [rewrite Z8; exact Y6|].
      intros y Hy. rewrite Z9; [apply Y7, Hy|].
      apply protected_allocated in Hy as (p & sz & Hp & Hr).
      apply protected_allocated. exists p, sz. split; [apply Y4, Hp|exact Hr].
    + rewrite extend_heap_fail.
      * cbn [fst snd Z.eqb]. exists 0, s. split; [reflexivity|].
        left. split; [reflexivity|]. split; [reflexivity|lia].
      * cbn zeta. fold (extend_size (ext / WSIZE)).
        rewrite extend_size_ok; [exact Hfull| |exact He8].
        unfold ext, MAX. change CHUNKSIZE with 4096.
        destruct (Z.gtb_spec asize 4096); lia.
  - (* a fit *)
    set (bp := first_fit (mem s) asize (lists_from (class asize) fl)) in *.
    destruct (In_lists_from _ _ _ Hin) as (i & _ & Hi).
    destruct (nodes_in_layout _ _ _ _ _ _ Hidx Hi) as (csize & pa & Hl & _ & _).
    pose proof (arena_size _ _ _ _ A Hl) as Hsz.
    change (bsize (csize, false, pa)) with csize in Hsz.
    unfold fits in Hfit. rewrite Hsz in Hfit. apply Z.leb_le in Hfit.
    destruct (node_ok_block _ _ _ _ A Hl) as [[Hn _] _]. fold hp in Hn.
    destruct (layout_In_split _ _ _ _ Hl) as (pre & rest & Ebs & Ebp).
    destruct (Z.eqb_spec bp 0) as [H|Hq]; [lia|]. cbn [negb].
    subst bs.
    assert (Has : 16 <= asize <= csize) by lia.
    destruct (place_alloc s pre csize pa rest fl asize HI Has Ha8)
      as (bs' & fl' & szq & Z1 & Z2 & Z3 & Z4 & Z5 & Z6 & Z7 & Z8 & Z9).
    fold hp in Z1, Z2, Z4, Z5, Z6, Z7, Z8, Z9.
    rewrite <- Ebp in Z1, Z2, Z5, Z6, Z7, Z8, Z9.
    exists bp, (place s bp asize). split; [reflexivity|].
    right. split; [exact Hq|]. exists bs', fl', szq.
    split; [exact Z1|]. split; [exact Z2|]. split; [lia|].
    split; [exact Z4|]. split; [exact Z5|]. split; [exact Z6|].
    split; [exact Z8|exact Z9].
Qed.

(** * Writes into payloads *)

(** The invariant reads no payload byte of an allocated block: the caller
    may overwrite them at will. *)
Lemma heap_inv_payload s m' bs fl :
  heap_inv s bs fl ->
  (forall y, ~ protected (heap_listp s + 8) bs y -> m' y = mem s y) ->
  heap_inv (set_mem s m') bs fl.
Proof.
  intros [A Hl Hsep Hidx Hpa Hadj] Hm.
  pose proof A as [A1 A2 A3 A4 A5 A6 A7].
  constructor; auto.
  - constructor; auto.
    change (mem (set_mem s m')) with m'. change (heap_listp (set_mem s m')) with (heap_listp s).
    apply (seg_frame (mem s)); [|exact A6].
    intros b k Hin.
    destruct (wf_blocks_In _ _ _ _ A7 Hin) as [[K0 _] Kf].
    split.
    + intros y Hy. apply Hm. intros Hp.
      pose proof (protected_not_header _ _ _ _ _ A7 Hp Hin). lia.
    + intros Hk y Hy. apply Hm. intros Hp.
      destruct (Kf Hk) as [K16 _].
      pose proof (protected_not_free _ _ _ _ _ A7 Hp Hin Hk). lia.
  - apply (lists_frame s); auto.
    intros k n Hn y Hy. apply Hm. intros Hp.
    destruct (nodes_in_layout _ _ _ _ _ _ Hidx Hn) as (sz & pa & Hin & _ & _).
    destruct (wf_blocks_In _ _ _ _ A7 Hin) as [_ Kf].
    destruct (Kf eq_refl) as [K16 _]. unfold bsize in K16; simpl in K16.
    pose proof (protected_not_free _ _ _ _ _ A7 Hp Hin eq_refl) as X.
    unfold bsize in X; simpl in X. lia.
Qed.

(** * Live allocations across [free] *)

Lemma coal_keeps bp0 pre sz pa rest q szq :
  (pa = false -> exists pre0 k, pre = pre0 ++ [k] /\ balloc k = false) ->
  allocated bp0 (pre ++ (sz, true, pa) :: rest) q szq -> q <> bp0 + total pre ->
  allocated bp0
    (coal_pre pre (sz, false, pa) ++
     (coal_size pre (sz, false, pa) rest, false, true) :: coal_rest rest) q szq.
Proof.
  intros Hpre H Hq.
  change ((sz, true, pa) :: rest) with ([(sz, true, pa)] ++ rest) in H.
  rewrite !allocated_app in H.
  change (?x :: coal_rest rest) with ([x] ++ coal_rest rest).
  rewrite !allocated_app.
  unfold coal_pre, coal_size, coal_rest.
  cbn [bprev bsize balloc fst snd total] in *.
  destruct H as [H|[H|H]].
  - (* before the freed block *)
    left. destruct pa; [exact H|].
    destruct (Hpre eq_refl) as (pre0 & k & -> & Hk).
    rewrite removelast_last. apply allocated_app in H as [H|H]; [exact H|].
    destruct H as [_ (pa' & [E|[]])]. inversion E; subst.
    unfold balloc in Hk; simpl in Hk. discriminate Hk.
  - destruct H as [_ (pa' & [E|[]])]. inversion E. lia.
  - (* after it *)
    right. right.
    assert (Et : total (if pa then pre else removelast pre) +
                 ((sz + (if pa then 0 else bsize (pred_blk pre)) + 0)) =
                 total pre + sz).
    { destruct pa; [lia|].
      destruct (Hpre eq_refl) as (pre0 & k & -> & Hk).
      rewrite removelast_last. unfold pred_blk. rewrite last_last.
      rewrite total_app. simpl. lia. }
    destruct rest as [|kn tl]; [destruct H as [_ (pa' & [])]|].
    unfold succ_blk. cbn [hd List.tl].
    destruct kn as [[szn an] pan]. cbn [balloc bsize fst snd].
    destruct an.
    + apply allocated_set_pa.
      replace (bp0 + total (if pa then pre else removelast pre) +
               (sz + (if pa then 0 else bsize (pred_blk pre)) + 0 + 0))
        with (bp0 + total pre + (sz + 0)) by lia.
      exact H.
    + apply allocated_set_pa.
      change ((szn, false, pan) :: tl) with ([(szn, false, pan)] ++ tl) in H.
      apply allocated_app in H as [H|H].
      * destruct H as [_ (pa' & [E|[]])]. inversion E.
      * cbn [total bsize fst snd] in H.
        replace (bp0 + total (if pa then pre else removelast pre) +
                 (sz + (if pa then 0 else bsize (pred_blk pre)) + szn + 0))
          with (bp0 + total pre + (sz + 0) + (szn + 0)) by lia.
        exact H.
Qed.

Lemma allocated_inner bp0 bs p sz :
  wf_blocks bs -> allocated bp0 bs p sz ->
  exists pre pa rest, bs = pre ++ (sz, true, pa) :: rest /\ rest <> [] /\
                      p = bp0 + total pre.
Proof.
  intros W [S (pa & H)].
  destruct (layout_In_split _ _ _ _ H) as (pre & rest & -> & ->).
  exists pre, pa, rest. split; [reflexivity|]. split; [|reflexivity].
  intros ->. destruct (wf_blocks_last _ W) as (pre' & e & E).
  apply app_inj_tail in E as [_ E]. inversion E. lia.
Qed.

Lemma heap_inv_pred_free s pre b rest fl :
  heap_inv s (pre ++ b :: rest) fl -> bprev b = false ->
  exists pre0 k, pre = pre0 ++ [k] /\ balloc k = false.
Proof.
  intros [_ _ _ _ Hpa _] Hb. apply pa_ok_app in Hpa as [_ [He _]].
  apply last_alloc_false. congruence.
Qed.

Theorem free_alloc s bs fl p sz :
  heap_inv s bs fl -> allocated (heap_listp s + 8) bs p sz ->
  let hp := heap_listp s in
  let s' := free s p in
  exists bs' fl',
    heap_inv s' bs' fl' /\
    (forall q szq, allocated (hp + 8) bs q szq -> q <> p ->
                   allocated (hp + 8) bs' q szq) /\
    (forall szq, ~ allocated (hp + 8) bs' p szq) /\
    heap_listp s' = hp /\ mem_brk s' = mem_brk s /\
    mem_max_addr s' = mem_max_addr s /\
    (forall y, protected (hp + 8) bs y -> ~ (p <= y < p + sz - 4) ->
               mem s' y = mem s y).
Proof.
  intros HI Hp hp s'.
  pose proof HI as [[_ _ _ _ _ _ W] _ _ _ _ _].
  pose proof (heap_inv_sz8 _ _ _ HI) as W8.
  pose proof Hp as [Hsz _].
  destruct (allocated_inner _ _ _ _ W Hp) as (pre & pa & rest & -> & Hrest & Ep).
  fold hp in Ep, Hp.
  destruct (free_ok s pre sz pa rest fl HI Hrest) as (F1 & F2 & F3 & F4 & F5).
  fold hp in F1, F2, F3, F4, F5. rewrite <- Ep in F1, F2, F3, F4, F5. fold s' in F1, F2, F3, F4, F5.
  set (b := (sz, false, pa)) in *.
  assert (Hpre : pa = false -> exists pre0 k, pre = pre0 ++ [k] /\ balloc k = false).
  { intros E. apply (heap_inv_pred_free s pre (sz, true, pa) rest fl HI). exact E. }
  assert (Hkeep : forall q szq,
            allocated (hp + 8) (pre ++ (sz, true, pa) :: rest) q szq -> q <> p ->
            allocated (hp + 8) (pre ++ b :: rest) q szq).
  { intros q szq H Hq.
    change ((sz, true, pa) :: rest) with ([(sz, true, pa)] ++ rest) in H.
    change (b :: rest) with ([b] ++ rest).
    rewrite !allocated_app in H. rewrite !allocated_app.
    destruct H as [H|[H|H]]; [left; exact H| |right; right; exact H].
    destruct H as [_ (pa' & [E|[]])]. inversion E. lia. }
  exists (coal_pre pre b ++ (coal_size pre b rest, false, true) :: coal_rest rest),
         (coal_lists hp pre b rest fl).
  split; [exact F1|]. split; [|split; [|split; [exact F2|split; [exact F3|split;
    [exact F4|]]]]].
  - intros q szq H Hq. apply coal_keeps; auto. lia.
  - (* the freed block lies inside the merged free block *)
    intros szq [Hq (pa' & Hin)].
    pose proof (heap_inv_sz8 _ _ _ F1) as W1.
    assert (Hm : In (hp + 8 + total (coal_pre pre b),
                     (coal_size pre b rest, false, true))
                    (layout (hp + 8)
                       (coal_pre pre b ++
                        (coal_size pre b rest, false, true) :: coal_rest rest))).
    { apply layout_In_app. right. left. auto. }
    apply Forall_app in W8 as [W8a W8b].
    inversion W8b as [|? ? _ W8c].
    assert (Hs : 0 <= (if balloc (succ_blk rest) then 0 else bsize (succ_blk rest))).
    { destruct rest as [|kn tl]; [congruence|].
      inversion W8c as [|? ? [K0 _] _].
      unfold succ_blk; simpl. destruct (balloc kn); lia. }
    assert (Hstart : hp + 8 + total (coal_pre pre b) <= p /\
                     p < hp + 8 + total (coal_pre pre b) + coal_size pre b rest).
    { unfold coal_pre, coal_size, b. cbn [bprev bsize fst snd].
      destruct pa; [lia|].
      destruct (Hpre eq_refl) as (pre0 & k & E & Hk). rewrite E in *.
      rewrite removelast_last. unfold pred_blk. rewrite last_last.
      rewrite total_app in Ep. simpl in Ep.
      apply Forall_app in W8a as [_ W8k]. inversion W8k as [|? ? [K0 _] _].
      lia. }
    destruct (layout_disjoint _ _ _ _ _ _ W1 Hin Hm) as [[_ E]|[Hd|Hd]].
    + inversion E.
    + unfold bsize in Hd; simpl in Hd. lia.
    + unfold bsize in Hd; simpl in Hd. lia.
  - intros y Hy Hn. apply F5.
    apply protected_allocated in Hy as (q & szq & Hq & Hr).
    apply protected_allocated. exists q, szq. split; [|exact Hr].
    apply Hkeep; [exact Hq|]. intros ->.
    destruct Hq as [Sq (pq & Hq)]. destruct Hp as [_ (pp & Hp)].
    pose proof (layout_same_addr _ _ _ _ _ W8 Hq Hp Sq Hsz) as E.
    inversion E. lia.
Qed.

(** * [realloc] *)

Lemma allocated_apart bp0 bs p szp q szq :
  Forall sz8 bs -> allocated bp0 bs p szp -> allocated bp0 bs q szq -> q <> p ->
  q + szq <= p \/ p + szp <= q.
Proof.
  intros W [Sp (pp & Hp)] [Sq (pq & Hq)] Hne.
  destruct (layout_disjoint _ _ _ _ _ _ W Hq Hp) as [[E _]|[H|H]];
    [contradiction|left; exact H|right; exact H].
Qed.

Lemma allocated_addr s bs p sz :
  arena s bs -> allocated (heap_listp s + 8) bs p sz ->
  0 < p /\ GET_SIZE (mem s) (HDRP p) = sz.
Proof.
  intros A [S (pa & H)]. split.
  - destruct (node_ok_block _ _ _ _ A H) as [[Hn _] _].
    pose proof A as [A1 _ _ _ _ _ _]. lia.
  - apply (arena_size _ _ _ _ A H).
Qed.

Theorem realloc_ok fuel s bs fl p szp n :
  heap_inv s bs fl -> fuel_ok fuel fl ->
  allocated (heap_listp s + 8) bs p szp -> 0 < n < 2 ^ 64 - 11 ->
  let hp := heap_listp s in
  exists q s1, malloc fuel s n = Some (q, s1) /\
    ((q = 0 /\ s1 = s /\ realloc fuel s p n = Some (0, s)) \/
     (q <> 0 /\ q <> p /\
      let s' := free (set_mem s1 (memcpy (mem s1) q p (Z.min n szp))) p in
      realloc fuel s p n = Some (q, s') /\
      (exists bs' fl' szq,
         heap_inv s' bs' fl' /\ heap_listp s' = hp /\
         allocated (hp + 8) bs' q szq /\ n + 4 <= szq /\
         (forall sz, ~ allocated (hp + 8) bs' p sz) /\
         (forall r szr, allocated (hp + 8) bs r szr -> r <> p ->
                        allocated (hp + 8) bs' r szr)) /\
      (forall i, 0 <= i < Z.min n (szp - 4) -> mem s' (q + i) = mem s (p + i)))).
Proof.
  intros HI Hfuel Hp Hn hp.
  pose proof HI as [A _ _ _ _ _].
  destruct (allocated_addr _ _ _ _ A Hp) as [Hp0 _].
  destruct (malloc_ok fuel s bs fl n HI Hfuel Hn) as (q & s1 & Em & Hcase).
  fold hp in Hcase, Hp.
  exists q, s1. split; [exact Em|].
  assert (Er : realloc fuel s p n =
               if q =? 0 then Some (0, s1)
               else Some (q, free (set_mem s1
                   (memcpy (mem s1) q p
                      (if n <? GET_SIZE (mem s1) (HDRP p) then n
                       else GET_SIZE (mem s1) (HDRP p)))) p)).
  { unfold realloc. destruct (Z.eqb_spec n 0); [lia|].
    destruct (Z.eqb_spec p 0); [lia|]. rewrite Em. reflexivity. }
  destruct Hcase as [(-> & -> & _)|(Hq & bs1 & fl1 & szq & M1 & M2 & M3 & M4 & M5 & M6 & M7 & M8)].
  - left. split; [reflexivity|]. split; [reflexivity|]. exact Er.
  - right. split; [exact Hq|].
    assert (Hqp : q <> p).
    { intros ->. exact (M5 szp Hp). }
    split; [exact Hqp|]. cbn zeta.
    pose proof M1 as [A1 _ _ _ _ _].
    pose proof (M4 _ _ Hp) as Hp1.
    rewrite <- M6 in Hp1, M2.
    destruct (allocated_addr _ _ _ _ A1 Hp1) as [_ Esz].
    rewrite M6 in Hp1, M2.
    assert (Ec : (if n <? szp then n else szp) = Z.min n szp).
    { destruct (Z.ltb_spec n szp); lia. }
    destruct (Z.eqb_spec q 0) as [|_]; [contradiction|].
    rewrite Esz, Ec in Er.
    set (c := Z.min n szp) in *.
    set (s2 := set_mem s1 (memcpy (mem s1) q p c)) in *.
    pose proof (heap_inv_sz8 _ _ _ M1) as W1.
    pose proof Hp as [Sp _].
    assert (HI2 : heap_inv s2 bs1 fl1).
    { apply heap_inv_payload; [exact M1|].
      intros y Hy. unfold memcpy.
      destruct (Z.leb_spec q y); [|reflexivity].
      destruct (Z.ltb_spec y (q + c)); [|reflexivity]. simpl.
      exfalso. apply Hy. rewrite M6.
      apply (allocated_protected _ _ q szq); [exact M2|]. unfold c in *. lia. }
    assert (Hp2 : allocated (heap_listp s2 + 8) bs1 p szp).
    { change (heap_listp s2) with (heap_listp s1). rewrite M6. exact Hp1. }
    destruct (free_alloc s2 bs1 fl1 p szp HI2 Hp2)
      as (bs3 & fl3 & F1 & F2 & F3 & F4 & F5 & F6 & F7).
    change (heap_listp s2) with (heap_listp s1) in F2, F3, F4, F7.
    rewrite M6 in F2, F3, F4, F7.
    split; [exact Er|]. split.
    + exists bs3, fl3, szq. split; [exact F1|]. split; [exact F4|].
      split; [apply F2; auto|].
      split; [exact M3|]. split; [exact F3|].
      intros r szr Hr Hne. apply F2; auto.
    + intros i Hi.
      destruct (allocated_apart _ _ _ _ _ _ W1 Hp1 M2 Hqp) as [Hd|Hd].
      * rewrite F7.
        -- change (mem s2) with (memcpy (mem s1) q p c). unfold memcpy.
           destruct (Z.leb_spec q (q + i)); [|lia].
           destruct (Z.ltb_spec (q + i) (q + c)); [|unfold c in *; lia]. simpl.
           replace (p + (q + i - q)) with (p + i) by lia.
           apply M8. apply (allocated_protected _ _ p szp); [exact Hp|lia].
        -- apply (allocated_protected _ _ q szq); [exact M2|lia].
        -- lia.
      * rewrite F7.
        -- change (mem s2) with (memcpy (mem s1) q p c). unfold memcpy.
           destruct (Z.leb_spec q (q + i)); [|lia].
           destruct (Z.ltb_spec (q + i) (q + c)); [|unfold c in *; lia]. simpl.
           replace (p + (q + i - q)) with (p + i) by lia.
           apply M8. apply (allocated_protected _ _ p szp); [exact Hp|lia].
        -- apply (allocated_protected _ _ q szq); [exact M2|lia].
        -- lia.
Qed.

(** * [calloc] *)

Theorem calloc_ok fuel s bs fl nmemb size :
  heap_inv s bs fl -> fuel_ok fuel fl ->
  let bytes := wrap64 (nmemb * size) in
  0 < bytes < 2 ^ 64 - 11 ->
  let hp := heap_listp s in
  exists q s', calloc fuel s nmemb size = Some (q, s') /\
    ((q = 0 /\ s' = set_mem s (memset (mem s) 0 0 bytes)) \/
     (q <> 0 /\
      (exists bs' fl' szq,
         heap_inv s' bs' fl' /\ heap_listp s' = hp /\
         allocated (hp + 8) bs' q szq /\ bytes + 4 <= szq /\
         (forall p sz, allocated (hp + 8) bs p sz -> allocated (hp + 8) bs' p sz)) /\
      (forall i, 0 <= i < bytes -> mem s' (q + i) = 0) /\
      (forall y, protected (hp + 8) bs y -> mem s' y = mem s y))).
Proof.
  intros HI Hfuel bytes Hb hp.
  destruct (malloc_ok fuel s bs fl bytes HI Hfuel Hb) as (q & s1 & Em & Hcase).
  fold hp in Hcase.
  exists q, (set_mem s1 (memset (mem s1) q 0 bytes)).
  split; [unfold calloc; fold bytes; rewrite Em; reflexivity|].
  destruct Hcase as [(-> & -> & _)|(Hq & bs1 & fl1 & szq & M1 & M2 & M3 & M4 & M5 & M6 & M7 & M8)].
  - left. split; reflexivity.
  - right. split; [exact Hq|]. split; [|split].
    + exists bs1, fl1, szq.
      split; [|split; [exact M6|split; [exact M2|split; [exact M3|exact M4]]]].
      apply heap_inv_payload; [exact M1|].
      intros y Hy. unfold memset.
      destruct (Z.leb_spec q y); [|reflexivity].
      destruct (Z.ltb_spec y (q + bytes)); [|reflexivity]. simpl.
      exfalso. apply Hy. rewrite M6.
      apply (allocated_protected _ _ q szq); [exact M2|lia].
    + intros i Hi. change (mem (set_mem s1 (memset (mem s1) q 0 bytes)))
        with (memset (mem s1) q 0 bytes). unfold memset.
      destruct (Z.leb_spec q (q + i)); [|lia].
      destruct (Z.ltb_spec (q + i) (q + bytes)); [|lia]. reflexivity.
    + intros y Hy. change (mem (set_mem s1 (memset (mem s1) q 0 bytes)))
        with (memset (mem s1) q 0 bytes). unfold memset.
      rewrite <- (M8 y Hy).
      destruct (Z.leb_spec q y); [|reflexivity].
      destruct (Z.ltb_spec y (q + bytes)); [|reflexivity]. simpl.
      exfalso.
      apply protected_allocated in Hy as (p & sz & Hp & Hr).
      pose proof (M4 _ _ Hp) as Hp1.
      assert (Hne : q <> p) by (intros ->; exact (M5 sz Hp)).
      pose proof (heap_inv_sz8 _ _ _ M1) as W1.
      destruct (allocated_apart _ _ _ _ _ _ W1 Hp1 M2 Hne); lia.
Qed.

(** * Consequences of the invariant for the lists *)

Lemma listed_once s bs fl x sz pa :
  heap_inv s bs fl -> In (x, (sz, false, pa)) (layout (heap_listp s + 8) bs) ->
  count_occ Z.eq_dec (fl (class sz)) x = 1%nat /\
  (forall k, k <> class sz -> ~ In x (fl k)).
Proof.
  intros [A _ [Hsep _] Hidx _ _] Hin. pose proof A as [_ _ _ _ _ _ W]. split.
  - apply NoDup_count_occ'; [apply sepl_NoDup, Hsep|].
    apply Hidx. split; [|intros []]. exists sz, pa. auto.
  - intros k Hk Hx. apply Hidx in Hx as [Hf _].
    apply (free_at_unique _ _ _ _ _ _ W Hin) in Hf. congruence.
Qed.

Lemma listed_is_block s bs fl x k :
  heap_inv s bs fl -> In x (fl k) ->
  exists sz pa, In (x, (sz, false, pa)) (layout (heap_listp s + 8) bs) /\ 16 <= sz.
Proof.
  intros [A _ _ Hidx _ _] Hx. pose proof A as [_ _ _ _ _ _ W].
  destruct (nodes_in_layout _ _ _ _ _ _ Hidx Hx) as (sz & pa & Hin & _ & _).
  destruct (wf_blocks_In _ _ _ _ W Hin) as [_ Kf].
  destruct (Kf eq_refl) as [K16 _]. exists sz, pa. split; [exact Hin|exact K16].
Qed.

Lemma allocated_unlisted s bs fl p sz k :
  heap_inv s bs fl -> allocated (heap_listp s + 8) bs p sz -> ~ In p (fl k).
Proof.
  intros HI Hp Hx.
  destruct (listed_is_block _ _ _ _ _ HI Hx) as (sz' & pa & Hin & H16).
  apply (allocated_not_free _ _ _ _ _ sz (heap_inv_sz8 _ _ _ HI) Hin); [lia|exact Hp].
Qed.

Lemma coal_start pre b rest s fl :
  pre_coal s pre b rest fl ->
  total (coal_pre pre b) =
  total pre - (if bprev b then 0 else bsize (pred_blk pre)) /\
  0 <= (if bprev b then 0 else bsize (pred_blk pre)) /\
  0 <= (if balloc (succ_blk rest) then 0 else bsize (succ_blk rest)) /\
  (balloc (succ_blk rest) = false -> 16 <= bsize (succ_blk rest)) /\
  16 <= bsize b.
Proof.
  intros PC.
  destruct (pre_coal_bits _ _ _ _ _ PC) as (_ & Hp0 & _ & Hn0 & Hn1).
  pose proof PC as [A _ Hrest _ _ _ _ _ _ _].
  destruct (arena_split _ _ _ _ A Hrest) as (W0 & [Wb _] & W2 & _).
  unfold coal_pre.
  assert (Hs : 0 <= (if balloc (succ_blk rest) then 0 else bsize (succ_blk rest)) /\
               (balloc (succ_blk rest) = false -> 16 <= bsize (succ_blk rest))).
  { destruct (balloc (succ_blk rest)) eqn:E; [split; [lia|congruence]|].
    destruct (Hn0 eq_refl) as (szn & pan & sz2 & pa2 & tl2 & -> & _).
    destruct W2 as [[W2 _] _]. unfold succ_blk; simpl in *. split; [lia|intros _; lia]. }
  destruct (bprev b) eqn:Eb.
  - split; [lia|]. split; [lia|]. split; [tauto|]. split; [tauto|exact Wb].
  - destruct (Hp0 eq_refl) as (pre0 & szp & -> & _).
    rewrite removelast_last. unfold pred_blk. rewrite last_last.
    rewrite total_app. apply Forall_app in W0 as [_ Wk].
    inversion Wk as [|? ? [K16 _] _]. simpl in *. unfold bsize in *; simpl in *.
    split; [lia|]. split; [lia|]. split; [tauto|]. split; [tauto|exact Wb].
Qed.

(** * More fuel changes no result *)

Lemma scan_list_mono s asize : forall fuel fuel' bp,
  (fuel <= fuel')%nat -> scan_list fuel s bp asize <> OutOfFuel ->
  scan_list fuel' s bp asize = scan_list fuel s bp asize.
Proof.
  induction fuel as [|fuel IH]; intros fuel' bp Hle H.
  - elim H. reflexivity.
  - destruct fuel' as [|fuel']; [lia|]. simpl in *.
    destruct (bp =? heap_listp s); [reflexivity|].
    destruct (asize <=? GET_SIZE (mem s) (HDRP bp)); [reflexivity|].
    apply IH; [lia|exact H].
Qed.

Lemma find_fit_loop_mono s asize fuel fuel' : forall n size r,
  (fuel <= fuel')%nat ->
  find_fit_loop n fuel s size asize = Some r ->
  find_fit_loop n fuel' s size asize = Some r.
Proof.
  induction n as [|n IH]; intros size r Hle H; [discriminate H|].
  simpl in *. destruct (size <=? 8192); [|exact H].
  destruct (scan_list fuel s (size2ptr s size) asize) eqn:E.
  - rewrite (scan_list_mono s asize fuel fuel' _ Hle) by (rewrite E; discriminate).
    rewrite E. exact H.
  - rewrite (scan_list_mono s asize fuel fuel' _ Hle) by (rewrite E; discriminate).
    rewrite E. apply IH; [exact Hle|exact H].
  - discriminate H.
Qed.

Lemma malloc_mono fuel fuel' s size r :
  (fuel <= fuel')%nat -> malloc fuel s size = Some r -> malloc fuel' s size = Some r.
Proof.
  intros Hle. unfold malloc.
  set (s0 := if heap_listp s =? 0 then snd (mm_init s) else s).
  destruct (size =? 0); [auto|].
  set (asize := if size <=? WSIZE then 2 * DSIZE else _).
  destruct (find_fit fuel s0 asize) as [bp|] eqn:E; [|discriminate].
  unfold find_fit in *.
  rewrite (find_fit_loop_mono s0 asize fuel fuel' _ _ _ Hle E). auto.
Qed.

Lemma realloc_mono fuel fuel' s p n r :
  (fuel <= fuel')%nat -> realloc fuel s p n = Some r -> realloc fuel' s p n = Some r.
Proof.
  intros Hle. unfold realloc.
  destruct (n =? 0); [auto|].
  destruct (p =? 0); [apply malloc_mono; exact Hle|].
  destruct (malloc fuel s n) as [[q t]|] eqn:E; [|discriminate].
  rewrite (malloc_mono fuel fuel' s n _ Hle E). auto.
Qed.

Lemma calloc_mono fuel fuel' s nmemb size r :
  (fuel <= fuel')%nat -> calloc fuel s nmemb size = Some r ->
  calloc fuel' s nmemb size = Some r.
Proof.
  intros Hle. unfold calloc.
  destruct (malloc fuel s (wrap64 (nmemb * size))) as [[q t]|] eqn:E; [|discriminate].
  rewrite (malloc_mono fuel fuel' s _ _ Hle E). auto.
Qed.

Lemma enough_fuel fuel (fl : nat -> list Z) :
  exists fuel', (fuel <= fuel')%nat /\ fuel_ok fuel' fl.
Proof.
  exists (fuel + S (list_sum (map (fun k => length (fl k)) (seq 0 10))))%nat.
  split; [lia|]. intros k Hk.
  assert (H : (length (fl k) <= list_sum (map (fun k => length (fl k)) (seq 0 10)))%nat).
  { assert (Hin : In k (seq 0 10)) by (apply in_seq; lia).
    generalize (seq 0 10) Hin. intros l. induction l as [|a l IH]; intros []; simpl.
    - subst. lia.
    - specialize (IH H). lia. }
  lia.
Qed.

(** * Free blocks have allocated successors *)




(** * Reachable states satisfy the invariant *)

Lemma malloc_zero_size_inv fuel s bs fl :
  heap_inv s bs fl -> malloc fuel s 0 = Some (0, s).
Proof.
  intros [[A1 _ _ _ _ _ _] _ _ _ _ _]. unfold malloc.
  destruct (Z.eqb_spec (heap_listp s) 0) as [E|_]; [lia|]. reflexivity.
Qed.

Lemma heap_inv_store s bs fl p sz y v :
  heap_inv s bs fl -> allocated (heap_listp s + 8) bs p sz ->
  p <= y < p + payload_size (mem s) p ->
  heap_inv (set_mem s (store8 (mem s) y v)) bs fl.
Proof.
  intros HI Ha Hy. pose proof HI as [A _ _ _ _ _].
  destruct (allocated_addr _ _ _ _ A Ha) as [_ Esz].
  unfold payload_size, WSIZE in Hy. rewrite Esz in Hy.
  apply heap_inv_payload; [exact HI|].
  intros x Hx. unfold store8.
  destruct (Z.eqb_spec x y) as [->|_]; [|reflexivity].
  elim Hx. apply (allocated_protected _ _ p sz); [exact Ha|lia].
Qed.

(** One call of [malloc], and one of [free], from a state that satisfies
    the invariant. *)
Lemma reachable_malloc_inv fuel s bs fl live size q s' :
  heap_inv s bs fl ->
  (forall p, In p live -> exists sz, allocated (heap_listp s + 8) bs p sz) ->
  0 <= size < 2 ^ 64 - 11 -> malloc fuel s size = Some (q, s') ->
  exists bs' fl', heap_inv s' bs' fl' /\
    forall p, In p (if q =? 0 then live else q :: live) ->
              exists sz, allocated (heap_listp s' + 8) bs' p sz.
Proof.
  intros HI HL Hsz Hm.
  destruct (Z.eq_dec size 0) as [->|Hne].
  - rewrite (malloc_zero_size_inv fuel s bs fl HI) in Hm.
    inversion Hm; subst q s'. cbn [Z.eqb].
    exists bs, fl. split; [exact HI|exact HL].
  - assert (Hsz' : 0 < size < 2 ^ 64 - 11) by lia.
    destruct (enough_fuel fuel fl) as (fuel' & Hle & Hfuel).
    apply (malloc_mono fuel fuel' _ _ _ Hle) in Hm.
    destruct (malloc_ok fuel' s bs fl size HI Hfuel Hsz') as (q' & s'' & Em & Hcase).
    rewrite Em in Hm. inversion Hm; subst q' s''. clear Hm.
    destruct Hcase as [(-> & -> & _)|(Hq & bs' & fl' & szq & M1 & M2 & _ & M4 & _ & M6 & _)].
    + exists bs, fl. split; [exact HI|exact HL].
    + destruct (Z.eqb_spec q 0) as [|_]; [contradiction|].
      exists bs', fl'. split; [exact M1|]. rewrite M6.
      intros p [<-|Hp]; [exists szq; exact M2|].
      destruct (HL p Hp) as (sz & Ha). exists sz. apply M4, Ha.
Qed.

Lemma reachable_free_inv s bs fl live p :
  heap_inv s bs fl ->
  (forall r, In r live -> exists sz, allocated (heap_listp s + 8) bs r sz) ->
  p = 0 \/ In p live ->
  exists bs' fl', heap_inv (free s p) bs' fl' /\
    forall r, In r (remove Z.eq_dec p live) ->
              exists sz, allocated (heap_listp (free s p) + 8) bs' r sz.
Proof.
  intros HI HL [->|Hp].
  - change (free s 0) with s. exists bs, fl. split; [exact HI|].
    intros r Hr. apply in_remove in Hr as [Hr _]. apply HL, Hr.
  - destruct (HL p Hp) as (sz & Ha).
    destruct (free_alloc s bs fl p sz HI Ha) as (bs' & fl' & F1 & F2 & _ & F4 & _).
    exists bs', fl'. split; [exact F1|]. rewrite F4.
    intros r Hr. apply in_remove in Hr as [Hr Hne].
    destruct (HL r Hr) as (szr & Har). exists szr. apply F2; auto.
Qed.

Theorem reachable_inv s live :
  reachable s live ->
  exists bs fl, heap_inv s bs fl /\
    forall p, In p live -> exists sz, allocated (heap_listp s + 8) bs p sz.
Proof.
  induction 1 as [s H0 H1 H2 H3 H4
                 |s live fuel size q s' _ IH Hsz Hm
                 |s live p _ IH Hp
                 |s live fuel p n q s' _ IH Hp Hn Hr
                 |s live fuel nmemb size q s' _ IH Hb Hc Hq
                 |s live p y v _ IH Hp Hy].
  - destruct (mm_init_ok s H1 H2 H3 H4) as (_ & HI & _).
    eexists _, _. split; [exact HI|]. intros p [].
  - destruct IH as (bs & fl & HI & HL).
    apply (reachable_malloc_inv fuel s bs fl live size q s' HI HL Hsz Hm).
  - destruct IH as (bs & fl & HI & HL).
    apply (reachable_free_inv s bs fl live p HI HL Hp).
  - destruct IH as (bs & fl & HI & HL).
    destruct (Z.eqb_spec n 0) as [->|Hn0].
    + unfold realloc in Hr. cbn [Z.eqb] in Hr. inversion Hr; subst q s'.
      apply (reachable_free_inv s bs fl live p HI HL Hp).
    + destruct Hp as [->|Hp].
      * unfold realloc in Hr.
        destruct (Z.eqb_spec n 0) as [|_]; [contradiction|]. cbn [Z.eqb] in Hr.
        destruct (reachable_malloc_inv fuel s bs fl live n q s' HI HL Hn Hr)
          as (bs' & fl' & HI' & HL').
        exists bs', fl'. split; [exact HI'|].
        intros r Hin. apply HL'.
        destruct (q =? 0); [exact Hin|].
        destruct Hin as [<-|Hin]; [left; reflexivity|right].
        apply in_remove in Hin as [Hin _]. exact Hin.
      * destruct (HL p Hp) as (sz & Ha).
        assert (Hn' : 0 < n < 2 ^ 64 - 11) by lia.
        destruct (enough_fuel fuel fl) as (fuel' & Hle & Hfuel).
        apply (realloc_mono fuel fuel' _ _ _ _ Hle) in Hr.
        destruct (realloc_ok fuel' s bs fl p sz n HI Hfuel Ha Hn')
          as (q0 & s1 & _ & [(_ & _ & Er)|(Hq0 & _ & Hrest)]).
        -- rewrite Er in Hr. inversion Hr; subst q s'.
           exists bs, fl. split; [exact HI|exact HL].
        -- cbn zeta in Hrest.
           destruct Hrest as (Er & (bs' & fl' & szq & R1 & R2 & R3 & _ & _ & R6) & _).
           rewrite Er in Hr. inversion Hr as [[Eq Es]]. subst q0. clear Hr.
           destruct (Z.eqb_spec q 0) as [|_]; [contradiction|].
           subst s'. exists bs', fl'. split; [exact R1|]. rewrite R2.
           intros r [<-|Hr]; [exists szq; exact R3|].
           apply in_remove in Hr as [Hr Hne].
           destruct (HL r Hr) as (szr & Har). exists szr. apply R6; auto.
  - destruct IH as (bs & fl & HI & HL).
    destruct (Z.eq_dec (wrap64 (nmemb * size)) 0) as [E0|Hne].
    + unfold calloc in Hc. rewrite E0, (malloc_zero_size_inv fuel s bs fl HI) in Hc.
      inversion Hc; subst q s'. cbn [Z.eqb].
      exists bs, fl. split; [|exact HL].
      apply heap_inv_payload; [exact HI|].
      intros x _. unfold memset.
      destruct (Z.leb_spec 0 x); destruct (Z.ltb_spec x (0 + 0));
        try reflexivity; lia.
    + destruct Hq as [Hq|Hq]; [|contradiction].
      assert (Hb' : 0 < wrap64 (nmemb * size) < 2 ^ 64 - 11).
      { pose proof (Z.mod_pos_bound (nmemb * size) (2 ^ 64)) as B.
        unfold wrap64 in *. lia. }
      destruct (enough_fuel fuel fl) as (fuel' & Hle & Hfuel).
      apply (calloc_mono fuel fuel' _ _ _ _ Hle) in Hc.
      destruct (calloc_ok fuel' s bs fl nmemb size HI Hfuel Hb')
        as (q0 & s1 & Ec & Hcase).
      rewrite Ec in Hc. inversion Hc; subst q0 s1. clear Hc.
      destruct Hcase as [(-> & _)|(_ & (bs' & fl' & szq & C1 & C2 & C3 & _ & C5) & _)];
        [contradiction|].
      destruct (Z.eqb_spec q 0) as [|_]; [contradiction|].
      exists bs', fl'. split; [exact C1|]. rewrite C2.
      intros r [<-|Hr]; [exists szq; exact C3|].
      destruct (HL r Hr) as (szr & Har). exists szr. apply C5, Har.
  - destruct IH as (bs & fl & HI & HL).
    destruct (HL p Hp) as (sz & Ha).
    exists bs, fl. split; [apply (heap_inv_store s bs fl p sz y v HI Ha Hy)|].
    exact HL.
Qed.

(** * The concrete scenarios satisfy the invariant *)

Lemma s_init_facts :
  heap_listp s_init = 4104 /\ mem_brk s_init = 4096 + 16 + 4096 /\
  mem_max_addr s_init = 4096 + 1048576.
Proof.
  vm_compute. repeat split.
Qed.

Lemma s_init_inv : heap_inv s_init bs_init fl_init.
Proof.
  assert (H1 : 0 < mem_brk arena0) by reflexivity.
  assert (H2 : mem_brk arena0 + 16 + 4096 <= mem_max_addr arena0)
    by (intros X; discriminate X).
  assert (H3 : mem_max_addr arena0 - mem_brk arena0 < 2 ^ 32) by reflexivity.
  assert (H4 : mem_max_addr arena0 < 2 ^ 64) by reflexivity.
  destruct (mm_init_ok arena0 H1 H2 H3 H4) as (_ & HI & _).
  exact HI.
Qed.

Lemma fuel_ok_short fuel (fl : nat -> list Z) :
  (length (fl 0%nat) < fuel)%nat -> (length (fl 1%nat) < fuel)%nat ->
  (length (fl 2%nat) < fuel)%nat -> (length (fl 3%nat) < fuel)%nat ->
  (length (fl 4%nat) < fuel)%nat -> (length (fl 5%nat) < fuel)%nat ->
  (length (fl 6%nat) < fuel)%nat -> (length (fl 7%nat) < fuel)%nat ->
  (length (fl 8%nat) < fuel)%nat -> (length (fl 9%nat) < fuel)%nat ->
  fuel_ok fuel fl.
Proof.
  intros H0 H1 H2 H3 H4 H5 H6 H7 H8 H9 k Hk.
  do 10 (destruct k as [|k]; [assumption|]). lia.
Qed.

Lemma fl_init_fuel : fuel_ok 3 fl_init.
Proof.
  apply fuel_ok_short; vm_compute; lia.
Qed.

Lemma s_one_inv : heap_inv s_one bs_one fl_one.
Proof.
  destruct s_init_facts as (Ehp & _).
  assert (Has : 16 <= 16 <= 4096) by lia.
  pose proof (place_ok s_init [] 4096 true [(0, true, false)] fl_init 16
                s_init_inv Has eq_refl) as (HI & _).
  rewrite Ehp in HI. exact HI.
Qed.

Lemma s_one_facts :
  heap_listp s_one = 4104 /\ mem_brk s_one = 4096 + 16 + 4096 /\
  mem_max_addr s_one = 4096 + 1048576.
Proof.
  vm_compute. repeat split.
Qed.

Lemma fl_one_fuel : fuel_ok 3 fl_one.
Proof.
  apply fuel_ok_short; vm_compute; lia.
Qed.

Lemma s_one_allocated : allocated (heap_listp s_one + 8) bs_one 4112 16.
Proof.
  destruct s_one_facts as (-> & _).
  split; [lia|]. exists true. left. reflexivity.
Qed.

Lemma s_freed_pre :
  pre_coal s_freed [] (16, false, true) [(4080, false, true); (0, true, false)] fl_one.
Proof.
  destruct s_one_facts as (Ehp & _).
  assert (Hr : [(4080, false, true); (0, true, false)] <> []) by (intros X; discriminate X).
  pose proof (free_pre_coal s_one [] 16 true [(4080, false, true); (0, true, false)]
                fl_one s_one_inv Hr) as (PC & _).
  cbn zeta in PC. rewrite Ehp in PC. exact PC.
Qed.

(** * The claims of the specification *)

(** ** Fit search *)

(** C2, as the code has it.  Let the ten lists be well formed ([fl k] are
    the nodes of list [k], each at least 8 bytes above [heap_listp]) and
    the fuel exceed the length of every list.  Then [find_fit] returns the
    first block of size at least [asize] among the nodes of all ten lists,
    taken from the list of the smallest class upwards and each in list
    order, whatever the class of [asize]; it returns null only when no
    list holds a block that large.  Where the invariant of the allocator
    holds, the classes below [class asize] hold only blocks too small to
    fit, and the answer is that of the search of the specification, which
    starts at [class asize]. *)
Theorem find_fit_first_fit s fl asize fuel :
  0 <= heap_listp s -> lists_ok s fl -> nodes_ok (heap_listp s) fl ->
  fuel_ok fuel fl ->
  let ls := lists_from 0 fl in
  let r := first_fit (mem s) asize ls in
  find_fit fuel s asize = Some r /\
  (r = 0 -> forall b, In b ls -> GET_SIZE (mem s) (HDRP b) < asize) /\
  (r <> 0 ->
   exists l1 l2,
     ls = l1 ++ r :: l2 /\ asize <= GET_SIZE (mem s) (HDRP r) /\
     forall b, In b l1 -> GET_SIZE (mem s) (HDRP b) < asize) /\
  (forall bs, heap_inv s bs fl -> r = spec_find_fit s fl asize).
Proof.
  intros Hhp L Hok Hfuel ls r.
  pose proof (find_fit_all s fl asize fuel L Hok Hfuel) as Eall.
  fold ls in Eall. fold r in Eall.
  split; [exact Eall|].
  assert (Hlast : forall bs, heap_inv s bs fl -> r = spec_find_fit s fl asize).
  { intros bs HI. pose proof (find_fit_spec s bs fl asize fuel HI Hfuel) as Espec.
    rewrite Eall in Espec. injection Espec as Er. exact Er. }
  cut ((r = 0 -> forall b, In b ls -> GET_SIZE (mem s) (HDRP b) < asize) /\
       (r <> 0 ->
        exists l1 l2,
          ls = l1 ++ r :: l2 /\ asize <= GET_SIZE (mem s) (HDRP r) /\
          forall b, In b l1 -> GET_SIZE (mem s) (HDRP b) < asize)).
  { intros [C1 C2]. split; [exact C1|]. split; [exact C2|exact Hlast]. }
  assert (Hpos : forall b, In b ls -> b <> 0).
  { intros b Hb. destruct (In_lists_from _ _ _ Hb) as (i & _ & Hi).
    destruct (Hok i b Hi) as [Hn _]. lia. }
  unfold r, first_fit. clear Eall Hlast r.
  destruct (find (fits (mem s) asize) ls) as [x|] eqn:E.
  - split.
    + intros ->. apply find_some in E as [Hx _]. elim (Hpos 0 Hx). reflexivity.
    + intros _. clear Hpos. induction ls as [|y l IH]; [discriminate E|].
      simpl in E. destruct (fits (mem s) asize y) eqn:Ey.
      * inversion E; subst y. exists [], l. split; [reflexivity|].
        split; [apply Z.leb_le; exact Ey|intros b []].
      * destruct (IH E) as (l1 & l2 & -> & Hx & Hl1).
        exists (y :: l1), l2. split; [reflexivity|]. split; [exact Hx|].
        intros b [<-|Hb]; [apply Z.leb_gt; exact Ey|apply Hl1, Hb].
  - split; [|intros X; elim X; reflexivity].
    intros _ b Hb. apply Z.leb_gt. exact (find_none _ _ E b Hb).
Qed.

(** The lists of [s_mix]: one free block in each of four classes. *)
Lemma s_mix_lists :
  0 <= heap_listp s_mix /\ lists_ok s_mix fl_mix /\
  nodes_ok (heap_listp s_mix) fl_mix /\ fuel_ok 3 fl_mix.
Proof.
  split; [vm_compute; discriminate|]. split; [|split].
  - intros k Hk.
    do 10 (destruct k as [|k]; [vm_compute; repeat split; reflexivity|]). lia.
  - intros k b Hb.
    do 10 (destruct k as [|k];
           [simpl in Hb; try contradiction; destruct Hb as [<-|[]];
            vm_compute; repeat split; intros; discriminate|]).
    destruct Hb.
  - intros k Hk.
    do 10 (destruct k as [|k]; [simpl; lia|]). lia.
Qed.

Lemma find_fit_first_fit_witness :
  0 <= heap_listp s_mix /\ lists_ok s_mix fl_mix /\
  nodes_ok (heap_listp s_mix) fl_mix /\ fuel_ok 3 fl_mix /\
  lists_from 0 fl_mix = [4112; 4144; 4184; 4304] /\
  find_fit 3 s_mix 24 = Some (first_fit (mem s_mix) 24 (lists_from 0 fl_mix)) /\
  first_fit (mem s_mix) 24 (lists_from 0 fl_mix) = 4144.
Proof.
  destruct s_mix_lists as (H0 & H1 & H2 & H3).
  split; [exact H0|]. split; [exact H1|]. split; [exact H2|]. split; [exact H3|].
  split; [reflexivity|].
  split; [|vm_compute; reflexivity].
  exact (proj1 (find_fit_first_fit s_mix fl_mix 24 3 H0 H1 H2 H3)).
Defined.

(** The search does look at the classes below that of the request.  In
    [s_smashed] the header of the free block at 4144, a node of the list of
    class 1, claims 104 bytes (a store past the end of the block before it
    put that there).  A request of 104 bytes is of class 3, and the first
    block large enough in the lists of the classes 3 to 9 is the one at
    4184; [find_fit] returns the block at 4144, which it meets in the list
    of class 1. *)
Lemma find_fit_smaller_class :
  all_lists 3 s_smashed =
    [[4112]; [4144]; []; [4184]; []; []; []; []; [4304]; []] /\
  GET_SIZE (mem s_smashed) (HDRP 4144) = 104 /\
  class 104 = 3%nat /\
  first_fit (mem s_smashed) 104
    (concat (skipn (class 104) (all_lists 3 s_smashed))) = 4184 /\
  find_fit 3 s_smashed 104 = Some 4144.
Proof.
  vm_compute. repeat split; reflexivity.
Qed.

(** ** Placement *)

(** C6.  Let the free block at [bp], of [csize] bytes, follow the blocks
    [pre] in an arena that satisfies the invariant, and let [asize] be an
    adjusted request (a multiple of 8, at least 16) not larger than
    [csize].  Then [place] removes [bp] from the index.  If
    [csize - asize >= 16] the first [asize] bytes become an allocated block
    and the rest a free block of [csize - asize] bytes, listed once in its
    class; otherwise the whole block becomes allocated and the
    predecessor-status bit of the next block is set.  The invariant holds
    afterwards and no payload byte of another allocation is written. *)
Theorem place_correct s pre csize pa rest fl asize :
  heap_inv s (pre ++ (csize, false, pa) :: rest) fl ->
  16 <= asize <= csize -> asize mod 8 = 0 ->
  place_post s pre csize pa rest fl asize.
Proof.
  intros HI Has Ha8. unfold place_post. cbn zeta.
  destruct (place_ok s pre csize pa rest fl asize HI Has Ha8)
    as (P1 & P2 & P3 & P4 & P5).
  set (hp := heap_listp s) in *. set (bp := hp + 8 + total pre) in *.
  set (s' := place s bp asize) in *.
  set (fl' := place_lists hp pre csize asize fl) in *.
  destruct (heap_inv_free_block _ _ _ _ _ _ HI) as (-> & szn & tl & -> & _).
  pose proof P1 as [A' _ _ _ _ _]. pose proof A' as [_ _ _ _ _ S' _].
  rewrite P2 in S'.
  split; [exact P1|].
  assert (Hread : forall x k, In (x, k) (layout (hp + 8) (place_blocks pre csize asize
                                 ((szn, true, false) :: tl))) ->
            GET (mem s') (HDRP x) = hdr (bsize k) (balloc k) (bprev k)).
  { intros x k Hin. apply (seg_In _ _ _ _ _ S' Hin). }
  unfold place_blocks in *.
  destruct (Z.geb_spec (csize - asize) 16) as [Hbig|Hsmall].
  - assert (Hin1 : In (bp, (asize, true, true))
                     (layout (hp + 8) (pre ++ (asize, true, true) ::
                        (csize - asize, false, true) :: (szn, true, false) :: tl))).
    { apply layout_In_app. right. left. auto. }
    assert (Hin2 : In (bp + asize, (csize - asize, false, true))
                     (layout (hp + 8) (pre ++ (asize, true, true) ::
                        (csize - asize, false, true) :: (szn, true, false) :: tl))).
    { apply layout_In_app. right. right. left. reflexivity. }
    split.
    { intros k. apply (allocated_unlisted s' _ fl' bp asize k P1).
      rewrite P2. split; [lia|]. exists true. exact Hin1. }
    split.
    { intros _. rewrite <- P2 in Hin2.
      destruct (listed_once _ _ _ _ _ _ P1 Hin2) as [Hc _].
      split; [exact Hc|]. rewrite P2 in Hin2.
      split; [apply (Hread _ _ Hin1)|apply (Hread _ _ Hin2)]. }
    split; [intros X; lia|]. auto.
  - assert (Hin1 : In (bp, (csize, true, true))
                     (layout (hp + 8) (pre ++ (csize, true, true) ::
                        set_pa true ((szn, true, false) :: tl)))).
    { apply layout_In_app. right. left. auto. }
    assert (Hin2 : In (bp + csize, (szn, true, true))
                     (layout (hp + 8) (pre ++ (csize, true, true) ::
                        set_pa true ((szn, true, false) :: tl)))).
    { apply layout_In_app. right. right. left. reflexivity. }
    split.
    { intros k. apply (allocated_unlisted s' _ fl' bp csize k P1).
      rewrite P2. split; [lia|]. exists true. exact Hin1. }
    split; [intros X; lia|].
    split; [|auto].
    intros _. split; [apply (Hread _ _ Hin1)|].
    pose proof (Hread _ _ Hin2) as G. cbn [bsize balloc bprev fst snd] in G.
    pose proof P1 as [[_ _ _ _ _ _ W'] _ _ _ _ _].
    destruct (wf_blocks_In _ _ _ _ W' Hin2) as [[_ K8] _].
    apply (GET_PREV_ALLOC_hdr _ _ _ _ _ G K8).
Qed.

Lemma place_correct_witness :
  heap_inv s_init ([] ++ (4096, false, true) :: [(0, true, false)]) fl_init /\
  16 <= 16 <= 4096 /\ 16 mod 8 = 0 /\
  place_post s_init [] 4096 true [(0, true, false)] fl_init 16.
Proof.
  assert (Has : 16 <= 16 <= 4096) by lia.
  split; [exact s_init_inv|]. split; [exact Has|]. split; [reflexivity|].
  apply (place_correct s_init [] 4096 true [(0, true, false)] fl_init 16
           s_init_inv Has eq_refl).
Defined.

(** ** Coalescing *)

(** C7.  Let [b] be a block that was just marked free, with header and
    footer written, in no list yet, between the blocks [pre] and [rest].
    Then [coalesce] returns the address of [b] when the block before it is
    allocated and the address of that block when it is free; the block at
    the returned address has the size of [b] plus the sizes of its free
    neighbours; it is in the list of the class of that size exactly once
    and in no other list; the addresses absorbed into it are in no list any
    more; and the invariant holds. *)
Theorem coalesce_correct s pre b rest fl :
  pre_coal s pre b rest fl -> coalesce_merged s pre b rest fl.
Proof.
  intros PC. unfold coalesce_merged. cbn zeta.
  pose proof (coalesce_ok _ _ _ _ _ PC) as (C1 & C2 & C3 & C4 & C5 & C6).
  destruct (coal_start _ _ _ _ _ PC) as (T1 & T2 & T3 & T4 & T5).
  set (hp := heap_listp s) in *. set (bp := hp + 8 + total pre) in *.
  set (r := coalesce s bp) in *.
  set (S := coal_size pre b rest) in *.
  set (fl' := coal_lists hp pre b rest fl) in *.
  set (bs' := coal_pre pre b ++ (S, false, true) :: coal_rest rest) in *.
  assert (Hm : In (fst r, (S, false, true)) (layout (heap_listp (snd r) + 8) bs')).
  { rewrite C3, C1. apply layout_In_app. right. left. auto. }
  destruct (listed_once _ _ _ _ _ _ C2 Hm) as [Hc Ho].
  pose proof C2 as [A' _ _ _ _ _].
  pose proof (heap_inv_sz8 _ _ _ C2) as W'.
  assert (ES : S = bsize b + (if bprev b then 0 else bsize (pred_blk pre)) +
                   (if balloc (succ_blk rest) then 0 else bsize (succ_blk rest)))
    by reflexivity.
  assert (Hinner : forall x, fst r < x < fst r + S -> forall k, ~ In x (fl' k)).
  { intros x Hx k Hk.
    destruct (listed_is_block _ _ _ _ _ C2 Hk) as (sz & pa & Hin & H16).
    destruct (layout_disjoint _ _ _ _ _ _ W' Hin Hm) as [[E _]|[H|H]];
      unfold bsize in *; simpl in *; lia. }
  split; [rewrite C1, T1; destruct (bprev b); unfold bp; lia|].
  split; [exact C2|].
  split; [apply (arena_size _ _ _ _ A' Hm)|].
  split; [exact Hc|]. split; [exact Ho|].
  split.
  { intros Eb. apply Hinner. rewrite C1, T1, Eb in *.
    destruct (pre_coal_bits _ _ _ _ _ PC) as (_ & Hp0 & _).
    destruct (Hp0 Eb) as (pre0 & szp & E & _).
    pose proof PC as [A _ Hrest _ _ _ _ _ _ _].
    destruct (arena_split _ _ _ _ A Hrest) as (W0 & _).
    rewrite E in W0. apply Forall_app in W0 as [_ Wk].
    inversion Wk as [|? ? [K16 _] _].
    unfold pred_blk in *. rewrite E, last_last in *.
    unfold bsize in *; simpl in *. fold hp. unfold bp. rewrite ?E. lia. }
  split.
  { intros En. apply Hinner. rewrite C1, T1. rewrite En in *.
    specialize (T4 eq_refl). fold hp. unfold bp. lia. }
  auto.
Qed.

Lemma coalesce_correct_witness :
  pre_coal s_freed [] (16, false, true) [(4080, false, true); (0, true, false)]
           fl_one /\
  coalesce_merged s_freed [] (16, false, true)
                  [(4080, false, true); (0, true, false)] fl_one.
Proof.
  split; [exact s_freed_pre|].
  apply (coalesce_correct s_freed [] (16, false, true)
           [(4080, false, true); (0, true, false)] fl_one s_freed_pre).
Defined.

(** ** Resizing *)

(** C3, as the code has it.  Let [p] be a live block of [szp] bytes
    (header included, so its payload has [szp - 4] bytes) and [0 < n].  If
    the fresh allocation fails, [realloc] returns null and the state is
    untouched.  Otherwise it returns a new pointer [q <> p] to a block
    with room for [n] bytes, copies [min n szp] bytes, the block size of
    the old block and not its payload size, from [p] to [q], then releases
    [p]: the first [min n (szp - 4)] bytes at [q] are the old payload, [p]
    is no longer allocated, every other allocation is, and the invariant
    holds. *)
Theorem realloc_correct fuel s bs fl p szp n :
  heap_inv s bs fl -> fuel_ok fuel fl ->
  allocated (heap_listp s + 8) bs p szp -> 0 < n < 2 ^ 64 - 11 ->
  realloc_post fuel s bs p szp n.
Proof.
  intros HI Hfuel Hp Hn.
  exact (realloc_ok fuel s bs fl p szp n HI Hfuel Hp Hn).
Qed.

Lemma realloc_correct_witness :
  heap_inv s_one bs_one fl_one /\ fuel_ok 3 fl_one /\
  allocated (heap_listp s_one + 8) bs_one 4112 16 /\ 0 < 100 < 2 ^ 64 - 11 /\
  realloc_post 3 s_one bs_one 4112 16 100.
Proof.
  assert (Hn : 0 < 100 < 2 ^ 64 - 11) by (split; reflexivity).
  split; [exact s_one_inv|]. split; [exact fl_one_fuel|].
  split; [exact s_one_allocated|]. split; [exact Hn|].
  apply (realloc_correct 3 s_one bs_one fl_one 4112 16 100
           s_one_inv fl_one_fuel s_one_allocated Hn).
Defined.

(** The count of the specification, [min n old_payload_size], is not the
    count of the code: for a block of 16 bytes (12 bytes of payload)
    resized to 100 bytes, the code copies 16 bytes, so that byte 12 of the
    new block holds the low byte of a header and not what it held
    before. *)
Lemma realloc_copy_count_counterexample :
  match realloc 3 s_one 4112 100, spec_realloc 3 s_one 4112 100 with
  | Some (q, s2), Some (q', s2') =>
      q = q' /\ payload_size (mem s_one) 4112 = 12 /\
      mem s2 (q + 12) = 107 /\ mem s2' (q + 12) = 0
  | _, _ => False
  end.
Proof.
  vm_compute. repeat split.
Qed.

(** ** Zero-size requests *)

(** C5, as the code has it.  Once the arena is initialised, [malloc 0]
    returns null and leaves the state as it is. *)
Theorem malloc_zero fuel s :
  heap_listp s <> 0 -> malloc fuel s 0 = Some (0, s).
Proof.
  intros H. unfold malloc.
  destruct (Z.eqb_spec (heap_listp s) 0); [contradiction|]. reflexivity.
Qed.

Lemma malloc_zero_witness :
  heap_listp s_init <> 0 /\ malloc 3 s_init 0 = Some (0, s_init).
Proof.
  assert (H : heap_listp s_init <> 0).
  { destruct s_init_facts as (-> & _). intros X; discriminate X. }
  split; [exact H|]. apply (malloc_zero 3 s_init H).
Defined.

(** Before the first initialisation, [malloc 0] does return null, but only
    after it has initialised the arena: the break moves, the sentinels and
    the first chunk are written and the list heads are set. *)
Lemma malloc_zero_counterexample :
  match malloc 3 arena0 0 with
  | Some (q, s') =>
      q = 0 /\ mem_brk arena0 = 4096 /\ mem_brk s' = 4096 + 16 + 4096 /\
      heap_listp arena0 = 0 /\ heap_listp s' = 4104 /\
      root9 arena0 = 0 /\ root9 s' = 4112 /\
      GET (mem arena0) 4108 = 0 /\ GET (mem s') 4108 = 4098
  | None => False
  end.
Proof.
  vm_compute. repeat split.
Qed.

(** ** Lazy initialisation *)

Lemma free_unfold s bp :
  free s bp =
  if bp =? 0 then s
  else free_initialised (if heap_listp s =? 0 then snd (mm_init s) else s) bp
         (GET_SIZE (mem s) (HDRP bp)).
Proof.
  reflexivity.
Qed.

(** C9, as the code has it.  In a process whose arena was never
    initialised and can still grow by 16 + 4096 bytes, [malloc] and [free]
    of a non-null pointer first run [mm_init], which builds the prologue
    block, one free chunk of 4096 bytes listed in its class, the nine other
    lists empty, and the epilogue header, and then proceed on the
    initialised arena.  [free] of the null pointer returns at once and
    initialises nothing. *)
Theorem lazy_init s :
  heap_listp s = 0 ->
  0 < mem_brk s -> mem_brk s + 16 + 4096 <= mem_max_addr s ->
  mem_max_addr s - mem_brk s < 2 ^ 32 -> mem_max_addr s < 2 ^ 64 ->
  lazy_init_post s.
Proof.
  intros H0 H1 H2 H3 H4. unfold lazy_init_post. cbn zeta.
  destruct (mm_init_ok s H1 H2 H3 H4) as (_ & I2 & I3 & I4 & _ & I6 & I7 & _).
  split; [exact I3|]. split; [exact I6|]. split; [exact I7|].
  split; [exact I2|]. split; [exact I4|].
  split; [|split].
  - intros fuel size. unfold malloc. rewrite H0, I3. cbn [Z.eqb].
    destruct (Z.eqb_spec (mem_brk s + 8) 0); [lia|]. reflexivity.
  - intros bp Hbp. rewrite free_unfold, H0.
    destruct (Z.eqb_spec bp 0); [contradiction|]. reflexivity.
  - reflexivity.
Qed.

Lemma lazy_init_witness :
  heap_listp arena0 = 0 /\ 0 < mem_brk arena0 /\
  mem_brk arena0 + 16 + 4096 <= mem_max_addr arena0 /\
  mem_max_addr arena0 - mem_brk arena0 < 2 ^ 32 /\ mem_max_addr arena0 < 2 ^ 64 /\
  lazy_init_post arena0.
Proof.
  assert (H1 : 0 < mem_brk arena0) by reflexivity.
  assert (H2 : mem_brk arena0 + 16 + 4096 <= mem_max_addr arena0)
    by (intros X; discriminate X).
  assert (H3 : mem_max_addr arena0 - mem_brk arena0 < 2 ^ 32) by reflexivity.
  assert (H4 : mem_max_addr arena0 < 2 ^ 64) by reflexivity.
  split; [reflexivity|]. split; [exact H1|]. split; [exact H2|].
  split; [exact H3|]. split; [exact H4|].
  apply (lazy_init arena0 eq_refl H1 H2 H3 H4).
Defined.

(** Releasing the null pointer before any other call leaves the arena
    uninitialised: no sentinel is written and the break does not move. *)
Lemma free_null_counterexample :
  heap_listp arena0 = 0 /\ heap_listp (free arena0 0) = 0 /\
  mem_brk (free arena0 0) = mem_brk arena0 /\
  GET (mem (free arena0 0)) 4100 = 0.
Proof.
  vm_compute. repeat split.
Qed.

(** ** Zero-filled allocation *)

(** The size of the block that [place] marks allocated. *)
Lemma place_size s pre csize pa rest fl asize :
  heap_inv s (pre ++ (csize, false, pa) :: rest) fl ->
  16 <= asize <= csize -> asize mod 8 = 0 ->
  let bp := heap_listp s + 8 + total pre in
  GET_SIZE (mem (place s bp asize)) (HDRP bp) =
  if csize - asize >=? 16 then asize else csize.
Proof.
  intros HI Has Ha8 bp.
  destruct (place_ok s pre csize pa rest fl asize HI Has Ha8) as (P1 & P2 & _).
  fold bp in P1, P2. pose proof P1 as [A _ _ _ _ _].
  unfold place_blocks in A.
  destruct (csize - asize >=? 16).
  - destruct (block_reads _ _ _ _ A) as (_ & R & _). rewrite P2 in R. exact R.
  - destruct (block_reads _ _ _ _ A) as (_ & R & _). rewrite P2 in R. exact R.
Qed.

(** The block that [malloc] hands out has the adjusted size of the request,
    or 8 bytes more when the rest of the block it was cut from would be
    too small to stand alone. *)
Lemma malloc_size fuel s bs fl size q s' :
  heap_inv s bs fl -> fuel_ok fuel fl -> 0 < size < 2 ^ 64 - 11 ->
  malloc fuel s size = Some (q, s') -> q <> 0 ->
  adjusted size <= GET_SIZE (mem s') (HDRP q) <= adjusted size + 8.
Proof.
  intros HI Hfuel Hsize Hm Hq.
  pose proof HI as [A _ _ Hidx _ _]. pose proof A as [A1 A2 A3 A4 A5 A6 A7].
  destruct (adjusted_ok size Hsize) as (Ha16 & Ha8 & Hasz & Ha64).
  set (asize := adjusted size) in *.
  assert (Hhp0 : heap_listp s <> 0) by lia.
  assert (Hs0 : size <> 0) by lia.
  rewrite (malloc_eq fuel s size Hhp0 Hs0) in Hm. fold asize in Hm.
  rewrite (find_fit_spec s bs fl asize fuel HI Hfuel) in Hm.
  unfold spec_find_fit in Hm.
  assert (Hcut : forall csize, asize <= csize -> csize mod 8 = 0 ->
            asize <= (if csize - asize >=? 16 then asize else csize) <= asize + 8).
  { intros csize Hle H8. destruct (Z.geb_spec (csize - asize) 16) as [|Hs]; [lia|].
    split; [lia|].
    pose proof (Z.div_mod csize 8). pose proof (Z.div_mod asize 8). lia. }
  destruct (first_fit_cases (mem s) asize (lists_from (class asize) fl))
    as [[E0 _]|[Hin Hfit]].
  - rewrite E0 in Hm. cbn [Z.eqb negb] in Hm. cbn zeta in Hm.
    destruct (MAX_ok asize Ha16 Ha8) as (He16 & He8 & Hea).
    set (ext := MAX asize CHUNKSIZE) in *.
    destruct (Z_le_gt_dec (mem_brk s + ext) (mem_max_addr s)) as [Hroom|Hfull].
    + change (ext / WSIZE) with (ext / 4) in Hm.
      destruct (extend_alloc s bs fl ext HI He16 He8 Hroom)
        as (pre1 & csize & rest1 & fl1 & Y1 & Y2 & Y3 & _ & Y5 & _).
      set (r := extend_heap s (ext / 4)) in *.
      pose proof (heap_inv_sz8 _ _ _ Y1) as W1.
      apply Forall_app in W1 as [W0 W1]. pose proof (total_nonneg _ W0) as T2.
      apply Forall_inv in W1. destruct W1 as [_ K8]. cbn [bsize fst] in K8.
      destruct (Z.eqb_spec (fst r) 0) as [H|_]; [lia|].
      inversion Hm; subst q s'.
      assert (Has : 16 <= asize <= csize) by lia.
      pose proof (place_size (snd r) pre1 csize true rest1 fl1 asize Y1 Has Ha8) as P.
      cbn zeta in P. rewrite Y5, <- Y2 in P. rewrite P.
      apply Hcut; [lia|exact K8].
    + rewrite extend_heap_fail in Hm.
      * cbn [fst snd Z.eqb] in Hm. inversion Hm; subst q. elim Hq. reflexivity.
      * cbn zeta. fold (extend_size (ext / WSIZE)).
        rewrite extend_size_ok; [exact Hfull| |exact He8].
        unfold ext, MAX. change CHUNKSIZE with 4096.
        destruct (Z.gtb_spec asize 4096); lia.
  - set (bp := first_fit (mem s) asize (lists_from (class asize) fl)) in *.
    destruct (In_lists_from _ _ _ Hin) as (i & _ & Hi).
    destruct (nodes_in_layout _ _ _ _ _ _ Hidx Hi) as (csize & pa & Hl & _ & _).
    pose proof (arena_size _ _ _ _ A Hl) as Hsz.
    change (bsize (csize, false, pa)) with csize in Hsz.
    unfold fits in Hfit. rewrite Hsz in Hfit. apply Z.leb_le in Hfit.
    destruct (node_ok_block _ _ _ _ A Hl) as [[Hn _] _].
    destruct (layout_In_split _ _ _ _ Hl) as (pre & rest & Ebs & Ebp).
    destruct (Z.eqb_spec bp 0) as [H|_]; [lia|]. cbn [negb] in Hm.
    inversion Hm; subst q s'. subst bs.
    pose proof (heap_inv_sz8 _ _ _ HI) as W1.
    apply Forall_app in W1 as [_ W1].
    apply Forall_inv in W1. destruct W1 as [_ K8]. cbn [bsize fst] in K8.
    assert (Has : 16 <= asize <= csize) by lia.
    pose proof (place_size s pre csize pa rest fl asize HI Has Ha8) as P.
    cbn zeta in P. rewrite <- Ebp in P. rewrite P.
    apply Hcut; [lia|exact K8].
Qed.

(** C10, as the code has it.  [calloc] multiplies in [size_t] and hands the
    product modulo [2 ^ 64] to [malloc].  Let the product of the two
    arguments not fit in 64 bits and its remainder [bytes] be below
    [2 ^ 64 - 11], in an arena that satisfies the invariant.  When [bytes]
    is 0, nothing is allocated and no byte changes.  Otherwise [calloc] can
    only fail for lack of room in the arena; when it does not fail, the
    block it returns is the one [malloc] allocates for [bytes] bytes: its
    size is between [bytes + 4] and [bytes + 23], less than the product,
    its first [bytes] bytes are zero, the bytes around them are as
    [malloc] left them, the invariant holds and no payload byte of
    another allocation has changed. *)
Theorem calloc_wraps fuel s bs fl nmemb size :
  heap_inv s bs fl -> fuel_ok fuel fl ->
  0 <= nmemb < 2 ^ 64 -> 0 <= size < 2 ^ 64 -> 2 ^ 64 <= nmemb * size ->
  let bytes := (nmemb * size) mod 2 ^ 64 in
  bytes < 2 ^ 64 - 11 ->
  let hp := heap_listp s in
  bytes < nmemb * size /\
  exists q t s',
    malloc fuel s bytes = Some (q, t) /\
    calloc fuel s nmemb size = Some (q, s') /\
    (bytes = 0 -> q = 0 /\ forall y, mem s' y = mem s y) /\
    (0 < bytes -> q = 0 ->
     mem_max_addr s < mem_brk s + MAX (adjusted bytes) CHUNKSIZE) /\
    (q <> 0 ->
     let szq := GET_SIZE (mem s') (HDRP q) in
     (exists bs' fl',
        heap_inv s' bs' fl' /\ allocated (hp + 8) bs' q szq /\
        forall p sz, allocated (hp + 8) bs p sz -> allocated (hp + 8) bs' p sz) /\
     bytes + 4 <= szq <= bytes + 23 /\ szq < nmemb * size /\
     (forall i, 0 <= i < bytes -> mem s' (q + i) = 0) /\
     (forall y, y < q \/ q + bytes <= y -> mem s' y = mem t y) /\
     (forall y, protected (hp + 8) bs y -> mem s' y = mem s y)).
Proof.
  intros HI Hfuel Hn Hs Hbig bytes Hb hp.
  assert (Hb0 : 0 <= bytes < 2 ^ 64) by (apply Z.mod_pos_bound; lia).
  assert (Hlow : bytes + 2 ^ 64 <= nmemb * size).
  { pose proof (Z.div_mod (nmemb * size) (2 ^ 64)) as E. fold bytes in E.
    assert (1 <= nmemb * size / 2 ^ 64) by (apply Z.div_le_lower_bound; lia).
    lia. }
  split; [lia|].
  assert (Ecal : forall q t, malloc fuel s bytes = Some (q, t) ->
            calloc fuel s nmemb size =
            Some (q, set_mem t (memset (mem t) q 0 bytes))).
  { intros q t Em. unfold calloc. change (wrap64 (nmemb * size)) with bytes.
    rewrite Em. reflexivity. }
  destruct (Z.eq_dec bytes 0) as [E0|Hne].
  - assert (Em : malloc fuel s bytes = Some (0, s)).
    { rewrite E0. pose proof HI as [[A1 _ _ _ _ _ _] _ _ _ _ _]. unfold malloc.
      destruct (Z.eqb_spec (heap_listp s) 0) as [E|_]; [lia|]. reflexivity. }
    exists 0, s, (set_mem s (memset (mem s) 0 0 bytes)).
    split; [exact Em|]. split; [apply Ecal, Em|].
    split; [|split; [lia|intros X; elim X; reflexivity]].
    intros _. split; [reflexivity|]. intros y. cbn [mem set_mem]. unfold memset.
    rewrite E0. destruct (Z.leb_spec 0 y); destruct (Z.ltb_spec y (0 + 0));
      try reflexivity; lia.
  - assert (Hpos : 0 < bytes < 2 ^ 64 - 11) by lia.
    destruct (malloc_ok fuel s bs fl bytes HI Hfuel Hpos) as (q & t & Em & Hcase).
    fold hp in Hcase.
    exists q, t, (set_mem t (memset (mem t) q 0 bytes)).
    split; [exact Em|]. split; [apply Ecal, Em|].
    split; [intros X; contradiction|].
    destruct Hcase as [(-> & -> & Hfull)|(Hq & bs' & fl' & szq & M1 & M2 & M3 & M4 & _ & M6 & _ & M8)].
    + split; [intros _ _; exact Hfull|]. intros X; elim X; reflexivity.
    + split; [intros _ X; contradiction|]. intros _.
      pose proof (malloc_size fuel s bs fl bytes q t HI Hfuel Hpos Em Hq) as Hsz.
      destruct (adjusted_ok bytes Hpos) as (_ & _ & Hadj & _).
      assert (Ehdr : GET_SIZE (memset (mem t) q 0 bytes) (HDRP q)
                     = GET_SIZE (mem t) (HDRP q)).
      { unfold GET_SIZE. f_equal. apply GET_agree. intros x Hx.
        unfold HDRP, WSIZE in Hx. unfold memset.
        destruct (Z.leb_spec q x); [lia|reflexivity]. }
      cbn zeta. cbn [mem set_mem]. rewrite Ehdr.
      pose proof M1 as [A' _ _ _ _ _]. rewrite <- M6 in M2.
      destruct (allocated_addr _ _ _ _ A' M2) as [_ Eszq].
      assert (Hprot : forall y, q <= y < q + bytes ->
                protected (heap_listp t + 8) bs' y).
      { intros y Hy. apply (allocated_protected _ _ q szq); [exact M2|lia]. }
      split; [|split; [lia|split; [lia|split; [|split]]]].
      * exists bs', fl'. rewrite Eszq. split; [|split].
        -- apply heap_inv_payload; [exact M1|].
           intros y Hy. unfold memset.
           destruct (Z.leb_spec q y); [|reflexivity].
           destruct (Z.ltb_spec y (q + bytes)); [|reflexivity].
           elim Hy. apply Hprot. lia.
        -- rewrite <- M6. exact M2.
        -- exact M4.
      * intros i Hi. unfold memset.
        destruct (Z.leb_spec q (q + i)); [|lia].
        destruct (Z.ltb_spec (q + i) (q + bytes)); [|lia]. reflexivity.
      * intros y Hy. unfold memset.
        destruct (Z.leb_spec q y); [|reflexivity].
        destruct (Z.ltb_spec y (q + bytes)); [lia|reflexivity].
      * intros y Hy. rewrite <- (M8 y Hy). unfold memset.
        destruct (Z.leb_spec q y); [|reflexivity].
        destruct (Z.ltb_spec y (q + bytes)); [|reflexivity].
        exfalso. assert (Hin : q <= y < q + bytes) by lia.
        apply Hprot in Hin. rewrite M6 in Hin, M2.
        apply protected_allocated in Hy as (p & sz & Hp & Hr).
        pose proof (M4 p sz Hp) as Hp'.
        pose proof (heap_inv_sz8 _ _ _ M1) as W.
        destruct (Z.eq_dec p q) as [->|Hpq].
        -- destruct (malloc_ok fuel s bs fl bytes HI Hfuel Hpos)
             as (q2 & t2 & Em2 & Hcase2).
           rewrite Em in Em2. inversion Em2; subst q2 t2.
           destruct Hcase2 as [(X & _)|(_ & _ & _ & _ & _ & _ & _ & _ & N5 & _)];
             [contradiction|].
           exact (N5 sz Hp).
        -- assert (Hqp : q <> p) by congruence.
           destruct (allocated_apart _ _ _ _ _ _ W Hp' M2 Hqp) as [H1|H1]; lia.
Qed.

Lemma calloc_wraps_witness :
  heap_inv s_init bs_init fl_init /\ fuel_ok 3 fl_init /\
  0 <= 2 ^ 61 + 1 < 2 ^ 64 /\ 0 <= 8 < 2 ^ 64 /\
  2 ^ 64 <= (2 ^ 61 + 1) * 8 /\ ((2 ^ 61 + 1) * 8) mod 2 ^ 64 = 8 /\
  exists q s', calloc 3 s_init (2 ^ 61 + 1) 8 = Some (q, s') /\ q = 4112 /\
    GET_SIZE (mem s') (HDRP q) <= 8 + 23.
Proof.
  assert (H1 : 0 <= 2 ^ 61 + 1 < 2 ^ 64) by (split; [discriminate|reflexivity]).
  assert (H2 : 0 <= 8 < 2 ^ 64) by (split; [discriminate|reflexivity]).
  assert (H3 : 2 ^ 64 <= (2 ^ 61 + 1) * 8) by discriminate.
  assert (H4 : ((2 ^ 61 + 1) * 8) mod 2 ^ 64 < 2 ^ 64 - 11) by reflexivity.
  split; [exact s_init_inv|]. split; [exact fl_init_fuel|].
  split; [exact H1|]. split; [exact H2|]. split; [exact H3|].
  split; [reflexivity|].
  destruct (calloc_wraps 3 s_init bs_init fl_init (2 ^ 61 + 1) 8
              s_init_inv fl_init_fuel H1 H2 H3 H4)
    as (_ & q & t & s' & _ & Ec & _ & _ & Hq).
  assert (E : match calloc 3 s_init (2 ^ 61 + 1) 8 with
              | Some (p, _) => p = 4112
              | None => False
              end) by (vm_compute; reflexivity).
  rewrite Ec in E. exists q, s'. split; [exact Ec|]. split; [exact E|].
  assert (Hne : q <> 0) by (rewrite E; discriminate).
  destruct (Hq Hne) as (_ & Hsz & _). cbn zeta in Hsz.
  change (((2 ^ 61 + 1) * 8) mod 2 ^ 64) with 8 in Hsz. apply Hsz.
Defined.

(** The remainder of the product can be so large that it wraps around once
    more, inside [malloc].  For [calloc(2^64 - 1, 5)] the remainder is
    [2 ^ 64 - 5], which [malloc] adjusts to 0 bytes: the pointer returned
    is that of the free chunk, which stays marked free and stays in its
    list, and the arena holds 4096 bytes from that pointer on, not
    [2 ^ 64 - 5]. *)
Lemma calloc_wraps_twice :
  2 ^ 64 <= (2 ^ 64 - 1) * 5 /\
  ((2 ^ 64 - 1) * 5) mod 2 ^ 64 = 2 ^ 64 - 5 /\
  adjusted (2 ^ 64 - 5) = 0 /\
  match malloc 3 s_init (2 ^ 64 - 5), calloc 3 s_init (2 ^ 64 - 1) 5 with
  | Some (p, t), Some (q, s') =>
      q = p /\ q = 4112 /\
      GET_ALLOC (mem t) (HDRP q) = 0 /\ nth_root t 8 = q /\
      GET_ALLOC (mem s') (HDRP q) = 0 /\ nth_root s' 8 = q /\
      mem_brk s' - q = 4096
  | _, _ => False
  end.
Proof.
  vm_compute. repeat split; try reflexivity; intros X; discriminate X.
Qed.

(** C4 (defect of the code).  [calloc] passes the result of [malloc] to
    [memset] without looking at it.  In an arena that cannot grow, a
    request of 5000 bytes makes [malloc] return null, and [calloc] then
    clears 5000 bytes from address 0 on before it returns null: bytes that
    held 255 hold 0 afterwards. *)
Theorem calloc_writes_through_null :
  match malloc 3 arena_small 5000, calloc 3 arena_small 1 5000 with
  | Some (p, t), Some (q, s') =>
      p = 0 /\ q = 0 /\
      mem t 0 = 255 /\ mem s' 0 = 0 /\ mem t 4999 = 255 /\ mem s' 4999 = 0 /\
      mem s' 5000 = 255
  | _, _ => False
  end.
Proof.
  vm_compute. repeat split.
Qed.

(** ** Requests whose adjusted size wraps around *)



(** ** Invariants of the reachable states *)

Lemma arena0_reachable : reachable s_init [].
Proof.
  apply (reach_init arena0); [reflexivity|reflexivity| |reflexivity|reflexivity].
  intros X; discriminate X.
Qed.

Lemma s_live_reachable : reachable s_live [4112].
Proof.
  assert (Hsz : 0 <= 12 < 2 ^ 64 - 11) by (split; [discriminate|reflexivity]).
  assert (E : match malloc 3 s_init 12 with
              | Some (q, _) => q = 4112
              | None => False
              end) by (vm_compute; reflexivity).
  unfold s_live.
  destruct (malloc 3 s_init 12) as [[q t]|] eqn:Em; [|destruct E]. subst q.
  exact (reach_malloc s_init [] 3 12 4112 t arena0_reachable Hsz Em).
Qed.

(** A first [malloc] that initialises the arena itself reaches the state
    that [mm_init] followed by the same [malloc] reaches. *)
Lemma reachable_first_malloc s fuel size q s' :
  heap_listp s = 0 -> 0 < mem_brk s ->
  mem_brk s + 16 + 4096 <= mem_max_addr s ->
  mem_max_addr s - mem_brk s < 2 ^ 32 -> mem_max_addr s < 2 ^ 64 ->
  0 <= size < 2 ^ 64 - 11 -> malloc fuel s size = Some (q, s') ->
  reachable s' (if q =? 0 then [] else [q]).
Proof.
  intros H0 H1 H2 H3 H4 Hsz Hm.
  destruct (mm_init_ok s H1 H2 H3 H4) as (_ & _ & Ehp & _).
  assert (E : malloc fuel s size = malloc fuel (snd (mm_init s)) size).
  { unfold malloc. rewrite H0, Ehp. cbn [Z.eqb].
    destruct (Z.eqb_spec (mem_brk s + 8) 0) as [X|_]; [lia|]. reflexivity. }
  rewrite E in Hm.
  exact (reach_malloc _ [] fuel size q s' (reach_init s H0 H1 H2 H3 H4) Hsz Hm).
Qed.

Lemma then_malloc_reach fuel size s live q :
  reachable s live -> 0 <= size < 2 ^ 64 - 11 ->
  match malloc fuel s size with
  | Some (p, _) => p = q
  | None => False
  end ->
  q <> 0 -> reachable (then_malloc fuel size s) (q :: live).
Proof.
  intros R Hsz E Hq. unfold then_malloc.
  destruct (malloc fuel s size) as [[p t]|] eqn:Em; [|destruct E]. subst p.
  pose proof (reach_malloc s live fuel size q t R Hsz Em) as R'.
  destruct (Z.eqb_spec q 0) as [|_]; [contradiction|]. exact R'.
Qed.

Lemma s_six_reachable :
  reachable s_six [4288; 4184; 4168; 4144; 4128; 4112].
Proof.
  assert (B : forall n, 0 <= n < 200 -> 0 <= n < 2 ^ 64 - 11).
  { intros n Hn. split; [lia|]. apply Z.lt_trans with 200; [lia|reflexivity]. }
  unfold s_six.
  apply then_malloc_reach;
    [|apply B; lia|vm_compute; reflexivity|discriminate].
  apply then_malloc_reach;
    [|apply B; lia|vm_compute; reflexivity|discriminate].
  apply then_malloc_reach;
    [|apply B; lia|vm_compute; reflexivity|discriminate].
  apply then_malloc_reach;
    [|apply B; lia|vm_compute; reflexivity|discriminate].
  apply then_malloc_reach;
    [|apply B; lia|vm_compute; reflexivity|discriminate].
  apply then_malloc_reach;
    [|apply B; lia|vm_compute; reflexivity|discriminate].
  exact arena0_reachable.
Qed.

(** [s_mix] is reached by six requests, a store of the client and three
    releases. *)
Lemma s_mix_reachable : reachable s_mix [4288; 4168; 4128].
Proof.
  assert (I1 : In 4128 [4288; 4184; 4168; 4144; 4128; 4112])
    by (do 4 right; left; reflexivity).
  assert (Hy : 4128 <= 4130 < 4128 + payload_size (mem s_six) 4128).
  { vm_compute. split; [discriminate|reflexivity]. }
  pose proof (reach_store s_six _ 4128 4130 255 s_six_reachable I1 Hy) as R1.
  assert (I2 : In 4112 [4288; 4184; 4168; 4144; 4128; 4112])
    by (do 5 right; left; reflexivity).
  pose proof (reach_free _ _ 4112 R1 (or_intror I2)) as R2.
  assert (I3 : In 4144 (remove Z.eq_dec 4112 [4288; 4184; 4168; 4144; 4128; 4112]))
    by (vm_compute; do 3 right; left; reflexivity).
  pose proof (reach_free _ _ 4144 R2 (or_intror I3)) as R3.
  assert (I4 : In 4184 (remove Z.eq_dec 4144
                 (remove Z.eq_dec 4112 [4288; 4184; 4168; 4144; 4128; 4112])))
    by (vm_compute; right; left; reflexivity).
  exact (reach_free _ _ 4184 R3 (or_intror I4)).
Qed.





(** * Further properties of the code *)

(** ** Header words and link offsets *)

Lemma wrap32_mult8 sz c :
  0 <= sz -> sz mod 8 = 0 -> 0 <= c < 8 ->
  wrap32 (sz + c) = sz mod 2 ^ 32 + c /\ (sz mod 2 ^ 32) mod 8 = 0.
Proof.
  intros H0 H8 Hc.
  pose proof (Z.div_mod sz (2 ^ 32)) as E.
  pose proof (Z.mod_pos_bound sz (2 ^ 32)) as B.
  set (r := sz mod 2 ^ 32) in *. set (q := sz / 2 ^ 32) in *.
  assert (R8 : r mod 8 = 0).
  { replace r with (sz + (- q * 2 ^ 29) * 8) by lia.
    rewrite Z.mod_add by lia. exact H8. }
  split; [|exact R8].
  pose proof (Z.div_mod r 8). unfold wrap32.
  replace (sz + c) with (r + c + q * 2 ^ 32) by lia.
  rewrite Z.mod_add by lia. apply Z.mod_small. lia.
Qed.

(** X1.  A header written with [PUT] and [PACK] from a size that is a
    multiple of 8, an allocation bit and a predecessor bit reads back with
    [GET_SIZE], [GET_ALLOC] and [GET_PREV_ALLOC]: the two bits as written,
    the size modulo [2 ^ 32] (the size itself when it is below [2 ^ 32]);
    no other word of memory changes. *)
Theorem header_round_trip m p sz a pa :
  0 <= sz -> sz mod 8 = 0 ->
  let m' := PUT m p (PACK sz (b2z a + 2 * b2z pa)) in
  GET_SIZE m' p = sz mod 2 ^ 32 /\
  (sz < 2 ^ 32 -> GET_SIZE m' p = sz) /\
  GET_ALLOC m' p = b2z a /\
  GET_PREV_ALLOC m' p = 2 * b2z pa /\
  (forall q, q + 4 <= p \/ p + 4 <= q -> GET m' q = GET m q).
Proof.
  intros H0 H8 m'.
  assert (Hc : 0 <= b2z a + 2 * b2z pa < 8) by (destruct a, pa; simpl; lia).
  destruct (wrap32_mult8 sz _ H0 H8 Hc) as [Ew R8].
  assert (G : GET m' p = hdr (sz mod 2 ^ 32) a pa).
  { unfold m'. rewrite GET_PUT_same, PACK_hdr by assumption.
    rewrite Ew. unfold hdr. lia. }
  assert (S : GET_SIZE m' p = sz mod 2 ^ 32)
    by (apply (GET_SIZE_hdr _ _ _ a pa G R8)).
  split; [exact S|]. split; [|split; [|split]].
  - intros Hlt. rewrite S. apply Z.mod_small. lia.
  - apply (GET_ALLOC_hdr _ _ _ a pa G R8).
  - apply (GET_PREV_ALLOC_hdr _ _ _ a pa G R8).
  - intros q Hq. unfold m'. apply GET_PUT_other. exact Hq.
Qed.

Lemma header_round_trip_witness :
  0 <= 4096 /\ 4096 mod 8 = 0 /\
  let m' := PUT (fun _ => 0) 100 (PACK 4096 (b2z false + 2 * b2z true)) in
  GET_SIZE m' 100 = 4096 mod 2 ^ 32 /\
  (4096 < 2 ^ 32 -> GET_SIZE m' 100 = 4096) /\
  GET_ALLOC m' 100 = b2z false /\
  GET_PREV_ALLOC m' 100 = 2 * b2z true /\
  (forall q, q + 4 <= 100 \/ 100 + 4 <= q -> GET m' q = GET (fun _ => 0) q).
Proof.
  assert (H0 : 0 <= 4096) by discriminate.
  split; [exact H0|]. split; [reflexivity|].
  apply (header_round_trip (fun _ => 0) 100 4096 false true H0 eq_refl).
Defined.

(** X2.  A link stored with [SET_PREV] or [SET_NEXT] reads back with
    [GET_PREV] or [GET_NEXT] as the address that was stored, provided the
    address lies at most [2 ^ 32 - 1] bytes above [heap_listp]; storing one
    link leaves the other link of the node as it was. *)
Theorem link_offset_round_trip m hp b v :
  0 <= hp -> hp <= v -> v - hp < 2 ^ 32 -> v < 2 ^ 64 ->
  GET_PREV (SET_PREV m hp b v) hp b = v /\
  GET_NEXT (SET_NEXT m hp b v) hp b = v /\
  GET_NEXT (SET_PREV m hp b v) hp b = GET_NEXT m hp b /\
  GET_PREV (SET_NEXT m hp b v) hp b = GET_PREV m hp b.
Proof.
  intros H0 H1 H2 H3.
  assert (E : wrap32 (link_word hp v) = link_word hp v).
  { rewrite link_word_eq. unfold wrap32. apply Z.mod_mod. lia. }
  unfold GET_PREV, GET_NEXT, SET_PREV, SET_NEXT, WSIZE.
  rewrite !GET_PUT_same, E, link_round_trip by assumption.
  rewrite !GET_PUT_other by lia. auto.
Qed.

Lemma link_offset_round_trip_witness :
  0 <= 4104 /\ 4104 <= 4112 /\ 4112 - 4104 < 2 ^ 32 /\ 4112 < 2 ^ 64 /\
  GET_PREV (SET_PREV (fun _ => 0) 4104 5000 4112) 4104 5000 = 4112 /\
  GET_NEXT (SET_NEXT (fun _ => 0) 4104 5000 4112) 4104 5000 = 4112 /\
  GET_NEXT (SET_PREV (fun _ => 0) 4104 5000 4112) 4104 5000 =
    GET_NEXT (fun _ => 0) 4104 5000 /\
  GET_PREV (SET_NEXT (fun _ => 0) 4104 5000 4112) 4104 5000 =
    GET_PREV (fun _ => 0) 4104 5000.
Proof.
  assert (H0 : 0 <= 4104) by discriminate.
  assert (H1 : 4104 <= 4112) by discriminate.
  assert (H2 : 4112 - 4104 < 2 ^ 32) by reflexivity.
  assert (H3 : 4112 < 2 ^ 64) by reflexivity.
  split; [exact H0|]. split; [exact H1|]. split; [exact H2|]. split; [exact H3|].
  apply (link_offset_round_trip (fun _ => 0) 4104 5000 4112 H0 H1 H2 H3).
Defined.

(** ** The list heads *)

(** X3.  After [update_root] has stored [root] as the head for the class of
    [size], [size2ptr] returns that head for every size of the same class
    and the heads it returned before for the sizes of the other classes. *)
Theorem update_root_size2ptr s size size' :
  size2ptr (update_root s size) size' =
  if Nat.eqb (class size') (class size) then root s else size2ptr s size'.
Proof.
  rewrite update_root_class, !size2ptr_class.
  apply nth_root_set; apply class_lt.
Qed.

(** ** Alignment *)

Lemma aligned_mod8 p :
  0 <= p < 2 ^ 64 -> (aligned p = true <-> p mod 8 = 0).
Proof.
  intros Hp. unfold aligned, ALIGN, ALIGNMENT.
  rewrite (wrap64_small p) by lia.
  pose proof (Z.div_mod p 8) as E. pose proof (Z.mod_pos_bound p 8) as B.
  assert (P : 2 ^ 64 = 8 * 2 ^ 61) by reflexivity.
  rewrite Z.eqb_eq.
  destruct (Z_lt_ge_dec (p + 7) (2 ^ 64)) as [Hs|Hl].
  - rewrite (wrap64_small (p + (8 - 1))) by lia.
    pose proof (Z.div_mod (p + 7) 8) as E7.
    pose proof (Z.mod_pos_bound (p + 7) 8) as B7.
    replace (p + (8 - 1)) with (8 * ((p + 7) / 8) + (p + 7) mod 8) by lia.
    rewrite land_not7 by lia.
    rewrite wrap64_small by lia.
    split; intros H.
    + rewrite <- H. rewrite Z.mul_comm. apply Z.mod_mul. lia.
    + assert (X : (p + 7) / 8 = p / 8).
      { symmetry. apply (Z.div_unique (p + 7) 8 (p / 8) 7); lia. }
      lia.
  - assert (W : wrap64 (p + (8 - 1)) = p + 7 - 2 ^ 64).
    { unfold wrap64. symmetry. apply (Z.mod_unique (p + (8 - 1)) _ 1); lia. }
    rewrite W.
    pose proof (Z.div_mod (p + 7 - 2 ^ 64) 8) as E7.
    pose proof (Z.mod_pos_bound (p + 7 - 2 ^ 64) 8) as B7.
    replace (p + 7 - 2 ^ 64)
      with (8 * ((p + 7 - 2 ^ 64) / 8) + (p + 7 - 2 ^ 64) mod 8) by lia.
    rewrite land_not7 by lia.
    assert (Q : 0 <= (p + 7 - 2 ^ 64) / 8) by (apply Z.div_pos; lia).
    rewrite wrap64_small by lia.
    split; intros H; [lia|].
    exfalso. assert (p = 8 * (p / 8)) by lia.
    assert (p / 8 < 2 ^ 61) by (apply Z.div_lt_upper_bound; lia). lia.
Qed.

(** X4.  [aligned] tells whether an address is a multiple of 8: it
    answers true for the multiples of 8 and false for every other address,
    those within 7 bytes of the top of the address space included, where
    the rounding of [ALIGN] wraps around. *)
Theorem aligned_correct p :
  0 <= p < 2 ^ 64 -> (aligned p = true <-> p mod 8 = 0).
Proof.
  exact (aligned_mod8 p).
Qed.

Lemma aligned_correct_witness :
  0 <= 4112 < 2 ^ 64 /\ (aligned 4112 = true <-> 4112 mod 8 = 0).
Proof.
  assert (H : 0 <= 4112 < 2 ^ 64) by (split; [discriminate|reflexivity]).
  split; [exact H|]. apply (aligned_correct 4112 H).
Defined.

(** ** Insertion into and removal from the index *)

Lemma insert_list_fields s b size :
  let s' := insert_list s b size in
  nth_root s' (class size) = b /\
  (forall i, (i < 10)%nat -> i <> class size -> nth_root s' i = nth_root s i).
Proof.
  cbn zeta. rewrite insert_list_eq. pose proof (class_lt size) as Hc. split.
  - rewrite nth_root_set by assumption. now rewrite Nat.eqb_refl.
  - intros i Hi Hne. rewrite nth_root_set by assumption.
    destruct (Nat.eqb_spec i (class size)); [contradiction|]. reflexivity.
Qed.

Lemma index_ok_heads s s' fl :
  index_ok s fl -> index_ok s' fl -> heap_listp s' = heap_listp s ->
  forall k, (k < 10)%nat -> nth_root s' k = nth_root s k.
Proof.
  intros (Hhp & L & _) (Hhp' & L' & _) E k Hk.
  specialize (L k Hk). specialize (L' k Hk). unfold flist in *.
  apply (lseg_hd _ Hhp) in L. apply (lseg_hd _ Hhp') in L'.
  rewrite L, L', E. reflexivity.
Qed.

(** [insert_list] on the index: the new lists, the heads, the bytes written. *)
Lemma insert_list_index s fl b size :
  index_ok s fl -> fresh_node s fl b ->
  let s' := insert_list s b size in
  index_ok s' (enlist fl b size) /\
  enlist fl b size (class size) = b :: fl (class size) /\
  (forall i, i <> class size -> enlist fl b size i = fl i) /\
  nth_root s' (class size) = b /\
  (forall i, (i < 10)%nat -> i <> class size -> nth_root s' i = nth_root s i) /\
  heap_listp s' = heap_listp s /\ mem_brk s' = mem_brk s /\
  mem_max_addr s' = mem_max_addr s /\
  (forall y, y < b \/ b + 8 <= y ->
             (forall n, In n (fl (class size)) -> y < n \/ n + 4 <= y) ->
             mem s' y = mem s y).
Proof.
  intros (Hhp & L & Hok & Hsep) (Hb & Hap) s'.
  destruct (insert_list_spec s fl b size Hhp L Hok Hsep Hb Hap)
    as (L' & E1 & E2 & E3 & F).
  destruct (insert_list_fields s b size) as (R1 & R2).
  fold s' in L', E1, E2, E3, F, R1, R2.
  split.
  { split; [rewrite E1; exact Hhp|]. split; [exact L'|]. rewrite E1.
    split; [apply nodes_ok_insert; assumption|apply nodes_sep_insert; assumption]. }
  split; [apply upd_same|]. split; [intros i Hi; apply upd_other; exact Hi|].
  split; [exact R1|]. split; [exact R2|]. split; [exact E1|].
  split; [exact E2|]. split; [exact E3|exact F].
Qed.

(** X5.  [insert_list] puts a fresh node at the front of the list of the
    class of [size]: that list becomes the node followed by the old list,
    the head of the class is the node, the other nine lists and heads stay
    as they were, the index stays well formed, and the only bytes written
    are the two link words of the node and the backward link of the old
    head. *)
Theorem insert_list_front s fl b size :
  index_ok s fl -> fresh_node s fl b ->
  let s' := insert_list s b size in
  index_ok s' (enlist fl b size) /\
  enlist fl b size (class size) = b :: fl (class size) /\
  (forall i, i <> class size -> enlist fl b size i = fl i) /\
  nth_root s' (class size) = b /\
  (forall i, (i < 10)%nat -> i <> class size -> nth_root s' i = nth_root s i) /\
  heap_listp s' = heap_listp s /\ mem_brk s' = mem_brk s /\
  mem_max_addr s' = mem_max_addr s /\
  (forall y, y < b \/ b + 8 <= y ->
             (forall n, In n (fl (class size)) -> y < n \/ n + 4 <= y) ->
             mem s' y = mem s y).
Proof.
  intros HI HF. exact (insert_list_index s fl b size HI HF).
Qed.

(** [remove_list] on the index: the new lists and the bytes written. *)
Lemma remove_list_index s fl b size :
  index_ok s fl -> In b (fl (class size)) ->
  let s' := remove_list s b size in
  index_ok s' (unlist fl b size) /\
  unlist fl b size (class size) = remove Z.eq_dec b (fl (class size)) /\
  ~ In b (unlist fl b size (class size)) /\
  (forall i, i <> class size -> unlist fl b size i = fl i) /\
  heap_listp s' = heap_listp s /\ mem_brk s' = mem_brk s /\
  mem_max_addr s' = mem_max_addr s /\
  (forall y, (forall n, In n (fl (class size)) -> n <> b -> y < n \/ n + 8 <= y) ->
             mem s' y = mem s y).
Proof.
  intros (Hhp & L & Hok & Hsep) Hin s'.
  destruct (remove_list_spec s fl b size Hhp L Hok Hsep Hin)
    as (L' & E1 & E2 & E3 & F).
  fold s' in L', E1, E2, E3, F.
  split.
  { split; [rewrite E1; exact Hhp|]. split; [exact L'|]. rewrite E1.
    split; [apply nodes_ok_remove; assumption|apply nodes_sep_remove; assumption]. }
  split; [apply upd_same|].
  split; [unfold unlist; rewrite upd_same; apply remove_In|].
  split; [intros i Hi; apply upd_other; exact Hi|].
  split; [exact E1|]. split; [exact E2|]. split; [exact E3|exact F].
Qed.

(** X6.  [remove_list] unlinks a node from the list of the class of
    [size]: the list keeps its other nodes in their order, the node is in
    it no more, the other nine lists stay as they were, the index stays
    well formed, and the only bytes written are link words of other nodes
    of that list. *)
Theorem remove_list_unlinks s fl b size :
  index_ok s fl -> In b (fl (class size)) ->
  let s' := remove_list s b size in
  index_ok s' (unlist fl b size) /\
  unlist fl b size (class size) = remove Z.eq_dec b (fl (class size)) /\
  ~ In b (unlist fl b size (class size)) /\
  (forall i, i <> class size -> unlist fl b size i = fl i) /\
  heap_listp s' = heap_listp s /\ mem_brk s' = mem_brk s /\
  mem_max_addr s' = mem_max_addr s /\
  (forall y, (forall n, In n (fl (class size)) -> n <> b -> y < n \/ n + 8 <= y) ->
             mem s' y = mem s y).
Proof.
  intros HI Hin. exact (remove_list_index s fl b size HI Hin).
Qed.

(** X7.  Removing a node right after it was inserted brings back the ten
    lists and the ten heads as they were before the insertion. *)
Theorem insert_remove_round_trip s fl b size :
  index_ok s fl -> fresh_node s fl b ->
  let s' := remove_list (insert_list s b size) b size in
  index_ok s' fl /\
  (forall k, (k < 10)%nat -> nth_root s' k = nth_root s k) /\
  heap_listp s' = heap_listp s.
Proof.
  intros HI HF s'.
  destruct (insert_list_index s fl b size HI HF) as (I1 & I2 & I3 & _ & _ & I6 & _).
  set (s1 := insert_list s b size) in *.
  assert (Hin : In b (enlist fl b size (class size))) by (rewrite I2; left; reflexivity).
  destruct (remove_list_index s1 (enlist fl b size) b size I1 Hin)
    as (R1 & R2 & _ & R4 & R5 & _).
  fold s' in R1, R5.
  assert (Hnot : ~ In b (fl (class size))).
  { intros H. destruct HF as [_ Hap]. specialize (Hap _ _ H). unfold apart in Hap. lia. }
  assert (E : forall i, unlist (enlist fl b size) b size i = fl i).
  { intros i. destruct (Nat.eq_dec i (class size)) as [->|Hne].
    - rewrite R2, I2. simpl. destruct (Z.eq_dec b b); [|contradiction].
      apply notin_remove. exact Hnot.
    - rewrite R4, I3 by assumption. reflexivity. }
  assert (HI' : index_ok s' fl).
  { destruct R1 as (A & B & C & D).
    split; [exact A|]. split; [|split].
    - intros k Hk. rewrite <- E. apply B, Hk.
    - intros k n Hn. rewrite <- E in Hn. apply (C k n Hn).
    - destruct D as [D1 D2]. split.
      + intros k. rewrite <- E. apply D1.
      + intros k1 k2 b1 b2 Hne H1 H2. rewrite <- E in H1, H2.
        apply (D2 k1 k2 b1 b2 Hne H1 H2). }
  split; [exact HI'|]. split; [|rewrite R5; exact I6].
  apply (index_ok_heads s s' fl HI HI'). rewrite R5. exact I6.
Qed.

(** A node in the middle of the initial free chunk. *)
Lemma s_init_index : index_ok s_init fl_init /\ fresh_node s_init fl_init 8000.
Proof.
  pose proof s_init_inv as [A L Hsep Hidx _ _].
  destruct s_init_facts as (Ehp & _).
  split.
  - split; [rewrite Ehp; split; [discriminate|reflexivity]|].
    split; [exact L|]. split; [|exact Hsep].
    apply (nodes_ok_arena s_init bs_init fl_init [] A Hidx).
  - split.
    + unfold node_ok. rewrite Ehp. lia.
    + intros i n Hn. apply Hidx in Hn as [(sz & pa & Hin & _) _].
      rewrite Ehp in Hin. simpl in Hin.
      destruct Hin as [E|[E|[]]]; inversion E; unfold apart; lia.
Qed.

Lemma insert_list_front_witness :
  index_ok s_init fl_init /\ fresh_node s_init fl_init 8000 /\
  index_ok (insert_list s_init 8000 64) (enlist fl_init 8000 64).
Proof.
  destruct s_init_index as [HI HF].
  split; [exact HI|]. split; [exact HF|].
  exact (proj1 (insert_list_front s_init fl_init 8000 64 HI HF)).
Defined.

Lemma remove_list_unlinks_witness :
  index_ok s_init fl_init /\ In 4112 (fl_init (class 4096)) /\
  index_ok (remove_list s_init 4112 4096) (unlist fl_init 4112 4096).
Proof.
  destruct s_init_index as [HI _].
  assert (Hin : In 4112 (fl_init (class 4096))) by (left; reflexivity).
  split; [exact HI|]. split; [exact Hin|].
  exact (proj1 (remove_list_unlinks s_init fl_init 4112 4096 HI Hin)).
Defined.

Lemma insert_remove_round_trip_witness :
  index_ok s_init fl_init /\ fresh_node s_init fl_init 8000 /\
  index_ok (remove_list (insert_list s_init 8000 64) 8000 64) fl_init.
Proof.
  destruct s_init_index as [HI HF].
  split; [exact HI|]. split; [exact HF|].
  exact (proj1 (insert_remove_round_trip s_init fl_init 8000 64 HI HF)).
Defined.

(** ** Growing and initialising the arena *)



(** A successful growth, with the new break. *)
Lemma extend_grow s bs fl size :
  heap_inv s bs fl ->
  16 <= size -> size mod 8 = 0 -> mem_brk s + size <= mem_max_addr s ->
  let hp := heap_listp s in
  let r := extend_heap s (size / 4) in
  fst r <> 0 /\ mem_brk (snd r) = mem_brk s + size /\
  heap_listp (snd r) = hp /\ mem_max_addr (snd r) = mem_max_addr s /\
  (exists pre1 csize rest1 fl1,
     heap_inv (snd r) (pre1 ++ (csize, false, true) :: rest1) fl1 /\
     fst r = hp + 8 + total pre1 /\ size <= csize /\
     (forall p sz, allocated (hp + 8) bs p sz ->
        allocated (hp + 8) (pre1 ++ (csize, false, true) :: rest1) p sz)) /\
  (forall y, protected (hp + 8) bs y -> mem (snd r) y = mem s y).
Proof.
  intros HI H16 H8 Hroom hp r.
  pose proof HI as [A _ _ _ _ _]. pose proof A as [A1 _ _ _ _ _ W].
  destruct (extend_alloc s bs fl size HI H16 H8 Hroom)
    as (pre1 & csize & rest1 & fl1 & Y1 & Y2 & Y3 & Y4 & Y5 & Y6 & Y7).
  fold hp r in Y1, Y2, Y4, Y5, Y6, Y7.
  assert (Eb : mem_brk (snd r) = mem_brk s + size).
  { destruct (wf_blocks_last _ W) as (pre & e & E). subst bs.
    destruct (extend_heap_ok s pre e fl size HI H16 H8 Hroom)
      as (_ & _ & _ & X4 & _). exact X4. }
  pose proof (heap_inv_sz8 _ _ _ Y1) as W1.
  apply Forall_app in W1 as [W1 _]. pose proof (total_nonneg _ W1) as T1.
  split; [fold hp in A1; lia|]. split; [exact Eb|]. split; [exact Y5|].
  split; [exact Y6|]. split; [|exact Y7].
  exists pre1, csize, rest1, fl1. auto.
Qed.



(** X9.  In a process whose arena holds at most [2 ^ 32] bytes, [mm_init]
    returns 0 exactly when the arena can grow by the 16 bytes of the
    sentinels and the 4096 bytes of the first chunk, and -1 otherwise.
    When not even the sentinels fit, the only trace it leaves is
    [heap_listp], which holds the error value of [mem_sbrk]; when the
    sentinels fit and the chunk does not, the sentinels stay in place. *)
Theorem mm_init_result s :
  0 < mem_brk s -> mem_brk s <= mem_max_addr s ->
  mem_max_addr s - mem_brk s < 2 ^ 32 -> mem_max_addr s < 2 ^ 64 ->
  (fst (mm_init s) = 0 <-> mem_brk s + 16 + 4096 <= mem_max_addr s) /\
  (fst (mm_init s) = 0 \/ fst (mm_init s) = -1) /\
  (mem_max_addr s < mem_brk s + 16 ->
   snd (mm_init s) = set_heap_listp s MINUS1) /\
  (mem_brk s + 16 <= mem_max_addr s < mem_brk s + 16 + 4096 ->
   snd (mm_init s) = init_state s).
Proof.
  intros H0 H1 H2 H3.
  assert (Cases : mem_brk s + 16 + 4096 <= mem_max_addr s /\ fst (mm_init s) = 0 \/
                  mem_max_addr s < mem_brk s + 16 /\ fst (mm_init s) = -1 /\
                    snd (mm_init s) = set_heap_listp s MINUS1 \/
                  mem_brk s + 16 <= mem_max_addr s < mem_brk s + 16 + 4096 /\
                    fst (mm_init s) = -1 /\ snd (mm_init s) = init_state s).
  { destruct (Z_le_gt_dec (mem_brk s + 16 + 4096) (mem_max_addr s)) as [Hr|Hn].
    - left. split; [exact Hr|].
      destruct (mm_init_ok s H0 Hr H2 H3) as (E & _). exact E.
    - right. destruct (Z_le_gt_dec (mem_brk s + 16) (mem_max_addr s)) as [Hs|Hs].
      + right. split; [lia|].
        rewrite mm_init_eq by lia. cbn zeta.
        rewrite extend_heap_fail.
        * split; reflexivity.
        * change (mem_brk (init_state s)) with (mem_brk s + 16).
          change (mem_max_addr (init_state s)) with (mem_max_addr s).
          cbn. lia.
      + left. split; [lia|]. unfold mm_init, mem_sbrk, WSIZE.
        destruct (Z.gtb_spec (mem_brk s + 4 * 4) (mem_max_addr s)) as [_|H]; [|lia].
        split; reflexivity. }
  split; [|split; [|split]].
  - destruct Cases as [[Hr E]|[(Hn & E & _)|(Hn & E & _)]]; rewrite E; split; intros;
      try assumption; try reflexivity; try lia; discriminate.
  - destruct Cases as [[_ E]|[(_ & E & _)|(_ & E & _)]]; rewrite E; auto.
  - intros Hn. destruct Cases as [[Hr _]|[(_ & _ & E)|(Hm & _)]]; [lia|exact E|lia].
  - intros Hn. destruct Cases as [[Hr _]|[(Hm & _)|(_ & _ & E)]]; [lia|lia|exact E].
Qed.

Lemma mm_init_result_witness :
  0 < mem_brk arena_small /\ mem_brk arena_small <= mem_max_addr arena_small /\
  mem_max_addr arena_small - mem_brk arena_small < 2 ^ 32 /\
  mem_max_addr arena_small < 2 ^ 64 /\
  (fst (mm_init arena_small) = 0 <->
   mem_brk arena_small + 16 + 4096 <= mem_max_addr arena_small).
Proof.
  assert (H0 : 0 < mem_brk arena_small) by reflexivity.
  assert (H1 : mem_brk arena_small <= mem_max_addr arena_small) by discriminate.
  assert (H2 : mem_max_addr arena_small - mem_brk arena_small < 2 ^ 32) by reflexivity.
  assert (H3 : mem_max_addr arena_small < 2 ^ 64) by reflexivity.
  split; [exact H0|]. split; [exact H1|]. split; [exact H2|]. split; [exact H3|].
  exact (proj1 (mm_init_result arena_small H0 H1 H2 H3)).
Defined.

(** ** Allocation, step by step *)

Lemma lists_from_In k i (fl : nat -> list Z) x :
  (k <= i < 10)%nat -> In x (fl i) -> In x (lists_from k fl).
Proof.
  intros Hi Hx. unfold lists_from. apply in_concat. exists (fl i).
  split; [|exact Hx]. apply in_map. apply in_seq. lia.
Qed.

(** The adjusted size is the least multiple of 8, 16 at least, with room
    for the request and the header. *)
Lemma adjusted_least n sz :
  0 < n < 2 ^ 64 - 11 -> 16 <= sz -> sz mod 8 = 0 -> n + 4 <= sz ->
  adjusted n <= sz.
Proof.
  intros Hn H16 H8 Hsz. unfold adjusted, WSIZE, DSIZE.
  destruct (Z.leb_spec n 4); [lia|].
  rewrite (wrap64_small (n + 4)) by lia.
  rewrite (wrap64_small (n + 4 + (8 - 1))) by lia.
  pose proof (Z.div_mod (n + 4 + (8 - 1)) 8) as E.
  pose proof (Z.mod_pos_bound (n + 4 + (8 - 1)) 8) as B.
  rewrite wrap64_small by lia.
  pose proof (Z.div_mod sz 8) as Es. lia.
Qed.

(** Which way [malloc] goes, and where the break ends up. *)
Lemma malloc_detail fuel s bs fl size :
  heap_inv s bs fl -> fuel_ok fuel fl -> 0 < size < 2 ^ 64 - 11 ->
  let asize := adjusted size in
  let ext := MAX asize CHUNKSIZE in
  let bp := spec_find_fit s fl asize in
  (bp <> 0 /\ malloc fuel s size = Some (bp, place s bp asize) /\
   mem_brk (place s bp asize) = mem_brk s /\
   exists pre csize pa rest,
     bs = pre ++ (csize, false, pa) :: rest /\
     bp = heap_listp s + 8 + total pre /\ asize <= csize) \/
  (bp = 0 /\ mem_max_addr s < mem_brk s + ext /\
   malloc fuel s size = Some (0, s)) \/
  (bp = 0 /\ mem_brk s + ext <= mem_max_addr s /\
   exists q s', malloc fuel s size = Some (q, s') /\ q <> 0 /\
                mem_brk s' = mem_brk s + ext).
Proof.
  intros HI Hfuel Hsize asize ext bp.
  pose proof HI as [A _ _ Hidx _ _]. pose proof A as [A1 _ _ _ _ _ _].
  destruct (adjusted_ok size Hsize) as (Ha16 & Ha8 & Hasz & Ha64). fold asize in Ha16, Ha8, Hasz, Ha64.
  assert (Hhp0 : heap_listp s <> 0) by lia.
  assert (Hs0 : size <> 0) by lia.
  rewrite (malloc_eq fuel s size Hhp0 Hs0). fold asize.
  rewrite (find_fit_spec s bs fl asize fuel HI Hfuel). fold bp.
  destruct (first_fit_cases (mem s) asize (lists_from (class asize) fl))
    as [[E0 _]|[Hin Hfit]].
  - right. assert (Ebp : bp = 0) by exact E0. rewrite Ebp. cbn [Z.eqb negb]. cbn zeta.
    destruct (MAX_ok asize Ha16 Ha8) as (He16 & He8 & Hea). fold ext in He16, He8, Hea.
    fold ext.
    destruct (Z_le_gt_dec (mem_brk s + ext) (mem_max_addr s)) as [Hroom|Hfull].
    + right. split; [reflexivity|]. split; [exact Hroom|].
      change (ext / WSIZE) with (ext / 4).
      destruct (extend_grow s bs fl ext HI He16 He8 Hroom)
        as (G1 & G2 & G3 & G4 & (pre1 & csize & rest1 & fl1 & Y1 & Y2 & Y3 & _) & _).
      set (r := extend_heap s (ext / 4)) in *.
      destruct (Z.eqb_spec (fst r) 0) as [|_]; [contradiction|].
      assert (Has : 16 <= asize <= csize) by lia.
      destruct (place_alloc (snd r) pre1 csize true rest1 fl1 asize Y1 Has Ha8)
        as (bs' & fl' & szq & _ & _ & _ & _ & _ & _ & Z7 & _).
      rewrite G3, <- Y2 in Z7.
      exists (fst r), (place (snd r) (fst r) asize).
      split; [reflexivity|]. split; [exact G1|]. rewrite Z7. exact G2.
    + left. split; [reflexivity|]. split; [lia|].
      rewrite extend_heap_fail; [reflexivity|].
      cbn zeta. fold (extend_size (ext / WSIZE)).
      rewrite extend_size_ok; [exact Hfull| |exact He8].
      unfold ext, MAX. change CHUNKSIZE with 4096.
      destruct (Z.gtb_spec asize 4096); lia.
  - left.
    assert (Edef : bp = first_fit (mem s) asize (lists_from (class asize) fl))
      by reflexivity.
    rewrite <- Edef in Hin, Hfit.
    destruct (In_lists_from _ _ _ Hin) as (i & _ & Hi).
    destruct (nodes_in_layout _ _ _ _ _ _ Hidx Hi) as (csize & pa & Hl & _ & _).
    pose proof (arena_size _ _ _ _ A Hl) as Hsz.
    change (bsize (csize, false, pa)) with csize in Hsz.
    unfold fits in Hfit. rewrite Hsz in Hfit. apply Z.leb_le in Hfit.
    destruct (node_ok_block _ _ _ _ A Hl) as [[Hn _] _].
    destruct (layout_In_split _ _ _ _ Hl) as (pre & rest & Ebs & Ebp).
    assert (Hq : bp <> 0) by lia.
    destruct (Z.eqb_spec bp 0) as [|_]; [contradiction|]. cbn [negb].
    split; [exact Hq|]. split; [reflexivity|].
    assert (Has : 16 <= asize <= csize) by lia.
    subst bs.
    destruct (place_alloc s pre csize pa rest fl asize HI Has Ha8)
      as (bs' & fl' & szq & _ & _ & _ & _ & _ & _ & Z7 & _).
    rewrite <- Ebp in Z7. split; [exact Z7|].
    exists pre, csize, pa, rest. auto.
Qed.

Lemma with_fuel fuel s fl size r :
  malloc fuel s size = Some r ->
  exists fuel', fuel_ok fuel' fl /\ malloc fuel' s size = Some r.
Proof.
  intros H. destruct (enough_fuel fuel fl) as (fuel' & Hle & Hok).
  exists fuel'. split; [exact Hok|]. apply (malloc_mono fuel fuel' s size r Hle H).
Qed.

(** Where [malloc] leaves the break. *)
Lemma malloc_brk fuel s bs fl size q s' :
  heap_inv s bs fl -> 0 < size < 2 ^ 64 - 11 ->
  malloc fuel s size = Some (q, s') ->
  let asize := adjusted size in
  let ext := MAX asize CHUNKSIZE in
  (spec_find_fit s fl asize <> 0 ->
   q = spec_find_fit s fl asize /\ mem_brk s' = mem_brk s) /\
  (spec_find_fit s fl asize = 0 ->
   (q = 0 /\ mem_max_addr s < mem_brk s + ext /\ s' = s) \/
   (q <> 0 /\ mem_brk s + ext <= mem_max_addr s /\ mem_brk s' = mem_brk s + ext)) /\
  mem_brk s <= mem_brk s'.
Proof.
  intros HI Hsize Hm. cbn zeta.
  destruct (with_fuel fuel s fl size _ Hm) as (fuel' & Hok & Hm').
  destruct (adjusted_ok size Hsize) as (Ha16 & _).
  assert (Hext : 0 < MAX (adjusted size) CHUNKSIZE).
  { unfold MAX. change CHUNKSIZE with 4096.
    destruct (Z.gtb_spec (adjusted size) 4096); lia. }
  pose proof (malloc_detail fuel' s bs fl size HI Hok Hsize) as D. cbn zeta in D.
  rewrite Hm' in D.
  destruct D as [(D1 & D2 & D3 & _)|[(D1 & D2 & D3)|(D1 & D2 & q0 & s0 & D3 & D4 & D5)]].
  - inversion D2; subst q s'. split; [intros _; split; [reflexivity|exact D3]|].
    split; [intros E; contradiction|]. rewrite D3. lia.
  - inversion D3; subst q s'. split; [intros E; contradiction|].
    split; [intros _; left; auto|lia].
  - inversion D3; subst q0 s0. split; [intros E; contradiction|].
    split; [intros _; right; auto|lia].
Qed.

(** After the release of a live block there is a free block at least as
    large. *)
Lemma free_merged s bs fl p sz :
  heap_inv s bs fl -> allocated (heap_listp s + 8) bs p sz ->
  exists bs' fl' x S,
    heap_inv (free s p) bs' fl' /\ sz <= S /\
    In (x, (S, false, true)) (layout (heap_listp s + 8) bs') /\
    heap_listp (free s p) = heap_listp s /\ mem_brk (free s p) = mem_brk s /\
    mem_max_addr (free s p) = mem_max_addr s.
Proof.
  intros HI Hp.
  pose proof HI as [[_ _ _ _ _ _ W] _ _ _ _ _].
  pose proof (heap_inv_sz8 _ _ _ HI) as W8.
  destruct (allocated_inner _ _ _ _ W Hp) as (pre & pa & rest & -> & Hrest & Ep).
  destruct (free_ok s pre sz pa rest fl HI Hrest) as (F1 & F2 & F3 & F4 & _).
  rewrite <- Ep in F1, F2, F3, F4.
  set (b := (sz, false, pa)) in *.
  exists (coal_pre pre b ++ (coal_size pre b rest, false, true) :: coal_rest rest),
         (coal_lists (heap_listp s) pre b rest fl),
         (heap_listp s + 8 + total (coal_pre pre b)), (coal_size pre b rest).
  split; [exact F1|]. split; [|split; [|auto]].
  - apply Forall_app in W8 as [W8a W8b].
    inversion W8b as [|? ? _ W8c].
    assert (Hs : 0 <= (if balloc (succ_blk rest) then 0 else bsize (succ_blk rest))).
    { destruct rest as [|kn tl]; [congruence|].
      inversion W8c as [|? ? [K0 _] _].
      unfold succ_blk; simpl. destruct (balloc kn); lia. }
    assert (Hpd : 0 <= (if pa then 0 else bsize (pred_blk pre))).
    { destruct pa; [lia|].
      destruct (heap_inv_pred_free s pre (sz, true, false) rest fl HI eq_refl)
        as (pre0 & k & E & _). rewrite E in *.
      unfold pred_blk. rewrite last_last.
      apply Forall_app in W8a as [_ W8k]. inversion W8k as [|? ? [K0 _] _]. lia. }
    unfold coal_size, b. cbn [bprev bsize fst snd]. lia.
  - apply layout_In_app. right. left. auto.
Qed.

(** ** What a call of [malloc] comes to *)

Lemma allocated_header s bs fl p sz :
  heap_inv s bs fl -> allocated (heap_listp s + 8) bs p sz ->
  GET_SIZE (mem s) (HDRP p) = sz /\ GET_ALLOC (mem s) (HDRP p) = 1 /\
  16 <= sz /\ sz mod 8 = 0 /\
  heap_listp s + 8 <= p /\ p + sz <= mem_brk s /\
  (p - heap_listp s) mod 8 = 0.
Proof.
  intros HI Hp. pose proof HI as [A _ _ _ _ _].
  pose proof A as [_ _ _ _ _ S W].
  destruct (allocated_addr _ _ _ _ A Hp) as [_ Esz].
  destruct (allocated_inner _ _ _ _ W Hp) as (pre & pa & rest & -> & Hrest & Ep).
  destruct (arena_split _ _ _ _ A Hrest) as (W0 & [K16 K8] & _ & _ & G & _ & _ & Hin & T0 & _).
  cbn zeta in G, Hin. rewrite <- Ep in G, Hin.
  cbn [bsize balloc bprev fst snd] in *.
  destruct (node_ok_block _ _ _ _ A Hin) as [[Hn _] Hb].
  cbn [bsize fst snd] in Hb.
  split; [exact Esz|]. split; [apply (GET_ALLOC_hdr _ _ _ _ _ G K8)|].
  split; [exact K16|]. split; [exact K8|]. split; [exact Hn|]. split; [exact Hb|].
  replace (p - heap_listp s) with (total pre + 1 * 8) by lia.
  rewrite Z.mod_add by lia. apply total_mod8. apply Forall_size_ok_sz8. exact W0.
Qed.

(** X10.  In an arena that satisfies the invariant, [malloc] of a positive
    size below [2 ^ 64 - 11] returns null exactly when no listed block is
    large enough for the adjusted size and the arena cannot grow by the
    larger of the adjusted size and 4096 bytes; the state is then as it
    was.  Otherwise it returns the payload address of a block marked
    allocated, inside the arena, with room for the request after the
    header, that shares no byte with the payload of a block allocated
    before; no such payload byte is written and the invariant holds again.
    When a listed block fits, the pointer is the first fit and the break
    stays; when none fits, the break moves up by exactly the larger of the
    adjusted size and 4096. *)
Theorem malloc_outcome fuel s bs fl size :
  heap_inv s bs fl -> fuel_ok fuel fl -> 0 < size < 2 ^ 64 - 11 ->
  let hp := heap_listp s in
  let asize := adjusted size in
  let ext := MAX asize CHUNKSIZE in
  let fit := spec_find_fit s fl asize in
  exists q s', malloc fuel s size = Some (q, s') /\
    (q = 0 <-> fit = 0 /\ mem_max_addr s < mem_brk s + ext) /\
    (q = 0 -> s' = s) /\
    (q <> 0 ->
     (exists bs' fl', heap_inv s' bs' fl') /\
     size + 4 <= GET_SIZE (mem s') (HDRP q) /\
     GET_ALLOC (mem s') (HDRP q) = 1 /\
     hp + 8 <= q /\ q + GET_SIZE (mem s') (HDRP q) <= mem_brk s' /\
     mem_brk s' <= mem_max_addr s' /\
     (forall y, protected (hp + 8) bs y ->
        mem s' y = mem s y /\
        ~ (q - 4 <= y < q + GET_SIZE (mem s') (HDRP q) - 4)) /\
     (fit <> 0 -> q = fit /\ mem_brk s' = mem_brk s) /\
     (fit = 0 -> mem_brk s' = mem_brk s + ext)).
Proof.
  intros HI Hfuel Hsize hp asize ext fit.
  destruct (malloc_ok fuel s bs fl size HI Hfuel Hsize) as (q & s' & Em & Hcase).
  destruct (malloc_brk fuel s bs fl size q s' HI Hsize Em) as (B1 & B2 & _).
  fold asize ext fit in B1, B2. fold hp in Hcase.
  exists q, s'. split; [exact Em|].
  destruct Hcase as [(-> & -> & Hfull)|(Hq & bs' & fl' & szq & M1 & M2 & M3 & M4 & M5 & M6 & M7 & M8)].
  - split; [|split; [reflexivity|intros X; elim X; reflexivity]].
    split; [|reflexivity]. intros _.
    destruct (Z.eq_dec fit 0) as [E|E]; [|destruct (B1 E) as [E' _]; congruence].
    split; [exact E|]. destruct (B2 E) as [(_ & H & _)|(H & _)]; [exact H|congruence].
  - split; [split; [intros; contradiction|]|split; [intros; contradiction|]].
    + intros [E Hfull]. destruct (B2 E) as [(H & _)|(_ & H & _)]; [exact H|lia].
    + intros _. rewrite <- M6 in M2.
      destruct (allocated_header s' bs' fl' q szq M1 M2)
        as (Esz & Eal & K16 & K8 & Hlo & Hhi & _).
      rewrite M6 in M2, Hlo. rewrite Esz.
      pose proof M1 as [[_ _ Hmax _ _ _ _] _ _ _ _ _].
      pose proof (heap_inv_sz8 _ _ _ M1) as W1.
      split; [exists bs', fl'; exact M1|]. split; [exact M3|].
      split; [exact Eal|]. split; [exact Hlo|]. split; [exact Hhi|].
      split; [exact Hmax|]. split; [|split].
      * intros y Hy. split; [apply M8, Hy|].
        apply protected_allocated in Hy as (p & sz & Hp & Hr).
        assert (Hne : q <> p) by (intros ->; exact (M5 sz Hp)).
        pose proof (M4 _ _ Hp) as Hp1.
        destruct (allocated_apart _ _ _ _ _ _ W1 Hp1 M2 Hne); lia.
      * intros E. destruct (B1 E) as [E1 E2]. auto.
      * intros E. destruct (B2 E) as [(H & _)|(_ & _ & H)]; [contradiction|exact H].
Qed.

Lemma malloc_outcome_witness :
  heap_inv s_init bs_init fl_init /\ fuel_ok 3 fl_init /\ 0 < 100 < 2 ^ 64 - 11 /\
  exists q s', malloc 3 s_init 100 = Some (q, s').
Proof.
  assert (Hn : 0 < 100 < 2 ^ 64 - 11) by (split; reflexivity).
  split; [exact s_init_inv|]. split; [exact fl_init_fuel|]. split; [exact Hn|].
  destruct (malloc_outcome 3 s_init bs_init fl_init 100 s_init_inv fl_init_fuel Hn)
    as (q & s' & E & _).
  exists q, s'. exact E.
Defined.

(** X11.  A request that fits into a block just released is served
    without growing the arena: after [free] of a live block of [sz] bytes,
    [malloc] of at most [sz - 4] bytes returns a block and leaves the break
    where it was, for every fuel from some bound on. *)
Theorem free_then_malloc s bs fl p sz n :
  heap_inv s bs fl -> allocated (heap_listp s + 8) bs p sz ->
  0 < n -> n + 4 <= sz ->
  exists fuel0 q s',
    q <> 0 /\ mem_brk s' = mem_brk s /\
    forall fuel, (fuel0 <= fuel)%nat ->
                 malloc fuel (free s p) n = Some (q, s').
Proof.
  intros HI Hp Hn Hsz.
  destruct (allocated_header s bs fl p sz HI Hp) as (_ & _ & K16 & K8 & Hlo & Hhi & _).
  pose proof HI as [[A1 _ Amax Alim Atop _ _] _ _ _ _ _].
  assert (Hsize : 0 < n < 2 ^ 64 - 11).
  { assert (2 ^ 32 + 11 < 2 ^ 64) by reflexivity. lia. }
  destruct (free_merged s bs fl p sz HI Hp)
    as (bs' & fl' & x & S & F1 & F2 & F3 & F4 & F5 & F6).
  set (s1 := free s p) in *.
  destruct (enough_fuel 0 fl') as (fuel0 & _ & Hok).
  pose proof (adjusted_least n sz Hsize K16 K8 Hsz) as Hadj.
  (* the merged block is a fit *)
  rewrite <- F4 in F3.
  pose proof F1 as [A' _ _ Hidx _ _].
  assert (Hx : In x (fl' (class S))).
  { apply Hidx. split; [|intros []]. exists S, true. auto. }
  pose proof (arena_size _ _ _ _ A' F3) as Gx. cbn [bsize fst] in Gx.
  assert (Hl : In x (lists_from (class (adjusted n)) fl')).
  { apply (lists_from_In _ (class S)); [|exact Hx].
    split; [apply class_mono; lia|apply class_lt]. }
  assert (Hfit : spec_find_fit s1 fl' (adjusted n) <> 0).
  { unfold spec_find_fit, first_fit.
    destruct (find (fits (mem s1) (adjusted n)) (lists_from (class (adjusted n)) fl'))
      as [y|] eqn:E.
    - apply find_some in E as [Hy _].
      destruct (In_lists_from _ _ _ Hy) as (i & _ & Hi).
      destruct (listed_is_block _ _ _ _ _ F1 Hi) as (sy & py & Hin & _).
      destruct (node_ok_block _ _ _ _ A' Hin) as [[Hn' _] _].
      rewrite F4 in Hn'. lia.
    - exfalso. pose proof (find_none _ _ E x Hl) as Hf.
      unfold fits in Hf. rewrite Gx in Hf. apply Z.leb_gt in Hf. lia. }
  destruct (malloc_ok fuel0 s1 bs' fl' n F1 Hok Hsize) as (q & s' & Em & Hcase).
  destruct (malloc_brk fuel0 s1 bs' fl' n q s' F1 Hsize Em) as (B1 & _).
  destruct (B1 Hfit) as [Eq Eb].
  exists fuel0, q, s'. split; [rewrite Eq; exact Hfit|].
  split; [rewrite Eb; exact F5|].
  intros fuel Hle. apply (malloc_mono fuel0 fuel _ _ _ Hle Em).
Qed.

Lemma free_then_malloc_witness :
  heap_inv s_one bs_one fl_one /\ allocated (heap_listp s_one + 8) bs_one 4112 16 /\
  0 < 12 /\ 12 + 4 <= 16 /\
  exists fuel0 q s',
    q <> 0 /\ mem_brk s' = mem_brk s_one /\
    forall fuel, (fuel0 <= fuel)%nat ->
                 malloc fuel (free s_one 4112) 12 = Some (q, s').
Proof.
  assert (H1 : 0 < 12) by reflexivity.
  assert (H2 : 12 + 4 <= 16) by discriminate.
  split; [exact s_one_inv|]. split; [exact s_one_allocated|].
  split; [exact H1|]. split; [exact H2|].
  apply (free_then_malloc s_one bs_one fl_one 4112 16 12
           s_one_inv s_one_allocated H1 H2).
Defined.

Lemma same_index s s' bs fl fl' :
  heap_inv s bs fl -> heap_inv s' bs fl' -> heap_listp s' = heap_listp s ->
  forall k x, In x (fl' k) <-> In x (fl k).
Proof.
  intros [_ _ _ H _ _] [_ _ _ H' _ _] E k x. rewrite E in H'.
  rewrite (H k x), (H' k x). reflexivity.
Qed.

(** X12.  In an arena that satisfies the invariant, releasing a block
    right after [malloc] carved it out of a listed block for a request of 1
    to [2 ^ 64 - 12] bytes (the break did not move) undoes the allocation:
    the arena is again the sequence of blocks it was before the call, with
    the same blocks in the same lists, and the invariant holds.  (A larger
    request wraps around and is another matter.) *)
Theorem malloc_free_round_trip fuel s bs fl size q s' :
  heap_inv s bs fl -> 0 < size < 2 ^ 64 - 11 ->
  malloc fuel s size = Some (q, s') -> q <> 0 -> mem_brk s' = mem_brk s ->
  exists fl',
    heap_inv (free s' q) bs fl' /\
    (forall k x, In x (fl' k) <-> In x (fl k)) /\
    heap_listp (free s' q) = heap_listp s /\ mem_brk (free s' q) = mem_brk s.
Proof.
  intros HI Hsize Hm Hq Hbrk.
  destruct (with_fuel fuel s fl size _ Hm) as (fuel' & Hok & Hm').
  destruct (adjusted_ok size Hsize) as (Ha16 & Ha8 & _).
  assert (Hext : 0 < MAX (adjusted size) CHUNKSIZE).
  { unfold MAX. change CHUNKSIZE with 4096.
    destruct (Z.gtb_spec (adjusted size) 4096); lia. }
  pose proof (malloc_detail fuel' s bs fl size HI Hok Hsize) as D. cbn zeta in D.
  rewrite Hm' in D.
  destruct D as [(_ & D2 & _ & pre & csize & pa & rest & -> & Ebp & Hle)
                |[(_ & _ & D3)|(_ & _ & q0 & s0 & D3 & _ & D5)]];
    [|inversion D3; congruence|inversion D3; subst q0 s0; lia].
  inversion D2 as [[Eq Es]]. clear D2.
  set (asize := adjusted size) in *.
  rewrite <- ?Es, <- ?Eq.
  destruct (heap_inv_free_block _ _ _ _ _ _ HI) as (-> & szn & tl & -> & _).
  assert (Has : 16 <= asize <= csize) by lia.
  destruct (place_ok s pre csize true ((szn, true, false) :: tl) fl asize HI Has Ha8)
    as (P1 & P2 & P3 & _).
  rewrite <- Ebp in P1, P2, P3. rewrite <- Es in P1, P2, P3.
  assert (Eq' : q = heap_listp s' + 8 + total pre) by (rewrite P2; lia).
  unfold place_blocks in P1.
  destruct (Z.geb_spec (csize - asize) 16) as [Hbig|Hsmall].
  - assert (Hr : (csize - asize, false, true) :: (szn, true, false) :: tl <> [])
      by (intros X; discriminate X).
    destruct (free_ok s' pre asize true _ _ P1 Hr) as (F1 & F2 & F3 & _).
    rewrite <- Eq' in F1, F2, F3.
    unfold coal_pre, coal_size, coal_rest, succ_blk in F1.
    cbn [bprev balloc bsize hd List.tl fst snd set_pa] in F1.
    replace (asize + 0 + (csize - asize)) with csize in F1 by lia.
    eexists. split; [exact F1|]. split; [|split; [congruence|congruence]].
    apply (same_index s _ _ fl _ HI F1). congruence.
  - assert (Hr : set_pa true ((szn, true, false) :: tl) <> [])
      by (intros X; discriminate X).
    destruct (free_ok s' pre csize true _ _ P1 Hr) as (F1 & F2 & F3 & _).
    rewrite <- Eq' in F1, F2, F3.
    unfold coal_pre, coal_size, coal_rest, succ_blk in F1.
    cbn [bprev balloc bsize hd List.tl fst snd set_pa] in F1.
    replace (csize + 0 + 0) with csize in F1 by lia.
    eexists. split; [exact F1|]. split; [|split; [congruence|congruence]].
    apply (same_index s _ _ fl _ HI F1). congruence.
Qed.

Lemma malloc_free_round_trip_witness :
  heap_inv s_init bs_init fl_init /\ 0 < 12 < 2 ^ 64 - 11 /\
  exists q s', malloc 3 s_init 12 = Some (q, s') /\ q <> 0 /\
    mem_brk s' = mem_brk s_init /\
    exists fl', heap_inv (free s' q) bs_init fl'.
Proof.
  assert (Hn : 0 < 12 < 2 ^ 64 - 11) by (split; reflexivity).
  split; [exact s_init_inv|]. split; [exact Hn|].
  assert (E : match malloc 3 s_init 12 with
              | Some (q, s') => q <> 0 /\ mem_brk s' = mem_brk s_init
              | None => False
              end).
  { vm_compute. split; [intros X; discriminate X|reflexivity]. }
  destruct (malloc 3 s_init 12) as [[q s']|] eqn:Em; [|destruct E].
  destruct E as [Hq Hb].
  exists q, s'. split; [reflexivity|]. split; [exact Hq|]. split; [exact Hb|].
  destruct (malloc_free_round_trip 3 s_init bs_init fl_init 12 q s'
              s_init_inv Hn Em Hq Hb) as (fl' & H & _).
  exists fl'. exact H.
Defined.

(** ** The blocks handed out *)

Lemma live_allocated s live p :
  reachable s live -> In p live ->
  exists bs fl, heap_inv s bs fl /\
    allocated (heap_listp s + 8) bs p (GET_SIZE (mem s) (HDRP p)) /\
    forall q, In q live ->
      allocated (heap_listp s + 8) bs q (GET_SIZE (mem s) (HDRP q)).
Proof.
  intros R Hp. destruct (reachable_inv s live R) as (bs & fl & HI & HL).
  assert (H : forall q, In q live ->
            allocated (heap_listp s + 8) bs q (GET_SIZE (mem s) (HDRP q))).
  { intros q Hq. destruct (HL q Hq) as (sz & Ha).
    destruct (allocated_header s bs fl q sz HI Ha) as (-> & _). exact Ha. }
  exists bs, fl. auto.
Qed.

(** X13.  In every reachable state (see [reachable]: an arena below [2 ^ 32]
    bytes, requests that do not wrap around, stores of the client into its
    blocks), every pointer the interface has handed out and not taken back
    is the payload address of a block whose header says allocated, with a
    size of at least 16 bytes that is a multiple of 8; the block lies
    between the first block address and the break, which is within the limit
    of the arena; the pointer is a multiple of 8 away from [heap_listp],
    hence [aligned] whenever [heap_listp] is. *)
Theorem live_block_shape s live p :
  reachable s live -> In p live ->
  let sz := GET_SIZE (mem s) (HDRP p) in
  GET_ALLOC (mem s) (HDRP p) = 1 /\ 16 <= sz /\ sz mod 8 = 0 /\
  heap_listp s + 8 <= p /\ p + sz <= mem_brk s /\
  mem_brk s <= mem_max_addr s /\
  (p - heap_listp s) mod 8 = 0 /\
  (heap_listp s mod 8 = 0 -> aligned p = true).
Proof.
  intros R Hp sz.
  destruct (live_allocated s live p R Hp) as (bs & fl & HI & Ha & _).
  destruct (allocated_header s bs fl p _ HI Ha) as (_ & Eal & K16 & K8 & Hlo & Hhi & Hm).
  fold sz in K16, K8, Hhi.
  pose proof HI as [[A1 _ Amax _ Atop _ _] _ _ _ _ _].
  split; [exact Eal|]. split; [exact K16|]. split; [exact K8|].
  split; [exact Hlo|]. split; [exact Hhi|]. split; [exact Amax|].
  split; [exact Hm|].
  intros Hal. apply aligned_mod8; [lia|].
  replace p with (heap_listp s + (p - heap_listp s)) by lia.
  rewrite Z.add_mod, Hal, Hm by lia. reflexivity.
Qed.

Lemma live_block_shape_witness :
  reachable s_mix [4288; 4168; 4128] /\ In 4128 [4288; 4168; 4128] /\
  GET_ALLOC (mem s_mix) (HDRP 4128) = 1 /\
  16 <= GET_SIZE (mem s_mix) (HDRP 4128).
Proof.
  assert (Hin : In 4128 [4288; 4168; 4128]) by (do 2 right; left; reflexivity).
  split; [exact s_mix_reachable|]. split; [exact Hin|].
  destruct (live_block_shape s_mix _ 4128 s_mix_reachable Hin) as (H1 & H2 & _).
  split; [exact H1|exact H2].
Defined.

(** X14.  In every reachable state (see [reachable]), two distinct pointers
    handed out and not taken back never share a byte: the block of one ends
    before the header of the other begins. *)
Theorem live_blocks_disjoint s live p q :
  reachable s live -> In p live -> In q live -> p <> q ->
  p + GET_SIZE (mem s) (HDRP p) <= q \/ q + GET_SIZE (mem s) (HDRP q) <= p.
Proof.
  intros R Hp Hq Hne.
  destruct (live_allocated s live p R Hp) as (bs & fl & HI & Ha & HL).
  pose proof (HL q Hq) as Hb.
  pose proof (heap_inv_sz8 _ _ _ HI) as W.
  destruct (allocated_apart _ _ _ _ _ _ W Hb Ha Hne) as [H|H]; [left|right]; exact H.
Qed.

Lemma live_blocks_disjoint_witness :
  reachable s_mix [4288; 4168; 4128] /\
  In 4128 [4288; 4168; 4128] /\ In 4168 [4288; 4168; 4128] /\
  4128 <> 4168 /\
  (4128 + GET_SIZE (mem s_mix) (HDRP 4128) <= 4168 \/
   4168 + GET_SIZE (mem s_mix) (HDRP 4168) <= 4128).
Proof.
  assert (H1 : In 4128 [4288; 4168; 4128]) by (do 2 right; left; reflexivity).
  assert (H2 : In 4168 [4288; 4168; 4128]) by (right; left; reflexivity).
  assert (H3 : 4128 <> 4168) by discriminate.
  split; [exact s_mix_reachable|]. split; [exact H1|]. split; [exact H2|].
  split; [exact H3|].
  apply (live_blocks_disjoint s_mix _ 4128 4168 s_mix_reachable H1 H2 H3).
Defined.

(** ** What the interface leaves alone *)

(** [realloc], once more, for the bytes of the other blocks and the
    break. *)
Lemma realloc_more fuel s bs fl p szp n q s' :
  heap_inv s bs fl -> allocated (heap_listp s + 8) bs p szp ->
  0 < n < 2 ^ 64 - 11 -> realloc fuel s p n = Some (q, s') ->
  mem_brk s <= mem_brk s' /\ heap_listp s' = heap_listp s /\
  mem_max_addr s' = mem_max_addr s /\
  forall r szr y, allocated (heap_listp s + 8) bs r szr -> r <> p ->
                  r <= y < r + szr - 4 -> mem s' y = mem s y.
Proof.
  intros HI Hp Hn Hr.
  destruct (enough_fuel fuel fl) as (fuel' & Hle & Hfuel).
  apply (realloc_mono fuel fuel' _ _ _ _ Hle) in Hr.
  destruct (realloc_ok fuel' s bs fl p szp n HI Hfuel Hp Hn)
    as (q0 & s1 & Em & [(-> & -> & Er)|(Hq0 & Hqp & Hrest)]).
  - rewrite Er in Hr. inversion Hr; subst q s'.
    split; [lia|]. split; [reflexivity|]. split; [reflexivity|]. reflexivity.
  - cbn zeta in Hrest. destruct Hrest as (Er & _ & _).
    rewrite Er in Hr. inversion Hr as [[Eq Es]]. clear Hr Er. subst q0.
    destruct (malloc_brk fuel' s bs fl n q s1 HI Hn Em) as (_ & _ & Hb).
    destruct (malloc_ok fuel' s bs fl n HI Hfuel Hn) as (q' & s1' & Em' & Hcase).
    rewrite Em in Em'. inversion Em'; subst q' s1'. clear Em'.
    destruct Hcase as [(E & _)|(_ & bs1 & fl1 & szq & M1 & M2 & M3 & M4 & M5 & M6 & M7 & M8)];
      [contradiction|].
    pose proof (M4 _ _ Hp) as Hp1.
    pose proof (heap_inv_sz8 _ _ _ M1) as W1.
    set (c := Z.min n szp) in *.
    set (s2 := set_mem s1 (memcpy (mem s1) q p c)) in *.
    assert (HI2 : heap_inv s2 bs1 fl1).
    { apply heap_inv_payload; [exact M1|].
      intros y Hy. unfold memcpy.
      destruct (Z.leb_spec q y); [|reflexivity].
      destruct (Z.ltb_spec y (q + c)); [|reflexivity]. simpl.
      exfalso. apply Hy. rewrite M6.
      apply (allocated_protected _ _ q szq); [exact M2|]. unfold c in *. lia. }
    assert (Hp2 : allocated (heap_listp s2 + 8) bs1 p szp).
    { change (heap_listp s2) with (heap_listp s1). rewrite M6. exact Hp1. }
    destruct (free_alloc s2 bs1 fl1 p szp HI2 Hp2)
      as (bs3 & fl3 & _ & _ & _ & F4 & F5 & F6 & F7).
    change (heap_listp s2) with (heap_listp s1) in F4, F7.
    change (mem_brk s2) with (mem_brk s1) in F5.
    change (mem_max_addr s2) with (mem_max_addr s1) in F6.
    rewrite M6 in F4, F7. rewrite M7 in F6.
    split; [rewrite F5; exact Hb|]. split; [exact F4|]. split; [exact F6|].
    intros r szr y Ha Hne Hy.
    pose proof (M4 _ _ Ha) as Ha1.
    assert (Hrq : q <> r) by (intros ->; exact (M5 szr Ha)).
    rewrite F7.
    + change (mem s2) with (memcpy (mem s1) q p c). unfold memcpy.
      destruct (allocated_apart _ _ _ _ _ _ W1 Ha1 M2 Hrq) as [Hd|Hd].
      * destruct (Z.leb_spec q y); [|apply M8, (allocated_protected _ _ r szr); auto].
        destruct (Z.ltb_spec y (q + c)); [unfold c in *; lia|].
        apply M8, (allocated_protected _ _ r szr); auto.
      * destruct (Z.leb_spec q y); [lia|].
        apply M8, (allocated_protected _ _ r szr); auto.
    + apply (allocated_protected _ _ r szr); auto.
    + destruct (allocated_apart _ _ _ _ _ _ W1 Hp1 Ha1 Hne); lia.
Qed.

(** One call of the interface from a state that satisfies the invariant:
    [heap_listp] and the limit of the arena stay, the break does not move
    down, and the payload bytes of the blocks that the call is not about
    keep their values. *)
Lemma malloc_fields fuel s bs fl size q s' :
  heap_inv s bs fl -> 0 <= size < 2 ^ 64 - 11 ->
  malloc fuel s size = Some (q, s') ->
  heap_listp s' = heap_listp s /\ mem_max_addr s' = mem_max_addr s /\
  mem_brk s <= mem_brk s' /\
  forall y, protected (heap_listp s + 8) bs y -> mem s' y = mem s y.
Proof.
  intros HI Hsize Hm.
  destruct (Z.eq_dec size 0) as [->|Hne].
  { rewrite (malloc_zero_size_inv fuel s bs fl HI) in Hm. inversion Hm; subst q s'.
    split; [reflexivity|]. split; [reflexivity|]. split; [lia|reflexivity]. }
  assert (Hpos : 0 < size < 2 ^ 64 - 11) by lia.
  destruct (malloc_brk fuel s bs fl size q s' HI Hpos Hm) as (_ & _ & Hb).
  destruct (with_fuel fuel s fl size _ Hm) as (fuel' & Hok & Hm').
  destruct (malloc_ok fuel' s bs fl size HI Hok Hpos) as (q' & s'' & Em & Hcase).
  rewrite Hm' in Em. inversion Em; subst q' s''. clear Em.
  destruct Hcase as [(_ & -> & _)|(_ & bs' & fl' & szq & _ & _ & _ & _ & _ & M6 & M7 & M8)].
  - split; [reflexivity|]. split; [reflexivity|]. split; [lia|reflexivity].
  - auto.
Qed.

Lemma free_fields s bs fl p :
  heap_inv s bs fl ->
  p = 0 \/ (exists sz, allocated (heap_listp s + 8) bs p sz) ->
  heap_listp (free s p) = heap_listp s /\
  mem_max_addr (free s p) = mem_max_addr s /\
  mem_brk (free s p) = mem_brk s /\
  forall r szr y, allocated (heap_listp s + 8) bs r szr -> r <> p ->
                  r <= y < r + szr - 4 -> mem (free s p) y = mem s y.
Proof.
  intros HI [->|(sz & Ha)].
  - change (free s 0) with s. repeat split; reflexivity.
  - destruct (free_alloc s bs fl p sz HI Ha) as (_ & _ & _ & _ & _ & F4 & F5 & F6 & F7).
    split; [exact F4|]. split; [exact F6|]. split; [exact F5|].
    intros r szr y Hr Hne Hy. pose proof (heap_inv_sz8 _ _ _ HI) as W.
    apply F7; [apply (allocated_protected _ _ r szr); [exact Hr|exact Hy]|].
    destruct (allocated_apart _ _ _ _ _ _ W Ha Hr Hne) as [H|H]; lia.
Qed.

Lemma realloc_fields fuel s bs fl p n q s' :
  heap_inv s bs fl ->
  p = 0 \/ (exists sz, allocated (heap_listp s + 8) bs p sz) ->
  0 <= n < 2 ^ 64 - 11 -> realloc fuel s p n = Some (q, s') ->
  heap_listp s' = heap_listp s /\ mem_max_addr s' = mem_max_addr s /\
  mem_brk s <= mem_brk s' /\
  forall r szr y, allocated (heap_listp s + 8) bs r szr -> r <> p ->
                  r <= y < r + szr - 4 -> mem s' y = mem s y.
Proof.
  intros HI Hp Hn Hr.
  destruct (Z.eq_dec n 0) as [->|Hn0].
  { unfold realloc in Hr. cbn [Z.eqb] in Hr. inversion Hr; subst q s'.
    destruct (free_fields s bs fl p HI Hp) as (F1 & F2 & F3 & F4).
    split; [exact F1|]. split; [exact F2|]. split; [lia|exact F4]. }
  destruct Hp as [->|(sz & Ha)].
  - unfold realloc in Hr.
    destruct (Z.eqb_spec n 0) as [|_]; [contradiction|]. cbn [Z.eqb] in Hr.
    destruct (malloc_fields fuel s bs fl n q s' HI Hn Hr) as (F1 & F2 & F3 & F4).
    split; [exact F1|]. split; [exact F2|]. split; [exact F3|].
    intros r szr y Har _ Hy. apply F4, (allocated_protected _ _ r szr); auto.
  - assert (Hpos : 0 < n < 2 ^ 64 - 11) by lia.
    destruct (realloc_more fuel s bs fl p sz n q s' HI Ha Hpos Hr) as (F1 & F2 & F3 & F4).
    auto.
Qed.

Lemma calloc_fields fuel s bs fl nmemb size q s' :
  heap_inv s bs fl -> wrap64 (nmemb * size) < 2 ^ 64 - 11 ->
  calloc fuel s nmemb size = Some (q, s') ->
  q <> 0 \/ wrap64 (nmemb * size) = 0 ->
  heap_listp s' = heap_listp s /\ mem_max_addr s' = mem_max_addr s /\
  mem_brk s <= mem_brk s' /\
  forall y, protected (heap_listp s + 8) bs y -> mem s' y = mem s y.
Proof.
  intros HI Hb Hc Hq.
  assert (B : 0 <= wrap64 (nmemb * size)) by (apply Z.mod_pos_bound; lia).
  assert (Hfields : heap_listp s' = heap_listp s /\
                    mem_max_addr s' = mem_max_addr s /\ mem_brk s <= mem_brk s').
  { unfold calloc in Hc.
    destruct (malloc fuel s (wrap64 (nmemb * size))) as [[q0 t]|] eqn:Em;
      [|discriminate Hc].
    inversion Hc; subst q0 s'.
    assert (Hsz : 0 <= wrap64 (nmemb * size) < 2 ^ 64 - 11) by lia.
    destruct (malloc_fields fuel s bs fl _ q t HI Hsz Em) as (F1 & F2 & F3 & _).
    auto. }
  destruct Hfields as (F1 & F2 & F3).
  split; [exact F1|]. split; [exact F2|]. split; [exact F3|].
  destruct (Z.eq_dec (wrap64 (nmemb * size)) 0) as [E0|Hne].
  - unfold calloc in Hc. rewrite E0, (malloc_zero_size_inv fuel s bs fl HI) in Hc.
    inversion Hc; subst q s'. intros y _. cbn [mem set_mem]. unfold memset.
    destruct (Z.leb_spec 0 y); destruct (Z.ltb_spec y (0 + 0));
      try reflexivity; lia.
  - destruct Hq as [Hq|Hq]; [|contradiction].
    assert (Hpos : 0 < wrap64 (nmemb * size) < 2 ^ 64 - 11) by lia.
    destruct (enough_fuel fuel fl) as (fuel' & Hle & Hfuel).
    apply (calloc_mono fuel fuel' _ _ _ _ Hle) in Hc.
    destruct (calloc_ok fuel' s bs fl nmemb size HI Hfuel Hpos) as (q0 & s0 & Ec & Hcase).
    rewrite Ec in Hc. inversion Hc; subst q0 s0. clear Hc.
    destruct Hcase as [(E & _)|(_ & _ & _ & F)]; [contradiction|]. exact F.
Qed.

(** X15.  From a reachable state (see [reachable]), whatever the client
    stored in its blocks: no call of the interface writes into the payload
    of a block it handed out earlier and is not asked to release or resize,
    and no store of the client into one of its blocks reaches another: a
    byte of the payload of a live block holds after [malloc], after [free]
    or [realloc] of the null pointer or of another live block, after a
    [calloc] that succeeds or asks for no bytes and after a store into
    another live block what it held before. *)
Theorem live_payloads_untouched s live q y :
  reachable s live -> In q live ->
  q <= y < q + payload_size (mem s) q ->
  (forall fuel size r s',
     0 <= size < 2 ^ 64 - 11 -> malloc fuel s size = Some (r, s') ->
     mem s' y = mem s y) /\
  (forall p, p = 0 \/ In p live -> p <> q -> mem (free s p) y = mem s y) /\
  (forall fuel p n r s',
     p = 0 \/ In p live -> p <> q -> 0 <= n < 2 ^ 64 - 11 ->
     realloc fuel s p n = Some (r, s') -> mem s' y = mem s y) /\
  (forall fuel nmemb size r s',
     wrap64 (nmemb * size) < 2 ^ 64 - 11 ->
     calloc fuel s nmemb size = Some (r, s') ->
     r <> 0 \/ wrap64 (nmemb * size) = 0 ->
     mem s' y = mem s y) /\
  (forall p x v,
     In p live -> p <> q -> p <= x < p + payload_size (mem s) p ->
     mem (set_mem s (store8 (mem s) x v)) y = mem s y).
Proof.
  intros R Hq Hy. unfold payload_size, WSIZE in Hy.
  destruct (live_allocated s live q R Hq) as (bs & fl & HI & Ha & HL).
  set (szq := GET_SIZE (mem s) (HDRP q)) in *.
  assert (Hpr : protected (heap_listp s + 8) bs y)
    by (apply (allocated_protected _ _ q szq); [exact Ha|lia]).
  assert (Hlive : forall p, p = 0 \/ In p live ->
            p = 0 \/ exists sz, allocated (heap_listp s + 8) bs p sz).
  { intros p [->|Hp]; [left; reflexivity|right; eexists; apply (HL p Hp)]. }
  pose proof (heap_inv_sz8 _ _ _ HI) as W.
  split; [|split; [|split; [|split]]].
  - intros fuel size r s' Hsize Hm.
    destruct (malloc_fields fuel s bs fl size r s' HI Hsize Hm) as (_ & _ & _ & F).
    apply F, Hpr.
  - intros p Hp Hne.
    destruct (free_fields s bs fl p HI (Hlive p Hp)) as (_ & _ & _ & F).
    apply (F q szq y Ha); [congruence|lia].
  - intros fuel p n r s' Hp Hne Hn Hr.
    destruct (realloc_fields fuel s bs fl p n r s' HI (Hlive p Hp) Hn Hr)
      as (_ & _ & _ & F).
    apply (F q szq y Ha); [congruence|lia].
  - intros fuel nmemb size r s' Hb Hc Hr.
    destruct (calloc_fields fuel s bs fl nmemb size r s' HI Hb Hc Hr)
      as (_ & _ & _ & F).
    apply F, Hpr.
  - intros p x v Hp Hne Hx. unfold payload_size, WSIZE in Hx.
    pose proof (HL p Hp) as Hb. cbn [mem set_mem]. unfold store8.
    destruct (Z.eqb_spec y x) as [E|_]; [|reflexivity]. exfalso.
    assert (Hqp : q <> p) by congruence.
    destruct (allocated_apart _ _ _ _ _ _ W Hb Ha Hqp) as [H|H]; lia.
Qed.

Lemma live_payloads_untouched_witness :
  reachable s_mix [4288; 4168; 4128] /\ In 4128 [4288; 4168; 4128] /\
  4128 <= 4130 < 4128 + payload_size (mem s_mix) 4128 /\
  mem s_mix 4130 = 255 /\
  mem (free s_mix 4168) 4130 = mem s_mix 4130.
Proof.
  assert (H1 : In 4128 [4288; 4168; 4128]) by (do 2 right; left; reflexivity).
  assert (H2 : In 4168 [4288; 4168; 4128]) by (right; left; reflexivity).
  assert (H3 : 4168 <> 4128) by discriminate.
  assert (Hy : 4128 <= 4130 < 4128 + payload_size (mem s_mix) 4128).
  { vm_compute. split; [discriminate|reflexivity]. }
  split; [exact s_mix_reachable|]. split; [exact H1|]. split; [exact Hy|].
  split; [vm_compute; reflexivity|].
  exact (proj1 (proj2 (live_payloads_untouched s_mix _ 4128 4130
                         s_mix_reachable H1 Hy)) 4168 (or_intror H2) H3).
Defined.

(** X16.  The arena only grows: from a reachable state (see [reachable]), no
    call of the interface with a request below [2 ^ 64 - 11] bytes moves
    [heap_listp] or the limit of the arena, [free] leaves the break where it
    is, and [malloc], [realloc] and [calloc] never move it down. *)
Theorem arena_only_grows s live :
  reachable s live ->
  (forall fuel size r s',
     0 <= size < 2 ^ 64 - 11 -> malloc fuel s size = Some (r, s') ->
     heap_listp s' = heap_listp s /\ mem_max_addr s' = mem_max_addr s /\
     mem_brk s <= mem_brk s') /\
  (forall p, p = 0 \/ In p live ->
     heap_listp (free s p) = heap_listp s /\
     mem_max_addr (free s p) = mem_max_addr s /\
     mem_brk (free s p) = mem_brk s) /\
  (forall fuel p n r s',
     p = 0 \/ In p live -> 0 <= n < 2 ^ 64 - 11 ->
     realloc fuel s p n = Some (r, s') ->
     heap_listp s' = heap_listp s /\ mem_max_addr s' = mem_max_addr s /\
     mem_brk s <= mem_brk s') /\
  (forall fuel nmemb size r s',
     wrap64 (nmemb * size) < 2 ^ 64 - 11 ->
     calloc fuel s nmemb size = Some (r, s') ->
     r <> 0 \/ wrap64 (nmemb * size) = 0 ->
     heap_listp s' = heap_listp s /\ mem_max_addr s' = mem_max_addr s /\
     mem_brk s <= mem_brk s').
Proof.
  intros R. destruct (reachable_inv s live R) as (bs & fl & HI & HL).
  assert (Hlive : forall p, p = 0 \/ In p live ->
            p = 0 \/ exists sz, allocated (heap_listp s + 8) bs p sz).
  { intros p [->|Hp]; [left; reflexivity|right; apply (HL p Hp)]. }
  split; [|split; [|split]].
  - intros fuel size r s' Hsize Hm.
    destruct (malloc_fields fuel s bs fl size r s' HI Hsize Hm) as (F1 & F2 & F3 & _).
    auto.
  - intros p Hp.
    destruct (free_fields s bs fl p HI (Hlive p Hp)) as (F1 & F2 & F3 & _). auto.
  - intros fuel p n r s' Hp Hn Hr.
    destruct (realloc_fields fuel s bs fl p n r s' HI (Hlive p Hp) Hn Hr)
      as (F1 & F2 & F3 & _).
    auto.
  - intros fuel nmemb size r s' Hb Hc Hr.
    destruct (calloc_fields fuel s bs fl nmemb size r s' HI Hb Hc Hr)
      as (F1 & F2 & F3 & _).
    auto.
Qed.

Lemma arena_only_grows_witness :
  reachable s_mix [4288; 4168; 4128] /\
  mem_brk (free s_mix 4168) = mem_brk s_mix.
Proof.
  assert (H1 : In 4168 [4288; 4168; 4128]) by (right; left; reflexivity).
  split; [exact s_mix_reachable|].
  destruct (arena_only_grows s_mix _ s_mix_reachable) as (_ & F & _).
  exact (proj2 (proj2 (F 4168 (or_intror H1)))).
Defined.

(** ** Pointers that are new *)

Lemma malloc_new fuel s live size q s' :
  reachable s live -> 0 <= size < 2 ^ 64 - 11 ->
  malloc fuel s size = Some (q, s') -> q <> 0 ->
  ~ In q live /\
  size + 4 <= GET_SIZE (mem s') (HDRP q) /\
  heap_listp s' = heap_listp s /\
  forall p, In p live ->
    GET_SIZE (mem s') (HDRP p) = GET_SIZE (mem s) (HDRP p) /\
    (p + GET_SIZE (mem s) (HDRP p) <= q \/
     q + GET_SIZE (mem s') (HDRP q) <= p).
Proof.
  intros R Hsize0 Hm Hq.
  destruct (reachable_inv s live R) as (bs & fl & HI & HL).
  assert (Hsize : 0 < size < 2 ^ 64 - 11).
  { destruct (Z.eq_dec size 0) as [->|]; [|lia].
    rewrite (malloc_zero_size_inv fuel s bs fl HI) in Hm.
    inversion Hm; subst q. elim Hq. reflexivity. }
  destruct (with_fuel fuel s fl size _ Hm) as (fuel' & Hok & Hm').
  destruct (malloc_ok fuel' s bs fl size HI Hok Hsize) as (q' & s'' & Em & Hcase).
  rewrite Hm' in Em. inversion Em; subst q' s''. clear Em.
  destruct Hcase as [(E & _)|(_ & bs' & fl' & szq & M1 & M2 & M3 & M4 & M5 & M6 & M7 & M8)];
    [contradiction|].
  rewrite <- M6 in M2, M4.
  destruct (allocated_header s' bs' fl' q szq M1 M2) as (Eq & _).
  pose proof (heap_inv_sz8 _ _ _ M1) as W.
  assert (Hnew : ~ In q live).
  { intros Hin. destruct (HL q Hin) as (sz & Ha). exact (M5 sz Ha). }
  split; [exact Hnew|]. split; [rewrite Eq; exact M3|]. split; [exact M6|].
  intros p Hp. destruct (HL p Hp) as (sz & Ha).
  destruct (allocated_header s bs fl p sz HI Ha) as (Ep & _).
  assert (Ha' : allocated (heap_listp s' + 8) bs' p sz)
    by (apply M4; rewrite M6; exact Ha).
  destruct (allocated_header s' bs' fl' p sz M1 Ha') as (Ep' & _).
  split; [congruence|]. rewrite Ep, Eq.
  assert (Hne : q <> p) by (intros ->; exact (Hnew Hp)).
  destruct (allocated_apart _ _ _ _ _ _ W Ha' M2 Hne) as [H|H]; [right|left]; exact H.
Qed.

(** X17.  From a reachable state (see [reachable]), [malloc] for fewer than
    [2 ^ 64 - 11] bytes never hands out a block twice: a pointer it returns
    is none of the pointers handed out and not yet taken back, its block has
    room for the request after the header, and the block shares no byte with
    theirs, whose sizes are as they were. *)
Theorem malloc_fresh fuel s live size q s' :
  reachable s live -> 0 <= size < 2 ^ 64 - 11 ->
  malloc fuel s size = Some (q, s') -> q <> 0 ->
  ~ In q live /\
  size + 4 <= GET_SIZE (mem s') (HDRP q) /\
  forall p, In p live ->
    GET_SIZE (mem s') (HDRP p) = GET_SIZE (mem s) (HDRP p) /\
    (p + GET_SIZE (mem s) (HDRP p) <= q \/
     q + GET_SIZE (mem s') (HDRP q) <= p).
Proof.
  intros R Hsize Hm Hq.
  destruct (malloc_new fuel s live size q s' R Hsize Hm Hq) as (H1 & H2 & _ & H3).
  auto.
Qed.

Lemma s_two_eq : malloc 3 s_live 24 = Some (4128, s_two).
Proof.
  assert (E : match malloc 3 s_live 24 with
              | Some (q, _) => q = 4128
              | None => False
              end) by (vm_compute; reflexivity).
  unfold s_two.
  destruct (malloc 3 s_live 24) as [[q t]|]; [|destruct E]. subst q. reflexivity.
Qed.

Lemma malloc_fresh_witness :
  reachable s_live [4112] /\ 0 <= 24 < 2 ^ 64 - 11 /\
  malloc 3 s_live 24 = Some (4128, s_two) /\ 4128 <> 0 /\
  ~ In 4128 [4112].
Proof.
  assert (Hn : 0 <= 24 < 2 ^ 64 - 11) by (split; [discriminate|reflexivity]).
  assert (Hq : 4128 <> 0) by discriminate.
  split; [exact s_live_reachable|]. split; [exact Hn|].
  split; [exact s_two_eq|]. split; [exact Hq|].
  exact (proj1 (malloc_fresh 3 s_live [4112] 24 4128 s_two
                  s_live_reachable Hn s_two_eq Hq)).
Defined.

(** X18.  From a reachable state (see [reachable]), a [calloc] for a byte
    count below [2 ^ 64 - 11] that does not return null returns a pointer
    that is none of the pointers handed out and not yet taken back, to a
    block with room for [nmemb * size] bytes (modulo [2 ^ 64]) after the
    header, and each of these bytes is zero. *)
Theorem calloc_zeroed fuel s live nmemb size q s' :
  reachable s live ->
  let bytes := wrap64 (nmemb * size) in
  bytes < 2 ^ 64 - 11 ->
  calloc fuel s nmemb size = Some (q, s') -> q <> 0 ->
  ~ In q live /\
  bytes + 4 <= GET_SIZE (mem s') (HDRP q) /\
  (forall i, 0 <= i < bytes -> mem s' (q + i) = 0) /\
  heap_listp s' = heap_listp s.
Proof.
  intros R bytes Hb Hc Hq. unfold calloc in Hc. fold bytes in Hc.
  destruct (malloc fuel s bytes) as [[q0 t]|] eqn:Em; [|discriminate Hc].
  inversion Hc; subst q0 s'. clear Hc.
  assert (Hb' : 0 <= bytes < 2 ^ 64 - 11).
  { split; [apply Z.mod_pos_bound; lia|exact Hb]. }
  destruct (malloc_new fuel s live bytes q t R Hb' Em Hq) as (H1 & H2 & H3 & _).
  split; [exact H1|]. split; [|split; [|exact H3]].
  - assert (E : GET_SIZE (memset (mem t) q 0 bytes) (HDRP q) = GET_SIZE (mem t) (HDRP q)).
    { unfold GET_SIZE. f_equal. apply GET_agree. intros x Hx. unfold HDRP, WSIZE in Hx.
      unfold memset. destruct (Z.leb_spec q x); [|reflexivity].
      destruct (Z.ltb_spec x (q + bytes)); [lia|reflexivity]. }
    cbn [mem set_mem]. rewrite E. exact H2.
  - intros i Hi. cbn [mem set_mem]. unfold memset.
    destruct (Z.leb_spec q (q + i)); [|lia].
    destruct (Z.ltb_spec (q + i) (q + bytes)); [|lia]. reflexivity.
Qed.

Lemma calloc_zeroed_witness :
  reachable s_mix [4288; 4168; 4128] /\ wrap64 (3 * 8) < 2 ^ 64 - 11 /\
  exists q s', calloc 3 s_mix 3 8 = Some (q, s') /\ q <> 0 /\
    mem s' q = 0.
Proof.
  assert (Hn : wrap64 (3 * 8) < 2 ^ 64 - 11) by reflexivity.
  split; [exact s_mix_reachable|]. split; [exact Hn|].
  assert (E : match calloc 3 s_mix 3 8 with
              | Some (q, _) => q <> 0
              | None => False
              end).
  { vm_compute. intros X; discriminate X. }
  destruct (calloc 3 s_mix 3 8) as [[q s']|] eqn:Ec; [|destruct E].
  exists q, s'. split; [reflexivity|]. split; [exact E|].
  destruct (calloc_zeroed 3 s_mix _ 3 8 q s' s_mix_reachable Hn Ec E)
    as (_ & _ & Z0 & _).
  assert (H0 : 0 <= 0 < wrap64 (3 * 8)) by (split; [discriminate|reflexivity]).
  pose proof (Z0 0 H0) as H. rewrite Z.add_0_r in H. exact H.
Defined.

(** ** The heap checker *)

(** A word read one to three bytes below a word whose low three bits are
    not all zero has a size field that is not zero. *)
Lemma GET_SIZE_unaligned m q d :
  1 <= d <= 3 -> GET m q mod 8 <> 0 -> 0 < GET_SIZE m (q - d).
Proof.
  intros Hd Hq.
  assert (L : 1 <= load8 m q).
  { pose proof (load8_range m q) as R.
    destruct (Z.eq_dec (load8 m q) 0) as [E|E]; [|lia].
    exfalso. apply Hq. unfold GET. rewrite E.
    replace (0 + 2 ^ 8 * load8 m (q + 1) + 2 ^ 16 * load8 m (q + 2)
             + 2 ^ 24 * load8 m (q + 3))
      with ((32 * load8 m (q + 1) + 8192 * load8 m (q + 2)
             + 2097152 * load8 m (q + 3)) * 8) by lia.
    apply Z.mod_mul. lia. }
  assert (G : 256 <= GET m (q - d)).
  { unfold GET.
    pose proof (load8_range m (q - d)). pose proof (load8_range m (q - d + 1)).
    pose proof (load8_range m (q - d + 2)). pose proof (load8_range m (q - d + 3)).
    assert (C : d = 1 \/ d = 2 \/ d = 3) by lia.
    destruct C as [->|[->| ->]].
    - replace (q - 1 + 1) with q in * by lia. lia.
    - replace (q - 2 + 2) with q in * by lia. lia.
    - replace (q - 3 + 3) with q in * by lia. lia. }
  unfold GET_SIZE.
  pose proof (Z.div_mod (GET m (q - d)) 8) as E.
  pose proof (Z.mod_pos_bound (GET m (q - d)) 8) as B.
  rewrite E at 1 by lia. rewrite land_not7 by lia. lia.
Qed.

Lemma hdr_mod8 sz a pa : sz mod 8 = 0 -> hdr sz a pa mod 8 = b2z a + 2 * b2z pa.
Proof.
  intros H. destruct (hdr_form sz a pa H) as [-> Hc].
  rewrite Z.add_comm, (Z.mul_comm 8 (sz / 8)), Z.mod_add by lia.
  apply Z.mod_small. lia.
Qed.

(** What the first loop finds one step after [heap_listp]: the word after
    [heap_listp] is the header of the first block, and the loop takes it
    for a link. *)
Lemma heap_walk_second s bs fl :
  heap_inv s bs fl ->
  let ptr := GET_NEXT (mem s) (heap_listp s) (heap_listp s) in
  0 < GET_SIZE (mem s) ptr /\
  (heap_listp s mod 8 = 0 -> aligned ptr = false).
Proof.
  intros HI ptr. pose proof HI as [A _ _ _ Hpa Hadj].
  pose proof A as [A1 A2 A3 A4 A5 A6 A7].
  set (hp := heap_listp s) in *.
  destruct bs as [|[[sz a] pa] rest]; [destruct A7|].
  cbn [pa_ok bprev balloc fst snd] in Hpa. destruct Hpa as [-> Hpa].
  cbn [seg] in A6. destruct A6 as (G1 & _ & S).
  replace (HDRP (hp + 8)) with (hp + 4) in G1 by (unfold HDRP, WSIZE; lia).
  assert (T : 0 <= total rest /\ 0 <= sz /\ sz mod 8 = 0 /\
              (b2z a + 2) <> 0 /\
              exists q d, hp + sz + b2z a + 2 = q - d /\ 1 <= d <= 3 /\
                          GET (mem s) q mod 8 <> 0).
  { destruct rest as [|[[sz2 a2] pa2] rest'].
    - cbn [wf_blocks bsize balloc fst snd] in A7. destruct A7 as [-> ->].
      split; [simpl; lia|]. split; [lia|]. split; [reflexivity|].
      split; [discriminate|]. exists (hp + 4), 1.
      split; [simpl; lia|]. split; [lia|]. rewrite G1. discriminate.
    - cbn [wf_blocks] in A7. destruct A7 as [[K16 K8] W].
      cbn [bsize fst] in K16, K8.
      assert (W' : wf_blocks ((sz2, a2, pa2) :: rest')) by exact W.
      pose proof (total_nonneg _ (wf_blocks_sz8 _ W')) as T.
      split; [exact T|]. split; [lia|]. split; [exact K8|].
      split; [destruct a; discriminate|].
      cbn [pa_ok bprev balloc fst snd] in Hpa. destruct Hpa as [-> _].
      cbn [no_adjacent_free balloc fst snd] in Hadj.
      destruct Hadj as (_ & Ha2 & _).
      cbn [seg] in S. destruct S as (G2 & _).
      replace (HDRP (hp + 8 + sz)) with (hp + 4 + sz) in G2
        by (unfold HDRP, WSIZE; lia).
      assert (K2 : sz2 mod 8 = 0).
      { destruct rest'.
        - cbn [wf_blocks bsize fst] in W. destruct W as [-> _]. reflexivity.
        - cbn [wf_blocks] in W. destruct W as [[_ K] _]. exact K. }
      exists (hp + 4 + sz), (2 - b2z a).
      split; [lia|]. split; [destruct a; simpl; lia|].
      rewrite G2, (hdr_mod8 _ _ _ K2).
      destruct a; [simpl; destruct a2; discriminate|].
      rewrite (Ha2 eq_refl). discriminate. }
  destruct T as (T0 & S0 & S8 & Hbits & q & d & Eq & Hd & Hq).
  assert (Eptr : ptr = hp + sz + b2z a + 2).
  { unfold ptr, GET_NEXT, OF2ADDR, WSIZE. rewrite G1. unfold hdr.
    cbn [total bsize fst] in A2.
    rewrite wrap64_small; [simpl; lia|].
    destruct a; simpl; lia. }
  split.
  - rewrite Eptr, Eq. apply GET_SIZE_unaligned; assumption.
  - intros Hal. destruct (aligned ptr) eqn:E; [|reflexivity]. exfalso.
    cbn [total bsize fst] in A2.
    assert (R : 0 <= ptr < 2 ^ 64) by (rewrite Eptr; destruct a; simpl; lia).
    apply (aligned_mod8 ptr R) in E. rewrite Eptr in E.
    replace (hp + sz + b2z a + 2) with (b2z a + 2 + (hp + sz)) in E by lia.
    rewrite <- Z.add_mod_idemp_r in E by lia.
    assert (E0 : (hp + sz) mod 8 = 0).
    { rewrite Z.add_mod, Hal, S8 by lia. reflexivity. }
    rewrite E0, Z.add_0_r in E. destruct a; discriminate E.
Qed.

Lemma heap_walk_stops fuel lo hi s bs fl :
  heap_inv s bs fl -> (2 <= fuel)%nat ->
  heap_walk fuel lo hi s (heap_listp s) =
  Some (if GET_SIZE (mem s) (heap_listp s) >? 0
        then inl (if aligned (heap_listp s) && negb (in_heap lo hi (heap_listp s))
                  then Block_not_in_heap else Alignment_Error)
        else inr (heap_listp s)).
Proof.
  intros HI Hfuel.
  destruct fuel as [|[|fuel]]; [lia|lia|].
  destruct (heap_walk_second s bs fl HI) as [Hsz Hal]. cbn zeta in Hsz, Hal.
  pose proof HI as [A _ _ _ _ _]. pose proof A as [A1 A2 A3 A4 A5 _ _].
  pose proof (total_nonneg _ (heap_inv_sz8 _ _ _ HI)) as T.
  cbn [heap_walk].
  destruct (GET_SIZE (mem s) (heap_listp s) >? 0); [|reflexivity].
  destruct (aligned (heap_listp s)) eqn:E1; [|reflexivity].
  destruct (in_heap lo hi (heap_listp s)); [|reflexivity].
  cbn [negb andb].
  assert (R : 0 <= heap_listp s < 2 ^ 64) by lia.
  apply (aligned_mod8 _ R) in E1.
  rewrite (Hal E1).
  destruct (Z.gtb_spec (GET_SIZE (mem s) (GET_NEXT (mem s) (heap_listp s) (heap_listp s))) 0);
    [reflexivity|lia].
Qed.

(** X19.  [mm_checkheap] accepts no well-formed heap: whenever the word at
    [heap_listp] (the footer of the prologue, as [mm_init] writes it) has
    a size field that is not zero, the checker exits with a report.  Its
    first loop follows [GET_NEXT] from [heap_listp], reads the header of
    the first block as a link and lands on an address that is not a
    multiple of 8, where it reports an alignment error; it reports the
    same at once when [heap_listp] is not a multiple of 8, and a block
    outside the heap when [in_heap] rejects [heap_listp]. *)
Theorem mm_checkheap_rejects fuel lo hi s bs fl verbose :
  heap_inv s bs fl -> 0 < GET_SIZE (mem s) (heap_listp s) -> (2 <= fuel)%nat ->
  mm_checkheap fuel lo hi s verbose =
  Some (Exited (if aligned (heap_listp s) && negb (in_heap lo hi (heap_listp s))
                then Block_not_in_heap else Alignment_Error)).
Proof.
  intros HI Hsz Hfuel. unfold mm_checkheap.
  rewrite (heap_walk_stops fuel lo hi s bs fl HI Hfuel).
  destruct (Z.gtb_spec (GET_SIZE (mem s) (heap_listp s)) 0); [reflexivity|lia].
Qed.

Lemma mm_checkheap_rejects_witness :
  heap_inv s_init bs_init fl_init /\
  0 < GET_SIZE (mem s_init) (heap_listp s_init) /\ (2 <= 2)%nat /\
  mm_checkheap 2 4096 8207 s_init 0 = Some (Exited Alignment_Error).
Proof.
  assert (Hsz : 0 < GET_SIZE (mem s_init) (heap_listp s_init)) by reflexivity.
  assert (Hfuel : (2 <= 2)%nat) by apply le_n.
  split; [exact s_init_inv|]. split; [exact Hsz|]. split; [exact Hfuel|].
  exact (mm_checkheap_rejects 2 4096 8207 s_init bs_init fl_init 0
           s_init_inv Hsz Hfuel).
Defined.

(** X20.  Called right after a successful [mm_init], [mm_checkheap] does
    not return: it exits with a report, an alignment error when the arena
    starts at a multiple of 8 and [in_heap] accepts [heap_listp]. *)
Theorem mm_checkheap_after_init fuel lo hi s verbose :
  0 < mem_brk s -> mem_brk s + 16 + 4096 <= mem_max_addr s ->
  mem_max_addr s - mem_brk s < 2 ^ 32 -> mem_max_addr s < 2 ^ 64 ->
  (2 <= fuel)%nat ->
  let s' := snd (mm_init s) in
  fst (mm_init s) = 0 /\
  (exists r, mm_checkheap fuel lo hi s' verbose = Some (Exited r)) /\
  (mem_brk s mod 8 = 0 -> in_heap lo hi (mem_brk s + 8) = true ->
   mm_checkheap fuel lo hi s' verbose = Some (Exited Alignment_Error)).
Proof.
  intros H0 H1 H2 H3 Hfuel s'.
  destruct (mm_init_ok s H0 H1 H2 H3) as (R0 & HI & Ehp & _ & _ & _ & G & _).
  fold s' in HI, Ehp, G.
  assert (Hsz : (GET_SIZE (mem s') (heap_listp s') >? 0) = true).
  { unfold GET_SIZE. rewrite Ehp, G. reflexivity. }
  assert (E : mm_checkheap fuel lo hi s' verbose =
              Some (Exited (if aligned (heap_listp s')
                               && negb (in_heap lo hi (heap_listp s'))
                            then Block_not_in_heap else Alignment_Error))).
  { unfold mm_checkheap.
    rewrite (heap_walk_stops fuel lo hi s' _ _ HI Hfuel), Hsz. reflexivity. }
  split; [exact R0|]. split; [eexists; exact E|].
  intros Hal Hin. rewrite E, Ehp, Hin, andb_false_r. reflexivity.
Qed.

Lemma mm_checkheap_after_init_witness :
  0 < mem_brk arena0 /\ mem_brk arena0 + 16 + 4096 <= mem_max_addr arena0 /\
  mem_max_addr arena0 - mem_brk arena0 < 2 ^ 32 /\ mem_max_addr arena0 < 2 ^ 64 /\
  (2 <= 5)%nat /\
  mm_checkheap 5 4096 8207 (snd (mm_init arena0)) 1 = Some (Exited Alignment_Error).
Proof.
  assert (H0 : 0 < mem_brk arena0) by reflexivity.
  assert (H1 : mem_brk arena0 + 16 + 4096 <= mem_max_addr arena0)
    by (intros X; discriminate X).
  assert (H2 : mem_max_addr arena0 - mem_brk arena0 < 2 ^ 32) by reflexivity.
  assert (H3 : mem_max_addr arena0 < 2 ^ 64) by reflexivity.
  assert (Hfuel : (2 <= 5)%nat) by (repeat constructor).
  split; [exact H0|]. split; [exact H1|]. split; [exact H2|].
  split; [exact H3|]. split; [exact Hfuel|].
  destruct (mm_checkheap_after_init 5 4096 8207 arena0 1 H0 H1 H2 H3 Hfuel)
    as (_ & _ & F).
  apply F; reflexivity.
Defined.
